(** * sdcadm: update planning, procedure coordination and the manatee update

    A shallow embedding of
      - [lib/procedures/index.js]            (coordinatePlan),
      - [lib/sdcadm.js]                      (UpdatePlan, genUpdatePlan),
      - [lib/procedures/update-manatee-v2.js] (UpdateManateeV2.execute),
    together with the properties the update specification states about them.

    JavaScript objects used as dictionaries are finite maps, arrays are lists,
    callbacks that receive [(err, value)] are results, and the remote commands
    a procedure issues are calls answered by an arbitrary environment and
    recorded in a trace. *)

From Stdlib Require Import ZArith Lia Ascii String.
From Stdlib Require DecimalString.
From stdpp Require Import base option list gmap strings.

Local Open Scope string_scope.
Local Open Scope list_scope.

Set Warnings "-register-all".

(** ** JavaScript helpers *)

Module Js.

(** Outcome of a step that either hands a value on, reports an error to its
    callback, or lets an exception escape. *)
Inductive result (E A : Type) : Type :=
| Ret (a : A)
| Raise (e : E)
| Throws (exn : string).
Arguments Ret {E A} a.
Arguments Raise {E A} e.
Arguments Throws {E A} exn.

Definition bind {E A B} (m : result E A) (k : A -> result E B) : result E B :=
  match m with
  | Ret a => k a
  | Raise e => Raise e
  | Throws x => Throws x
  end.

(** [Boolean(s)] for a string. *)
Definition truthy (s : string) : bool := negb (String.eqb s "").

(** [a.join(sep)] *)
Definition join (sep : string) (l : list string) : string := String.concat sep l.

Definition dquote : ascii := ascii_of_nat 34.
Definition backslash : ascii := ascii_of_nat 92.
Definition newline : string := String (ascii_of_nat 10) EmptyString.

Definition hexdigit (n : nat) : ascii :=
  if Nat.ltb n 10 then ascii_of_nat (48 + n) else ascii_of_nat (87 + n).

(** The escape JSON.stringify writes for one character of a string. *)
Definition escape (c : ascii) : string :=
  let n := nat_of_ascii c in
  let esc (x : ascii) := String backslash (String x EmptyString) in
  if Nat.eqb n 34 then esc dquote
  else if Nat.eqb n 92 then esc backslash
  else if Nat.eqb n 8 then esc "b"%char
  else if Nat.eqb n 12 then esc "f"%char
  else if Nat.eqb n 10 then esc "n"%char
  else if Nat.eqb n 13 then esc "r"%char
  else if Nat.eqb n 9 then esc "t"%char
  else if Nat.ltb n 32 then
    String backslash
      (String "u"%char (String "0"%char (String "0"%char
        (String (hexdigit (n / 16)) (String (hexdigit (n mod 16)) EmptyString)))))
  else String c EmptyString.

Fixpoint escapes (s : string) : string :=
  match s with
  | EmptyString => EmptyString
  | String c s' => escape c +:+ escapes s'
  end.

(** [JSON.stringify(s)] for a string [s]. *)
Definition quote (s : string) : string :=
  String dquote (escapes s +:+ String dquote EmptyString).

(** [JSON.stringify(o)] for an object whose values are strings, the keys
    in insertion order. *)
Definition stringifyObject (fields : list (string * string)) : string :=
  "{" +:+ join "," (map (fun kv => quote (fst kv) +:+ ":" +:+ quote (snd kv)) fields)
      +:+ "}".

(** [s.split(sep)] for a one-character separator. *)
Fixpoint splitAux (sep : ascii) (s : string) (cur : string) : list string :=
  match s with
  | EmptyString => [cur]
  | String c s' =>
      if Ascii.eqb c sep then cur :: splitAux sep s' EmptyString
      else splitAux sep s' (cur +:+ String c EmptyString)
  end.
Definition split (sep : ascii) (s : string) : list string :=
  splitAux sep s EmptyString.

End Js.

Import Js.

(** ** Data model *)

Record Service := mkService {
  svc_name : string;
  svc_type : string;                (* 'vm' or 'agent' *)
  svc_image_uuid : option string;   (* params.image_uuid; [None]: no params *)
}.

Record Instance := mkInstance {
  inst_service : string;
  inst_instance : string;           (* the instance identifier *)
  inst_image : string;
  inst_version : string;
  inst_server : string;
  inst_hostname : string;
  inst_zonename : string;
  inst_alias : string;
  inst_type : string;
}.

Record Image := mkImage {
  img_uuid : string;
  img_name : string;
  img_version : string;
  img_published_at : string;
}.

(** A normalized change: [service] is the full service object, [instance]
    (when present) the full instance; [images] holds the candidates until
    resolveDeps replaces them by the single [image]; [inst] and [insts] are
    what coordinatePlan records for the procedure that takes the change. *)
Record Change := mkChange {
  ch_type : string;
  ch_service : Service;
  ch_instance : option Instance;
  ch_server : option string;
  ch_images : option (list Image);
  ch_image : option Image;
  ch_inst : option Instance;
  ch_insts : option (list Instance);
}.

Definition set_inst (c : Change) (i : option Instance) : Change :=
  mkChange (ch_type c) (ch_service c) (ch_instance c) (ch_server c)
           (ch_images c) (ch_image c) i (ch_insts c).

Definition set_insts (c : Change) (l : list Instance) : Change :=
  mkChange (ch_type c) (ch_service c) (ch_instance c) (ch_server c)
           (ch_images c) (ch_image c) (ch_inst c) (Some l).

Inductive Procedure :=
| DownloadImages (images : list Image)
| UpdateStatelessServicesV1 (changes : list Change)
| UpdateSingleHeadnodeImgapi (changes : list Change)
| UpdateUFDSServiceV1 (changes : list Change)
| UpdateMorayV2 (changes : list Change)
| UpdateSingleHNSapiV1 (changes : list Change)
| UpdateManateeV2 (changes : list Change)
| UpdateBinderV1 (changes : list Change)
| UpdateMahiV1 (changes : list Change).

(** [proc.constructor.name] *)
Definition constructor_name (p : Procedure) : string :=
  match p with
  | DownloadImages _ => "DownloadImages"
  | UpdateStatelessServicesV1 _ => "UpdateStatelessServicesV1"
  | UpdateSingleHeadnodeImgapi _ => "UpdateSingleHeadnodeImgapi"
  | UpdateUFDSServiceV1 _ => "UpdateUFDSServiceV1"
  | UpdateMorayV2 _ => "UpdateMorayV2"
  | UpdateSingleHNSapiV1 _ => "UpdateSingleHNSapiV1"
  | UpdateManateeV2 _ => "UpdateManateeV2"
  | UpdateBinderV1 _ => "UpdateBinderV1"
  | UpdateMahiV1 _ => "UpdateMahiV1"
  end.

(** The changes a procedure was bound to. *)
Definition proc_changes (p : Procedure) : list Change :=
  match p with
  | DownloadImages _ => []
  | UpdateStatelessServicesV1 l | UpdateSingleHeadnodeImgapi l
  | UpdateUFDSServiceV1 l | UpdateMorayV2 l | UpdateSingleHNSapiV1 l
  | UpdateManateeV2 l | UpdateBinderV1 l | UpdateMahiV1 l => l
  end.

Definition UPDATE_PLAN_FORMAT_VER : Z := 1.

Record UpdatePlan := mkUpdatePlan {
  plan_v : Z;
  plan_curr : list Instance;
  plan_targ : list Instance;
  plan_changes : list Change;
  plan_justImages : bool;
  plan_procs : option (list Procedure);
}.

(** [new UpdatePlan(options)] *)
Definition newUpdatePlan (curr targ : list Instance) (changes : list Change)
    (justImages : bool) : UpdatePlan :=
  mkUpdatePlan UPDATE_PLAN_FORMAT_VER curr targ changes justImages None.

(** An error of a client of one of the SDC services. *)
Inductive client_error :=
| SDCClientError (client : string) (code : string).

Inductive error :=
| UpdateError (message : string)
| InternalError (message : string)
| MultiError (errs : list client_error).

(** ** The procedure coordinator ([lib/procedures/index.js]) *)

Module Coordinator.

(** What [sdcadm.imgapi.getImage(uuid, cb)] answers: the image is in the
    local store, or an error whose [body.code] is given ([None]: the error
    carries no body). *)
Inductive imgapi_reply :=
| ImgFound
| ImgError (body_code : option string).

(** The coordinator's two variables: [changes] (what is still to be
    handled) and [procs]. *)
Record cstate := mkCstate {
  changes : list Change;
  procs : list Procedure;
}.

(** What one pass of a filter's [forEach] does with a change. *)
Inductive verdict :=
| Handle (c : Change)   (* handle.push(change), after setting inst/insts *)
| Skip                  (* logged, pushed nowhere *)
| Remain.               (* remaining.push(change) *)

Definition handled (v : Change -> verdict) (c : Change) : option Change :=
  match v c with Handle c' => Some c' | _ => None end.

Definition remains (v : Change -> verdict) (c : Change) : bool :=
  match v c with Remain => true | _ => false end.

(** The body shared by every filter after [coordImages]: build [handle]
    and [remaining]; only [if (handle.length)] are [changes] replaced by
    [remaining] and a procedure pushed. *)
Definition runFilter (v : Change -> verdict)
    (mk : list Change -> Procedure) (st : cstate) : cstate :=
  let handle := omap (handled v) (changes st) in
  let remaining := List.filter (remains v) (changes st) in
  match handle with
  | [] => st
  | _ :: _ => mkCstate remaining (procs st ++ [mk handle])
  end.

Definition simpleServices : list string :=
  ["adminui"; "amon"; "amonredis"; "assets"; "ca"; "cloudapi"; "cnapi";
   "dhcpd"; "fwapi"; "napi"; "papi"; "rabbitmq"; "redis"; "sdc"; "vmapi";
   "workflow"; "manta"].

(** [~simpleServices.indexOf(name)] *)
Definition isSimpleService (name : string) : bool :=
  existsb (String.eqb name) simpleServices.

Section WithHost.

Variable currHostname : string.              (* os.hostname() *)
Variable getImage : string -> imgapi_reply.  (* sdcadm.imgapi.getImage *)

(** [instsFromSvcName]: the plan's current instances grouped by service
    name, each group in the order of [plan.curr]. *)
Definition instsFromSvcName (insts : list Instance)
    : gmap string (list Instance) :=
  fold_left
    (fun m inst =>
       <[inst_service inst := default [] (m !! inst_service inst) ++ [inst]]> m)
    insts ∅.

Section Filters.

Variable byName : gmap string (list Instance).

(** [instsFromSvcName[change.service.name] || []] *)
Definition svcInstsOf (change : Change) : list Instance :=
  default [] (byName !! svc_name (ch_service change)).

Definition simpleVerdict (change : Change) : verdict :=
  let svcInsts := svcInstsOf change in
  if String.eqb (ch_type change) "update-service"
     && isSimpleService (svc_name (ch_service change))
  then
    if Nat.eqb (length svcInsts) 0 then Handle change
    else if negb (Nat.eqb (length svcInsts) 1) then Skip
    else match svcInsts with
         | i0 :: _ =>
             if negb (String.eqb (inst_hostname i0) currHostname) then Skip
             else Handle (set_inst change (Some i0))
         | [] => Skip
         end
  else Remain.

Definition singleHeadnodeVerdict (name : string) (change : Change) : verdict :=
  let svcInsts := svcInstsOf change in
  if String.eqb (ch_type change) "update-service"
     && String.eqb (svc_name (ch_service change)) name
  then
    if negb (Nat.eqb (length svcInsts) 1) then Skip
    else match svcInsts with
         | i0 :: _ =>
             if negb (String.eqb (inst_hostname i0) currHostname) then Skip
             else Handle (set_inst change (Some i0))
         | [] => Skip
         end
  else Remain.

(** moray and manatee: every instance count is taken. *)
Definition anyCountVerdict (name : string) (change : Change) : verdict :=
  if String.eqb (ch_type change) "update-service"
     && String.eqb (svc_name (ch_service change)) name
  then
    let svcInsts := svcInstsOf change in
    if Nat.ltb 1 (length svcInsts) then Handle (set_insts change svcInsts)
    else Handle (set_inst change (head svcInsts))
  else Remain.

Definition updateSimpleServices : cstate -> cstate :=
  runFilter simpleVerdict UpdateStatelessServicesV1.
Definition updateSingleHeadnodeImgapi : cstate -> cstate :=
  runFilter (singleHeadnodeVerdict "imgapi") UpdateSingleHeadnodeImgapi.
Definition updateSingleHeadnodeUFDS : cstate -> cstate :=
  runFilter (singleHeadnodeVerdict "ufds") UpdateUFDSServiceV1.
Definition updateMorays : cstate -> cstate :=
  runFilter (anyCountVerdict "moray") UpdateMorayV2.
Definition updateSingleHeadnodeSapi : cstate -> cstate :=
  runFilter (singleHeadnodeVerdict "sapi") UpdateSingleHNSapiV1.
Definition updateManatees : cstate -> cstate :=
  runFilter (anyCountVerdict "manatee") UpdateManateeV2.
Definition updateBinder : cstate -> cstate :=
  runFilter (singleHeadnodeVerdict "binder") UpdateBinderV1.
Definition updateMahi : cstate -> cstate :=
  runFilter (singleHeadnodeVerdict "mahi") UpdateMahiV1.

(** The filters after [coordImages], in pipeline order. *)
Definition serviceFilters : list (cstate -> cstate) :=
  [updateSimpleServices; updateSingleHeadnodeImgapi;
   updateSingleHeadnodeUFDS; updateMorays; updateSingleHeadnodeSapi;
   updateManatees; updateBinder; updateMahi].

End Filters.

(** [imageFromUuid]: the changes' images keyed by uuid; a key keeps the
    place of its first insertion and the value of its last. *)
Fixpoint putImage (img : Image) (l : list (string * Image))
    : list (string * Image) :=
  match l with
  | [] => [(img_uuid img, img)]
  | (k, x) :: l' =>
      if String.eqb k (img_uuid img) then (k, img) :: l'
      else (k, x) :: putImage img l'
  end.

Definition imageFromUuid (cs : list Change) : list (string * Image) :=
  fold_left
    (fun m c => match ch_image c with Some img => putImage img m | None => m end)
    cs [].

(** [imageExists] for one image: whether it has to be retrieved. *)
Definition imageExists (image : Image) : result client_error bool :=
  match getImage (img_uuid image) with
  | ImgFound => Ret false
  | ImgError None => Throws "TypeError: Cannot read property 'code' of undefined"
  | ImgError (Some code) =>
      if String.eqb code "ResourceNotFound" then Ret true
      else Raise (SDCClientError "imgapi" code)
  end.

(** [vasync.forEachParallel] over the images, taken in input order: the
    images to retrieve and the errors reported; an exception in any of
    the callbacks escapes. *)
Fixpoint forEachImage (images : list Image)
    : result error (list Image * list client_error) :=
  match images with
  | [] => Ret ([], [])
  | image :: rest =>
      match imageExists image with
      | Throws x => Throws x
      | Ret missing =>
          bind (forEachImage rest) (fun r =>
            Ret (if missing then image :: fst r else fst r, snd r))
      | Raise e =>
          bind (forEachImage rest) (fun r => Ret (fst r, e :: snd r))
      end
  end.

Definition coordImages (st : cstate) : result error cstate :=
  let images := map snd (imageFromUuid (changes st)) in
  bind (forEachImage images) (fun r =>
    match snd r with
    | _ :: _ => Raise (MultiError (snd r))
    | [] =>
        match fst r with
        | [] => Ret st
        | imagesToRetrieve =>
            Ret (mkCstate (changes st)
                   (procs st ++ [DownloadImages imagesToRetrieve]))
        end
    end).

Definition runFilters (byName : gmap string (list Instance)) (st : cstate)
    : cstate :=
  fold_left (fun s f => f s) (serviceFilters byName) st.

(** The state the pipeline leaves for [done]. *)
Definition runPipeline (plan : UpdatePlan) : result error cstate :=
  bind (coordImages (mkCstate (plan_changes plan) []))
       (fun st => Ret (runFilters (instsFromSvcName (plan_curr plan)) st)).

(** One line of the final error: the JSON of [{type, service, image}]. *)
Definition summarize (c : Change) : string :=
  stringifyObject
    ((if truthy (ch_type c) then [("type", ch_type c)] else [])
     ++ [("service", svc_name (ch_service c))]
     ++ match ch_image c with
        | Some img => [("image", img_uuid img)]
        | None => []
        end).

Definition unsupported (cs : list Change) : error :=
  UpdateError
    ("do not support the following changes:" +:+ newline +:+ "    "
       +:+ join (newline +:+ "    ") (map summarize cs)).

Definition isDownloadImages (p : Procedure) : bool :=
  String.eqb (constructor_name p) "DownloadImages".

(** [done]: the callback of the pipeline. *)
Definition done (plan : UpdatePlan) (st : cstate) : result error (list Procedure) :=
  match changes st with
  | _ :: _ => Raise (unsupported (changes st))
  | [] =>
      if plan_justImages plan then Ret (List.filter isDownloadImages (procs st))
      else Ret (procs st)
  end.

Definition coordinatePlan (plan : UpdatePlan) : result error (list Procedure) :=
  bind (runPipeline plan) (done plan).

End WithHost.

End Coordinator.

(** ** The plan builder ([lib/sdcadm.js], genUpdatePlan after normalizeChanges) *)

Module Planner.

Record Server := mkServer {
  srv_uuid : string;
  srv_hostname : string;
  srv_current_platform : string;
}.

(** [self.config], as far as the planner reads it. *)
Record Config := mkConfig {
  vmMinPlatform : string;
  svcMinImages : gmap string string;
}.

(** The options of genUpdatePlan that the steps below read. *)
Record Options := mkOptions {
  forceRabbitmq : bool;
  forceSameImage : bool;
  justImages : bool;
}.

Definition set_images (c : Change) (imgs : option (list Image))
    (img : option Image) : Change :=
  mkChange (ch_type c) (ch_service c) (ch_instance c) (ch_server c)
           imgs img (ch_inst c) (ch_insts c).

(** *** checkForConflictingChanges *)

(** [ch.type.split('-')[1]], e.g. 'update-service' -> 'service'. *)
Definition typeTarg (ch : Change) : option string :=
  split "-" (ch_type ch) !! 1%nat.

Definition isTarg (ch : Change) (what : string) : bool :=
  match typeTarg ch with
  | Some t => String.eqb t what
  | None => false
  end.

(** [JSON.stringify({type, service, instance})]; a change without an
    instance has no [instance] key in the output. *)
Definition reprFromChange (ch : Change) : string :=
  stringifyObject
    ([("type", ch_type ch); ("service", svc_name (ch_service ch))]
     ++ match ch_instance ch with
        | Some i => [("instance", inst_instance i)]
        | None => []
        end).

Definition conflictSameService (ch prev : Change) : error :=
  UpdateError
    ("conflict: cannot make multiple changes to the same service: "
       +:+ reprFromChange ch +:+ " and " +:+ reprFromChange prev).

Definition conflictSameInstance (ch prev : Change) : error :=
  UpdateError
    ("conflict: cannot make multiple changes to the same instance: "
       +:+ reprFromChange ch +:+ " and " +:+ reprFromChange prev).

Definition conflictServiceAndInstance (ch prev : Change) : error :=
  UpdateError
    ("conflict: cannot make changes to a service and an instance of that service: "
       +:+ reprFromChange ch +:+ " and " +:+ reprFromChange prev).

(** The first loop: fill [changeFromSvc] and [changeFromInst], stopping at
    the first change whose service or instance is already there. *)
Fixpoint firstLoop (cs : list Change)
    (changeFromSvc changeFromInst : gmap string Change)
    : result error (gmap string Change * gmap string Change) :=
  match cs with
  | [] => Ret (changeFromSvc, changeFromInst)
  | ch :: rest =>
      if isTarg ch "service" then
        let svc := svc_name (ch_service ch) in
        match changeFromSvc !! svc with
        | Some prev => Raise (conflictSameService ch prev)
        | None => firstLoop rest (<[svc := ch]> changeFromSvc) changeFromInst
        end
      else if negb (isTarg ch "instance") then
        Throws "AssertionError: typeTarg == 'instance'"
      else
        match ch_instance ch with
        | None => Throws "TypeError: Cannot read property 'instance' of undefined"
        | Some i =>
            let inst := inst_instance i in
            match changeFromInst !! inst with
            | Some prev => Raise (conflictSameInstance ch prev)
            | None => firstLoop rest changeFromSvc (<[inst := ch]> changeFromInst)
            end
        end
  end.

(** The second loop: an instance-level change on a service that has a
    service-level change. *)
Fixpoint secondLoop (cs : list Change) (changeFromSvc : gmap string Change)
    : result error unit :=
  match cs with
  | [] => Ret tt
  | ch :: rest =>
      if isTarg ch "instance" then
        match changeFromSvc !! svc_name (ch_service ch) with
        | Some prev => Raise (conflictServiceAndInstance ch prev)
        | None => secondLoop rest changeFromSvc
        end
      else secondLoop rest changeFromSvc
  end.

Definition checkForConflictingChanges (cs : list Change) : result error unit :=
  bind (firstLoop cs ∅ ∅) (fun maps => secondLoop cs (fst maps)).

(** *** dropNoops *)

(** [Object.keys(o)] after [o[k] = true] for each [k] of [ks]: the distinct
    keys, each at the place of its first insertion. *)
Definition keysOf (ks : list string) : list string :=
  fold_left (fun acc k => if existsb (String.eqb k) acc then acc else acc ++ [k])
            ks [].

(** [currImgUuids]: the images the service's instances run; with no
    instance, the service's [params.image_uuid], which [assert.ok] wants;
    a service without [params] makes the read itself fail. *)
Definition currImgUuids (insts : list Instance) (svc : Service)
    : result error (list string) :=
  let used :=
    keysOf (map inst_image
              (List.filter (fun i => String.eqb (inst_service i) (svc_name svc)) insts)) in
  match used with
  | _ :: _ => Ret used
  | [] =>
      match svc_image_uuid svc with
      | Some u =>
          if truthy u then Ret [u]
          else Throws "AssertionError: service object has no params.image_uuid"
      | None => Throws "TypeError: Cannot read property 'image_uuid' of undefined"
      end
  end.

(** The filter's callback: [Ret true] keeps the change. *)
Definition keepChange (opts : Options) (insts : list Instance) (ch : Change)
    : result error bool :=
  if String.eqb (ch_type ch) "update-service"
     || String.eqb (ch_type ch) "update-instance"
  then
    match ch_images ch with
    | None => Throws "TypeError: Cannot read property 'length' of undefined"
    | Some [] => Ret false
    | Some images =>
        if negb (forceSameImage opts) then
          bind (currImgUuids insts (ch_service ch)) (fun uuids =>
            match uuids with
            | [curr] =>
                let sansCurr :=
                  List.filter (fun img => negb (String.eqb (img_uuid img) curr)) images in
                match sansCurr with
                | [] => Ret false
                | _ :: _ => Ret true
                end
            | _ => Ret true
            end)
        else Ret true
    end
  else Ret true.

Fixpoint dropNoops (opts : Options) (insts : list Instance) (cs : list Change)
    : result error (list Change) :=
  match cs with
  | [] => Ret []
  | ch :: rest =>
      bind (keepChange opts insts ch) (fun keep =>
        bind (dropNoops opts insts rest) (fun rest' =>
          Ret (if keep then ch :: rest' else rest')))
  end.

(** *** resolveDeps *)

(** [ch.images.sort(...)] by [published_at] (common.cmp taken as the
    three-way comparison of strings), as a stable insertion sort. *)
Fixpoint insertImage (x : Image) (l : list Image) : list Image :=
  match l with
  | [] => [x]
  | y :: l' =>
      if String.ltb (img_published_at x) (img_published_at y) then x :: y :: l'
      else y :: insertImage x l'
  end.

Definition sortImages (l : list Image) : list Image :=
  fold_left (fun acc x => insertImage x acc) l [].

Definition resolveChange (ch : Change) : result error Change :=
  match ch_image ch with
  | Some img => Ret (set_images ch None (Some img))
  | None =>
      match ch_images ch with
      | None => Throws "TypeError: Cannot read property 'length' of undefined"
      | Some [] => Ret (set_images ch None None)
      | Some images => Ret (set_images ch None (last (sortImages images)))
      end
  end.

Fixpoint resolveDeps (cs : list Change) : result error (list Change) :=
  match cs with
  | [] => Ret []
  | ch :: rest =>
      bind (resolveChange ch) (fun ch' =>
        bind (resolveDeps rest) (fun rest' => Ret (ch' :: rest')))
  end.

(** *** disallowRabbitmqUpdates *)

Fixpoint disallowRabbitmqUpdates (opts : Options) (cs : list Change)
    : result error unit :=
  match cs with
  | [] => Ret tt
  | ch :: rest =>
      if String.eqb (svc_name (ch_service ch)) "rabbitmq"
         && negb (forceRabbitmq opts)
      then Raise (UpdateError
                    ("rabbitmq updates are locked: " +:+ reprFromChange ch
                       +:+ " (use --force-rabbitmq flag)"))
      else disallowRabbitmqUpdates opts rest
  end.

(** *** ensureVmMinPlatform and minImageBuildDateFromSvcName *)

(** [serverFromUuidOrHostname] *)
Definition serverFromUuidOrHostname (servers : list Server) : gmap string Server :=
  fold_left (fun m s => <[srv_hostname s := s]> (<[srv_uuid s := s]> m)) servers ∅.

Section Gates.

Variable cfg : Config.
Variable servers : list Server.
Variable insts : list Instance.

Fixpoint platformOfInsts (name : string) (l : list Instance) : result error unit :=
  match l with
  | [] => Ret tt
  | inst :: rest =>
      if String.eqb (inst_service inst) name then
        match serverFromUuidOrHostname servers !! inst_server inst with
        | None => Throws "TypeError: Cannot read property 'current_platform' of undefined"
        | Some server =>
            if String.ltb (srv_current_platform server) (vmMinPlatform cfg)
            then Raise (UpdateError
                          ("insufficient platform for service " +:+ quote (inst_service inst)
                             +:+ " instance " +:+ quote (inst_instance inst)
                             +:+ " on server " +:+ quote (inst_server inst)
                             +:+ " (current platform is " +:+ quote (srv_current_platform server)
                             +:+ ", require minimum " +:+ quote (vmMinPlatform cfg) +:+ ")"))
            else platformOfInsts name rest
        end
      else platformOfInsts name rest
  end.

Fixpoint ensureVmMinPlatform (cs : list Change) : result error unit :=
  match cs with
  | [] => Ret tt
  | ch :: rest =>
      if negb (String.eqb (svc_type (ch_service ch)) "vm") then ensureVmMinPlatform rest
      else if String.eqb (ch_type ch) "update-service" then
        bind (platformOfInsts (svc_name (ch_service ch)) insts)
             (fun _ => ensureVmMinPlatform rest)
      else if String.eqb (ch_type ch) "update-instance" then Throws "Error: TODO"
      else if String.eqb (ch_type ch) "create-instance" then Throws "Error: TODO"
      else ensureVmMinPlatform rest
  end.

(** [inst.version.split('-')[1]] against the service's minimum; a version
    without a second part compares as [undefined], which is never smaller. *)
Fixpoint buildDateOfInsts (name : string) (l : list Instance) : result error unit :=
  match l with
  | [] => Ret tt
  | inst :: rest =>
      if negb (String.eqb (inst_service inst) name) then buildDateOfInsts name rest
      else
        match svcMinImages cfg !! inst_service inst with
        | None => buildDateOfInsts name rest
        | Some minImg =>
            if negb (truthy minImg) then buildDateOfInsts name rest
            else
              match split "-" (inst_version inst) !! 1%nat with
              | None => buildDateOfInsts name rest
              | Some curImg =>
                  if String.ltb curImg minImg
                  then Raise (UpdateError
                                ("image for service " +:+ quote (inst_service inst)
                                   +:+ " is too old for sdcadm update (min image is build date is "
                                   +:+ quote minImg +:+ " current image build date is "
                                   +:+ quote curImg +:+ ")"))
                  else buildDateOfInsts name rest
              end
        end
  end.

Fixpoint minImageBuildDateFromSvcName (cs : list Change) : result error unit :=
  match cs with
  | [] => Ret tt
  | ch :: rest =>
      if negb (String.eqb (svc_type (ch_service ch)) "vm")
      then minImageBuildDateFromSvcName rest
      else if String.eqb (ch_type ch) "update-service" then
        bind (buildDateOfInsts (svc_name (ch_service ch)) insts)
             (fun _ => minImageBuildDateFromSvcName rest)
      else if String.eqb (ch_type ch) "update-instance" then Throws "Error: TODO"
      else if String.eqb (ch_type ch) "create-instance" then Throws "Error: TODO"
      else minImageBuildDateFromSvcName rest
  end.

End Gates.

(** *** createPlan *)

Definition set_image_version (inst : Instance) (image version : string) : Instance :=
  mkInstance (inst_service inst) (inst_instance inst) image version
             (inst_server inst) (inst_hostname inst) (inst_zonename inst)
             (inst_alias inst) (inst_type inst).

(** The inner loop of the 'update-service' case over [targ]. *)
Fixpoint applyUpdateService (ch : Change) (targ : list Instance)
    : result error (list Instance) :=
  match targ with
  | [] => Ret []
  | inst :: rest =>
      if String.eqb (inst_service inst) (svc_name (ch_service ch)) then
        match ch_image ch with
        | None => Throws "TypeError: Cannot read property 'uuid' of undefined"
        | Some img =>
            bind (applyUpdateService ch rest) (fun rest' =>
              Ret (set_image_version inst (img_uuid img) (img_version img) :: rest'))
        end
      else bind (applyUpdateService ch rest) (fun rest' => Ret (inst :: rest'))
  end.

(** The loop over the changes: only 'update-service' is known. *)
Fixpoint applyChanges (cs : list Change) (targ : list Instance)
    : result error (list Instance) :=
  match cs with
  | [] => Ret targ
  | ch :: rest =>
      if String.eqb (ch_type ch) "update-service" then
        bind (applyUpdateService ch targ) (applyChanges rest)
      else Raise (InternalError ("unknown ch.type: " +:+ ch_type ch))
  end.

Definition createPlan (opts : Options) (insts : list Instance) (cs : list Change)
    : result error UpdatePlan :=
  bind (applyChanges cs insts) (fun targ =>
    Ret (newUpdatePlan insts targ cs (justImages opts))).

Definition set_procs (p : UpdatePlan) (procs : list Procedure) : UpdatePlan :=
  mkUpdatePlan (plan_v p) (plan_curr p) (plan_targ p) (plan_changes p)
               (plan_justImages p) (Some procs).

(** *** genUpdatePlan

    The pipeline from checkForConflictingChanges on, over the change list
    normalizeChanges leaves and the inventory getServers and getInsts
    fetched.  An error that reaches finishUp is the result. *)
Section GenUpdatePlan.

Variable currHostname : string.
Variable getImage : string -> Coordinator.imgapi_reply.
Variable cfg : Config.
Variable opts : Options.
Variable servers : list Server.
Variable insts : list Instance.

Definition determineProcedures (plan : UpdatePlan) : result error UpdatePlan :=
  bind (Coordinator.coordinatePlan currHostname getImage plan)
       (fun procs => Ret (set_procs plan procs)).

Definition genUpdatePlan (changes : list Change) : result error UpdatePlan :=
  bind (checkForConflictingChanges changes) (fun _ =>
  bind (dropNoops opts insts changes) (fun changes =>
  bind (resolveDeps changes) (fun changes =>
  bind (disallowRabbitmqUpdates opts changes) (fun _ =>
  bind (ensureVmMinPlatform cfg servers insts changes) (fun _ =>
  bind (minImageBuildDateFromSvcName cfg insts changes) (fun _ =>
  bind (createPlan opts insts changes) determineProcedures)))))).

End GenUpdatePlan.

End Planner.

(** ** The serialized plan ([UpdatePlan.prototype.serialize]) *)

Module PlanFile.

(** JSON values: what [JSON.stringify] renders and [JSON.parse] reads. *)
Inductive json :=
| JNull
| JBool (b : bool)
| JNum (z : Z)
| JStr (s : string)
| JArr (items : list json)
| JObj (fields : list (string * json)).

(** A key whose value is [undefined] is left out by [JSON.stringify]. *)
Definition optField {A} (k : string) (enc : A -> json) (o : option A)
    : list (string * json) :=
  match o with
  | Some a => [(k, enc a)]
  | None => []
  end.

Definition encInstance (i : Instance) : json :=
  JObj [("service", JStr (inst_service i)); ("instance", JStr (inst_instance i));
        ("image", JStr (inst_image i)); ("version", JStr (inst_version i));
        ("server", JStr (inst_server i)); ("hostname", JStr (inst_hostname i));
        ("zonename", JStr (inst_zonename i)); ("alias", JStr (inst_alias i));
        ("type", JStr (inst_type i))].

Definition encImage (i : Image) : json :=
  JObj [("uuid", JStr (img_uuid i)); ("name", JStr (img_name i));
        ("version", JStr (img_version i));
        ("published_at", JStr (img_published_at i))].

Definition encService (s : Service) : json :=
  JObj ([("name", JStr (svc_name s)); ("type", JStr (svc_type s))]
        ++ optField "params" (fun u => JObj [("image_uuid", JStr u)])
                    (svc_image_uuid s)).

Definition encChange (c : Change) : json :=
  JObj ([("type", JStr (ch_type c)); ("service", encService (ch_service c))]
        ++ optField "instance" encInstance (ch_instance c)
        ++ optField "server" JStr (ch_server c)
        ++ optField "images" (fun l => JArr (map encImage l)) (ch_images c)
        ++ optField "image" encImage (ch_image c)
        ++ optField "inst" encInstance (ch_inst c)
        ++ optField "insts" (fun l => JArr (map encInstance l)) (ch_insts c)).

(** The object [serialize] hands to [JSON.stringify(..., null, 4)]. *)
Definition serialize (p : UpdatePlan) : json :=
  JObj [("v", JNum (plan_v p));
        ("targ", JArr (map encInstance (plan_targ p)));
        ("changes", JArr (map encChange (plan_changes p)));
        ("justImages", JBool (plan_justImages p))].



(** Reading a parsed object. *)
Fixpoint field (k : string) (o : list (string * json)) : option json :=
  match o with
  | [] => None
  | (k', v) :: o' => if String.eqb k k' then Some v else field k o'
  end.










End PlanFile.

(** ** The manatee update ([lib/procedures/update-manatee-v2.js]) *)

Module Manatee.

(** *** The shard status, as [manatee-adm status] prints it *)

Inductive jsval :=
| VNull
| VBool (b : bool)
| VNum (z : Z)
| VStr (s : string).

Definition truthyVal (v : jsval) : bool :=
  match v with
  | VNull => false
  | VBool b => b
  | VNum z => negb (Z.eqb z 0)
  | VStr s => truthy s
  end.

(** One peer of the shard: its zone, its replication object ([None] when
    the key is missing), and the server procedure getShardServers adds. *)
Record Peer := mkPeer {
  zoneId : string;
  repl : option (gmap string jsval);
  server_uuid : option string;
}.

(** The parsed status: [sdc] maps a role to its peer. *)
Record ShardStatus := mkShardStatus {
  sdc : option (gmap string Peer);
}.

(** [repl && !repl.length && Object.keys(repl).length === 0] *)
Definition replEmpty (p : Peer) : bool :=
  match repl p with
  | None => false
  | Some r =>
      negb (from_option truthyVal false (r !! "length")) && Nat.eqb (size r) 0
  end.

(** [repl && repl.sync_state === state] *)
Definition replState (p : Peer) (state : string) : bool :=
  match repl p with
  | None => false
  | Some r =>
      match r !! "sync_state" with
      | Some (VStr s) => String.eqb s state
      | _ => false
      end
  end.

(** The mode waitForManatee reads off a status. *)
Definition modeOf (obj : ShardStatus) : string :=
  match sdc obj with
  | None => "transition"
  | Some roles =>
      if Nat.eqb (size roles) 0 then "empty"
      else
        match roles !! "primary", roles !! "sync", roles !! "async" with
        | Some primary, Some sync, Some async =>
            if replEmpty async && replState sync "async" then "async"
            else "transition"
        | Some primary, Some sync, None =>
            if replEmpty sync && replState primary "sync" then "sync"
            else "transition"
        | Some primary, None, _ =>
            if replEmpty primary then "primary" else "transition"
        | None, _, _ => "transition"
        end
  end.

(** *** Remote commands and their answers *)

Inductive call :=
| GetUserScript                       (* s.getUserScript *)
| WriteOldUserScriptForRollback       (* s.writeOldUserScriptForRollback *)
| UpdateSvcUserScript                 (* s.updateSvcUserScript *)
| UpdateVmUserScript                  (* s.updateVmUserScript *)
| UpdateVmUserScriptRemote (zonename server : string)
| UpdateSapiSvc                       (* s.updateSapiSvc *)
| GetShardStatusLocally (manateeUUID : option string)
| GetShardStatus (server : option string) (zone : string)
| DisableManatee (server : option string) (zone : string)
| ImgadmInstall                       (* s.imgadmInstall *)
| ImgadmInstallRemote (server : option string) (img : option Image)
| ReprovisionRemote (server : option string) (zonename : string) (img : option Image)
| SetTimeout (ms : Z)
| VmadmLookupSapi
| MdataPutProtoMode (sapiUUID : option string)
| SvcadmRestart (zone : option string) (fmri : string)
| PsqlPing (server : option string) (zone : string)
| SapiSetMode (mode : string).

(** What a command answers: the [err] of its callback, and, where the
    command has output, the status it parses to ([None]: the output does
    not parse), its stdout, and whether the child ended with a code or a
    signal. *)
Record reply := mkReply {
  r_err : option string;
  r_shard : option ShardStatus;
  r_stdout : string;
  r_failed : bool;
}.

Definition event : Type := call * reply.
Definition trace : Type := list event.

(** The environment: the answer to a command, given all that happened. *)
Definition World : Type := trace -> call -> reply.

Definition ask (w : World) (h : trace) (c : call) : trace * reply :=
  let r := w h c in (h ++ [(c, r)], r).

(** How a pipeline stage ends. *)
Inductive signal :=
| Next (err : option string)      (* next(err), once *)
| NextThenNext (err : string)     (* next(err), and then next() again *)
| Thrown (exn : string)           (* an exception escapes *)
| Pending.                        (* still polling when the fuel ran out *)

(** The variables the stages share: [arg.shard], [manateeUUID], [sapiUUID]. *)
Record pstate := mkPstate {
  shard : gmap string Peer;
  manateeUUID : option string;
  sapiUUID : option string;
}.

Definition stage : Type :=
  World -> nat -> pstate -> trace -> trace * pstate * signal.

(** A stage that is one command whose callback is [next]. *)
Definition command (c : pstate -> call) : stage :=
  fun w _ st h =>
    let '(h', r) := ask w h (c st) in (h', st, Next (r_err r)).

Definition skip : stage := fun _ _ st h => (h, st, Next None).

Definition throwing (exn : string) : stage := fun _ _ st h => (h, st, Thrown exn).

(** [setTimeout(next, ms)] *)
Definition sleep (ms : Z) : stage :=
  fun w _ st h => let '(h', _) := ask w h (SetTimeout ms) in (h', st, Next None).

(** *** The polling loops *)

(** [getShardStatus]: the error, the parsed status, or the exception of
    [JSON.parse]. *)
Definition getShardStatus (w : World) (h : trace) (server : option string)
    (zone : string) : trace * result string ShardStatus :=
  let '(h', r) := ask w h (GetShardStatus server zone) in
  match r_err r with
  | Some e => (h', Raise e)
  | None =>
      match r_shard r with
      | Some obj => (h', Ret obj)
      | None => (h', Throws "SyntaxError: Unexpected token")
      end
  end.

Definition waitLimit : nat := 180.

Fixpoint _waitForStatus (fuel counter : nat) (state : string)
    (server : option string) (zone : string) (w : World) (h : trace)
    : trace * signal :=
  match fuel with
  | O => (h, Pending)
  | S fuel' =>
      let '(h1, got) := getShardStatus w h server zone in
      let counter := (counter + 1)%nat in
      match got with
      | Raise e => (h1, Next (Some e))
      | Throws x => (h1, Thrown x)
      | Ret obj =>
          if String.eqb (modeOf obj) state then (h1, Next None)
          else if Nat.ltb counter waitLimit then
            let '(h2, _) := ask w h1 (SetTimeout 5000) in
            _waitForStatus fuel' counter state server zone w h2
          else
            (h1, Next (Some ("Timeout (15m) waiting for manatee to reach " +:+ state)))
      end
  end.

(** [waitForManatee]: the counter starts at 0, so [waitLimit] rounds of
    fuel are all the loop can use. *)
Definition waitForManatee (state : string) (server : option string)
    (zone : string) (w : World) (h : trace) : trace * signal :=
  _waitForStatus waitLimit 0 state server zone w h.

Definition pgLimit : nat := 36.

(** [waitForPostgresUp]: [counter] is compared with the limit and never
    changed. *)
Fixpoint _waitForPostgresUp (fuel counter : nat) (server : option string)
    (zone : string) (w : World) (h : trace) : trace * signal :=
  match fuel with
  | O => (h, Pending)
  | S fuel' =>
      let '(h1, r) := ask w h (PsqlPing server zone) in
      if r_failed r then
        if Nat.ltb counter pgLimit then
          let '(h2, _) := ask w h1 (SetTimeout 5000) in
          _waitForPostgresUp fuel' counter server zone w h2
        else (h1, Next (Some "Timeout (60s) waiting for Postgres"))
      else (h1, Next None)
  end.

Definition waitForPostgresUp (fuel : nat) (server : option string)
    (zone : string) (w : World) (h : trace) : trace * signal :=
  _waitForPostgresUp fuel 0 server zone w h.

Definition promotionLimit : nat := 36.

(** The loop of waitForShardPromotion; here too [counter] stays as it is. *)
Fixpoint _waitForShardPromotion (fuel counter : nat) (server : option string)
    (zone : string) (primary : option Peer) (w : World) (h : trace)
    : trace * signal :=
  match fuel with
  | O => (h, Pending)
  | S fuel' =>
      let '(h1, got) := getShardStatus w h server zone in
      match got with
      | Raise e => (h1, Next (Some e))
      | Throws x => (h1, Thrown x)
      | Ret st =>
          match sdc st ≫= (.!! "primary"), primary with
          | Some p, Some orig =>
              if negb (String.eqb (zoneId p) (zoneId orig)) then (h1, Next None)
              else if Nat.ltb counter promotionLimit then
                let '(h2, _) := ask w h1 (SetTimeout 5000) in
                _waitForShardPromotion fuel' counter server zone primary w h2
              else (h1, Next (Some "Timeout (3min) waiting for shard promotion"))
          | _, _ => (h1, Thrown "TypeError: Cannot read property 'zoneId' of undefined")
          end
      end
  end.

(** *** vasync.pipeline *)

(** How the pipeline ends for its caller. *)
Inductive outcome :=
| Completed (err : option string)            (* callback(err) *)
| CompletedThenThrew (err : string) (exn : string)
                                             (* callback(err), then an exception *)
| Threw (exn : string)                       (* an exception, no callback *)
| Stalled.                                   (* out of fuel *)

(** The stages run in order, each after the [next()] of the one before;
    [next(err)] ends the pipeline with [callback(err)].  A [next] that comes
    after the pipeline has ended finds no pending stage and raises. *)
Definition lateNext : string :=
  "pipeline callback invoked after the pipeline has completed".

(** What a stage's way of ending means to the caller of the pipeline. *)
Definition outcomeOf (sig : signal) : outcome :=
  match sig with
  | Next err => Completed err
  | NextThenNext e => CompletedThenThrew e lateNext
  | Thrown x => Threw x
  | Pending => Stalled
  end.

Fixpoint pipeline (funcs : list stage) (w : World) (fuel : nat)
    (st : pstate) (h : trace) : trace * pstate * outcome :=
  match funcs with
  | [] => (h, st, Completed None)
  | f :: rest =>
      let '(h', st', sig) := f w fuel st h in
      match sig with
      | Next None => pipeline rest w fuel st' h'
      | _ => (h', st', outcomeOf sig)
      end
  end.

(** *** updateManatee *)

Definition whitespace (c : ascii) : bool :=
  existsb (Nat.eqb (nat_of_ascii c)) [32; 9; 10; 11; 12; 13]%nat.

Fixpoint trimLeft (s : string) : string :=
  match s with
  | String c s' => if whitespace c then trimLeft s' else s
  | EmptyString => EmptyString
  end.

(** [s.trim()] *)
Definition trim (s : string) : string :=
  String.rev (trimLeft (String.rev (trimLeft s))).

(** [x === y] for two values that may be [undefined]. *)
Definition sameServer (x y : option string) : bool :=
  match x, y with
  | Some a, Some b => String.eqb a b
  | None, None => true
  | _, _ => false
  end.

Definition set_server (p : Peer) (server : option string) : Peer :=
  mkPeer (zoneId p) (repl p) server.

Definition set_shard (st : pstate) (sh : gmap string Peer) : pstate :=
  mkPstate sh (manateeUUID st) (sapiUUID st).

Section UpdateManatee.

Variable hostname : string.     (* os.hostname() *)
Variable change : Change.

(** [arg.HA]: [change.insts && change.insts.length > 1] *)
Definition HA : bool :=
  match ch_insts change with
  | Some insts => Nat.ltb 1 (length insts)
  | None => false
  end.

Definition instsOf : list Instance := default [] (ch_insts change).

Definition noPeer (role field : string) : string :=
  "TypeError: Cannot read property '" +:+ field +:+ "' of undefined (arg.shard." +:+ role +:+ ")".

(** A stage that reads one role of [arg.shard] and raises a TypeError when
    the role is missing. *)
Definition withPeer (role field : string) (k : Peer -> stage) : stage :=
  fun w fuel st h =>
    match shard st !! role with
    | Some p => k p w fuel st h
    | None => (h, st, Thrown (noPeer role field))
    end.

(** A stage that does nothing unless [arg.HA], and one that does nothing
    when [arg.HA]. *)
Definition onlyHA (f : stage) : stage := if HA then f else skip.
Definition onlyNoHA (f : stage) : stage := if HA then skip else f.

Definition updateInstUserScript (i : Instance) : stage :=
  command (fun _ => UpdateVmUserScriptRemote (inst_zonename i) (inst_server i)).

Definition getLocalManatee : stage :=
  fun _ _ st h =>
    let found :=
      if negb HA then inst_zonename <$> ch_inst change
      else inst_zonename <$>
             head (List.filter (fun x => String.eqb (inst_hostname x) hostname) instsOf) in
    match found with
    | None => (h, st, Thrown "TypeError: Cannot read property 'zonename' of undefined")
    | Some uuid => (h, mkPstate (shard st) (Some uuid) (sapiUUID st), Next None)
    end.

Definition getShard : stage :=
  fun w _ st h =>
    let '(h', r) := ask w h (GetShardStatusLocally (manateeUUID st)) in
    match r_err r with
    | Some e => (h', st, Next (Some e))
    | None =>
        match r_shard r with
        | None => (h', st, Thrown "SyntaxError: Unexpected token")
        | Some status =>
            match sdc status with
            | None => (h', st, Thrown "TypeError: Object.keys called on non-object")
            | Some roles => (h', set_shard st (roles ∪ shard st), Next None)
            end
        end
    end.

(** [change.insts.filter(x => x.zonename === vm_uuid)[0].server] *)
Definition serverOfZone (vm_uuid : string) : option string :=
  inst_server <$>
    head (List.filter (fun x => String.eqb (inst_zonename x) vm_uuid) instsOf).

Definition getShardServers : stage :=
  fun _ _ st h =>
    if negb HA then
      match shard st !! "primary" with
      | None => (h, st, Thrown (noPeer "primary" "server_uuid"))
      | Some p =>
          match ch_inst change with
          | None => (h, st, Thrown "TypeError: Cannot read property 'server' of undefined")
          | Some i =>
              (h, set_shard st (<["primary" := set_server p (Some (inst_server i))]> (shard st)),
               Next None)
          end
      end
    else if forallb (fun kv => bool_decide (is_Some (serverOfZone (zoneId (snd kv)))))
                    (map_to_list (shard st))
    then (h, set_shard st ((fun p => set_server p (serverOfZone (zoneId p))) <$> shard st),
          Next None)
    else (h, st, Thrown "TypeError: Cannot read property 'server' of undefined").

(** The image is read for the progress message before the command goes out. *)
Definition installOn (server : option string) : stage :=
  match ch_image change with
  | None => throwing "TypeError: Cannot read property 'uuid' of undefined"
  | Some img => command (fun _ => ImgadmInstallRemote server (Some img))
  end.

Definition installPrimaryImage : stage :=
  if negb HA then command (fun _ => ImgadmInstall)
  else
    match ch_image change with
    | None => throwing "TypeError: Cannot read property 'uuid' of undefined"
    | Some _ => withPeer "primary" "server_uuid" (fun p => installOn (server_uuid p))
    end.

Definition verifyFullHA : stage :=
  onlyHA (fun _ _ st h =>
    match shard st !! "sync", shard st !! "async" with
    | Some _, Some _ => (h, st, Next None)
    | _, _ => (h, st, NextThenNext "HA setup error")
    end).

Definition disablePeer (role : string) : stage :=
  withPeer role "server_uuid" (fun p =>
    command (fun _ => DisableManatee (server_uuid p) (zoneId p))).

Definition reprovisionPeer (role : string) : stage :=
  withPeer role "server_uuid" (fun p =>
    command (fun _ => ReprovisionRemote (server_uuid p) (zoneId p) (ch_image change))).

(** [waitForManatee(state, arg.shard[role].server_uuid, arg.shard[role].zoneId, next)] *)
Definition waitForShard (state role : string) : stage :=
  withPeer role "server_uuid" (fun p w _ st h =>
    let '(h', sig) := waitForManatee state (server_uuid p) (zoneId p) w h in
    (h', st, sig)).

(** The 60 s pause; the progress message reads the peer's [zoneId]. *)
Definition pauseFor (role : string) : stage :=
  withPeer role "zoneId" (fun _ => sleep 60000).

Definition disableAsync : stage := onlyHA (disablePeer "async").
Definition waitForAsyncDisabled : stage := onlyHA (waitForShard "sync" "primary").

Definition installImageAsyncServer : stage :=
  onlyHA (withPeer "async" "server_uuid" (fun a =>
    withPeer "primary" "server_uuid" (fun p =>
      if sameServer (server_uuid a) (server_uuid p) then skip
      else installOn (server_uuid a)))).

Definition reprovisionAsync : stage := onlyHA (reprovisionPeer "async").
Definition waitForAsync : stage := onlyHA (pauseFor "async").
Definition waitForHA : stage := onlyHA (waitForShard "async" "primary").
Definition disableSync : stage := onlyHA (disablePeer "sync").
Definition waitForSyncDisabled : stage := onlyHA (waitForShard "sync" "primary").

Definition installImageSyncServer : stage :=
  onlyHA (withPeer "sync" "server_uuid" (fun s =>
    withPeer "primary" "server_uuid" (fun p =>
      if sameServer (server_uuid s) (server_uuid p) then skip
      else withPeer "async" "server_uuid" (fun a =>
        if sameServer (server_uuid s) (server_uuid a) then skip
        else installOn (server_uuid s))))).

Definition reprovisionSync : stage := onlyHA (reprovisionPeer "sync").
Definition waitForSync : stage := onlyHA (pauseFor "sync").
Definition waitForHASync : stage := onlyHA (waitForShard "async" "primary").
Definition disablePrimaryManatee : stage := onlyHA (disablePeer "primary").

Definition waitForShardPromotion : stage :=
  onlyHA (withPeer "async" "server_uuid" (fun a w fuel st h =>
    let '(h', sig) :=
      _waitForShardPromotion fuel 0 (server_uuid a) (zoneId a)
                             (shard st !! "primary") w h in
    (h', st, sig))).

Definition getLocalSapi : stage :=
  onlyNoHA (fun w _ st h =>
    let '(h', r) := ask w h VmadmLookupSapi in
    match r_err r with
    | Some e => (h', st, Next (Some e))
    | None =>
        (h', mkPstate (shard st) (manateeUUID st)
               (head (split (ascii_of_nat 10) (trim (r_stdout r)))),
         Next None)
    end).

Definition setSapiProtoMode : stage :=
  onlyNoHA (command (fun st => MdataPutProtoMode (sapiUUID st))).

Definition restartSapiIntoProtoMode : stage :=
  onlyNoHA (command (fun st =>
    SvcadmRestart (sapiUUID st) "/smartdc/application/sapi:default")).

Definition reprovisionPrimary : stage := reprovisionPeer "primary".
Definition waitForPrimaryInstance : stage := pauseFor "primary".

Definition waitForPrimaryPG : stage :=
  onlyNoHA (withPeer "primary" "server_uuid" (fun p w fuel st h =>
    let '(h', sig) := waitForPostgresUp fuel (server_uuid p) (zoneId p) w h in
    (h', st, sig))).

Definition resetSapiToFullMode : stage :=
  onlyNoHA (command (fun _ => SapiSetMode "full")).

Definition waitForShardHA : stage := onlyHA (waitForShard "async" "async").

(** The stages up to the point where the shard and its servers are known
    and the image is on the primary's server. *)
Definition setupStages : list stage :=
  [command (fun _ => GetUserScript);
   command (fun _ => WriteOldUserScriptForRollback);
   command (fun _ => UpdateSvcUserScript)]
  ++ (if negb HA then [command (fun _ => UpdateVmUserScript)]
      else map updateInstUserScript instsOf)
  ++ [command (fun _ => UpdateSapiSvc);
      getLocalManatee; getShard; getShardServers; installPrimaryImage].

(** The stages that act on the peers. *)
Definition updateStages : list stage :=
  [verifyFullHA;
   disableAsync; waitForAsyncDisabled; installImageAsyncServer;
   reprovisionAsync; waitForAsync; waitForHA;
   disableSync; waitForSyncDisabled; installImageSyncServer;
   reprovisionSync; waitForSync; waitForHASync;
   disablePrimaryManatee; waitForShardPromotion;
   getLocalSapi; setSapiProtoMode; restartSapiIntoProtoMode;
   reprovisionPrimary; waitForPrimaryInstance;
   waitForPrimaryPG; resetSapiToFullMode;
   waitForShardHA].

Definition initial : pstate := mkPstate ∅ None None.

Definition updateManatee (w : World) (fuel : nat) (h : trace)
    : trace * pstate * outcome :=
  pipeline (setupStages ++ updateStages) w fuel initial h.

End UpdateManatee.

(** [execute]: vasync.forEachPipeline over the procedure's changes. *)
Fixpoint execute (hostname : string) (changes : list Change) (w : World)
    (fuel : nat) (h : trace) : trace * outcome :=
  match changes with
  | [] => (h, Completed None)
  | change :: rest =>
      let '(h', _, out) := updateManatee hostname change w fuel h in
      match out with
      | Completed None => execute hostname rest w fuel h'
      | _ => (h', out)
      end
  end.

End Manatee.

(** ** The manatee update, as the specification describes it *)

Module ManateeSpec.

Import Manatee.

(** The event of one status poll. *)
Definition poll (server : option string) (zone : string) (r : reply) : event :=
  (GetShardStatus server zone, r).

(** The poll came back with a status. *)
Definition answered (r : reply) (obj : ShardStatus) : Prop :=
  r_err r = None /\ r_shard r = Some obj.

Definition timedOut (state : string) : string :=
  "Timeout (15m) waiting for manatee to reach " +:+ state.

(** A wait for the shard to reach [state], from the poll after [counter]
    earlier ones: polls five seconds apart, ended by an error, by output
    that does not parse, by the state wanted, or by the poll that reaches
    the limit. *)
Inductive waitRun (state : string) (server : option string) (zone : string)
    : nat -> trace -> signal -> Prop :=
| wait_error counter r e :
    r_err r = Some e ->
    waitRun state server zone counter [poll server zone r] (Next (Some e))
| wait_malformed counter r x :
    r_err r = None -> r_shard r = None ->
    waitRun state server zone counter [poll server zone r] (Thrown x)
| wait_reached counter r obj :
    answered r obj -> modeOf obj = state ->
    waitRun state server zone counter [poll server zone r] (Next None)
| wait_timeout counter r obj :
    answered r obj -> modeOf obj <> state ->
    (waitLimit <= counter + 1)%nat ->
    waitRun state server zone counter [poll server zone r]
            (Next (Some (timedOut state)))
| wait_again counter r obj r' t sig :
    answered r obj -> modeOf obj <> state ->
    (counter + 1 < waitLimit)%nat ->
    waitRun state server zone (counter + 1) t sig ->
    waitRun state server zone counter
            (poll server zone r :: (SetTimeout 5000, r') :: t) sig.

(** The number of status polls in a trace. *)
Definition isPoll (e : event) : bool :=
  match fst e with GetShardStatus _ _ => true | _ => false end.
Definition polls (t : trace) : nat := length (List.filter isPoll t).

(** The wait for the promotion: polls of the peer that was async, five
    seconds apart, until the primary it reports is another zone than
    [orig]. *)
Inductive promotionRun (server : option string) (zone : string) (orig : string)
    : trace -> signal -> Prop :=
| promotion_error r e :
    r_err r = Some e ->
    promotionRun server zone orig [poll server zone r] (Next (Some e))
| promotion_malformed r x :
    r_err r = None -> r_shard r = None ->
    promotionRun server zone orig [poll server zone r] (Thrown x)
| promotion_no_primary r obj x :
    answered r obj -> sdc obj ≫= (.!! "primary") = None ->
    promotionRun server zone orig [poll server zone r] (Thrown x)
| promotion_seen r obj p :
    answered r obj -> sdc obj ≫= (.!! "primary") = Some p ->
    zoneId p <> orig ->
    promotionRun server zone orig [poll server zone r] (Next None)
| promotion_again r obj p r' t sig :
    answered r obj -> sdc obj ≫= (.!! "primary") = Some p ->
    zoneId p = orig ->
    promotionRun server zone orig t sig ->
    promotionRun server zone orig
                 (poll server zone r :: (SetTimeout 5000, r') :: t) sig
| promotion_pending :
    promotionRun server zone orig [] Pending.

(** A segment of a run: the traces with which a stage completes, and those
    with which it ends the pipeline, with the outcome. *)
Record segment := mkSegment {
  completes : trace -> Prop;
  aborts : trace -> outcome -> Prop;
}.

(** A pipeline run over a script of segments: each segment completes
    before the next begins, and the run ends with the script or with the
    first segment that aborts. *)
Inductive runs : list segment -> trace -> outcome -> Prop :=
| runs_done : runs [] [] (Completed None)
| runs_abort s ss t o : aborts s t o -> runs (s :: ss) t o
| runs_next s ss t1 t2 o :
    completes s t1 -> runs ss t2 o -> runs (s :: ss) (t1 ++ t2) o.

(** One command: it completes when its callback has no error. *)
Definition cmd (c : call) : segment :=
  mkSegment
    (fun t => exists r, t = [(c, r)] /\ r_err r = None)
    (fun t o => exists r e, t = [(c, r)] /\ r_err r = Some e
                            /\ o = Completed (Some e)).

Definition idle : segment :=
  mkSegment (fun t => t = []) (fun _ _ => False).

Definition pause (ms : Z) : segment :=
  mkSegment (fun t => exists r, t = [(SetTimeout ms, r)]) (fun _ _ => False).

Definition wait (state : string) (p : Peer) : segment :=
  mkSegment
    (fun t => waitRun state (server_uuid p) (zoneId p) 0 t (Next None))
    (fun t o => exists sig, sig <> Next None
                            /\ waitRun state (server_uuid p) (zoneId p) 0 t sig
                            /\ o = outcomeOf sig).

Definition promotion (a p : Peer) : segment :=
  mkSegment
    (fun t => promotionRun (server_uuid a) (zoneId a) (zoneId p) t (Next None))
    (fun t o => exists sig, sig <> Next None
                            /\ promotionRun (server_uuid a) (zoneId a) (zoneId p) t sig
                            /\ o = outcomeOf sig).

(** The image goes to a peer's server unless it is there already. *)
Definition install (img : Image) (p : Peer) (others : list Peer) : segment :=
  if existsb (fun q => sameServer (server_uuid p) (server_uuid q)) others
  then idle
  else cmd (ImgadmInstallRemote (server_uuid p) (Some img)).

(** The update of a full shard: async, then sync, then primary. *)
Definition haScript (img : Image) (primary sync async : Peer) : list segment :=
  [cmd (DisableManatee (server_uuid async) (zoneId async));
   wait "sync" primary;
   install img async [primary];
   cmd (ReprovisionRemote (server_uuid async) (zoneId async) (Some img));
   pause 60000;
   wait "async" primary;
   cmd (DisableManatee (server_uuid sync) (zoneId sync));
   wait "sync" primary;
   install img sync [primary; async];
   cmd (ReprovisionRemote (server_uuid sync) (zoneId sync) (Some img));
   pause 60000;
   wait "async" primary;
   cmd (DisableManatee (server_uuid primary) (zoneId primary));
   promotion async primary;
   cmd (ReprovisionRemote (server_uuid primary) (zoneId primary) (Some img));
   pause 60000;
   wait "async" async].

(** A command that disables or reprovisions a peer. *)
Definition touches (c : call) : bool :=
  match c with
  | DisableManatee _ _ | ReprovisionRemote _ _ _ => true
  | _ => false
  end.

(** The command that restores SAPI to full mode. *)
Definition restores (c : call) : bool :=
  match c with
  | SapiSetMode _ => true
  | _ => false
  end.

(** Commands whose callback carries no error the procedure reads. *)
Definition unchecked (c : call) : bool :=
  match c with
  | SetTimeout _ | PsqlPing _ _ => true
  | _ => false
  end.

(** An event of a command [good] allows, and one that went well besides:
    its callback had no error (a PostgreSQL ping that failed is retried). *)
Definition allowed (good : call -> bool) (e : event) : Prop :=
  good (fst e) = true.

Definition fine (good : call -> bool) (e : event) : Prop :=
  good (fst e) = true
  /\ (unchecked (fst e) = true \/ r_err (snd e) = None).

(** A step other than the restoration that went well. *)
Definition succeeded : event -> Prop := fine (fun c => negb (restores c)).

(** The run failed, and an error it reports is the error of its last
    command. *)
Definition failedBy (t : trace) (o : outcome) : Prop :=
  o <> Completed None
  /\ forall e, o = Completed (Some e) ->
       exists pre c r, t = pre ++ [(c, r)] /\ r_err r = Some e.

(** A segment of commands [good] allows, all of them fine when it
    completes. *)
Definition steps (good : call -> bool) : segment :=
  mkSegment (fun t => Forall (fine good) t)
            (fun t o => Forall (allowed good) t /\ failedBy t o).

End ManateeSpec.

(** ** Scenarios: concrete inventories, plans and environments *)

Module Scenario.

Definition service (name : string) : Service := mkService name "vm" (Some "IA").

Definition instance (svc id hostname server : string) : Instance :=
  mkInstance svc id "IA" "master-20140101T000000Z" server hostname id id "vm".

Definition imageA (name : string) : Image :=
  mkImage "IA" name "master-20140101T000000Z" "2014-01-01T00:00:00Z".
Definition imageB (name : string) : Image :=
  mkImage "IB" name "master-20140201T000000Z" "2014-02-01T00:00:00Z".

(** A normalized 'update-service' change with its candidate images. *)
Definition candidate (type svc : string) (images : list Image) : Change :=
  mkChange type (service svc) None None (Some images) None None None.

(** The same change once resolveDeps has chosen an image. *)
Definition update (svc : string) (img : Image) : Change :=
  mkChange "update-service" (service svc) None None None (Some img) None None.

(** One cnapi on the headnode, two vmapi instances. *)
Definition inventory : list Instance :=
  [instance "cnapi" "cnapi0" "headnode" "hn";
   instance "vmapi" "vmapi0" "headnode" "hn";
   instance "vmapi" "vmapi1" "cn1" "s1"].

Definition cnapiAndVmapi : UpdatePlan :=
  newUpdatePlan inventory inventory
    [update "cnapi" (imageB "cnapi"); update "vmapi" (imageB "vmapi")] false.

Definition justImagesPlan : UpdatePlan :=
  newUpdatePlan inventory inventory [update "cnapi" (imageB "cnapi")] true.

(** Every image is in the local store / none is. *)
Definition allLocal : string -> Coordinator.imgapi_reply :=
  fun _ => Coordinator.ImgFound.
Definition noneLocal : string -> Coordinator.imgapi_reply :=
  fun _ => Coordinator.ImgError (Some "ResourceNotFound").

(** The conflict of the specification: imgapi as a service and one of its
    instances. *)
Definition imgapi0 : Instance := instance "imgapi" "imgapi0" "headnode" "hn".

Definition serviceAndInstance : list Change :=
  [candidate "update-service" "imgapi" [imageB "imgapi"];
   mkChange "update-instance" (service "imgapi") (Some imgapi0) None
            (Some [imageB "imgapi"]) None None None].

(** What normalizeChanges leaves of [{service: 'imgapi'}] and
    [{service: 'imgapi', server: 'headnode'}]: an 'update-service' change
    and an 'update-instance' change that names its server and carries no
    instance. *)
Definition serviceAndServer : list Change :=
  [candidate "update-service" "imgapi" [imageB "imgapi"];
   mkChange "update-instance" (service "imgapi") None (Some "headnode")
            (Some [imageB "imgapi"]) None None None].

(** An instance update whose only candidate is the image in use. *)
Definition sameImageInstance : Change :=
  mkChange "update-instance" (service "imgapi") (Some imgapi0) None
           (Some [imageA "imgapi"]) None None None.

Definition plainOptions : Planner.Options := Planner.mkOptions false false false.

Definition servers : list Planner.Server :=
  [Planner.mkServer "hn" "headnode" "20140301T000000Z";
   Planner.mkServer "s1" "cn1" "20140301T000000Z"].

Definition config : Planner.Config :=
  Planner.mkConfig "20140101T000000Z" {[ "cnapi" := "20131201T000000Z" ]}.

(** *** A manatee shard of three peers, and one of a single peer *)

Definition manatee (zone hostname server : string) : Instance :=
  mkInstance "manatee" zone "IA" "master-20140101T000000Z" server hostname
             zone zone "vm".

Definition manatees : list Instance :=
  [manatee "z0" "headnode" "s0"; manatee "z1" "cn1" "s1"; manatee "z2" "cn2" "s2"].

(** The change as coordinatePlan hands it to UpdateManateeV2. *)
Definition shardChange : Change :=
  mkChange "update-service" (service "manatee") None None None
           (Some (imageB "manatee")) None (Some manatees).

Definition soloChange : Change :=
  mkChange "update-service" (service "manatee") None None None
           (Some (imageB "manatee")) (Some (manatee "z0" "headnode" "s0")) None.

Definition peer (zone : string) (repl : list (string * Manatee.jsval)) : Manatee.Peer :=
  Manatee.mkPeer zone (Some (list_to_map repl)) None.

Definition status (roles : list (string * Manatee.Peer)) : Manatee.ShardStatus :=
  Manatee.mkShardStatus (Some (list_to_map roles)).

Definition fullShard : Manatee.ShardStatus :=
  status [("primary", peer "z0" [("sync_state", Manatee.VStr "sync")]);
          ("sync", peer "z1" [("sync_state", Manatee.VStr "async")]);
          ("async", peer "z2" [])].

Definition withoutAsync : Manatee.ShardStatus :=
  status [("primary", peer "z0" [("sync_state", Manatee.VStr "sync")]);
          ("sync", peer "z1" [])].

(** No peer is up: [{"sdc": {}}], the status waitForManatee calls 'empty'. *)
Definition emptyShard : Manatee.ShardStatus := status [].

Definition promoted : Manatee.ShardStatus :=
  status [("primary", peer "z1" [("sync_state", Manatee.VStr "sync")]);
          ("sync", peer "z2" [])].

Definition onlyPrimary : Manatee.ShardStatus :=
  status [("primary", peer "z0" [])].

Definition done : Manatee.reply := Manatee.mkReply None None "" false.
Definition failing (e : string) : Manatee.reply :=
  Manatee.mkReply (Some e) None "" false.
Definition reporting (s : Manatee.ShardStatus) : Manatee.reply :=
  Manatee.mkReply None (Some s) "" false.

(** The last peer command of a trace. *)
Definition lastPeerCommand (h : Manatee.trace) : option Manatee.call :=
  last (List.filter ManateeSpec.touches (map fst h)).

(** A shard that behaves: a disabled replica leaves primary and sync, a
    reprovisioned one brings the shard back to three roles, and the
    disabled primary is replaced. *)
Definition healthy : Manatee.World :=
  fun h c =>
    match c with
    | Manatee.GetShardStatusLocally _ => reporting fullShard
    | Manatee.GetShardStatus _ _ =>
        match lastPeerCommand h with
        | Some (Manatee.DisableManatee _ zone) =>
            if String.eqb zone "z0" then reporting promoted
            else reporting withoutAsync
        | _ => reporting fullShard
        end
    | _ => done
    end.

(** A shard whose status never settles. *)
Definition unsettled : Manatee.World :=
  fun _ c =>
    match c with
    | Manatee.GetShardStatusLocally _ => reporting fullShard
    | Manatee.GetShardStatus _ _ => reporting (Manatee.mkShardStatus None)
    | _ => done
    end.

(** A shard that reports no async peer, and one that reports no peer. *)
Definition asyncMissing : Manatee.World :=
  fun _ c =>
    match c with
    | Manatee.GetShardStatusLocally _ => reporting withoutAsync
    | _ => done
    end.

Definition primaryMissing : Manatee.World :=
  fun _ c =>
    match c with
    | Manatee.GetShardStatusLocally _ => reporting emptyShard
    | _ => done
    end.

(** A single peer whose reprovision fails. *)
Definition reprovisionFails : Manatee.World :=
  fun _ c =>
    match c with
    | Manatee.GetShardStatusLocally _ => reporting onlyPrimary
    | Manatee.VmadmLookupSapi => Manatee.mkReply None None "sapi-zone-uuid" false
    | Manatee.ReprovisionRemote _ _ _ => failing "reprovision failed"
    | _ => done
    end.

(** A single peer that comes back at the third ping. *)
Definition soloHealthy : Manatee.World :=
  fun h c =>
    match c with
    | Manatee.GetShardStatusLocally _ => reporting onlyPrimary
    | Manatee.VmadmLookupSapi => Manatee.mkReply None None "sapi-zone-uuid" false
    | Manatee.PsqlPing _ _ =>
        Manatee.mkReply None None ""
          (Nat.ltb (length (List.filter
                              (fun e => match fst e with
                                        | Manatee.PsqlPing _ _ => true
                                        | _ => false
                                        end) h)) 2)
    | _ => done
    end.

(** A single peer whose PostgreSQL never answers the ping. *)
Definition soloDown : Manatee.World :=
  fun h c =>
    match c with
    | Manatee.GetShardStatusLocally _ => reporting onlyPrimary
    | Manatee.VmadmLookupSapi => Manatee.mkReply None None "sapi-zone-uuid" false
    | Manatee.PsqlPing _ _ => Manatee.mkReply None None "" true
    | _ => done
    end.

End Scenario.

(** ** The execution of a plan ([SdcAdm.prototype.execUpdatePlan]) *)

Module Exec.

Import Js.

(** What execUpdatePlan asks of the file system, the history and the
    procedures of the plan. *)
Inductive call :=
| Mkdirp (dir : string)                          (* mkdirp(wrkDir, cb) *)
| WriteFile (path : string) (plan : PlanFile.json)
                                                 (* fs.writeFile(planFile, plan.serialize(), ...) *)
| SaveHistory (changes : list Change) (uuid : option string)
                                                 (* self.history.saveHistory(obj, cb) *)
| Execute (proc : Procedure) (wrkDir : string)   (* proc.execute({..., wrkDir}, nextProc) *)
| UpdateHistory (error : bool).                  (* self.history.updateHistory(hist, cb),
                                                    with or without [hist.error] *)

(** The [err] of a callback. *)
Definition reply : Type := option string.
Definition event : Type := call * reply.
Definition trace : Type := list event.
Definition World : Type := trace -> call -> reply.

Definition ask (w : World) (h : trace) (c : call) : trace * reply :=
  let r := w h c in (h ++ [(c, r)], r).

(** The error a stage hands to [next]: an InternalError built around a
    cause, or the error of a callback as it came. *)
Inductive failure :=
| Internal (message : string) (cause : string)
| Passed (err : string).

(** How execUpdatePlan ends: its callback is called, with or without an
    error, or an exception escapes. *)
Inductive outcome :=
| Called (err : option failure)
| Threw (exn : string).

Section ExecUpdatePlan.

(** [sprintf('%d%02d%02dT%02d%02d%02dZ', ...)] of the start time. *)
Variable stamp : string.
Variable w : World.

Definition wrkDir : string := "/var/sdcadm/updates/" +:+ stamp.

(** [path.resolve(wrkDir, 'plan.json')] *)
Definition planFile : string := wrkDir +:+ "/plan.json".

Definition createWrkDir (dryRun : bool) (h : trace) : trace * option failure :=
  if dryRun then (h, None)
  else
    let '(h', r) := ask w h (Mkdirp wrkDir) in
    match r with
    | Some err => (h', Some (Internal ("error creating work dir: " +:+ wrkDir) err))
    | None => (h', None)
    end.

Definition savePlan (plan : UpdatePlan) (dryRun : bool) (h : trace)
    : trace * option failure :=
  if dryRun then (h, None)
  else
    let '(h', r) := ask w h (WriteFile planFile (PlanFile.serialize plan)) in
    match r with
    | Some err => (h', Some (Internal ("error saving update plan: " +:+ planFile) err))
    | None => (h', None)
    end.

(** [if (options.uuid) { obj.uuid = options.uuid; }] *)
Definition givenUuid (uuid : option string) : option string :=
  match uuid with
  | Some u => if truthy u then Some u else None
  | None => None
  end.

(** [hist] is set only when the history record was saved. *)
Definition saveBeginningToHistory (plan : UpdatePlan) (uuid : option string)
    (h : trace) : trace * option failure * bool :=
  let '(h', r) := ask w h (SaveHistory (plan_changes plan) (givenUuid uuid)) in
  match r with
  | Some err => (h', Some (Passed err), false)
  | None => (h', None, true)
  end.

(** [vasync.forEachPipeline] over the procedures. *)
Fixpoint forEachProc (procs : list Procedure) (h : trace) : trace * option failure :=
  match procs with
  | [] => (h, None)
  | proc :: rest =>
      let '(h', r) := ask w h (Execute proc wrkDir) in
      match r with
      | Some err => (h', Some (Passed err))
      | None => forEachProc rest h'
      end
  end.

(** The callback of the pipeline: [hist.error = err] needs [hist]. *)
Definition finish (hist : bool) (err : option failure) (h : trace) : trace * outcome :=
  match err with
  | Some e =>
      if hist then
        let '(h', _) := ask w h (UpdateHistory true) in (h', Called (Some e))
      else (h, Threw "TypeError: Cannot set property 'error' of undefined")
  | None =>
      let '(h', r) := ask w h (UpdateHistory false) in
      match r with
      | Some err2 => (h', Called (Some (Passed err2)))
      | None => (h', Called None)
      end
  end.

(** A plan without [procs] makes vasync.forEachPipeline throw; the
    exception is vasync's own. *)
Definition execUpdatePlan (plan : UpdatePlan) (dryRun : bool) (uuid : option string)
    (h : trace) : trace * outcome :=
  let '(h1, e1) := createWrkDir dryRun h in
  match e1 with
  | Some e => finish false (Some e) h1
  | None =>
      let '(h2, e2) := savePlan plan dryRun h1 in
      match e2 with
      | Some e => finish false (Some e) h2
      | None =>
          let '(h3, e3, hist) := saveBeginningToHistory plan uuid h2 in
          match e3 with
          | Some e => finish hist (Some e) h3
          | None =>
              if dryRun then finish hist None h3
              else
                match plan_procs plan with
                | None => (h3, Threw "vasync.forEachPipeline: inputs is undefined")
                | Some procs =>
                    let '(h4, e4) := forEachProc procs h3 in
                    finish hist e4 h4
                end
          end
      end
  end.

End ExecUpdatePlan.

End Exec.

(** ** The requested changes (genUpdatePlan, validateChanges) *)

Module Request.

Import Js PlanFile.

(** A change as the caller gives it: an object, its keys in insertion
    order. *)
Definition raw : Type := list (string * json).

(** [JSON.stringify(value)] *)
Fixpoint stringify (j : json) : string :=
  match j with
  | JNull => "null"
  | JBool b => if b then "true" else "false"
  | JNum z => DecimalString.NilZero.string_of_int (Z.to_int z)
  | JStr s => quote s
  | JArr items => "[" +:+ join "," (map stringify items) +:+ "]"
  | JObj fields =>
      "{" +:+ join "," (map (fun kv => let '(k, v) := kv in
                                       quote k +:+ ":" +:+ stringify v) fields)
          +:+ "}"
  end.

(** [Boolean(change[key])]; a missing key reads as [undefined]. *)
Definition truthyValue (v : option json) : bool :=
  match v with
  | None | Some JNull => false
  | Some (JBool b) => b
  | Some (JNum z) => negb (Z.eqb z 0)
  | Some (JStr s) => truthy s
  | Some (JArr _) | Some (JObj _) => true
  end.

(** [typeof (value) === 'string'] *)
Definition isString (v : option json) : bool :=
  match v with Some (JStr _) => true | _ => false end.

(** [value === s] for a string literal [s]. *)
Definition equals (v : option json) (s : string) : bool :=
  match v with Some (JStr x) => String.eqb x s | _ => false end.

(** [change[key] = value]: an existing key keeps its place. *)
Fixpoint assign (key : string) (value : json) (o : raw) : raw :=
  match o with
  | [] => [(key, value)]
  | (k, x) :: o' =>
      if String.eqb k key then (k, value) :: o' else (k, x) :: assign key value o'
  end.

Definition validateString (value : option json) (msg : string) : list string :=
  if isString value then [] else [msg +:+ " (string) is required"].

Definition validateKeys (allowed : list string) (change : raw) (repr : string)
    : list string :=
  let extraKeys :=
    List.filter (fun k => negb (existsb (String.eqb k) allowed)) (map fst change) in
  match extraKeys with
  | [] => []
  | _ :: _ =>
      ["invalid extra fields " +:+ String dquote EmptyString
         +:+ join (String dquote (", " +:+ String dquote EmptyString)) extraKeys
         +:+ String dquote EmptyString +:+ " in " +:+ repr]
  end.

(** The type a branch implies: an error when the change names another,
    set on the change otherwise. *)
Definition impliedType (type : string) (change : raw) (repr : string)
    : list string * raw :=
  if truthyValue (field "type" change) && negb (equals (field "type" change) type)
  then (["invalid type " +:+ String dquote EmptyString +:+ type
           +:+ String dquote EmptyString +:+ " change in " +:+ repr], change)
  else ([], assign "type" (JStr type) change).

(** One pass of the loop of validateChanges: the errors it pushes and the
    change as it leaves it. *)
Definition validateChange (change : raw) : list string * raw :=
  let repr := stringify (JObj change) in
  let named (key : string) :=
    validateString (field key change)
                   (String dquote EmptyString +:+ key +:+ String dquote EmptyString
                      +:+ " in " +:+ repr) in
  let image :=
    if truthyValue (field "image" change) then named "image" else [] in
  if equals (field "type" change) "create" then
    (image ++ named "service" ++ named "server"
       ++ validateKeys ["type"; "server"; "service"; "image"] change repr, change)
  else if equals (field "type" change) "delete"
          && truthyValue (field "service" change)
          && truthyValue (field "server" change) then
    (image ++ named "service" ++ named "server"
       ++ validateKeys ["type"; "server"; "service"; "image"] change repr, change)
  else if equals (field "type" change) "delete" then
    (image ++ named "instance"
       ++ validateKeys ["type"; "instance"; "image"] change repr, change)
  else if equals (field "type" change) "delete-service" then
    (image ++ named "service"
       ++ validateKeys ["type"; "service"] change repr, change)
  else if truthyValue (field "service" change)
          && truthyValue (field "server" change) then
    let '(errs, change') := impliedType "update-instance" change repr in
    (image ++ errs ++ named "service" ++ named "server"
       ++ validateKeys ["type"; "server"; "service"; "image"] change' repr, change')
  else if truthyValue (field "instance" change) then
    let '(errs, change') := impliedType "update-instance" change repr in
    (image ++ errs ++ named "instance"
       ++ validateKeys ["type"; "instance"; "image"] change' repr, change')
  else if truthyValue (field "service" change) then
    let '(errs, change') := impliedType "update-service" change repr in
    (image ++ errs ++ named "service"
       ++ validateKeys ["type"; "service"; "image"] change' repr, change')
  else
    (image ++ ["invalid change: " +:+ repr], change).

(** What validateChanges hands to [next]. *)
Inductive invalid :=
| ValidationError (message : string)
| ValidationErrors (messages : list string).   (* errors.MultiError(errs) *)

Definition validateChanges (changes : list raw) : result invalid (list raw) :=
  let passes := map validateChange changes in
  match concat (map fst passes) with
  | [] => Ret (map snd passes)
  | [err] => Raise (ValidationError err)
  | errs => Raise (ValidationErrors errs)
  end.

End Request.

(** ** The services of the DC ([SdcAdm.prototype.getServices]) *)

Module Services.

Import Js.

(** What SAPI answers: an error, given by its code, or the list asked
    for. *)
Inductive sapi_reply (A : Type) :=
| SapiError (code : string)
| SapiList (items : list A).
Arguments SapiError {A} code.
Arguments SapiList {A} items.

Definition set_type (svc : Service) (type : string) : Service :=
  mkService (svc_name svc) type (svc_image_uuid svc).

(** The hard-coded agents. *)
Definition knownAgents : list string :=
  ["cabase"; "hagfish-watcher"; "agents_core"; "firewaller"; "amon-agent";
   "cainstsvc"; "provisioner"; "amon-relay"; "heartbeater"; "smartlogin";
   "zonetracker"].

Section GetServices.

(** [self.sapi.listApplications({name: 'sdc'}, cb)]: the uuids of the
    applications found. *)
Variable listApplications : sapi_reply string.
(** [self.sapi.listServices({application_uuid: uuid}, cb)] *)
Variable listServices : string -> sapi_reply Service.

Definition getSdcApp : result client_error (option string) :=
  match listApplications with
  | SapiError code => Raise (SDCClientError "sapi" code)
  | SapiList apps => Ret (head apps)
  end.

Definition getSapiSvcs (app : option string) : result client_error (list Service) :=
  match app with
  | None => Throws "TypeError: Cannot read property 'uuid' of null"
  | Some uuid =>
      match listServices uuid with
      | SapiError code => Raise (SDCClientError "sapi" code)
      | SapiList svcs_ =>
          let svcs := map (fun svc => set_type svc "vm") svcs_ in
          let haveAssets := existsb (fun svc => String.eqb (svc_name svc) "assets") svcs in
          Ret (if haveAssets then svcs else svcs ++ [mkService "assets" "vm" None])
      end
  end.

Definition getAgents (svcs : list Service) : list Service :=
  svcs ++ map (fun name => mkService name "agent" None) knownAgents.

(** The callback gets [svcs] beside the error; it is still empty when
    one of the two lookups fails. *)
Definition getServices : result client_error (list Service) :=
  bind getSdcApp (fun app =>
  bind (getSapiSvcs app) (fun svcs =>
  Ret (getAgents svcs))).

End GetServices.

End Services.

(** ** The normalized changes (genUpdatePlan, normalizeChanges) *)

Module Normalize.

Import Js PlanFile Request Planner.

(** [String(value)]: a value as a property key and under [%s]. *)
Fixpoint toString (j : json) : string :=
  match j with
  | JNull => "null"
  | JBool b => if b then "true" else "false"
  | JNum z => DecimalString.NilZero.string_of_int (Z.to_int z)
  | JStr s => s
  | JArr items =>
      join "," (map (fun x => match x with JNull => "" | _ => toString x end) items)
  | JObj _ => "[object Object]"
  end.

(** What an image lookup answers: the image, or an error with its
    [body.code] ([None]: no body, or no code in it). *)
Inductive lookup :=
| Found (img : Image)
| Failed (code : option string).

(** What [self.updates.listImages(filter, cb)] answers. *)
Inductive listing :=
| Listed (imgs : list Image)
| ListError (err : string).

(** The members an object inherits from [Object.prototype]. *)
Definition prototypeMembers : list string :=
  ["constructor"; "toString"; "toLocaleString"; "valueOf"; "hasOwnProperty";
   "isPrototypeOf"; "propertyIsEnumerable"; "__defineGetter__";
   "__defineSetter__"; "__lookupGetter__"; "__lookupSetter__"; "__proto__"].

(** What [ch.service] holds once it was looked up in [svcFromName]: a
    service of the list or, for a name the list does not have, the member
    of that name that the object inherits. *)
Inductive serviceRef :=
| Svc (svc : Service)
| Member (name : string).

(** The errors of getCandidateImages: the MultiError of the lookups of the
    current images, each error by its code, or the error of listImages. *)
Inductive candidatesError :=
| LookupErrors (codes : list (option string))
| ListingError (err : string).

(** The errors resolveChange hands to [nextChange]. *)
Inductive failure :=
| Unknown (message : string)                  (* new errors.UpdateError(format(...)) *)
| UnknownImage (cause : option string) (message : string)
                                              (* new errors.UpdateError(iErr, format(...)) *)
| NoCandidates (cause : candidatesError) (message : string).
                                              (* new errors.InternalError({cause, message}) *)

(** A change as resolveChange leaves it: [service], [images] and, when
    the change named a uuid or an alias, [instance] are what was looked
    up; the other keys are in [fields], [image] deleted once it was
    looked up. *)
Record Normalized := mkNormalized {
  n_fields : raw;
  n_service : serviceRef;
  n_instance : option Instance;
  n_images : list Image;
}.

(** [delete ch[key]] *)
Definition remove (key : string) (o : raw) : raw :=
  List.filter (fun kv => negb (String.eqb (fst kv) key)) o.

(** [format('unknown <what> "%s" from %s', value, changeRepr)] *)
Definition unknown (what : string) (value : json) (changeRepr : string) : string :=
  "unknown " +:+ what +:+ " " +:+ String dquote EmptyString +:+ toString value
    +:+ String dquote EmptyString +:+ " from " +:+ changeRepr.

Section NormalizeChanges.

Variable svcs : list Service.
Variable servers : list Server.
Variable insts : list Instance.
(** [self.imgapi.getImage] and [self.updates.getImage] *)
Variable imgapi updates : string -> lookup.
(** [self.updates.listImages({name, version: '~master', marker}, cb)] *)
Variable listImages : option string -> option string -> listing.
(** [self.config.imgNameFromSvcName] *)
Variable imgNameFromSvcName : gmap string string.
(** [common.sortArrayOfObjects(imgs, ['published_at'])] *)
Variable sortArrayOfObjects : list Image -> list Image.

(** The own properties of [svcFromName], as getSvcs sets them (no service
    being named '__proto__'). *)
Definition svcFromName : gmap string Service :=
  fold_left (fun m svc => <[svc_name svc := svc]> m) svcs ∅.

(** [svcFromName[name]]: the service set under the name, or else what the
    plain object inherits under it; [None] is [undefined]. *)
Definition readSvcFromName (name : string) : option serviceRef :=
  match svcFromName !! name with
  | Some svc => Some (Svc svc)
  | None =>
      if existsb (String.eqb name) prototypeMembers then Some (Member name)
      else None
  end.

(** [SdcAdm.prototype.getImage]: the updates server is asked when the
    local IMGAPI answers 'ResourceNotFound'. *)
Definition getImage (uuid : string) : lookup :=
  match imgapi uuid with
  | Failed (Some code) =>
      if String.eqb code "ResourceNotFound" then updates uuid
      else Failed (Some code)
  | r => r
  end.

(** *** getCandidateImages *)

(** The start of getCurrImgs, which runs before getCandidateImages
    returns: [assert.object(opts.service)] refuses a function, and of the
    members only '__proto__', the prototype itself, is an object; it has
    no [name] and no [params].  For a service the images its instances
    run, or else its [params.image_uuid]. *)
Definition currImgUuids (service : serviceRef) : result candidatesError (list string) :=
  match service with
  | Member name =>
      if String.eqb name "__proto__"
      then Throws "TypeError: Cannot read property 'image_uuid' of undefined"
      else Throws "AssertionError: opts.service (object) is required"
  | Svc svc =>
      let used :=
        keysOf (map inst_image
                  (List.filter (fun inst => String.eqb (inst_service inst) (svc_name svc))
                               insts)) in
      match used with
      | _ :: _ => Ret used
      | [] =>
          match svc_image_uuid svc with
          | Some u =>
              if truthy u then Ret [u]
              else Throws "AssertionError: service object has no params.image_uuid"
          | None => Throws "TypeError: Cannot read property 'image_uuid' of undefined"
          end
      end
  end.

(** [vasync.forEachParallel] over the uuids: an image found nowhere is
    passed over, the other errors are gathered; [currImgs] is taken in the
    order of the uuids (the lookups end in any order, and
    sortArrayOfObjects comes next). *)
Fixpoint getImgs (uuids : list string) : list (option string) * list Image :=
  match uuids with
  | [] => ([], [])
  | uuid :: rest =>
      let '(errs, imgs) := getImgs rest in
      match getImage uuid with
      | Found img => (errs, img :: imgs)
      | Failed (Some code) =>
          if String.eqb code "ResourceNotFound" then (errs, imgs)
          else (Some code :: errs, imgs)
      | Failed None => (None :: errs, imgs)
      end
  end.

(** [opts.service.name], here of a service. *)
Definition serviceName (service : serviceRef) : option string :=
  match service with
  | Svc svc => Some (svc_name svc)
  | Member _ => None
  end.

(** getCandidates: the images after the oldest current one, that one
    first. *)
Definition getCandidates (service : serviceRef) (currImgs : list Image)
    : result candidatesError (list Image) :=
  let sorted := sortArrayOfObjects currImgs in
  let name := serviceName service ≫= (fun n => imgNameFromSvcName !! n) in
  match listImages name (img_uuid <$> head sorted) with
  | ListError err => Raise (ListingError err)
  | Listed followingImgs =>
      match head sorted with
      | Some oldest => Ret (oldest :: followingImgs)
      | None => Ret followingImgs
      end
  end.

Definition getCandidateImages (service : serviceRef)
    : result candidatesError (list Image) :=
  bind (currImgUuids service) (fun uuids =>
  let '(errs, currImgs) := getImgs uuids in
  match errs with
  | _ :: _ => Raise (LookupErrors errs)
  | [] => getCandidates service currImgs
  end).

(** *** normalizeChanges *)

(** [if (ch.service) { ... }]: what was looked up, [None] for a change
    without a service. *)
Definition resolveService (ch : raw) (changeRepr : string)
    : result failure (option serviceRef) :=
  match field "service" ch with
  | Some name =>
      if truthyValue (Some name) then
        match readSvcFromName (toString name) with
        | Some service => Ret (Some service)
        | None => Raise (Unknown (unknown "service" name changeRepr))
        end
      else Ret None
  | None => Ret None
  end.

(** [if (ch.uuid) { ... } else if (ch.alias) { ... }]: no instance of
    the inventory has a [uuid]; the first one of the alias is taken. *)
Definition resolveInstance (ch : raw) (changeRepr : string)
    : result failure (option Instance) :=
  if truthyValue (field "uuid" ch) then
    match field "uuid" ch with
    | Some uuid => Raise (Unknown (unknown "SDC instance uuid" uuid changeRepr))
    | None => Ret None
    end
  else if truthyValue (field "alias" ch) then
    match field "alias" ch with
    | Some alias =>
        match List.find (fun inst => equals (Some alias) (inst_alias inst)) insts with
        | Some inst => Ret (Some inst)
        | None => Raise (Unknown (unknown "SDC instance alias" alias changeRepr))
        end
    | None => Ret None
    end
  else Ret None.

(** [if (ch.server) { ... }] *)
Definition checkServer (ch : raw) (changeRepr : string) : result failure unit :=
  match field "server" ch with
  | Some server =>
      if truthyValue (Some server) then
        if existsb (fun s => equals (Some server) (srv_uuid s)
                             || equals (Some server) (srv_hostname s)) servers
        then Ret tt
        else Raise (Unknown (unknown "SDC server" server changeRepr))
      else Ret tt
  | None => Ret tt
  end.

(** The candidate images: the one image the change names, or those of
    getCandidateImages.  [self.getImage] asserts that the uuid is a
    string. *)
Definition resolveImages (ch : raw) (changeRepr : string) (service : serviceRef)
    (inst : option Instance) : result failure Normalized :=
  if truthyValue (field "image" ch) then
    match field "image" ch with
    | Some (JStr uuid) =>
        match getImage uuid with
        | Failed cause =>
            Raise (UnknownImage cause (unknown "image" (JStr uuid) changeRepr))
        | Found img => Ret (mkNormalized (remove "image" ch) service inst [img])
        end
    | _ => Throws "AssertionError: opts.uuid (string) is required"
    end
  else
    match getCandidateImages service with
    | Throws exn => Throws exn
    | Raise err =>
        Raise (NoCandidates err ("error finding candidate images for " +:+ changeRepr))
    | Ret imgs => Ret (mkNormalized ch service inst imgs)
    end.

Definition resolveChange (ch : raw) : result failure Normalized :=
  let changeRepr := stringify (JObj ch) in
  bind (resolveService ch changeRepr) (fun svc =>
  bind (resolveInstance ch changeRepr) (fun inst =>
  match svc with
  | None => Throws "Error: TODO"
  | Some service =>
      bind (checkServer ch changeRepr) (fun _ =>
      resolveImages ch changeRepr service inst)
  end)).

(** [vasync.forEachParallel]: every change is resolved; an exception
    ends the loop where it is thrown, and the errors handed to
    [nextChange] come to [next] as one MultiError, in the order of the
    changes. *)
Fixpoint forEachParallel (changes : list raw)
    : result (list failure) (list Normalized) :=
  match changes with
  | [] => Ret []
  | ch :: rest =>
      match resolveChange ch with
      | Throws exn => Throws exn
      | Ret n =>
          match forEachParallel rest with
          | Ret ns => Ret (n :: ns)
          | r => r
          end
      | Raise e =>
          match forEachParallel rest with
          | Ret _ => Raise [e]
          | Raise errs => Raise (e :: errs)
          | Throws exn => Throws exn
          end
      end
  end.

Definition normalizeChanges (changes : list raw)
    : result (list failure) (list Normalized) :=
  forEachParallel changes.

End NormalizeChanges.

End Normalize.

(** ** Properties of the procedure coordinator *)

Module CoordinatorProps.

Import Coordinator.

Lemma bind_Ret {E A B} (m : result E A) (k : A -> result E B) (b : B) :
  bind m k = Ret b -> exists a, m = Ret a /\ k a = Ret b.
Proof. destruct m; simpl; intros H; try discriminate. eauto. Qed.

(** The two ways a filter leaves the coordinator's variables. *)
Lemma runFilter_cases v mk st :
  (omap (handled v) (changes st) = [] /\ runFilter v mk st = st)
  \/ (omap (handled v) (changes st) <> []
      /\ runFilter v mk st
         = mkCstate (List.filter (remains v) (changes st))
                    (procs st ++ [mk (omap (handled v) (changes st))])).
Proof.
  unfold runFilter. destruct (omap (handled v) (changes st)) eqn:E.
  - left. split; reflexivity.
  - right. split; [discriminate | reflexivity].
Qed.

(** A filter whose procedure is not DownloadImages leaves the
    DownloadImages procedures as they are. *)
Lemma runFilter_downloads v mk st :
  (forall l, isDownloadImages (mk l) = false) ->
  List.filter isDownloadImages (procs (runFilter v mk st))
  = List.filter isDownloadImages (procs st).
Proof.
  intros Hmk. destruct (runFilter_cases v mk st) as [[_ ->]|[_ ->]]; [reflexivity|].
  simpl. rewrite List.filter_app. simpl. rewrite Hmk. apply app_nil_r.
Qed.

Lemma runFilters_downloads host byName st :
  List.filter isDownloadImages (procs (runFilters host byName st))
  = List.filter isDownloadImages (procs st).
Proof.
  unfold runFilters, serviceFilters. simpl.
  unfold updateSimpleServices, updateSingleHeadnodeImgapi, updateSingleHeadnodeUFDS,
    updateMorays, updateSingleHeadnodeSapi, updateManatees, updateBinder, updateMahi.
  repeat (rewrite runFilter_downloads; [|intros; reflexivity]).
  reflexivity.
Qed.

Lemma coordImages_downloads getImage st st' :
  procs st = [] ->
  coordImages getImage st = Ret st' ->
  changes st' = changes st
  /\ (procs st' = [] \/ exists images, procs st' = [DownloadImages images]).
Proof.
  unfold coordImages. intros Hp H.
  apply bind_Ret in H as [[missing errs] [_ H]]. simpl in H.
  destruct errs; [|discriminate].
  destruct missing; inversion H; subst; simpl.
  - split; [reflexivity|]. left. exact Hp.
  - split; [reflexivity|]. right. rewrite Hp. eauto.
Qed.

(** C9: with [plan.justImages], a successful coordinatePlan returns the
    procedure list the pipeline produced with everything but DownloadImages
    filtered out: the result is empty or the single DownloadImages
    procedure, and the pipeline left no change behind. *)
Theorem justImages_keeps_only_DownloadImages
    (host : string) (getImage : string -> imgapi_reply)
    (plan : UpdatePlan) (result : list Procedure) :
  plan_justImages plan = true ->
  coordinatePlan host getImage plan = Ret result ->
  exists st,
    runPipeline host getImage plan = Ret st
    /\ changes st = []
    /\ result = List.filter isDownloadImages (procs st)
    /\ Forall (fun p => constructor_name p = "DownloadImages") result
    /\ (result = [] \/ exists images, result = [DownloadImages images]).
Proof.
  intros Hjust H. unfold coordinatePlan in H.
  apply bind_Ret in H as [st [Hrun Hdone]].
  exists st. split; [exact Hrun|].
  unfold done in Hdone. destruct (changes st) eqn:Hch; [|discriminate].
  rewrite Hjust in Hdone. injection Hdone as <-.
  split; [reflexivity|]. split; [reflexivity|].
  unfold runPipeline in Hrun. apply bind_Ret in Hrun as [st0 [Himg Hfold]].
  injection Hfold as <-.
  rewrite runFilters_downloads.
  apply coordImages_downloads in Himg as [_ Hprocs]; [|reflexivity].
  destruct Hprocs as [->|[images ->]]; simpl.
  - split; [constructor|]. left. reflexivity.
  - split; [repeat constructor|]. right. eauto.
Qed.

Lemma justImages_keeps_only_DownloadImages_witness :
  exists st,
    runPipeline "headnode" Scenario.noneLocal Scenario.justImagesPlan = Ret st
    /\ changes st = []
    /\ [DownloadImages [Scenario.imageB "cnapi"]]
       = List.filter isDownloadImages (procs st)
    /\ Forall (fun p => constructor_name p = "DownloadImages")
              [DownloadImages [Scenario.imageB "cnapi"]]
    /\ ([DownloadImages [Scenario.imageB "cnapi"]] = []
        \/ exists images,
             [DownloadImages [Scenario.imageB "cnapi"]] = [DownloadImages images]).
Proof.
  apply (justImages_keeps_only_DownloadImages "headnode" Scenario.noneLocal
           Scenario.justImagesPlan).
  - reflexivity.
  - vm_compute. reflexivity.
Defined.

(** C1 at a plan of two simple services: cnapi has its one instance on the
    headnode, vmapi has two instances.  updateSimpleServices takes the cnapi
    change and pushes the vmapi change neither to [handle] nor to
    [remaining]; [changes] becomes [remaining], and coordinatePlan succeeds
    with a procedure list in which the vmapi change is nowhere. *)
Theorem skipped_change_is_dropped_not_reported :
  coordinatePlan "headnode" Scenario.allLocal Scenario.cnapiAndVmapi
  = Ret [UpdateStatelessServicesV1
           [set_inst (Scenario.update "cnapi" (Scenario.imageB "cnapi"))
                     (Some (Scenario.instance "cnapi" "cnapi0" "headnode" "hn"))]]
  /\ In (Scenario.update "vmapi" (Scenario.imageB "vmapi"))
        (plan_changes Scenario.cnapiAndVmapi)
  /\ runPipeline "headnode" Scenario.allLocal
       (newUpdatePlan Scenario.inventory Scenario.inventory
          [Scenario.update "vmapi" (Scenario.imageB "vmapi")] false)
     = Ret (mkCstate [Scenario.update "vmapi" (Scenario.imageB "vmapi")] []).
Proof.
  split; [vm_compute; reflexivity|].
  split; [right; left; reflexivity|].
  vm_compute. reflexivity.
Qed.

End CoordinatorProps.

(** ** Properties of the plan builder *)

Module PlannerProps.

Import Planner.

(** *** Conflicts, in the words of the specification *)

Definition serviceLevel (ch : Change) : Prop := isTarg ch "service" = true.
Definition instanceLevel (ch : Change) : Prop := isTarg ch "instance" = true.

Definition sameService (a b : Change) : Prop :=
  svc_name (ch_service a) = svc_name (ch_service b).

Definition sameInstance (a b : Change) : Prop :=
  exists i j, ch_instance a = Some i /\ ch_instance b = Some j
              /\ inst_instance i = inst_instance j.

(** Two changes conflict: both on one service, both on one instance, or one
    on a service and the other on an instance of that service. *)
Definition conflicting (a b : Change) : Prop :=
  (serviceLevel a /\ serviceLevel b /\ sameService a b)
  \/ (instanceLevel a /\ instanceLevel b /\ sameInstance a b)
  \/ (serviceLevel a /\ instanceLevel b /\ sameService a b)
  \/ (instanceLevel a /\ serviceLevel b /\ sameService a b).

(** The list holds a conflicting pair, at two different places. *)
Definition hasConflict (cs : list Change) : Prop :=
  exists l1 a l2 b l3, cs = l1 ++ a :: l2 ++ b :: l3 /\ conflicting a b.

(** What normalizeChanges is to leave: a change is on a service, or on an
    instance it carries. *)
Definition normalized (ch : Change) : Prop :=
  serviceLevel ch \/ (instanceLevel ch /\ is_Some (ch_instance ch)).

Definition conflictError (e : error) : Prop :=
  exists msg, e = UpdateError ("conflict: " +:+ msg).

Lemma levels_exclusive ch : serviceLevel ch -> instanceLevel ch -> False.
Proof.
  unfold serviceLevel, instanceLevel, isTarg. destruct (typeTarg ch) as [t|]; [|discriminate].
  intros H1 H2. apply String.eqb_eq in H1, H2. subst. discriminate.
Qed.

(** A change of the list clashes with what the maps already hold. *)
Definition clashes (cs : list Change) (ms mi : gmap string Change) : Prop :=
  exists a, In a cs
    /\ ((serviceLevel a /\ is_Some (ms !! svc_name (ch_service a)))
        \/ (instanceLevel a
            /\ exists i, ch_instance a = Some i /\ is_Some (mi !! inst_instance i))).

(** Two changes of the same level on the same target. *)
Definition twins (a b : Change) : Prop :=
  (serviceLevel a /\ serviceLevel b /\ sameService a b)
  \/ (instanceLevel a /\ instanceLevel b /\ sameInstance a b).

Definition hasTwins (cs : list Change) : Prop :=
  exists l1 a l2 b l3, cs = l1 ++ a :: l2 ++ b :: l3 /\ twins a b.

Lemma hasTwins_cons a cs :
  hasTwins (a :: cs) <-> (exists b, In b cs /\ twins a b) \/ hasTwins cs.
Proof.
  split.
  - intros (l1 & x & l2 & y & l3 & E & T). destruct l1 as [|z l1]; simpl in E.
    + injection E as <- ->. left. exists y. split; [|exact T].
      apply in_or_app. right. left. reflexivity.
    + injection E as <- ->. right. exists l1, x, l2, y, l3. split; [reflexivity|exact T].
  - intros [(b & Hin & T)|(l1 & x & l2 & y & l3 & -> & T)].
    + apply in_split in Hin as (l2 & l3 & ->).
      exists [], a, l2, b, l3. split; [reflexivity|exact T].
    + exists (a :: l1), x, l2, y, l3. split; [reflexivity|exact T].
Qed.

Lemma clashes_nil ms mi : ~ clashes [] ms mi.
Proof. intros (a & [] & _). Qed.

Lemma hasTwins_nil : ~ hasTwins [].
Proof. intros (l1 & a & l2 & b & l3 & E & _). destruct l1; discriminate. Qed.

Lemma conflictError_service ch prev : conflictError (conflictSameService ch prev).
Proof.
  exists ("cannot make multiple changes to the same service: "
            +:+ reprFromChange ch +:+ " and " +:+ reprFromChange prev).
  reflexivity.
Qed.

Lemma conflictError_instance ch prev : conflictError (conflictSameInstance ch prev).
Proof.
  exists ("cannot make multiple changes to the same instance: "
            +:+ reprFromChange ch +:+ " and " +:+ reprFromChange prev).
  reflexivity.
Qed.

Lemma conflictError_both ch prev : conflictError (conflictServiceAndInstance ch prev).
Proof.
  exists ("cannot make changes to a service and an instance of that service: "
            +:+ reprFromChange ch +:+ " and " +:+ reprFromChange prev).
  reflexivity.
Qed.

Lemma firstLoop_spec cs :
  Forall normalized cs ->
  forall ms mi,
    match firstLoop cs ms mi with
    | Ret (ms', mi') =>
        ~ clashes cs ms mi /\ ~ hasTwins cs
        /\ (forall k, is_Some (ms' !! k) <->
              is_Some (ms !! k)
              \/ exists a, In a cs /\ serviceLevel a /\ svc_name (ch_service a) = k)
    | Raise e => conflictError e /\ (clashes cs ms mi \/ hasTwins cs)
    | Throws _ => False
    end.
Proof.
  induction 1 as [|ch cs Hn Hcs IH]; intros ms mi; simpl.
  - split; [apply clashes_nil|]. split; [apply hasTwins_nil|].
    intros k. split; [auto|]. intros [H|(a & [] & _)]. exact H.
  - destruct Hn as [Hs|[Hi [i Hinst]]].
    + (* a change on a service *)
      pose proof Hs as Hs'. unfold serviceLevel in Hs'. rewrite Hs'.
      destruct (ms !! svc_name (ch_service ch)) as [prev|] eqn:Hlook.
      { split; [apply conflictError_service|]. left. exists ch.
        split; [left; reflexivity|]. left. split; [exact Hs|]. rewrite Hlook. eauto. }
      specialize (IH (<[svc_name (ch_service ch) := ch]> ms) mi).
      destruct (firstLoop cs _ mi) as [[ms' mi']|e|x]; [| |exact IH].
      * destruct IH as (Hc & Ht & Hdom). split; [|split].
        -- intros (a & [<-|Hin] & [[Ha Hl]|[Ha Hl]]).
           ++ rewrite Hlook in Hl. destruct Hl as [? [=]].
           ++ exact (levels_exclusive _ Hs Ha).
           ++ apply Hc. exists a. split; [exact Hin|]. left. split; [exact Ha|].
              destruct (decide (svc_name (ch_service ch) = svc_name (ch_service a))) as [E|N].
              ** rewrite E, lookup_insert_eq. eauto.
              ** rewrite lookup_insert_ne by exact N. exact Hl.
           ++ apply Hc. exists a. split; [exact Hin|]. right. split; [exact Ha|exact Hl].
        -- rewrite hasTwins_cons. intros [(b & Hin & [(_ & Hb & E)|(Ha & _)])|H]; [| |exact (Ht H)].
           ++ apply Hc. exists b. split; [exact Hin|]. left. split; [exact Hb|].
              unfold sameService in E. rewrite <- E, lookup_insert_eq. eauto.
           ++ exact (levels_exclusive _ Hs Ha).
        -- intros k. rewrite Hdom. split.
           ++ intros [Hk|(a & Hin & Ha & E)].
              ** destruct (decide (svc_name (ch_service ch) = k)) as [E|N].
                 --- right. exists ch. split; [left; reflexivity|]. split; [exact Hs|exact E].
                 --- rewrite lookup_insert_ne in Hk by exact N. left. exact Hk.
              ** right. exists a. split; [right; exact Hin|]. split; [exact Ha|exact E].
           ++ intros [Hk|(a & [<-|Hin] & Ha & E)].
              ** left. destruct (decide (svc_name (ch_service ch) = k)) as [E|N].
                 --- rewrite E, lookup_insert_eq. eauto.
                 --- rewrite lookup_insert_ne by exact N. exact Hk.
              ** left. rewrite E, lookup_insert_eq. eauto.
              ** right. exists a. split; [exact Hin|]. split; [exact Ha|exact E].
      * destruct IH as (He & [(a & Hin & [[Ha Hl]|[Ha Hl]])|Ht]).
        -- split; [exact He|].
           destruct (decide (svc_name (ch_service ch) = svc_name (ch_service a))) as [E|N].
           ++ right. rewrite hasTwins_cons. left. exists a. split; [exact Hin|].
              left. split; [exact Hs|]. split; [exact Ha|exact E].
           ++ left. exists a. split; [right; exact Hin|]. left. split; [exact Ha|].
              rewrite lookup_insert_ne in Hl by exact N. exact Hl.
        -- split; [exact He|]. left. exists a. split; [right; exact Hin|].
           right. split; [exact Ha|exact Hl].
        -- split; [exact He|]. right. rewrite hasTwins_cons. right. exact Ht.
    + (* a change on an instance *)
      pose proof Hi as Hi'. unfold instanceLevel in Hi'. rewrite Hi'. simpl.
      destruct (isTarg ch "service") eqn:Hsv.
      { exfalso. exact (levels_exclusive ch Hsv Hi). }
      rewrite Hinst.
      destruct (mi !! inst_instance i) as [prev|] eqn:Hlook.
      { split; [apply conflictError_instance|]. left. exists ch.
        split; [left; reflexivity|]. right. split; [exact Hi|]. exists i.
        split; [exact Hinst|]. rewrite Hlook. eauto. }
      specialize (IH ms (<[inst_instance i := ch]> mi)).
      destruct (firstLoop cs ms _) as [[ms' mi']|e|x]; [| |exact IH].
      * destruct IH as (Hc & Ht & Hdom). split; [|split].
        -- intros (a & [<-|Hin] & [[Ha Hl]|[Ha (j & Hj & Hl)]]).
           ++ exact (levels_exclusive _ Ha Hi).
           ++ rewrite Hinst in Hj. injection Hj as <-. rewrite Hlook in Hl.
              destruct Hl as [? [=]].
           ++ apply Hc. exists a. split; [exact Hin|]. left. split; [exact Ha|exact Hl].
           ++ apply Hc. exists a. split; [exact Hin|]. right. split; [exact Ha|].
              exists j. split; [exact Hj|].
              destruct (decide (inst_instance i = inst_instance j)) as [E|N].
              ** rewrite E, lookup_insert_eq. eauto.
              ** rewrite lookup_insert_ne by exact N. exact Hl.
        -- rewrite hasTwins_cons. intros [(b & Hin & [(Ha & _)|(_ & Hb & T)])|H]; [| |exact (Ht H)].
           ++ exact (levels_exclusive _ Ha Hi).
           ++ destruct T as (i' & j & Hi2 & Hj & E). rewrite Hinst in Hi2.
              injection Hi2 as <-. apply Hc. exists b. split; [exact Hin|].
              right. split; [exact Hb|]. exists j. split; [exact Hj|].
              rewrite <- E, lookup_insert_eq. eauto.
        -- intros k. rewrite Hdom. split.
           ++ intros [Hk|(a & Hin & Ha & E)]; [left; exact Hk|].
              right. exists a. split; [right; exact Hin|]. split; [exact Ha|exact E].
           ++ intros [Hk|(a & [<-|Hin] & Ha & E)]; [left; exact Hk| |].
              ** exfalso. exact (levels_exclusive _ Ha Hi).
              ** right. exists a. split; [exact Hin|]. split; [exact Ha|exact E].
      * destruct IH as (He & [(a & Hin & [[Ha Hl]|[Ha (j & Hj & Hl)]])|Ht]).
        -- split; [exact He|]. left. exists a. split; [right; exact Hin|].
           left. split; [exact Ha|exact Hl].
        -- split; [exact He|].
           destruct (decide (inst_instance i = inst_instance j)) as [E|N].
           ++ right. rewrite hasTwins_cons. left. exists a. split; [exact Hin|].
              right. split; [exact Hi|]. split; [exact Ha|]. exists i, j. auto.
           ++ left. exists a. split; [right; exact Hin|]. right. split; [exact Ha|].
              exists j. split; [exact Hj|].
              rewrite lookup_insert_ne in Hl by exact N. exact Hl.
        -- split; [exact He|]. right. rewrite hasTwins_cons. right. exact Ht.
Qed.

Lemma secondLoop_spec cs ms :
  match secondLoop cs ms with
  | Ret _ =>
      ~ exists b, In b cs /\ instanceLevel b /\ is_Some (ms !! svc_name (ch_service b))
  | Raise e =>
      conflictError e
      /\ exists b, In b cs /\ instanceLevel b /\ is_Some (ms !! svc_name (ch_service b))
  | Throws _ => False
  end.
Proof.
  induction cs as [|ch cs IH]; simpl.
  - intros (b & [] & _).
  - destruct (isTarg ch "instance") eqn:Hi.
    + destruct (ms !! svc_name (ch_service ch)) as [prev|] eqn:Hlook.
      * split; [apply conflictError_both|]. exists ch. split; [left; reflexivity|].
        split; [exact Hi|]. rewrite Hlook. eauto.
      * destruct (secondLoop cs ms) as [u|e|x]; [| |exact IH].
        -- intros (b & [<-|Hin] & Hb & Hl).
           ++ rewrite Hlook in Hl. destruct Hl as [? [=]].
           ++ apply IH. exists b. auto.
        -- destruct IH as (He & b & Hin & Hb & Hl). split; [exact He|].
           exists b. split; [right; exact Hin|]. auto.
    + destruct (secondLoop cs ms) as [u|e|x]; [| |exact IH].
      * intros (b & [<-|Hin] & Hb & Hl).
        -- unfold instanceLevel in Hb. congruence.
        -- apply IH. exists b. auto.
      * destruct IH as (He & b & Hin & Hb & Hl). split; [exact He|].
        exists b. split; [right; exact Hin|]. auto.
Qed.

(** Two different members of a list stand at two places of it. *)
Lemma in_two_places {A} (a b : A) (l : list A) :
  In a l -> In b l -> a <> b ->
  (exists l1 l2 l3, l = l1 ++ a :: l2 ++ b :: l3)
  \/ (exists l1 l2 l3, l = l1 ++ b :: l2 ++ a :: l3).
Proof.
  intros Ha Hb Hne. apply in_split in Ha as (l1 & l2 & ->).
  apply in_app_or in Hb as [Hb|[Hb|Hb]].
  - right. apply in_split in Hb as (k1 & k2 & ->).
    exists k1, k2, l2. rewrite <- app_assoc. reflexivity.
  - contradiction.
  - left. apply in_split in Hb as (k1 & k2 & ->). exists l1, k1, k2. reflexivity.
Qed.

Lemma hasConflict_twins cs : hasTwins cs -> hasConflict cs.
Proof.
  intros (l1 & a & l2 & b & l3 & E & T). exists l1, a, l2, b, l3.
  split; [exact E|]. destruct T as [T|T]; [left|right; left]; exact T.
Qed.

(** The outcome of the check, and whether the list holds a conflict. *)
Lemma check_decides cs :
  Forall normalized cs ->
  (hasConflict cs
   /\ exists msg, checkForConflictingChanges cs = Raise (UpdateError ("conflict: " +:+ msg)))
  \/ (~ hasConflict cs /\ checkForConflictingChanges cs = Ret tt).
Proof.
  intros Hn. unfold checkForConflictingChanges.
  pose proof (firstLoop_spec cs Hn ∅ ∅) as H1.
  destruct (firstLoop cs ∅ ∅) as [[ms' mi']|e|x]; simpl; [| |contradiction].
  - destruct H1 as (_ & Ht & Hdom).
    pose proof (secondLoop_spec cs ms') as H2.
    destruct (secondLoop cs ms') as [[]|e|x]; [| |contradiction].
    + right. split; [|reflexivity].
      intros (l1 & a & l2 & b & l3 & E & [T|[T|[(Ha & Hb & S)|(Ha & Hb & S)]]]).
      * apply Ht. exists l1, a, l2, b, l3. split; [exact E|]. left. exact T.
      * apply Ht. exists l1, a, l2, b, l3. split; [exact E|]. right. exact T.
      * apply H2. exists b. split; [subst cs; apply in_or_app; right; right;
          apply in_or_app; right; left; reflexivity|]. split; [exact Hb|].
        apply Hdom. right. exists a. split; [subst cs; apply in_or_app; right; left;
          reflexivity|]. split; [exact Ha|exact S].
      * apply H2. exists a. split; [subst cs; apply in_or_app; right; left;
          reflexivity|]. split; [exact Ha|].
        apply Hdom. right. exists b. split; [subst cs; apply in_or_app; right; right;
          apply in_or_app; right; left; reflexivity|]. split; [exact Hb|].
        symmetry. exact S.
    + left. destruct H2 as ((msg & ->) & b & Hinb & Hb & Hl). split; [|eauto].
      apply Hdom in Hl as [Hl|(a & Hina & Ha & E)].
      { rewrite lookup_empty in Hl. destruct Hl as [? [=]]. }
      assert (a <> b) as Hne by (intros ->; exact (levels_exclusive _ Ha Hb)).
      destruct (in_two_places a b cs Hina Hinb Hne) as [(l1 & l2 & l3 & ->)|(l1 & l2 & l3 & ->)].
      * exists l1, a, l2, b, l3. split; [reflexivity|]. right. right. left. auto.
      * exists l1, b, l2, a, l3. split; [reflexivity|]. right. right. right.
        split; [exact Hb|]. split; [exact Ha|]. symmetry. exact E.
  - left. destruct H1 as ((msg & ->) & [Hc|Ht]).
    + exfalso. destruct Hc as (a & _ & [[_ Hl]|[_ (i & _ & Hl)]]);
        rewrite lookup_empty in Hl; destruct Hl as [? [=]].
    + split; [apply hasConflict_twins; exact Ht|eauto].
Qed.

(** Over a change list in which every instance-level change carries its
    instance, genUpdatePlan fails with an UpdateError whose message starts
    with 'conflict: ' whenever the list holds two service-level changes on
    one service, two instance-level changes on one instance, or a
    service-level and an instance-level change on one service; when it
    holds no such pair, the conflict check passes. *)
Theorem conflicting_changes_are_rejected (cs : list Change) :
  Forall normalized cs ->
  (hasConflict cs ->
   exists msg,
     checkForConflictingChanges cs = Raise (UpdateError ("conflict: " +:+ msg))
     /\ forall host getImage cfg opts servers insts,
          genUpdatePlan host getImage cfg opts servers insts cs
          = Raise (UpdateError ("conflict: " +:+ msg)))
  /\ (~ hasConflict cs -> checkForConflictingChanges cs = Ret tt).
Proof.
  intros Hn. destruct (check_decides cs Hn) as [(Hc & msg & E)|(Hc & E)].
  - split; [|intros Hno; contradiction].
    intros _. exists msg. split; [exact E|].
    intros. unfold genUpdatePlan. rewrite E. reflexivity.
  - split; [intros Hyes; contradiction|]. intros _. exact E.
Qed.

Lemma conflicting_changes_are_rejected_witness :
  Forall normalized Scenario.serviceAndInstance
  /\ hasConflict Scenario.serviceAndInstance
  /\ ((hasConflict Scenario.serviceAndInstance ->
       exists msg,
         checkForConflictingChanges Scenario.serviceAndInstance
         = Raise (UpdateError ("conflict: " +:+ msg))
         /\ forall host getImage cfg opts servers insts,
              genUpdatePlan host getImage cfg opts servers insts
                            Scenario.serviceAndInstance
              = Raise (UpdateError ("conflict: " +:+ msg)))
      /\ (~ hasConflict Scenario.serviceAndInstance ->
          checkForConflictingChanges Scenario.serviceAndInstance = Ret tt)).
Proof.
  assert (Forall normalized Scenario.serviceAndInstance) as Hn.
  { constructor; [left; reflexivity|].
    constructor; [|constructor].
    right. split; [reflexivity|]. eexists. reflexivity. }
  split; [exact Hn|]. split.
  - exists [], (Scenario.candidate "update-service" "imgapi" [Scenario.imageB "imgapi"]),
      [], (mkChange "update-instance" (Scenario.service "imgapi")
             (Some Scenario.imgapi0) None (Some [Scenario.imageB "imgapi"])
             None None None), [].
    split; [reflexivity|]. right. right. left. repeat split.
  - apply (conflicting_changes_are_rejected Scenario.serviceAndInstance Hn).
Defined.

(** C6 at the change list normalizeChanges leaves of a service update and
    an instance update given by service and server, both on imgapi: the
    list holds a service-level and an instance-level change on one service,
    and the check does not report the conflict.  It reads
    [ch.instance.instance] of the change without instance, the TypeError
    escapes, and genUpdatePlan ends with it.  The instance update alone, a
    list without any pair, ends the same way. *)
Theorem conflict_check_throws_without_instance :
  (exists a b,
     Scenario.serviceAndServer = [a; b]
     /\ serviceLevel a /\ instanceLevel b /\ sameService a b)
  /\ checkForConflictingChanges Scenario.serviceAndServer
     = Throws "TypeError: Cannot read property 'instance' of undefined"
  /\ genUpdatePlan "headnode" Scenario.allLocal Scenario.config
       Scenario.plainOptions Scenario.servers Scenario.inventory
       Scenario.serviceAndServer
     = Throws "TypeError: Cannot read property 'instance' of undefined"
  /\ checkForConflictingChanges (tail Scenario.serviceAndServer)
     = Throws "TypeError: Cannot read property 'instance' of undefined".
Proof.
  split.
  - eexists _, _. split; [reflexivity|]. repeat split.
  - split; [reflexivity|]. split; reflexivity.
Qed.

(** *** No-ops *)

Definition isUpdate (ch : Change) : Prop :=
  ch_type ch = "update-service" \/ ch_type ch = "update-instance".

(** Every current instance of the service runs image [u]; for a service
    without instances, [u] is the image set on the service. *)
Definition runsImage (insts : list Instance) (svc : Service) (u : string) : Prop :=
  ((exists i, In i insts /\ inst_service i = svc_name svc)
   /\ forall i, In i insts -> inst_service i = svc_name svc -> inst_image i = u)
  \/ ((forall i, In i insts -> inst_service i <> svc_name svc)
      /\ svc_image_uuid svc = Some u).

(** Every candidate of the change is the one image in use. *)
Definition sameImage (insts : list Instance) (ch : Change) : Prop :=
  exists u images,
    ch_images ch = Some images
    /\ runsImage insts (ch_service ch) u
    /\ Forall (fun img => img_uuid img = u) images.

(** What dropNoops removes. *)
Definition noop (opts : Options) (insts : list Instance) (ch : Change) : Prop :=
  isUpdate ch
  /\ (ch_images ch = Some []
      \/ (forceSameImage opts = false /\ sameImage insts ch)).

(** What the claim says it removes: the same-image rule for
    'update-service' only, and over the instances of the service. *)
Definition noopAsClaimed (opts : Options) (insts : list Instance) (ch : Change)
    : Prop :=
  (isUpdate ch /\ ch_images ch = Some [])
  \/ (forceSameImage opts = false
      /\ ch_type ch = "update-service"
      /\ exists img,
           ch_images ch = Some [img]
           /\ forall i, In i insts -> inst_service i = svc_name (ch_service ch) ->
                        inst_image i = img_uuid img).

(** The changes dropNoops can judge: an update carries its candidates, and
    where the same-image rule applies to a service without instances, the
    service names its image. *)
Definition judgeable (opts : Options) (insts : list Instance) (ch : Change) : Prop :=
  isUpdate ch ->
  exists images,
    ch_images ch = Some images
    /\ (images <> [] -> forceSameImage opts = false ->
        (exists i, In i insts /\ inst_service i = svc_name (ch_service ch))
        \/ exists u, svc_image_uuid (ch_service ch) = Some u /\ u <> "").

(** The step of [keysOf]. *)
Definition keyStep (acc : list string) (k : string) : list string :=
  if existsb (String.eqb k) acc then acc else acc ++ [k].

Lemma keys_grow l : forall acc, length acc <= length (fold_left keyStep l acc).
Proof.
  induction l as [|x l IH]; intros acc; simpl; [lia|].
  etransitivity; [|apply IH]. unfold keyStep.
  destruct (existsb _ acc); [lia|]. rewrite length_app. simpl. lia.
Qed.

Lemma keys_single u v l :
  fold_left keyStep l [u] = [v] <-> v = u /\ Forall (fun x => x = u) l.
Proof.
  induction l as [|x l IH]; simpl.
  - split; [intros [= ->]; auto|intros [-> _]; reflexivity].
  - unfold keyStep at 2. simpl. destruct (String.eqb_spec x u) as [->|N]; simpl.
    + rewrite IH. split; intros [-> H]; split; auto. inversion H; auto.
    + split.
      * intros E. pose proof (keys_grow l [u; x]) as G. rewrite E in G. simpl in G. lia.
      * intros [_ H]. inversion H. contradiction.
Qed.

Lemma keysOf_nil l : keysOf l = [] <-> l = [].
Proof.
  unfold keysOf. destruct l as [|x l]; simpl; [tauto|].
  split; [|discriminate]. intros E.
  pose proof (keys_grow l [x]) as G. change (fold_left keyStep l [x] = []) in E.
  rewrite E in G. simpl in G. lia.
Qed.

Lemma keysOf_single l u :
  keysOf l = [u] <-> l <> [] /\ Forall (fun x => x = u) l.
Proof.
  unfold keysOf. destruct l as [|x l]; simpl.
  - split; [discriminate|intros [H _]; contradiction].
  - change (fold_left keyStep l [x] = [u] <-> (x :: l <> [] /\ Forall (fun y => y = u) (x :: l))).
    rewrite keys_single. split.
    + intros [-> H]. split; [discriminate|]. constructor; auto.
    + intros [_ H]. inversion H; subst. auto.
Qed.

Lemma filter_nil_iff {A} (f : A -> bool) (l : list A) :
  List.filter f l = [] <-> forall x, In x l -> f x = false.
Proof.
  induction l as [|a l IH]; simpl.
  - split; [intros _ x []|reflexivity].
  - destruct (f a) eqn:E.
    + split; [discriminate|]. intros H. specialize (H a (or_introl eq_refl)). congruence.
    + rewrite IH. split.
      * intros H x [<-|Hx]; auto.
      * intros H x Hx. apply H. right. exact Hx.
Qed.

Lemma currImgUuids_instances insts svc :
  (exists i, In i insts /\ inst_service i = svc_name svc) ->
  exists used,
    currImgUuids insts svc = Ret used
    /\ used <> []
    /\ forall u, used = [u] <->
         forall i, In i insts -> inst_service i = svc_name svc -> inst_image i = u.
Proof.
  intros (i0 & Hin0 & Hs0). unfold currImgUuids.
  set (mine := List.filter (fun i => String.eqb (inst_service i) (svc_name svc)) insts).
  assert (In i0 mine) as Hmine.
  { apply filter_In. split; [exact Hin0|]. apply String.eqb_eq. exact Hs0. }
  assert (map inst_image mine <> []) as Hne.
  { destruct mine; [destruct Hmine|discriminate]. }
  destruct (keysOf (map inst_image mine)) as [|k ks] eqn:Hk.
  { apply (proj1 (keysOf_nil _)) in Hk. exact (False_ind _ (Hne Hk)). }
  exists (k :: ks). split; [reflexivity|]. split; [discriminate|].
  intros u. rewrite <- Hk, keysOf_single. split.
  - intros [_ Hall] i Hin Hs. rewrite List.Forall_forall in Hall. apply Hall.
    apply in_map_iff. exists i. split; [reflexivity|].
    apply filter_In. split; [exact Hin|]. apply String.eqb_eq. exact Hs.
  - intros Hall. split; [exact Hne|]. apply List.Forall_forall. intros x Hx.
    apply in_map_iff in Hx as (i & <- & Hi). apply filter_In in Hi as [Hin Hs].
    apply Hall; [exact Hin|]. apply String.eqb_eq. exact Hs.
Qed.

Lemma currImgUuids_default insts svc u :
  (forall i, In i insts -> inst_service i <> svc_name svc) ->
  svc_image_uuid svc = Some u -> u <> "" ->
  currImgUuids insts svc = Ret [u].
Proof.
  intros Hnone Hu Hne. unfold currImgUuids.
  assert (List.filter (fun i => String.eqb (inst_service i) (svc_name svc)) insts = []) as ->.
  { apply filter_nil_iff. intros i Hin. apply String.eqb_neq. apply Hnone. exact Hin. }
  simpl. rewrite Hu. unfold truthy.
  destruct (String.eqb_spec u ""); [contradiction|reflexivity].
Qed.

Lemma sansCurr_nil images u :
  List.filter (fun img => negb (String.eqb (img_uuid img) u)) images = []
  <-> Forall (fun img => img_uuid img = u) images.
Proof.
  rewrite filter_nil_iff, List.Forall_forall. split; intros H x Hx; specialize (H x Hx).
  - apply negb_false_iff, String.eqb_eq in H. exact H.
  - apply negb_false_iff, String.eqb_eq. exact H.
Qed.

Lemma isUpdate_eqb ch :
  (String.eqb (ch_type ch) "update-service" || String.eqb (ch_type ch) "update-instance") = true
  <-> isUpdate ch.
Proof.
  unfold isUpdate. rewrite orb_true_iff, !String.eqb_eq. reflexivity.
Qed.

Lemma keepChange_spec opts insts ch :
  judgeable opts insts ch ->
  exists keep, keepChange opts insts ch = Ret keep
               /\ (keep = false <-> noop opts insts ch).
Proof.
  intros Hj. unfold keepChange.
  destruct (String.eqb (ch_type ch) "update-service"
            || String.eqb (ch_type ch) "update-instance") eqn:Hup.
  2:{ exists true. split; [reflexivity|]. split; [discriminate|].
      intros [Hu _]. apply isUpdate_eqb in Hu. congruence. }
  apply isUpdate_eqb in Hup. destruct (Hj Hup) as (images & Himgs & Hsrc).
  rewrite Himgs. destruct images as [|img0 images].
  { exists false. split; [reflexivity|]. split; [|reflexivity].
    intros _. split; [exact Hup|]. left. exact Himgs. }
  destruct (forceSameImage opts) eqn:Hf; simpl.
  { exists true. split; [reflexivity|]. split; [discriminate|].
    intros [_ [E|[E _]]]; congruence. }
  assert (forall curr,
      (forall u, runsImage insts (ch_service ch) u <-> u = curr) ->
      exists keep,
        match List.filter (fun img => negb (String.eqb (img_uuid img) curr)) (img0 :: images) with
        | [] => Ret false
        | _ :: _ => Ret true
        end = (Ret keep : result error bool)
        /\ (keep = false <-> noop opts insts ch)) as Hone.
  { intros curr Hruns.
    destruct (List.filter _ (img0 :: images)) as [|x xs] eqn:Hs.
    - exists false. split; [reflexivity|]. split; [|reflexivity]. intros _.
      split; [exact Hup|]. right. split; [exact Hf|].
      exists curr, (img0 :: images). split; [exact Himgs|].
      split; [apply Hruns; reflexivity|]. apply sansCurr_nil. exact Hs.
    - exists true. split; [reflexivity|]. split; [discriminate|].
      intros [_ [E|[_ (u & imgs & E & Hr & Hall)]]]; [congruence|].
      rewrite Himgs in E. injection E as <-. apply Hruns in Hr. subst u.
      apply sansCurr_nil in Hall. congruence. }
  assert ((exists i, In i insts /\ inst_service i = svc_name (ch_service ch))
          \/ forall i, In i insts -> inst_service i <> svc_name (ch_service ch)) as [Hinst|Hnone].
  { destruct (List.filter (fun i => String.eqb (inst_service i) (svc_name (ch_service ch))) insts)
      as [|i l] eqn:Hfl.
    - right. intros i Hin. apply String.eqb_neq.
      exact (proj1 (filter_nil_iff _ _) Hfl i Hin).
    - left. exists i. assert (In i (i :: l)) as Hi by (left; reflexivity).
      rewrite <- Hfl in Hi. apply filter_In in Hi as [Hin Hs].
      split; [exact Hin|]. apply String.eqb_eq. exact Hs. }
  - destruct (currImgUuids_instances insts (ch_service ch) Hinst)
      as (used & -> & Hused & Hsingle). simpl.
    destruct used as [|curr [|other rest]]; [contradiction| |].
    + apply Hone. intros u. split.
      * intros [[_ Hall]|[Hnone _]].
        -- apply Hsingle in Hall. congruence.
        -- destruct Hinst as (i & Hin & Hs). destruct (Hnone i Hin Hs).
      * intros ->. left. split; [exact Hinst|]. apply Hsingle. reflexivity.
    + exists true. split; [reflexivity|]. split; [discriminate|].
      intros [_ [E|[_ (u & imgs & _ & [[_ Hall]|[Hnone _]] & _)]]]; [congruence| |].
      * apply Hsingle in Hall. discriminate.
      * destruct Hinst as (i & Hin & Hs). destruct (Hnone i Hin Hs).
  - destruct (Hsrc ltac:(discriminate) eq_refl) as [(i & Hin & Hs)|(u & Hu & Hne)].
    { destruct (Hnone i Hin Hs). }
    rewrite (currImgUuids_default insts (ch_service ch) u Hnone Hu Hne). simpl.
    apply Hone. intros u'. split.
    + intros [[(i & Hin & Hs) _]|[_ E]]; [destruct (Hnone i Hin Hs)|congruence].
    + intros ->. right. split; [exact Hnone|exact Hu].
Qed.

Lemma dropNoops_filter opts insts cs :
  Forall (judgeable opts insts) cs ->
  exists keep : Change -> bool,
    (forall ch, In ch cs -> (keep ch = false <-> noop opts insts ch))
    /\ dropNoops opts insts cs = Ret (List.filter keep cs).
Proof.
  intros Hj.
  exists (fun ch => match keepChange opts insts ch with Ret b => b | _ => true end).
  split.
  - intros ch Hin. rewrite List.Forall_forall in Hj.
    destruct (keepChange_spec opts insts ch (Hj ch Hin)) as (b & -> & Hb). exact Hb.
  - induction Hj as [|ch cs Hch Hcs IH]; simpl; [reflexivity|].
    destruct (keepChange_spec opts insts ch Hch) as (b & -> & _). simpl.
    rewrite IH. simpl. reflexivity.
Qed.

(** The changes dropNoops cannot judge: an update without a list of
    candidates, or, the same-image rule applying, one with candidates for
    a service that has neither an instance nor an image set. *)
Definition unjudgeable (opts : Options) (insts : list Instance) (ch : Change) : Prop :=
  isUpdate ch
  /\ (ch_images ch = None
      \/ (exists images, ch_images ch = Some images /\ images <> [])
         /\ forceSameImage opts = false
         /\ (forall i, In i insts -> inst_service i <> svc_name (ch_service ch))
         /\ (svc_image_uuid (ch_service ch) = None
             \/ svc_image_uuid (ch_service ch) = Some "")).

Lemma judgeable_cases opts insts ch :
  judgeable opts insts ch \/ unjudgeable opts insts ch.
Proof.
  unfold judgeable, unjudgeable.
  destruct (String.eqb (ch_type ch) "update-service"
            || String.eqb (ch_type ch) "update-instance") eqn:Hup.
  2:{ left. intros Hu. apply isUpdate_eqb in Hu. congruence. }
  apply isUpdate_eqb in Hup.
  destruct (ch_images ch) as [images|] eqn:Hi; [|right; auto].
  destruct images as [|img images].
  { left. intros _. exists []. split; [reflexivity|]. intros H. contradiction. }
  destruct (forceSameImage opts) eqn:Hf.
  { left. intros _. eexists. split; [reflexivity|]. intros _ H. discriminate. }
  destruct (List.filter (fun i => String.eqb (inst_service i) (svc_name (ch_service ch))) insts)
    as [|i l] eqn:Hfl.
  - assert (Hnone : forall i, In i insts -> inst_service i <> svc_name (ch_service ch)).
    { intros i Hin. apply String.eqb_neq. exact (proj1 (filter_nil_iff _ _) Hfl i Hin). }
    destruct (svc_image_uuid (ch_service ch)) as [u|] eqn:Hu.
    + destruct (String.eqb_spec u "") as [->|Hne].
      * right. split; [exact Hup|]. right.
        split; [exists (img :: images); split; [reflexivity | discriminate]|].
        split; [reflexivity|].
        split; [exact Hnone | right; reflexivity].
      * left. intros _. eexists. split; [reflexivity|]. intros _ _. right. eauto.
    + right. split; [exact Hup|]. right.
      split; [exists (img :: images); split; [reflexivity | discriminate]|].
      split; [reflexivity|]. split; [exact Hnone | left; reflexivity].
  - left. intros _. eexists. split; [reflexivity|]. intros _ _. left.
    exists i. assert (In i (i :: l)) as Hin by (left; reflexivity).
    rewrite <- Hfl in Hin. apply filter_In in Hin as [Hin Hs].
    split; [exact Hin|]. apply String.eqb_eq. exact Hs.
Qed.

Lemma keepChange_throws opts insts ch :
  unjudgeable opts insts ch -> exists exn, keepChange opts insts ch = Throws exn.
Proof.
  intros [Hup Hcase]. unfold keepChange.
  rewrite (proj2 (isUpdate_eqb ch) Hup).
  destruct Hcase as [-> | ((images & -> & Hne) & Hf & Hnone & Hu)]; [eauto|].
  destruct images as [|img images]; [contradiction|].
  rewrite Hf. simpl. unfold currImgUuids.
  assert (List.filter (fun i => String.eqb (inst_service i) (svc_name (ch_service ch))) insts
          = []) as ->.
  { apply filter_nil_iff. intros i Hin. apply String.eqb_neq. apply Hnone. exact Hin. }
  simpl. destruct Hu as [-> | ->]; simpl; eauto.
Qed.

Lemma dropNoops_throws opts insts cs :
  Exists (unjudgeable opts insts) cs ->
  exists exn, dropNoops opts insts cs = Throws exn.
Proof.
  induction cs as [|ch cs IH]; intros H; [inversion H|]. simpl.
  destruct (judgeable_cases opts insts ch) as [Hj|Hu].
  - destruct (keepChange_spec opts insts ch Hj) as (b & -> & _). simpl.
    inversion H as [? ? Hc|? ? Hc]; subst.
    + destruct (keepChange_throws _ _ _ Hc) as [exn E].
      destruct (keepChange_spec opts insts ch Hj) as (b' & E' & _). congruence.
    + destruct (IH Hc) as [exn ->]. simpl. eauto.
  - destruct (keepChange_throws _ _ _ Hu) as [exn ->]. simpl. eauto.
Qed.

Lemma judgeable_all opts insts cs :
  Forall (judgeable opts insts) cs \/ Exists (unjudgeable opts insts) cs.
Proof.
  induction cs as [|ch cs [IH|IH]].
  - left. constructor.
  - destruct (judgeable_cases opts insts ch) as [Hj|Hu].
    + left. constructor; assumption.
    + right. left. exact Hu.
  - right. right. exact IH.
Qed.

(** C7, as the code has it: dropNoops removes exactly the no-ops, which are
    the 'update-service' and 'update-instance' changes without candidates
    and, unless [forceSameImage], those whose every candidate is the one
    image all instances of the service run (for a service without
    instances: the image set on the service); every other change stays, in
    its place.  That is so when every update carries its candidates and,
    where the same-image rule falls back on the service, the service has
    its [params.image_uuid]; in every other case dropNoops ends with an
    exception and yields no list. *)
Theorem dropNoops_removes_exactly_the_noops
    (opts : Options) (insts : list Instance) (cs : list Change) :
  (Forall (judgeable opts insts) cs \/ Exists (unjudgeable opts insts) cs)
  /\ (Forall (judgeable opts insts) cs ->
      exists keep : Change -> bool,
        (forall ch, In ch cs -> (keep ch = false <-> noop opts insts ch))
        /\ dropNoops opts insts cs = Ret (List.filter keep cs))
  /\ (Exists (unjudgeable opts insts) cs ->
      exists exn, dropNoops opts insts cs = Throws exn).
Proof.
  split; [apply judgeable_all|]. split.
  - apply dropNoops_filter.
  - apply dropNoops_throws.
Qed.

Lemma dropNoops_removes_exactly_the_noops_witness :
  let cs := [Scenario.candidate "update-service" "papi" [Scenario.imageA "papi"];
             Scenario.candidate "update-service" "cnapi"
               [Scenario.imageA "cnapi"; Scenario.imageB "cnapi"];
             Scenario.candidate "update-service" "vmapi" []] in
  exists keep : Change -> bool,
    (forall ch, In ch cs ->
                (keep ch = false <-> noop Scenario.plainOptions Scenario.inventory ch))
    /\ dropNoops Scenario.plainOptions Scenario.inventory cs
       = Ret (List.filter keep cs).
Proof.
  intros cs.
  apply (proj1 (proj2 (dropNoops_removes_exactly_the_noops
                         Scenario.plainOptions Scenario.inventory cs))).
  repeat constructor.
  - intros _. eexists. split; [reflexivity|]. intros _ _. right.
    exists "IA". split; [reflexivity|discriminate].
  - intros _. eexists. split; [reflexivity|]. intros _ _. left.
    eexists. split; [left; reflexivity|reflexivity].
  - intros _. eexists. split; [reflexivity|]. intros H. contradiction.
Defined.

(** The claim's same-image rule reads the instances of the service only.
    For a service without instances (all of them, none, run the one
    candidate) it has the change removed; dropNoops compares the candidate
    with the image set on the service and keeps the change when they
    differ.  Read the other way (no instance, so no image that the
    instances run, and the change is retained), the claim fails on the
    second change, which dropNoops removes: the two changes differ in
    nothing the claim's rule looks at. *)
Lemma dropNoops_reads_the_image_set_on_the_service :
  let kept := Scenario.candidate "update-service" "papi" [Scenario.imageB "papi"] in
  let dropped := Scenario.candidate "update-service" "papi" [Scenario.imageA "papi"] in
  noopAsClaimed Scenario.plainOptions Scenario.inventory kept
  /\ dropNoops Scenario.plainOptions Scenario.inventory [kept] = Ret [kept]
  /\ dropNoops Scenario.plainOptions Scenario.inventory [dropped] = Ret [].
Proof.
  intros kept dropped. split; [|split; reflexivity].
  right. split; [reflexivity|]. split; [reflexivity|].
  exists (Scenario.imageB "papi"). split; [reflexivity|].
  intros i [<-|[<-|[<-|[]]]]; discriminate.
Qed.

(** *** The target of a plan *)

(** The names of the services the list changes as services. *)
Definition svcNames (cs : list Change) : list string :=
  map (fun ch => svc_name (ch_service ch))
      (List.filter (fun ch => isTarg ch "service") cs).

Lemma firstLoop_names cs :
  forall ms mi r,
    firstLoop cs ms mi = Ret r ->
    List.NoDup (svcNames cs) /\ forall k, In k (svcNames cs) -> ms !! k = None.
Proof.
  induction cs as [|ch cs IH]; intros ms mi r; simpl.
  - intros _. split; [constructor|]. intros k [].
  - unfold svcNames. simpl. destruct (isTarg ch "service") eqn:Hs; simpl.
    + destruct (ms !! svc_name (ch_service ch)) eqn:Hl; [discriminate|].
      intros H. apply IH in H as [Hnd Hfree]. split.
      * constructor; [|exact Hnd]. intros Hin. specialize (Hfree _ Hin).
        rewrite lookup_insert_eq in Hfree. discriminate.
      * intros k [<-|Hin]; [exact Hl|]. specialize (Hfree _ Hin).
        destruct (decide (svc_name (ch_service ch) = k)) as [E|N].
        -- rewrite <- E, lookup_insert_eq in Hfree. discriminate.
        -- rewrite lookup_insert_ne in Hfree by exact N. exact Hfree.
    + destruct (negb (isTarg ch "instance")); [discriminate|].
      destruct (ch_instance ch) as [i|]; [|discriminate].
      destruct (mi !! inst_instance i); [discriminate|].
      intros H. apply IH in H. exact H.
Qed.

Lemma check_names cs :
  checkForConflictingChanges cs = Ret tt -> List.NoDup (svcNames cs).
Proof.
  unfold checkForConflictingChanges. intros H.
  destruct (firstLoop cs ∅ ∅) as [r|e|x] eqn:E; try discriminate.
  apply firstLoop_names in E as [Hnd _]. exact Hnd.
Qed.

Lemma NoDup_map_filter {A B} (f : A -> B) (p : A -> bool) (l : list A) :
  List.NoDup (map f l) -> List.NoDup (map f (List.filter p l)).
Proof.
  induction l as [|a l IH]; simpl; [auto|].
  intros H. inversion H as [|? ? Hnotin Hnd]; subst. destruct (p a); simpl.
  - constructor; [|auto]. intros Hin. apply Hnotin.
    apply in_map_iff in Hin as (x & E & Hx). apply in_map_iff. exists x.
    split; [exact E|]. apply filter_In in Hx. tauto.
  - auto.
Qed.

Lemma filter_comm {A} (p q : A -> bool) (l : list A) :
  List.filter p (List.filter q l) = List.filter q (List.filter p l).
Proof.
  induction l as [|a l IH]; simpl; [reflexivity|].
  destruct (p a) eqn:P, (q a) eqn:Q; simpl; rewrite ?P, ?Q, IH; reflexivity.
Qed.

Lemma dropNoops_keeps opts insts cs l :
  dropNoops opts insts cs = Ret l ->
  exists keep : Change -> bool, l = List.filter keep cs.
Proof.
  intros H.
  exists (fun ch => match keepChange opts insts ch with Ret b => b | _ => true end).
  revert l H. induction cs as [|ch cs IH]; simpl; intros l H.
  - injection H as <-. reflexivity.
  - destruct (keepChange opts insts ch) as [b|e|x]; simpl in H; try discriminate.
    destruct (dropNoops opts insts cs) as [l'|e|x]; simpl in H; try discriminate.
    injection H as <-. rewrite (IH l' eq_refl). reflexivity.
Qed.

Lemma resolveChange_same ch ch' :
  resolveChange ch = Ret ch' ->
  ch_type ch' = ch_type ch /\ ch_service ch' = ch_service ch.
Proof.
  unfold resolveChange. destruct (ch_image ch).
  - intros [= <-]. split; reflexivity.
  - destruct (ch_images ch) as [[|i l]|]; try discriminate; intros [= <-]; split; reflexivity.
Qed.

Lemma isTarg_same a b what : ch_type a = ch_type b -> isTarg a what = isTarg b what.
Proof. unfold isTarg, typeTarg. intros ->. reflexivity. Qed.

Lemma svcNames_cons ch cs :
  svcNames (ch :: cs)
  = if isTarg ch "service" then svc_name (ch_service ch) :: svcNames cs
    else svcNames cs.
Proof. unfold svcNames. simpl. destruct (isTarg ch "service"); reflexivity. Qed.

Lemma resolveDeps_names cs cs' :
  resolveDeps cs = Ret cs' -> svcNames cs' = svcNames cs.
Proof.
  revert cs'. induction cs as [|ch cs IH]; simpl; intros cs' H.
  - injection H as <-. reflexivity.
  - destruct (resolveChange ch) as [ch'|e|x] eqn:E; simpl in H; try discriminate.
    destruct (resolveDeps cs) as [l|e|x]; simpl in H; try discriminate.
    injection H as <-. apply resolveChange_same in E as [Et Es].
    rewrite !svcNames_cons, (isTarg_same ch' ch "service" Et), Es, (IH l eq_refl).
    reflexivity.
Qed.

Lemma resolveDeps_types cs cs' :
  resolveDeps cs = Ret cs' -> map ch_type cs' = map ch_type cs.
Proof.
  revert cs'. induction cs as [|ch cs IH]; simpl; intros cs' H.
  - injection H as <-. reflexivity.
  - destruct (resolveChange ch) as [ch'|e|x] eqn:E; simpl in H; try discriminate.
    destruct (resolveDeps cs) as [l|e|x]; simpl in H; try discriminate.
    injection H as <-. apply resolveChange_same in E as [Et Es].
    simpl. rewrite Et, (IH l eq_refl). reflexivity.
Qed.

(** *** createPlan *)

(** The target entry differs from the current one in image and version at
    most. *)
Definition sameButImage (c t : Instance) : Prop :=
  t = set_image_version c (inst_image t) (inst_version t).

(** What one 'update-service' change does to one instance. *)
Definition updatedBy (ch : Change) (c t : Instance) : Prop :=
  if String.eqb (inst_service c) (svc_name (ch_service ch))
  then exists img, ch_image ch = Some img
                   /\ t = set_image_version c (img_uuid img) (img_version img)
  else t = c.

Lemma applyUpdateService_spec ch targ targ' :
  applyUpdateService ch targ = Ret targ' -> Forall2 (updatedBy ch) targ targ'.
Proof.
  revert targ'. induction targ as [|inst rest IH]; simpl; intros targ' H.
  - injection H as <-. constructor.
  - destruct (String.eqb (inst_service inst) (svc_name (ch_service ch))) eqn:E.
    + destruct (ch_image ch) as [img|] eqn:Himg; [|discriminate].
      destruct (applyUpdateService ch rest) as [l|e|x]; simpl in H; try discriminate.
      injection H as <-. constructor; [|apply IH; reflexivity].
      unfold updatedBy. rewrite E. exists img. split; [exact Himg|reflexivity].
    + destruct (applyUpdateService ch rest) as [l|e|x]; simpl in H; try discriminate.
      injection H as <-. constructor; [|apply IH; reflexivity].
      unfold updatedBy. rewrite E. reflexivity.
Qed.

(** What the whole change list does to one instance. *)
Definition targetOf (cs : list Change) (c t : Instance) : Prop :=
  sameButImage c t
  /\ (forall ch, In ch cs -> svc_name (ch_service ch) = inst_service c ->
        exists img, ch_image ch = Some img
                    /\ inst_image t = img_uuid img
                    /\ inst_version t = img_version img)
  /\ ((forall ch, In ch cs -> svc_name (ch_service ch) <> inst_service c) -> t = c).

Lemma sameButImage_refl c : sameButImage c c.
Proof. unfold sameButImage. destruct c; reflexivity. Qed.

Lemma applyChanges_spec cs :
  List.NoDup (map (fun ch => svc_name (ch_service ch)) cs) ->
  forall targ targ',
    applyChanges cs targ = Ret targ' ->
    Forall (fun ch => ch_type ch = "update-service") cs
    /\ Forall2 (targetOf cs) targ targ'.
Proof.
  induction cs as [|ch cs IH]; simpl; intros Hnd targ targ' H.
  - injection H as <-. split; [constructor|].
    induction targ as [|c targ IHt]; constructor; [|exact IHt].
    split; [apply sameButImage_refl|]. split; [intros ch []|reflexivity].
  - destruct (String.eqb_spec (ch_type ch) "update-service") as [Ht|]; [|discriminate].
    destruct (applyUpdateService ch targ) as [mid|e|x] eqn:E; simpl in H; try discriminate.
    inversion Hnd as [|? ? Hfresh Hnd']; subst.
    apply (IH Hnd' mid targ') in H as [Hty Hrest].
    split; [constructor; assumption|].
    apply applyUpdateService_spec in E.
    clear IH Hnd Hnd' Hty Ht. revert targ' Hrest.
    induction E as [|c m targ mid Hcm E IHE]; intros targ' Hrest.
    + inversion Hrest. constructor.
    + inversion Hrest as [|? t ? rest' Hmt Hrest']; subst.
      constructor; [|apply IHE; exact Hrest'].
      destruct Hmt as (Hsame & Hhit & Hmiss). unfold updatedBy in Hcm.
      destruct (String.eqb_spec (inst_service c) (svc_name (ch_service ch))) as [Es|Ns].
      * destruct Hcm as (img & Himg & ->).
        assert (t = set_image_version c (img_uuid img) (img_version img)) as ->.
        { apply Hmiss. intros ch' Hin Hname. apply Hfresh. apply in_map_iff.
          exists ch'. split; [|exact Hin]. simpl in Hname. congruence. }
        split; [reflexivity|]. split.
        -- intros ch' [<-|Hin] Hname.
           ++ exists img. repeat split. exact Himg.
           ++ exfalso. apply Hfresh. apply in_map_iff. exists ch'.
              split; [|exact Hin]. congruence.
        -- intros Hnone. exfalso. apply (Hnone ch); [left; reflexivity|]. auto.
      * subst m. split; [exact Hsame|]. split.
        -- intros ch' [<-|Hin] Hname; [congruence|]. apply Hhit; assumption.
        -- intros Hnone. apply Hmiss. intros ch' Hin. apply Hnone. right. exact Hin.
Qed.

Lemma applyChanges_types cs :
  forall targ targ',
    applyChanges cs targ = Ret targ' ->
    Forall (fun ch => ch_type ch = "update-service") cs.
Proof.
  induction cs as [|ch cs IH]; simpl; intros targ targ' H; [constructor|].
  destruct (String.eqb_spec (ch_type ch) "update-service") as [Ht|]; [|discriminate].
  destruct (applyUpdateService ch targ) as [mid|e|x]; simpl in H; try discriminate.
  constructor; [exact Ht|]. exact (IH mid targ' H).
Qed.

Lemma svcNames_all cs :
  Forall (fun ch => ch_type ch = "update-service") cs ->
  svcNames cs = map (fun ch => svc_name (ch_service ch)) cs.
Proof.
  induction 1 as [|ch cs Ht _ IH]; [reflexivity|].
  rewrite svcNames_cons. unfold isTarg, typeTarg. rewrite Ht. simpl.
  rewrite IH. reflexivity.
Qed.

Lemma targetOf_ids cs curr targ :
  Forall2 (targetOf cs) curr targ ->
  map inst_instance targ = map inst_instance curr.
Proof.
  induction 1 as [|c t curr targ Hct _ IH]; [reflexivity|].
  simpl. rewrite IH. destruct Hct as (Hs & _). unfold sameButImage in Hs.
  rewrite Hs. reflexivity.
Qed.

(** C5: in every plan genUpdatePlan produces, [curr] is the inventory, [targ]
    lists the same instance identifiers in the same order, each target entry
    differs from its current entry in image and version at most, an instance
    of a service the plan changes carries the uuid and version of that
    change's image, and an instance of any other service is unchanged. *)
Theorem targ_is_curr_with_new_images
    (host : string) (getImage : string -> Coordinator.imgapi_reply)
    (cfg : Config) (opts : Options) (servers : list Server)
    (insts : list Instance) (cs : list Change) (plan : UpdatePlan) :
  genUpdatePlan host getImage cfg opts servers insts cs = Ret plan ->
  plan_curr plan = insts
  /\ map inst_instance (plan_targ plan) = map inst_instance (plan_curr plan)
  /\ Forall2 (targetOf (plan_changes plan)) (plan_curr plan) (plan_targ plan).
Proof.
  unfold genUpdatePlan. intros H.
  apply CoordinatorProps.bind_Ret in H as ([] & Hcheck & H).
  apply CoordinatorProps.bind_Ret in H as (cs1 & Hdrop & H).
  apply CoordinatorProps.bind_Ret in H as (cs2 & Hres & H).
  apply CoordinatorProps.bind_Ret in H as (_ & _ & H).
  apply CoordinatorProps.bind_Ret in H as (_ & _ & H).
  apply CoordinatorProps.bind_Ret in H as (_ & _ & H).
  apply CoordinatorProps.bind_Ret in H as (plan0 & Hcreate & H).
  unfold determineProcedures in H.
  apply CoordinatorProps.bind_Ret in H as (procs & _ & H). injection H as <-.
  unfold createPlan in Hcreate.
  apply CoordinatorProps.bind_Ret in Hcreate as (targ & Happly & Hplan).
  injection Hplan as <-. simpl.
  assert (Forall2 (targetOf cs2) insts targ) as Htarg.
  { refine (proj2 (applyChanges_spec cs2 _ insts targ Happly)).
    rewrite <- (svcNames_all cs2 (applyChanges_types cs2 insts targ Happly)).
    rewrite (resolveDeps_names cs1 cs2 Hres).
    destruct (dropNoops_keeps opts insts cs cs1 Hdrop) as (keep & ->).
    unfold svcNames. rewrite filter_comm. apply NoDup_map_filter.
    exact (check_names cs Hcheck). }
  split; [reflexivity|]. split; [|exact Htarg].
  exact (targetOf_ids cs2 insts targ Htarg).
Qed.

Lemma targ_is_curr_with_new_images_witness :
  exists plan,
    genUpdatePlan "headnode" Scenario.allLocal Scenario.config
      Scenario.plainOptions Scenario.servers Scenario.inventory
      [Scenario.candidate "update-service" "cnapi"
         [Scenario.imageA "cnapi"; Scenario.imageB "cnapi"]]
    = Ret plan
    /\ plan_curr plan = Scenario.inventory
    /\ map inst_instance (plan_targ plan) = map inst_instance (plan_curr plan)
    /\ Forall2 (targetOf (plan_changes plan)) (plan_curr plan) (plan_targ plan)
    /\ map inst_image (plan_targ plan) = ["IB"; "IA"; "IA"].
Proof.
  eexists. split; [vm_compute; reflexivity|].
  split; [|split; [|split]].
  4: reflexivity.
  all: apply (targ_is_curr_with_new_images "headnode" Scenario.allLocal
                Scenario.config Scenario.plainOptions Scenario.servers
                Scenario.inventory
                [Scenario.candidate "update-service" "cnapi"
                   [Scenario.imageA "cnapi"; Scenario.imageB "cnapi"]]);
    vm_compute; reflexivity.
Defined.

End PlannerProps.

(** ** Properties of the serialized plan *)

Module PlanFileProps.

Import PlanFile.









End PlanFileProps.

(** ** Properties of the manatee update *)

Module ManateeProps.

Import Manatee ManateeSpec.

(** *** The wait for a shard state *)

Lemma ask_eq w h c : ask w h c = (h ++ [(c, w h c)], w h c).
Proof. reflexivity. Qed.

Lemma waitForStatus_run state server zone w :
  forall fuel counter h,
    (counter < waitLimit)%nat -> (waitLimit <= counter + fuel)%nat ->
    exists t sig,
      _waitForStatus fuel counter state server zone w h = (h ++ t, sig)
      /\ waitRun state server zone counter t sig.
Proof.
  induction fuel as [|fuel IH]; intros counter h Hlt Hfuel; [lia|].
  simpl. unfold getShardStatus. rewrite ask_eq.
  set (r := w h (GetShardStatus server zone)).
  destruct (r_err r) as [e|] eqn:Herr.
  { exists [poll server zone r], (Next (Some e)). split; [reflexivity|].
    apply wait_error. exact Herr. }
  destruct (r_shard r) as [obj|] eqn:Hobj.
  2:{ eexists [poll server zone r], _. split; [reflexivity|].
      apply wait_malformed; assumption. }
  destruct (String.eqb_spec (modeOf obj) state) as [Hm|Hm].
  { exists [poll server zone r], (Next None). split; [reflexivity|].
    apply (wait_reached _ _ _ _ r obj); [split; assumption|exact Hm]. }
  destruct (Nat.ltb_spec (counter + 1) waitLimit) as [Hc|Hc].
  - destruct (IH (counter + 1)%nat
                 ((h ++ [(GetShardStatus server zone, r)])
                    ++ [(SetTimeout 5000,
                         w (h ++ [(GetShardStatus server zone, r)]) (SetTimeout 5000))])
                 Hc ltac:(lia)) as (t & sig & -> & Hrun).
    eexists (poll server zone r :: (SetTimeout 5000, _) :: t), sig.
    split; [rewrite <- !app_assoc; reflexivity|].
    apply (wait_again _ _ _ _ r obj); [split; assumption|exact Hm|exact Hc|exact Hrun].
  - exists [poll server zone r], (Next (Some (timedOut state))).
    split; [reflexivity|].
    apply (wait_timeout _ _ _ _ r obj); [split; assumption|exact Hm|exact Hc].
Qed.

Lemma waitForManatee_run state server zone w h :
  exists t sig,
    waitForManatee state server zone w h = (h ++ t, sig)
    /\ waitRun state server zone 0 t sig.
Proof.
  apply waitForStatus_run; unfold waitLimit; lia.
Qed.

Lemma waitRun_polls state server zone counter t sig :
  waitRun state server zone counter t sig ->
  (counter < waitLimit)%nat ->
  (polls t + counter <= waitLimit)%nat.
Proof.
  induction 1; intros Hlt; unfold polls in *; simpl in *; try lia.
Qed.

Lemma waitRun_not_pending state server zone counter t sig :
  waitRun state server zone counter t sig -> sig <> Pending.
Proof. induction 1; try discriminate. assumption. Qed.

Lemma waitRun_polled state server zone counter t sig :
  waitRun state server zone counter t sig -> (1 <= polls t)%nat.
Proof. induction 1; unfold polls; simpl; lia. Qed.

Lemma withPeer_found role field k w fuel st h p :
  shard st !! role = Some p ->
  withPeer role field k w fuel st h = k p w fuel st h.
Proof. unfold withPeer. intros ->. reflexivity. Qed.

(** C3: a wait-for-shard-mode step polls the status of its peer, with five
    seconds between one poll and the next, at least once and at most 180
    times; it succeeds at the poll that shows the mode wanted, and the 180th
    poll that does not show it ends the wait with the timeout error (an
    error of the status command or output that does not parse ends it at
    once).  Ended otherwise than by success, the step ends the pipeline
    there: no later stage runs and the state is as it was. *)
Theorem shard_wait_is_bounded
    (state role : string) (p : Peer) (w : World) (fuel : nat)
    (st : pstate) (h : trace) :
  shard st !! role = Some p ->
  exists t sig,
    waitForShard state role w fuel st h = (h ++ t, st, sig)
    /\ waitRun state (server_uuid p) (zoneId p) 0 t sig
    /\ (1 <= polls t <= 180)%nat
    /\ sig <> Pending
    /\ forall rest,
         sig <> Next None ->
         pipeline (waitForShard state role :: rest) w fuel st h
         = (h ++ t, st, outcomeOf sig).
Proof.
  intros Hp. unfold waitForShard. rewrite (withPeer_found _ _ _ _ _ _ _ p Hp).
  destruct (waitForManatee_run state (server_uuid p) (zoneId p) w h)
    as (t & sig & E & Hrun).
  exists t, sig. rewrite E. split; [reflexivity|]. split; [exact Hrun|].
  split.
  { split; [exact (waitRun_polled _ _ _ _ _ _ Hrun)|].
    pose proof (waitRun_polls _ _ _ _ _ _ Hrun) as H. unfold waitLimit in H. lia. }
  split; [exact (waitRun_not_pending _ _ _ _ _ _ Hrun)|].
  intros rest Hsig. simpl. rewrite (withPeer_found _ _ _ _ _ _ _ p Hp), E.
  destruct sig as [[e|]| | |]; try reflexivity. contradiction.
Qed.

(** *** Pipelines and scripts *)

(** A stage follows a segment, over the states that satisfy [I]. *)
Definition sat (I : pstate -> Prop) (f : stage) (s : segment) : Prop :=
  forall w fuel st h,
    I st ->
    exists t st' sig,
      f w fuel st h = (h ++ t, st', sig)
      /\ I st'
      /\ (sig = Next None -> completes s t)
      /\ (sig <> Next None -> aborts s t (outcomeOf sig)).

Lemma pipeline_runs I fs ss :
  Forall2 (sat I) fs ss ->
  forall w fuel st h,
    I st ->
    exists t st' o,
      pipeline fs w fuel st h = (h ++ t, st', o) /\ I st' /\ runs ss t o.
Proof.
  induction 1 as [|f s fs ss Hf _ IH]; intros w fuel st h Hst; simpl.
  - exists [], st, (Completed None). rewrite app_nil_r.
    split; [reflexivity|]. split; [exact Hst|constructor].
  - destruct (Hf w fuel st h Hst) as (t1 & st1 & sig & -> & Hst1 & Hok & Hbad).
    assert (sig = Next None \/ sig <> Next None) as [->|Hsig].
    { destruct sig as [[e|]| | |]; (left; reflexivity) || (right; discriminate). }
    + destruct (IH w fuel st1 (h ++ t1) Hst1) as (t2 & st2 & o & -> & Hst2 & Hruns).
      exists (t1 ++ t2), st2, o. rewrite app_assoc.
      split; [reflexivity|]. split; [exact Hst2|].
      apply runs_next; [apply Hok; reflexivity|exact Hruns].
    + exists t1, st1, (outcomeOf sig). split.
      * destruct sig as [[e|]| | |]; try reflexivity. contradiction.
      * split; [exact Hst1|]. apply runs_abort. apply Hbad. exact Hsig.
Qed.

Lemma pipeline_app fs gs w fuel st h :
  pipeline (fs ++ gs) w fuel st h
  = match pipeline fs w fuel st h with
    | (h', st', Completed None) => pipeline gs w fuel st' h'
    | r => r
    end.
Proof.
  revert st h. induction fs as [|f fs IH]; intros st h; simpl; [reflexivity|].
  destruct (f w fuel st h) as [[h1 st1] sig].
  destruct sig as [[e|]| | |]; try reflexivity. apply IH.
Qed.

Lemma runs_idle ss t o : runs (idle :: ss) t o <-> runs ss t o.
Proof.
  split.
  - inversion 1 as [|? ? ? ? Hab|? ? ? ? ? Hc Hr]; subst.
    + destruct Hab.
    + simpl in Hc. subst. exact Hr.
  - intros H. apply (runs_next idle ss [] t o); [reflexivity|exact H].
Qed.

(** *** Stages and their segments *)

Lemma sat_skip I : sat I skip idle.
Proof.
  intros w fuel st h Hst. exists [], st, (Next None). rewrite app_nil_r.
  split; [reflexivity|]. split; [exact Hst|]. split; [reflexivity|].
  intros H. contradiction.
Qed.

Lemma sat_command I c call' :
  (forall st, I st -> c st = call') ->
  sat I (command c) (cmd call').
Proof.
  intros Hc w fuel st h Hst. unfold command. rewrite ask_eq, (Hc st Hst).
  exists [(call', w h call')], st, (Next (r_err (w h call'))).
  split; [reflexivity|]. split; [exact Hst|]. split.
  - intros [= E]. exists (w h call'). split; [reflexivity|exact E].
  - intros Hne. destruct (r_err (w h call')) as [e|] eqn:E; [|contradiction].
    exists (w h call'), e. repeat split. exact E.
Qed.

Lemma sat_sleep I ms : sat I (sleep ms) (pause ms).
Proof.
  intros w fuel st h Hst. unfold sleep. rewrite ask_eq.
  exists [(SetTimeout ms, w h (SetTimeout ms))], st, (Next None).
  split; [reflexivity|]. split; [exact Hst|]. split.
  - intros _. eexists. reflexivity.
  - intros H. contradiction.
Qed.

Lemma sat_withPeer (I : pstate -> Prop) role field k s p :
  (forall st, I st -> shard st !! role = Some p) ->
  sat I (k p) s ->
  sat I (withPeer role field k) s.
Proof.
  intros Hp Hk w fuel st h Hst.
  rewrite (withPeer_found _ _ _ _ _ _ _ p (Hp st Hst)). exact (Hk w fuel st h Hst).
Qed.

Lemma sat_wait I state p :
  sat I (fun w _ st h =>
           let '(h', sig) := waitForManatee state (server_uuid p) (zoneId p) w h in
           (h', st, sig))
        (wait state p).
Proof.
  intros w fuel st h Hst.
  destruct (waitForManatee_run state (server_uuid p) (zoneId p) w h)
    as (t & sig & E & Hrun).
  exists t, st, sig. rewrite E. split; [reflexivity|]. split; [exact Hst|]. split.
  - intros ->. exact Hrun.
  - intros Hne. exists sig. auto.
Qed.

Lemma promotion_run server zone orig w :
  forall fuel h,
    exists t sig,
      _waitForShardPromotion fuel 0 server zone (Some orig) w h = (h ++ t, sig)
      /\ promotionRun server zone (zoneId orig) t sig.
Proof.
  induction fuel as [|fuel IH]; intros h.
  { exists [], Pending. rewrite app_nil_r. split; [reflexivity|constructor]. }
  simpl. unfold getShardStatus. rewrite ask_eq.
  set (r := w h (GetShardStatus server zone)).
  destruct (r_err r) as [e|] eqn:Herr.
  { exists [poll server zone r], (Next (Some e)). split; [reflexivity|].
    apply promotion_error. exact Herr. }
  destruct (r_shard r) as [obj|] eqn:Hobj.
  2:{ eexists [poll server zone r], _. split; [reflexivity|].
      apply promotion_malformed; assumption. }
  destruct (sdc obj ≫= (.!! "primary")) as [p|] eqn:Hprim.
  2:{ eexists [poll server zone r], _. split; [reflexivity|].
      apply (promotion_no_primary _ _ _ r obj); [split; assumption|exact Hprim]. }
  destruct (String.eqb_spec (zoneId p) (zoneId orig)) as [Hz|Hz]; simpl.
  - destruct (IH ((h ++ [(GetShardStatus server zone, r)])
                    ++ [(SetTimeout 5000,
                         w (h ++ [(GetShardStatus server zone, r)]) (SetTimeout 5000))]))
      as (t & sig & -> & Hrun).
    eexists (poll server zone r :: (SetTimeout 5000, _) :: t), sig.
    split; [rewrite <- !app_assoc; reflexivity|].
    apply (promotion_again _ _ _ r obj p); [split; assumption|exact Hprim|exact Hz|exact Hrun].
  - exists [poll server zone r], (Next None). split; [reflexivity|].
    apply (promotion_seen _ _ _ r obj p); [split; assumption|exact Hprim|exact Hz].
Qed.

Lemma sat_promotion (I : pstate -> Prop) a p :
  (forall st, I st -> shard st !! "primary" = Some p) ->
  sat I (fun w fuel st h =>
           let '(h', sig) :=
             _waitForShardPromotion fuel 0 (server_uuid a) (zoneId a)
                                    (shard st !! "primary") w h in
           (h', st, sig))
        (promotion a p).
Proof.
  intros Hp w fuel st h Hst. rewrite (Hp st Hst).
  destruct (promotion_run (server_uuid a) (zoneId a) p w fuel h) as (t & sig & E & Hrun).
  exists t, st, sig. rewrite E. split; [reflexivity|]. split; [exact Hst|]. split.
  - intros ->. exact Hrun.
  - intros Hne. exists sig. auto.
Qed.

(** *** The update of a full shard *)

Section FullShard.

Variable hostname : string.
Variable change : Change.
Variable img : Image.
Variable st1 : pstate.
Variables primary sync async : Peer.

Hypothesis HHA : HA change = true.
Hypothesis Himg : ch_image change = Some img.
Hypothesis Hprimary : shard st1 !! "primary" = Some primary.
Hypothesis Hsync : shard st1 !! "sync" = Some sync.
Hypothesis Hasync : shard st1 !! "async" = Some async.

Let I : pstate -> Prop := fun st => st = st1.

Lemma lookup_primary st : I st -> shard st !! "primary" = Some primary.
Proof. intros ->. exact Hprimary. Qed.
Lemma lookup_sync st : I st -> shard st !! "sync" = Some sync.
Proof. intros ->. exact Hsync. Qed.
Lemma lookup_async st : I st -> shard st !! "async" = Some async.
Proof. intros ->. exact Hasync. Qed.

Lemma onlyHA_on f : onlyHA change f = f.
Proof. unfold onlyHA. rewrite HHA. reflexivity. Qed.

Lemma onlyNoHA_off f : onlyNoHA change f = skip.
Proof. unfold onlyNoHA. rewrite HHA. reflexivity. Qed.

Lemma sat_disable role p :
  (forall st, I st -> shard st !! role = Some p) ->
  sat I (disablePeer role) (cmd (DisableManatee (server_uuid p) (zoneId p))).
Proof.
  intros Hp. unfold disablePeer. apply (sat_withPeer I _ _ _ _ p Hp).
  apply sat_command. reflexivity.
Qed.

Lemma sat_reprovision role p :
  (forall st, I st -> shard st !! role = Some p) ->
  sat I (reprovisionPeer change role)
        (cmd (ReprovisionRemote (server_uuid p) (zoneId p) (Some img))).
Proof.
  intros Hp. unfold reprovisionPeer. apply (sat_withPeer I _ _ _ _ p Hp).
  apply sat_command. intros st _. rewrite Himg. reflexivity.
Qed.

Lemma sat_waitForShard state role p :
  (forall st, I st -> shard st !! role = Some p) ->
  sat I (waitForShard state role) (wait state p).
Proof.
  intros Hp. unfold waitForShard. apply (sat_withPeer I _ _ _ _ p Hp).
  apply sat_wait.
Qed.

Lemma sat_pauseFor role p :
  (forall st, I st -> shard st !! role = Some p) ->
  sat I (pauseFor role) (pause 60000).
Proof.
  intros Hp. unfold pauseFor. apply (sat_withPeer I _ _ _ _ p Hp).
  apply sat_sleep.
Qed.

Lemma sat_installOn server :
  sat I (installOn change server) (cmd (ImgadmInstallRemote server (Some img))).
Proof. unfold installOn. rewrite Himg. apply sat_command. reflexivity. Qed.

Lemma sat_installAsync :
  sat I (installImageAsyncServer change) (install img async [primary]).
Proof.
  unfold installImageAsyncServer. rewrite onlyHA_on.
  apply (sat_withPeer I _ _ _ _ async lookup_async).
  apply (sat_withPeer I _ _ _ _ primary lookup_primary).
  unfold install. simpl.
  destruct (sameServer (server_uuid async) (server_uuid primary)); simpl.
  - apply sat_skip.
  - apply sat_installOn.
Qed.

Lemma sat_installSync :
  sat I (installImageSyncServer change) (install img sync [primary; async]).
Proof.
  unfold installImageSyncServer. rewrite onlyHA_on.
  apply (sat_withPeer I _ _ _ _ sync lookup_sync).
  apply (sat_withPeer I _ _ _ _ primary lookup_primary).
  unfold install. simpl.
  destruct (sameServer (server_uuid sync) (server_uuid primary)); simpl.
  - apply sat_skip.
  - apply (sat_withPeer I _ _ _ _ async lookup_async).
    destruct (sameServer (server_uuid sync) (server_uuid async)); simpl.
    + apply sat_skip.
    + apply sat_installOn.
Qed.

Lemma sat_waitForShardPromotion :
  sat I (waitForShardPromotion change) (promotion async primary).
Proof.
  unfold waitForShardPromotion. rewrite onlyHA_on.
  apply (sat_withPeer I _ _ _ _ async lookup_async).
  apply sat_promotion. exact lookup_primary.
Qed.

(** The stages after verifyFullHA. *)
Definition peerStages : list stage := tail (updateStages change).

Lemma peerStages_script :
  Forall2 (sat I) peerStages
    ([cmd (DisableManatee (server_uuid async) (zoneId async));
      wait "sync" primary;
      install img async [primary];
      cmd (ReprovisionRemote (server_uuid async) (zoneId async) (Some img));
      pause 60000;
      wait "async" primary;
      cmd (DisableManatee (server_uuid sync) (zoneId sync));
      wait "sync" primary;
      install img sync [primary; async];
      cmd (ReprovisionRemote (server_uuid sync) (zoneId sync) (Some img));
      pause 60000;
      wait "async" primary;
      cmd (DisableManatee (server_uuid primary) (zoneId primary));
      promotion async primary;
      idle; idle; idle;
      cmd (ReprovisionRemote (server_uuid primary) (zoneId primary) (Some img));
      pause 60000;
      idle; idle;
      wait "async" async]).
Proof.
  unfold peerStages, updateStages. simpl.
  unfold disableAsync, waitForAsyncDisabled, reprovisionAsync, waitForAsync, waitForHA,
    disableSync, waitForSyncDisabled, reprovisionSync, waitForSync, waitForHASync,
    disablePrimaryManatee, getLocalSapi, setSapiProtoMode, restartSapiIntoProtoMode,
    reprovisionPrimary, waitForPrimaryInstance, waitForPrimaryPG, resetSapiToFullMode,
    waitForShardHA.
  rewrite !onlyHA_on, !onlyNoHA_off.
  constructor; [exact (sat_disable _ _ lookup_async)|].
  constructor; [exact (sat_waitForShard _ _ _ lookup_primary)|].
  constructor; [exact sat_installAsync|].
  constructor; [exact (sat_reprovision _ _ lookup_async)|].
  constructor; [exact (sat_pauseFor _ _ lookup_async)|].
  constructor; [exact (sat_waitForShard _ _ _ lookup_primary)|].
  constructor; [exact (sat_disable _ _ lookup_sync)|].
  constructor; [exact (sat_waitForShard _ _ _ lookup_primary)|].
  constructor; [exact sat_installSync|].
  constructor; [exact (sat_reprovision _ _ lookup_sync)|].
  constructor; [exact (sat_pauseFor _ _ lookup_sync)|].
  constructor; [exact (sat_waitForShard _ _ _ lookup_primary)|].
  constructor; [exact (sat_disable _ _ lookup_primary)|].
  constructor; [exact sat_waitForShardPromotion|].
  constructor; [exact (sat_skip I)|].
  constructor; [exact (sat_skip I)|].
  constructor; [exact (sat_skip I)|].
  constructor; [exact (sat_reprovision _ _ lookup_primary)|].
  constructor; [exact (sat_pauseFor _ _ lookup_primary)|].
  constructor; [exact (sat_skip I)|].
  constructor; [exact (sat_skip I)|].
  constructor; [exact (sat_waitForShard _ _ _ lookup_async)|].
  constructor.
Qed.

Lemma runs_tail s ss ss' :
  (forall t o, runs ss t o -> runs ss' t o) ->
  forall t o, runs (s :: ss) t o -> runs (s :: ss') t o.
Proof.
  intros H t o R. inversion R; subst.
  - apply runs_abort. assumption.
  - apply runs_next; [assumption|]. apply H. assumption.
Qed.

Lemma peerStages_run w fuel h :
  exists t o,
    pipeline peerStages w fuel st1 h = (h ++ t, st1, o)
    /\ runs (haScript img primary sync async) t o.
Proof.
  destruct (pipeline_runs I _ _ peerStages_script w fuel st1 h eq_refl)
    as (t & st' & o & E & -> & R).
  exists t, o. split; [exact E|]. clear E.
  revert t o R. unfold haScript.
  do 14 (apply runs_tail). intros t o R.
  rewrite !runs_idle in R. revert t o R.
  do 2 (apply runs_tail). intros t o R.
  rewrite !runs_idle in R. exact R.
Qed.

End FullShard.

(** *** Stages as steps of allowed commands *)

Definition anyState : pstate -> Prop := fun _ => True.

Lemma fine_allowed good e : fine good e -> allowed good e.
Proof. intros [H _]. exact H. Qed.

Lemma failedBy_app t1 t2 o : failedBy t2 o -> failedBy (t1 ++ t2) o.
Proof.
  intros [Hne Hlast]. split; [exact Hne|]. intros e He.
  destruct (Hlast e He) as (pre & c & r & -> & Hr).
  exists (t1 ++ pre), c, r. rewrite app_assoc. auto.
Qed.

Lemma outcomeOf_failed sig :
  sig <> Next None -> outcomeOf sig <> Completed None.
Proof. destruct sig as [[e|]| | |]; simpl; intros H; congruence. Qed.

Lemma steps_command good c :
  (forall st, good (c st) = true) ->
  sat anyState (command c) (steps good).
Proof.
  intros Hc w fuel st h _. unfold command. rewrite ask_eq.
  set (r := w h (c st)).
  exists [(c st, r)], st, (Next (r_err r)).
  split; [reflexivity|]. split; [exact Logic.I|]. split.
  - intros [= E]. constructor; [|constructor]. split; [apply Hc|]. right. exact E.
  - intros Hne. split; [constructor; [apply Hc|constructor]|].
    split; [apply outcomeOf_failed; exact Hne|].
    simpl. intros e [= E]. exists [], (c st), r. split; [reflexivity|exact E].
Qed.

(** A stage without commands that does not report an error. *)
Lemma steps_silent good (f : stage) :
  (forall w fuel st h,
     exists st' sig, f w fuel st h = (h, st', sig) /\ forall e, sig <> Next (Some e)) ->
  sat anyState f (steps good).
Proof.
  intros Hf w fuel st h _. destruct (Hf w fuel st h) as (st' & sig & -> & Hsig).
  exists [], st', sig. rewrite app_nil_r.
  split; [reflexivity|]. split; [exact Logic.I|]. split.
  - intros _. constructor.
  - intros Hne. split; [constructor|]. split; [apply outcomeOf_failed; exact Hne|].
    intros e He. destruct sig as [[e'|]| | |]; simpl in He; try discriminate.
    injection He as ->. destruct (Hsig e eq_refl).
Qed.

Lemma steps_skip good : sat anyState skip (steps good).
Proof.
  apply steps_silent. intros w fuel st h. exists st, (Next None).
  split; [reflexivity|discriminate].
Qed.

Lemma steps_throwing good x : sat anyState (throwing x) (steps good).
Proof.
  apply steps_silent. intros w fuel st h. exists st, (Thrown x).
  split; [reflexivity|discriminate].
Qed.

Lemma steps_withPeer good role field k :
  (forall p, sat anyState (k p) (steps good)) ->
  sat anyState (withPeer role field k) (steps good).
Proof.
  intros Hk w fuel st h Hst. unfold withPeer.
  destruct (shard st !! role) as [p|].
  - exact (Hk p w fuel st h Hst).
  - exact (steps_throwing good _ w fuel st h Hst).
Qed.

Lemma steps_sleep good ms :
  good (SetTimeout ms) = true -> sat anyState (sleep ms) (steps good).
Proof.
  intros Hg w fuel st h _. unfold sleep. rewrite ask_eq.
  exists [(SetTimeout ms, w h (SetTimeout ms))], st, (Next None).
  split; [reflexivity|]. split; [exact Logic.I|]. split.
  - intros _. constructor; [|constructor]. split; [exact Hg|]. left. reflexivity.
  - intros H. contradiction.
Qed.

Lemma steps_getLocalManatee good hostname change :
  sat anyState (getLocalManatee hostname change) (steps good).
Proof.
  apply steps_silent. intros w fuel st h. unfold getLocalManatee.
  destruct (if negb (HA change) then _ else _) as [uuid|].
  - eexists _, (Next None). split; [reflexivity|discriminate].
  - eexists _, (Thrown _). split; [reflexivity|discriminate].
Qed.

Lemma steps_getShardServers good change :
  sat anyState (getShardServers change) (steps good).
Proof.
  apply steps_silent. intros w fuel st h. unfold getShardServers.
  destruct (negb (HA change)).
  - destruct (shard st !! "primary") as [p|].
    + destruct (ch_inst change) as [i|].
      * eexists _, (Next None). split; [reflexivity|discriminate].
      * eexists _, (Thrown _). split; [reflexivity|discriminate].
    + eexists _, (Thrown _). split; [reflexivity|discriminate].
  - destruct (forallb _ _).
    + eexists _, (Next None). split; [reflexivity|discriminate].
    + eexists _, (Thrown _). split; [reflexivity|discriminate].
Qed.

Lemma steps_getShard good :
  (forall u, good (GetShardStatusLocally u) = true) ->
  sat anyState getShard (steps good).
Proof.
  intros Hg w fuel st h _. unfold getShard. rewrite ask_eq.
  set (c := GetShardStatusLocally (manateeUUID st)). set (r := w h c).
  assert (Forall (allowed good) [(c, r)]) as Hal.
  { constructor; [apply Hg|constructor]. }
  destruct (r_err r) as [e|] eqn:Herr.
  { exists [(c, r)], st, (Next (Some e)). split; [reflexivity|].
    split; [exact Logic.I|]. split; [discriminate|]. intros _.
    split; [exact Hal|]. split; [discriminate|].
    simpl. intros e' [= <-]. exists [], c, r. auto. }
  assert (forall st' x, exists t st'' sig,
             (h ++ [(c, r)], st', Thrown x) = (h ++ t, st'', sig)
             /\ anyState st''
             /\ (sig = Next None -> completes (steps good) t)
             /\ (sig <> Next None -> aborts (steps good) t (outcomeOf sig))) as Hthrow.
  { intros st' x. exists [(c, r)], st', (Thrown x). split; [reflexivity|].
    split; [exact Logic.I|]. split; [discriminate|]. intros _.
    split; [exact Hal|]. split; discriminate. }
  destruct (r_shard r) as [status|]; [|apply Hthrow].
  destruct (sdc status) as [roles|]; [|apply Hthrow].
  exists [(c, r)], (set_shard st (roles ∪ shard st)), (Next None).
  split; [reflexivity|]. split; [exact Logic.I|]. split.
  - intros _. constructor; [|constructor]. split; [apply Hg|]. right. exact Herr.
  - intros H. contradiction.
Qed.

(** Every segment of the script is [steps good]. *)
Lemma runs_steps good ss t o :
  Forall (fun s => s = steps good) ss ->
  runs ss t o ->
  Forall (allowed good) t
  /\ (o = Completed None -> Forall (fine good) t)
  /\ (o <> Completed None -> failedBy t o).
Proof.
  intros Hss R. induction R as [|s ss t o Hab|s ss t1 t2 o Hc R IH].
  - split; [constructor|]. split; [constructor|]. intros H. contradiction.
  - inversion Hss as [|? ? Hs _]; subst. destruct Hab as [Hal Hf].
    split; [exact Hal|]. split; [|intros _; exact Hf].
    intros ->. destruct Hf as [Hne _]. contradiction.
  - inversion Hss as [|? ? Hs Hss']; subst. destruct (IH Hss') as (Hal & Hfine & Hfail).
    simpl in Hc. split; [|split].
    + apply Forall_app. split; [|exact Hal].
      eapply List.Forall_impl; [|exact Hc]. intros e. apply fine_allowed.
    + intros Ho. apply Forall_app. split; [exact Hc|apply Hfine; exact Ho].
    + intros Ho. apply failedBy_app. apply Hfail. exact Ho.
Qed.

Lemma pipeline_steps good fs :
  Forall (fun f => sat anyState f (steps good)) fs ->
  forall w fuel st h,
    exists t st' o,
      pipeline fs w fuel st h = (h ++ t, st', o)
      /\ Forall (allowed good) t
      /\ (o = Completed None -> Forall (fine good) t)
      /\ (o <> Completed None -> failedBy t o).
Proof.
  intros Hfs w fuel st h.
  assert (Forall2 (sat anyState) fs (map (fun _ => steps good) fs)) as H2.
  { induction Hfs; simpl; constructor; assumption. }
  destruct (pipeline_runs anyState _ _ H2 w fuel st h Logic.I) as (t & st' & o & E & _ & R).
  exists t, st', o. split; [exact E|].
  apply (runs_steps good (map (fun _ => steps good) fs)); [|exact R].
  clear. induction fs; simpl; constructor; auto.
Qed.

Lemma pipeline_cons f rest w fuel st h :
  pipeline (f :: rest) w fuel st h
  = let '(h', st', sig) := f w fuel st h in
    match sig with
    | Next None => pipeline rest w fuel st' h'
    | _ => (h', st', outcomeOf sig)
    end.
Proof. reflexivity. Qed.

(** The stages before installPrimaryImage. *)
Definition firstStages (hostname : string) (change : Change) : list stage :=
  [command (fun _ => GetUserScript);
   command (fun _ => WriteOldUserScriptForRollback);
   command (fun _ => UpdateSvcUserScript)]
  ++ (if negb (HA change) then [command (fun _ => UpdateVmUserScript)]
      else map updateInstUserScript (instsOf change))
  ++ [command (fun _ => UpdateSapiSvc);
      getLocalManatee hostname change; getShard; getShardServers change].

Lemma setupStages_split hostname change :
  setupStages hostname change
  = firstStages hostname change ++ [installPrimaryImage change].
Proof.
  unfold setupStages, firstStages. rewrite <- !app_assoc. reflexivity.
Qed.

Definition untouched (c : call) : bool := negb (touches c).
Definition unrestored (c : call) : bool := negb (restores c).

Lemma firstStages_steps good hostname change :
  (forall c, touches c = false -> restores c = false -> good c = true) ->
  Forall (fun f => sat anyState f (steps good)) (firstStages hostname change).
Proof.
  intros Hg. unfold firstStages.
  assert (forall c, touches c = false -> restores c = false ->
                    sat anyState (command (fun _ => c)) (steps good)) as Hcmd.
  { intros c H1 H2. apply steps_command. intros _. apply Hg; assumption. }
  apply Forall_app. split.
  { repeat constructor; apply Hcmd; reflexivity. }
  apply Forall_app. split.
  - destruct (negb (HA change)).
    + repeat constructor. apply Hcmd; reflexivity.
    + apply List.Forall_forall. intros f Hf. apply in_map_iff in Hf as (i & <- & _).
      apply Hcmd; reflexivity.
  - constructor; [apply Hcmd; reflexivity|].
    constructor; [apply steps_getLocalManatee|].
    constructor; [apply steps_getShard; intros u; apply Hg; reflexivity|].
    constructor; [apply steps_getShardServers|constructor].
Qed.

(** C2: when the change has more than one instance, the trace of
    updateManatee is a setup, in which no peer is disabled or reprovisioned,
    followed by nothing or by a run of the script [haScript]: the async peer
    is disabled, the shard is waited to 'sync', async is reprovisioned and
    the shard waited back to 'async'; only then is the sync peer disabled,
    the shard waited to 'sync', sync reprovisioned and the shard waited
    back to 'async'; only then is the primary disabled, the peer that was
    async polled until the primary it reports is not the original one, and
    only then is the primary reprovisioned.  A segment that does not
    complete ends the run, so no later peer is touched. *)
Theorem full_shard_is_updated_in_order
    (hostname : string) (change : Change) (w : World) (fuel : nat) (h : trace) :
  HA change = true ->
  exists setup rest st o,
    updateManatee hostname change w fuel h = (h ++ setup ++ rest, st, o)
    /\ Forall (fun e => touches (fst e) = false) setup
    /\ (rest = []
        \/ exists img primary sync async,
             ch_image change = Some img
             /\ shard st !! "primary" = Some primary
             /\ shard st !! "sync" = Some sync
             /\ shard st !! "async" = Some async
             /\ runs (haScript img primary sync async) rest o).
Proof.
  intros HHA. unfold updateManatee.
  rewrite setupStages_split, <- app_assoc, pipeline_app.
  change ([installPrimaryImage change] ++ updateStages change)
    with (installPrimaryImage change :: updateStages change).
  destruct (pipeline_steps untouched (firstStages hostname change)
              (firstStages_steps untouched hostname change
                 ltac:(intros c Hc _; unfold untouched; rewrite Hc; reflexivity))
              w fuel (initial) h)
    as (t & st1 & o1 & -> & Hal & _ & _).
  assert (Forall (fun e => touches (fst e) = false) t) as Hquiet.
  { eapply List.Forall_impl; [|exact Hal]. intros e He. unfold allowed, untouched in He.
    apply negb_true_iff. exact He. }
  assert (forall o, o <> Completed None ->
            exists setup rest st o',
              (h ++ t, st1, o) = (h ++ setup ++ rest, st, o')
              /\ Forall (fun e => touches (fst e) = false) setup
              /\ (rest = [] \/ exists img primary sync async,
                     ch_image change = Some img
                     /\ shard st !! "primary" = Some primary
                     /\ shard st !! "sync" = Some sync
                     /\ shard st !! "async" = Some async
                     /\ runs (haScript img primary sync async) rest o')) as Hstop.
  { intros o _. exists t, [], st1, o. rewrite app_nil_r. auto. }
  destruct o1 as [[e|]| | |]; try (apply Hstop; discriminate).
  clear Hstop.
  assert (forall ev o, touches (fst ev) = false ->
            exists setup rest st o',
              (h ++ t ++ [ev], st1, o) = (h ++ setup ++ rest, st, o')
              /\ Forall (fun e => touches (fst e) = false) setup
              /\ (rest = [] \/ exists img primary sync async,
                     ch_image change = Some img
                     /\ shard st !! "primary" = Some primary
                     /\ shard st !! "sync" = Some sync
                     /\ shard st !! "async" = Some async
                     /\ runs (haScript img primary sync async) rest o')) as Hstop.
  { intros ev o Hev. exists (t ++ [ev]), [], st1, o. rewrite app_nil_r.
    split; [reflexivity|]. split; [|left; reflexivity].
    apply Forall_app. split; [exact Hquiet|]. constructor; [exact Hev|constructor]. }
  rewrite pipeline_cons. unfold installPrimaryImage. rewrite HHA. cbn [negb].
  destruct (ch_image change) as [img|] eqn:Himg.
  2:{ exists t, [], st1, (Threw "TypeError: Cannot read property 'uuid' of undefined").
      rewrite app_nil_r. split; [reflexivity|]. split; [exact Hquiet|left; reflexivity]. }
  unfold withPeer. cbv beta. destruct (shard st1 !! "primary") as [primary|] eqn:Hprimary.
  2:{ exists t, [], st1, (Threw (noPeer "primary" "server_uuid")).
      rewrite app_nil_r. split; [reflexivity|]. split; [exact Hquiet|left; reflexivity]. }
  unfold installOn. rewrite Himg. unfold command. rewrite ask_eq, <- app_assoc.
  set (ev := (ImgadmInstallRemote (server_uuid primary) (Some img),
              w (h ++ t) (ImgadmInstallRemote (server_uuid primary) (Some img)))).
  destruct (r_err (snd ev)) as [e|] eqn:Herr.
  { simpl in Herr. rewrite Herr. apply Hstop. reflexivity. }
  simpl in Herr. rewrite Herr.
  change (updateStages change) with (verifyFullHA change :: peerStages change).
  rewrite pipeline_cons. unfold verifyFullHA, onlyHA. rewrite HHA.
  destruct (shard st1 !! "sync") as [sync|] eqn:Hsync;
    [|apply Hstop; reflexivity].
  destruct (shard st1 !! "async") as [async|] eqn:Hasync;
    [|apply Hstop; reflexivity].
  destruct (peerStages_run change img st1 primary sync async HHA Himg
              Hprimary Hsync Hasync w fuel (h ++ t ++ [ev]))
    as (rest & o & -> & R).
  exists (t ++ [ev]), rest, st1, o. rewrite <- !app_assoc.
  split; [reflexivity|]. split.
  - apply Forall_app. split; [exact Hquiet|]. constructor; [reflexivity|constructor].
  - right. exists img, primary, sync, async. auto.
Qed.

(** *** The update of a single peer *)

(** The PostgreSQL poll started with [counter] 0 never reports an error:
    it ends with a ping that worked or goes on until the fuel is spent. *)
Lemma postgres_run server zone w :
  forall fuel h,
    exists t sig,
      _waitForPostgresUp fuel 0 server zone w h = (h ++ t, sig)
      /\ Forall (fun e => unchecked (fst e) = true) t
      /\ (sig = Next None \/ sig = Pending).
Proof.
  induction fuel as [|fuel IH]; intros h.
  { exists [], Pending. rewrite app_nil_r. split; [reflexivity|].
    split; [constructor|right; reflexivity]. }
  simpl. set (r := w h (PsqlPing server zone)).
  destruct (r_failed r).
  - destruct (IH ((h ++ [(PsqlPing server zone, r)])
                    ++ [(SetTimeout 5000,
                         w (h ++ [(PsqlPing server zone, r)]) (SetTimeout 5000))]))
      as (t & sig & -> & Hall & Hsig).
    eexists ((PsqlPing server zone, r) :: (SetTimeout 5000, _) :: t), sig.
    split; [rewrite <- !app_assoc; reflexivity|].
    split; [repeat (constructor; [reflexivity|]); exact Hall|exact Hsig].
  - exists [(PsqlPing server zone, r)], (Next None). split; [reflexivity|].
    split; [repeat constructor|left; reflexivity].
Qed.

Lemma steps_postgres good p :
  (forall c, unchecked c = true -> good c = true) ->
  sat anyState
      (fun w fuel st h =>
         let '(h', sig) := waitForPostgresUp fuel (server_uuid p) (zoneId p) w h in
         (h', st, sig))
      (steps good).
Proof.
  intros Hg w fuel st h _. unfold waitForPostgresUp.
  destruct (postgres_run (server_uuid p) (zoneId p) w fuel h) as (t & sig & -> & Hall & Hsig).
  exists t, st, sig. split; [reflexivity|]. split; [exact Logic.I|].
  assert (Forall (fine good) t) as Hfine.
  { eapply List.Forall_impl; [|exact Hall]. intros e He. split; [apply Hg; exact He|].
    left. exact He. }
  split; [intros _; exact Hfine|].
  intros Hne. destruct Hsig as [-> | ->]; [contradiction|].
  split; [eapply List.Forall_impl; [|exact Hfine]; intros e; apply fine_allowed|].
  split; discriminate.
Qed.

Lemma steps_getLocalSapi_body good :
  good VmadmLookupSapi = true ->
  sat anyState
      (fun w (_ : nat) st h =>
         let '(h', r) := ask w h VmadmLookupSapi in
         match r_err r with
         | Some e => (h', st, Next (Some e))
         | None =>
             (h', mkPstate (shard st) (manateeUUID st)
                    (head (split (ascii_of_nat 10) (trim (r_stdout r)))),
              Next None)
         end)
      (steps good).
Proof.
  intros Hg w fuel st h _. rewrite ask_eq. set (r := w h VmadmLookupSapi).
  destruct (r_err r) as [e|] eqn:Herr.
  - exists [(VmadmLookupSapi, r)], st, (Next (Some e)). split; [reflexivity|].
    split; [exact Logic.I|]. split; [discriminate|]. intros _.
    split; [constructor; [exact Hg|constructor]|]. split; [discriminate|].
    simpl. intros e' [= <-]. exists [], VmadmLookupSapi, r. auto.
  - eexists [(VmadmLookupSapi, r)], _, (Next None). split; [reflexivity|].
    split; [exact Logic.I|]. split.
    + intros _. constructor; [|constructor]. split; [exact Hg|]. right. exact Herr.
    + intros H. contradiction.
Qed.

(** The stages of a single-peer update before the one that restores SAPI. *)
Definition beforeRestore (hostname : string) (change : Change) : list stage :=
  firstStages hostname change
  ++ [installPrimaryImage change]
  ++ firstn 21 (updateStages change).

Lemma stages_split hostname change :
  setupStages hostname change ++ updateStages change
  = beforeRestore hostname change
    ++ [resetSapiToFullMode change; waitForShardHA change].
Proof.
  unfold beforeRestore. rewrite setupStages_split, <- !app_assoc. reflexivity.
Qed.

Lemma beforeRestore_steps hostname change :
  HA change = false ->
  Forall (fun f => sat anyState f (steps unrestored)) (beforeRestore hostname change).
Proof.
  intros HHA. unfold beforeRestore.
  assert (forall c, restores c = false -> unrestored c = true) as Hg.
  { intros c Hc. unfold unrestored. rewrite Hc. reflexivity. }
  assert (forall f, onlyHA change f = skip) as Hoff.
  { intros f. unfold onlyHA. rewrite HHA. reflexivity. }
  assert (forall f, onlyNoHA change f = f) as Hon.
  { intros f. unfold onlyNoHA. rewrite HHA. reflexivity. }
  apply Forall_app. split.
  { apply firstStages_steps. intros c _ Hc. apply Hg. exact Hc. }
  apply Forall_app. split.
  { constructor; [|constructor]. unfold installPrimaryImage. rewrite HHA. simpl.
    apply steps_command. reflexivity. }
  unfold updateStages, firstn.
  unfold verifyFullHA, disableAsync, waitForAsyncDisabled, installImageAsyncServer,
    reprovisionAsync, waitForAsync, waitForHA, disableSync, waitForSyncDisabled,
    installImageSyncServer, reprovisionSync, waitForSync, waitForHASync,
    disablePrimaryManatee, waitForShardPromotion, getLocalSapi, setSapiProtoMode,
    restartSapiIntoProtoMode, reprovisionPrimary, waitForPrimaryInstance,
    waitForPrimaryPG.
  rewrite !Hoff, !Hon.
  do 15 (constructor; [apply steps_skip|]).
  constructor; [apply steps_getLocalSapi_body; reflexivity|].
  constructor; [apply steps_command; reflexivity|].
  constructor; [apply steps_command; reflexivity|].
  constructor.
  { unfold reprovisionPeer. apply steps_withPeer. intros p.
    apply steps_command. reflexivity. }
  constructor.
  { unfold pauseFor. apply steps_withPeer. intros p. apply steps_sleep. reflexivity. }
  constructor; [|constructor].
  apply steps_withPeer. intros p. apply steps_postgres.
  intros c Hc. destruct c; try discriminate; reflexivity.
Qed.

(** On the single-peer path, either SAPI is never told to return to full
    mode, and then the procedure has not succeeded, an error it reports
    being the error of the last command it issued; or the command that
    restores full mode is the last of the trace, every command before it
    went well, and the procedure ends with the restoration's own result. *)
Theorem sapi_is_restored_only_after_success
    (hostname : string) (change : Change) (w : World) (fuel : nat) (h : trace) :
  HA change = false ->
  exists t st o,
    updateManatee hostname change w fuel h = (h ++ t, st, o)
    /\ ((Forall (fun e => restores (fst e) = false) t /\ failedBy t o)
        \/ (exists pre r,
              t = pre ++ [(SapiSetMode "full", r)]
              /\ Forall succeeded pre
              /\ o = Completed (r_err r))).
Proof.
  intros HHA. unfold updateManatee. rewrite stages_split, pipeline_app.
  destruct (pipeline_steps unrestored (beforeRestore hostname change)
              (beforeRestore_steps hostname change HHA) w fuel initial h)
    as (t & st1 & o1 & -> & Hal & Hfine & Hfail).
  assert (o1 = Completed None \/ o1 <> Completed None) as [-> | Hne].
  { destruct o1 as [[e|]| | |]; (left; reflexivity) || (right; discriminate). }
  - specialize (Hfine eq_refl).
    rewrite pipeline_cons. unfold resetSapiToFullMode, onlyNoHA. rewrite HHA.
    unfold command. rewrite ask_eq. set (r := w (h ++ t) (SapiSetMode "full")).
    exists (t ++ [(SapiSetMode "full", r)]), st1, (Completed (r_err r)).
    split.
    + rewrite <- app_assoc. destruct (r_err r) as [e|]; [reflexivity|].
      rewrite pipeline_cons. unfold waitForShardHA, onlyHA. rewrite HHA. reflexivity.
    + right. exists t, r. auto.
  - exists t, st1, o1. split.
    + destruct o1 as [[e|]| | |]; try reflexivity. contradiction.
    + left. split; [|apply Hfail; exact Hne].
      eapply List.Forall_impl; [|exact Hal]. intros e He.
      unfold allowed, unrestored in He. apply negb_true_iff. exact He.
Qed.

(** *** The scenarios *)

Lemma shard_wait_is_bounded_witness :
  exists t sig,
    waitForShard "sync" "primary" Scenario.unsettled 0
      (mkPstate {[ "primary" := Scenario.peer "z0" [] ]} None None) []
    = ([] ++ t, mkPstate {[ "primary" := Scenario.peer "z0" [] ]} None None, sig)
    /\ waitRun "sync" (server_uuid (Scenario.peer "z0" []))
               (zoneId (Scenario.peer "z0" [])) 0 t sig
    /\ (1 <= polls t <= 180)%nat
    /\ sig <> Pending
    /\ forall rest,
         sig <> Next None ->
         pipeline (waitForShard "sync" "primary" :: rest) Scenario.unsettled 0
           (mkPstate {[ "primary" := Scenario.peer "z0" [] ]} None None) []
         = ([] ++ t, mkPstate {[ "primary" := Scenario.peer "z0" [] ]} None None,
            outcomeOf sig).
Proof.
  apply (shard_wait_is_bounded "sync" "primary" (Scenario.peer "z0" [])).
  reflexivity.
Defined.

(** A shard that never settles is polled 180 times, and the wait ends with
    the timeout. *)
Example unsettled_shard_times_out :
  exists t,
    waitForManatee "sync" (Some "s0") "z0" Scenario.unsettled [] = (t, Next (Some (timedOut "sync")))
    /\ polls t = 180%nat
    /\ length t = 359%nat.
Proof. eexists. split; [vm_compute; reflexivity|]. split; reflexivity. Qed.

Lemma full_shard_is_updated_in_order_witness :
  exists setup rest st o,
    updateManatee "headnode" Scenario.shardChange Scenario.healthy 1 []
    = ([] ++ setup ++ rest, st, o)
    /\ Forall (fun e => touches (fst e) = false) setup
    /\ (rest = []
        \/ exists img primary sync async,
             ch_image Scenario.shardChange = Some img
             /\ shard st !! "primary" = Some primary
             /\ shard st !! "sync" = Some sync
             /\ shard st !! "async" = Some async
             /\ runs (haScript img primary sync async) rest o).
Proof.
  apply (full_shard_is_updated_in_order "headnode" Scenario.shardChange
           Scenario.healthy 1 []).
  reflexivity.
Defined.

(** The commands of the update of a healthy shard of three peers. *)
Example healthy_shard_run :
  let img := Some (Scenario.imageB "manatee") in
  exists t st,
    updateManatee "headnode" Scenario.shardChange Scenario.healthy 1 []
    = (t, st, Completed None)
    /\ map fst t
       = [GetUserScript; WriteOldUserScriptForRollback; UpdateSvcUserScript;
          UpdateVmUserScriptRemote "z0" "s0"; UpdateVmUserScriptRemote "z1" "s1";
          UpdateVmUserScriptRemote "z2" "s2"; UpdateSapiSvc;
          GetShardStatusLocally (Some "z0");
          ImgadmInstallRemote (Some "s0") img;
          DisableManatee (Some "s2") "z2"; GetShardStatus (Some "s0") "z0";
          ImgadmInstallRemote (Some "s2") img;
          ReprovisionRemote (Some "s2") "z2" img;
          SetTimeout 60000; GetShardStatus (Some "s0") "z0";
          DisableManatee (Some "s1") "z1"; GetShardStatus (Some "s0") "z0";
          ImgadmInstallRemote (Some "s1") img;
          ReprovisionRemote (Some "s1") "z1" img;
          SetTimeout 60000; GetShardStatus (Some "s0") "z0";
          DisableManatee (Some "s0") "z0"; GetShardStatus (Some "s2") "z2";
          ReprovisionRemote (Some "s0") "z0" img;
          SetTimeout 60000; GetShardStatus (Some "s2") "z2"].
Proof. eexists _, _. split; [vm_compute; reflexivity|]. reflexivity. Qed.

(** C4 at a status that reports no role at all: the procedure never
    reaches verifyFullHA.  installPrimaryImage reads
    [arg.shard.primary.server_uuid] and the TypeError escapes; no callback
    gets 'HA setup error'.  No peer has been disabled or reprovisioned. *)
Theorem shard_without_primary_throws :
  HA Scenario.shardChange = true
  /\ exists t st,
       updateManatee "headnode" Scenario.shardChange Scenario.primaryMissing 1 []
       = (t, st, Threw (noPeer "primary" "server_uuid"))
       /\ modeOf Scenario.emptyShard = "empty"
       /\ shard st !! "primary" = None
       /\ map fst t
          = [GetUserScript; WriteOldUserScriptForRollback; UpdateSvcUserScript;
             UpdateVmUserScriptRemote "z0" "s0"; UpdateVmUserScriptRemote "z1" "s1";
             UpdateVmUserScriptRemote "z2" "s2"; UpdateSapiSvc;
             GetShardStatusLocally (Some "z0")].
Proof.
  split; [reflexivity|].
  eexists _, _. split; [vm_compute; reflexivity|]. split; [reflexivity|].
  split; reflexivity.
Qed.

(** With the primary there and the async peer missing, verifyFullHA calls
    [next('HA setup error')] and then [next()] once more: the callback gets
    the error, the second call raises, and no peer has been touched. *)
Example shard_without_async_reports_setup_error :
  exists t st,
    updateManatee "headnode" Scenario.shardChange Scenario.asyncMissing 1 []
    = (t, st, CompletedThenThrew "HA setup error" lateNext)
    /\ Forall (fun e => touches (fst e) = false) t.
Proof.
  eexists _, _. split; [vm_compute; reflexivity|].
  repeat (constructor; [reflexivity|]). constructor.
Qed.

Lemma sapi_is_restored_only_after_success_witness :
  exists t st o,
    updateManatee "headnode" Scenario.soloChange Scenario.reprovisionFails 1 []
    = ([] ++ t, st, o)
    /\ ((Forall (fun e => restores (fst e) = false) t /\ failedBy t o)
        \/ (exists pre r,
              t = pre ++ [(SapiSetMode "full", r)]
              /\ Forall succeeded pre
              /\ o = Completed (r_err r))).
Proof.
  apply (sapi_is_restored_only_after_success "headnode" Scenario.soloChange
           Scenario.reprovisionFails 1 []).
  reflexivity.
Defined.

(** A reprovision that fails after SAPI went into proto mode ends the
    procedure with its error; SAPI is not told to return to full mode. *)
Example failed_reprovision_leaves_proto_mode :
  exists t st,
    updateManatee "headnode" Scenario.soloChange Scenario.reprovisionFails 1 []
    = (t, st, Completed (Some "reprovision failed"))
    /\ In (MdataPutProtoMode (Some "sapi-zone-uuid")) (map fst t)
    /\ ~ In (SapiSetMode "full") (map fst t).
Proof.
  eexists _, _. split; [vm_compute; reflexivity|]. split.
  - simpl. tauto.
  - simpl. intros H. repeat (destruct H as [H|H]; [discriminate H|]). exact H.
Qed.

(** A single peer that answers the third ping: the restoration is the last
    command. *)
Example solo_update_restores_full_mode :
  exists t st,
    updateManatee "headnode" Scenario.soloChange Scenario.soloHealthy 3 []
    = (t, st, Completed None)
    /\ last (map fst t) = Some (SapiSetMode "full").
Proof. eexists _, _. split; [vm_compute; reflexivity|]. reflexivity. Qed.

End ManateeProps.

Module CoordinatorFacts.

Import Js Coordinator CoordinatorProps.






(** The eight filters, one after the other. *)
Lemma runFilters_eq host byName st :
  runFilters host byName st
  = runFilter (singleHeadnodeVerdict host byName "mahi") UpdateMahiV1
      (runFilter (singleHeadnodeVerdict host byName "binder") UpdateBinderV1
         (runFilter (anyCountVerdict byName "manatee") UpdateManateeV2
            (runFilter (singleHeadnodeVerdict host byName "sapi") UpdateSingleHNSapiV1
               (runFilter (anyCountVerdict byName "moray") UpdateMorayV2
                  (runFilter (singleHeadnodeVerdict host byName "ufds") UpdateUFDSServiceV1
                     (runFilter (singleHeadnodeVerdict host byName "imgapi")
                                UpdateSingleHeadnodeImgapi
                        (runFilter (simpleVerdict host byName)
                                   UpdateStatelessServicesV1 st))))))).
Proof. reflexivity. Qed.



(** What coordinatePlan's success says about the pipeline. *)
Lemma coordinatePlan_Ret host getImage plan result :
  coordinatePlan host getImage plan = Ret result ->
  exists st0,
    coordImages getImage (mkCstate (plan_changes plan) []) = Ret st0
    /\ changes st0 = plan_changes plan
    /\ (procs st0 = [] \/ exists images, procs st0 = [DownloadImages images])
    /\ changes (runFilters host (instsFromSvcName (plan_curr plan)) st0) = []
    /\ result
       = (if plan_justImages plan
          then List.filter isDownloadImages
                 (procs (runFilters host (instsFromSvcName (plan_curr plan)) st0))
          else procs (runFilters host (instsFromSvcName (plan_curr plan)) st0)).
Proof.
  intros H. unfold coordinatePlan in H. apply bind_Ret in H as [st [Hrun Hdone]].
  unfold runPipeline in Hrun. apply bind_Ret in Hrun as [st0 [Himg Hfold]].
  injection Hfold as <-.
  exists st0. split; [exact Himg|].
  apply coordImages_downloads in Himg as [Hch Hp]; [|reflexivity].
  split; [exact Hch|]. split; [exact Hp|].
  revert Hdone.
  generalize (runFilters host (instsFromSvcName (plan_curr plan)) st0). intros st1.
  unfold done. destruct (changes st1); [|discriminate].
  intros Hdone. split; [reflexivity|].
  destruct (plan_justImages plan); injection Hdone as <-; reflexivity.
Qed.




(** *** The order of the procedures *)

(** The procedure kinds in the order of the pipeline's stages. *)
Definition procedureOrder : list string :=
  ["DownloadImages"; "UpdateStatelessServicesV1"; "UpdateSingleHeadnodeImgapi";
   "UpdateUFDSServiceV1"; "UpdateMorayV2"; "UpdateSingleHNSapiV1";
   "UpdateManateeV2"; "UpdateBinderV1"; "UpdateMahiV1"].

Lemma runFilter_names v mk st n pre :
  (forall h, constructor_name (mk h) = n) ->
  map constructor_name (procs st) `sublist_of` pre ->
  map constructor_name (procs (runFilter v mk st)) `sublist_of` pre ++ [n].
Proof.
  intros Hn Hpre. destruct (runFilter_cases v mk st) as [[_ ->]|[_ ->]].
  - rewrite <- (app_nil_r (map _ _)). apply sublist_app; [exact Hpre|].
    apply sublist_nil_l.
  - simpl. rewrite map_app. apply sublist_app; [exact Hpre|].
    simpl. rewrite Hn. reflexivity.
Qed.

Lemma filter_sublist {A} (f : A -> bool) (l : list A) :
  List.filter f l `sublist_of` l.
Proof.
  induction l as [|a l IH]; simpl; [constructor|].
  destruct (f a); [apply sublist_skip | apply sublist_cons]; exact IH.
Qed.

Lemma runFilters_names host byName st :
  map constructor_name (procs st) `sublist_of` ["DownloadImages"] ->
  map constructor_name (procs (runFilters host byName st)) `sublist_of` procedureOrder.
Proof.
  intros H. rewrite runFilters_eq.
  change procedureOrder with
    ((((((((["DownloadImages"] ++ ["UpdateStatelessServicesV1"])
            ++ ["UpdateSingleHeadnodeImgapi"]) ++ ["UpdateUFDSServiceV1"])
          ++ ["UpdateMorayV2"]) ++ ["UpdateSingleHNSapiV1"])
        ++ ["UpdateManateeV2"]) ++ ["UpdateBinderV1"]) ++ ["UpdateMahiV1"]).
  repeat (apply runFilter_names; [intros; reflexivity|]).
  exact H.
Qed.

(** X2: The procedures coordinatePlan returns come in the order of its stages,
    each kind at most once: DownloadImages, when there is one, is first,
    the stateless services follow, and so on down to mahi. *)
Theorem procedures_follow_the_pipeline_order
    (host : string) (getImage : string -> imgapi_reply)
    (plan : UpdatePlan) (result : list Procedure) :
  coordinatePlan host getImage plan = Ret result ->
  map constructor_name result `sublist_of` procedureOrder
  /\ List.NoDup (map constructor_name result).
Proof.
  intros H. apply coordinatePlan_Ret in H as (st0 & _ & _ & Hp & _ & ->).
  assert (Hall : map constructor_name
                   (procs (runFilters host (instsFromSvcName (plan_curr plan)) st0))
                 `sublist_of` procedureOrder).
  { apply runFilters_names. destruct Hp as [->|[images ->]]; simpl.
    - apply sublist_nil_l.
    - reflexivity. }
  revert Hall.
  generalize (procs (runFilters host (instsFromSvcName (plan_curr plan)) st0)).
  intros ps Hall.
  assert (Hsub : map constructor_name
                   (if plan_justImages plan
                    then List.filter isDownloadImages ps else ps)
                 `sublist_of` procedureOrder).
  { destruct (plan_justImages plan); [|exact Hall].
    etrans; [|exact Hall]. apply (fmap_sublist constructor_name). apply filter_sublist. }
  split; [exact Hsub|].
  apply NoDup_ListNoDup. eapply sublist_NoDup; [|exact Hsub].
  apply NoDup_ListNoDup. unfold procedureOrder.
  repeat (constructor; [simpl; intros Hin; repeat destruct Hin as [Hin|Hin]; discriminate || exact Hin|]).
  constructor.
Qed.

Lemma procedures_follow_the_pipeline_order_witness :
  let inventory := [Scenario.instance "cnapi" "cnapi0" "headnode" "hn";
                    Scenario.imgapi0] ++ Scenario.manatees in
  let plan := newUpdatePlan inventory inventory
                [Scenario.update "manatee" (Scenario.imageB "manatee");
                 Scenario.update "imgapi" (Scenario.imageB "imgapi");
                 Scenario.update "cnapi" (Scenario.imageB "cnapi")] false in
  exists result,
    coordinatePlan "headnode" Scenario.noneLocal plan = Ret result
    /\ map constructor_name result
       = ["DownloadImages"; "UpdateStatelessServicesV1";
          "UpdateSingleHeadnodeImgapi"; "UpdateManateeV2"]
    /\ map constructor_name result `sublist_of` procedureOrder
    /\ List.NoDup (map constructor_name result).
Proof.
  intros inventory plan.
  destruct (coordinatePlan "headnode" Scenario.noneLocal plan) as [result|e|x] eqn:E;
    try (vm_compute in E; discriminate E).
  exists result. split; [reflexivity|]. split.
  - vm_compute in E. injection E as <-. reflexivity.
  - exact (procedures_follow_the_pipeline_order "headnode" Scenario.noneLocal
             plan result E).
Defined.


(** *** What the procedures are bound to *)

(** A change without what the coordinator records on it. *)
Definition unbound (c : Change) : Change :=
  mkChange (ch_type c) (ch_service c) (ch_instance c) (ch_server c)
           (ch_images c) (ch_image c) None None.

(** All the changes bound to the procedures of a list. *)
Definition boundChanges (ps : list Procedure) : list Change :=
  concat (map proc_changes ps).

(** A verdict that hands a change on hands on that change. *)
Definition keepsChange (v : Change -> verdict) : Prop :=
  forall c c', v c = Handle c' -> unbound c' = unbound c.

Lemma simpleVerdict_keeps host byName : keepsChange (simpleVerdict host byName).
Proof.
  intros c c'. unfold simpleVerdict.
  destruct (_ && _); [|discriminate].
  destruct (Nat.eqb _ 0); [intros [= <-]; reflexivity|].
  destruct (negb _); [discriminate|].
  destruct (svcInstsOf byName c) as [|i0 l]; [discriminate|].
  destruct (negb _); [discriminate|]. intros [= <-]. reflexivity.
Qed.

Lemma singleHeadnodeVerdict_keeps host byName name :
  keepsChange (singleHeadnodeVerdict host byName name).
Proof.
  intros c c'. unfold singleHeadnodeVerdict.
  destruct (_ && _); [|discriminate].
  destruct (negb _); [discriminate|].
  destruct (svcInstsOf byName c) as [|i0 l]; [discriminate|].
  destruct (negb _); [discriminate|]. intros [= <-]. reflexivity.
Qed.

Lemma anyCountVerdict_keeps byName name : keepsChange (anyCountVerdict byName name).
Proof.
  intros c c'. unfold anyCountVerdict.
  destruct (_ && _); [|discriminate].
  destruct (Nat.ltb _ _); intros [= <-]; reflexivity.
Qed.

Lemma handle_and_remaining v l :
  keepsChange v ->
  map unbound (omap (handled v) l) ++ map unbound (List.filter (remains v) l)
  ⊆+ map unbound l.
Proof.
  intros Hv. induction l as [|a l IH]; simpl; [reflexivity|].
  unfold handled at 1, remains at 1. destruct (v a) as [c'| |] eqn:E; simpl.
  - rewrite (Hv _ _ E). apply submseteq_skip. exact IH.
  - apply submseteq_cons. exact IH.
  - rewrite <- Permutation_middle. apply submseteq_skip. exact IH.
Qed.

Lemma boundChanges_app ps qs : boundChanges (ps ++ qs) = boundChanges ps ++ boundChanges qs.
Proof. unfold boundChanges. rewrite map_app. apply concat_app. Qed.

(** What is bound and what is left never exceeds what there was. *)
Lemma runFilter_bound v mk st all :
  keepsChange v ->
  (forall h, proc_changes (mk h) = h) ->
  map unbound (boundChanges (procs st)) ++ map unbound (changes st) ⊆+ all ->
  map unbound (boundChanges (procs (runFilter v mk st)))
    ++ map unbound (changes (runFilter v mk st)) ⊆+ all.
Proof.
  intros Hv Hmk H. destruct (runFilter_cases v mk st) as [[_ ->]|[_ ->]]; [exact H|].
  simpl. etrans; [|exact H].
  rewrite boundChanges_app, map_app, <- app_assoc.
  apply submseteq_app; [reflexivity|].
  unfold boundChanges at 1. simpl. rewrite Hmk, app_nil_r.
  apply handle_and_remaining. exact Hv.
Qed.

Lemma runFilters_bound host byName st all :
  map unbound (boundChanges (procs st)) ++ map unbound (changes st) ⊆+ all ->
  map unbound (boundChanges (procs (runFilters host byName st)))
    ++ map unbound (changes (runFilters host byName st)) ⊆+ all.
Proof.
  intros H. rewrite runFilters_eq.
  repeat (apply runFilter_bound;
          [first [ apply simpleVerdict_keeps | apply singleHeadnodeVerdict_keeps
                 | apply anyCountVerdict_keeps ]
          | intros; reflexivity |]).
  exact H.
Qed.

Lemma boundChanges_filter (f : Procedure -> bool) ps :
  boundChanges (List.filter f ps) ⊆+ boundChanges ps.
Proof.
  induction ps as [|p ps IH]; simpl; [reflexivity|].
  destruct (f p); unfold boundChanges in *; simpl.
  - apply submseteq_app; [reflexivity | exact IH].
  - etrans; [exact IH|]. apply submseteq_inserts_l. reflexivity.
Qed.

(** X3: The changes bound to the returned procedures are changes of the plan,
    and none is bound twice: without the instances recorded on them, they
    are a sub-multiset of the plan's changes. *)
Theorem procedures_bind_changes_of_the_plan_once
    (host : string) (getImage : string -> imgapi_reply)
    (plan : UpdatePlan) (result : list Procedure) :
  coordinatePlan host getImage plan = Ret result ->
  map unbound (boundChanges result) ⊆+ map unbound (plan_changes plan).
Proof.
  intros H. apply coordinatePlan_Ret in H as (st0 & _ & Hch & Hp & Hnil & ->).
  assert (H0 : map unbound (boundChanges (procs st0)) ++ map unbound (changes st0)
               ⊆+ map unbound (plan_changes plan)).
  { rewrite Hch. destruct Hp as [->|[images ->]]; reflexivity. }
  apply (runFilters_bound host (instsFromSvcName (plan_curr plan))) in H0.
  rewrite Hnil in H0. revert H0.
  generalize (procs (runFilters host (instsFromSvcName (plan_curr plan)) st0)).
  intros ps H0. change (map unbound []) with (@nil Change) in H0.
  rewrite app_nil_r in H0.
  destruct (plan_justImages plan); [|exact H0].
  etrans; [|exact H0]. apply (fmap_submseteq unbound). apply boundChanges_filter.
Qed.

Lemma procedures_bind_changes_of_the_plan_once_witness :
  map unbound
      (boundChanges
         [UpdateStatelessServicesV1
            [set_inst (Scenario.update "cnapi" (Scenario.imageB "cnapi"))
                      (Some (Scenario.instance "cnapi" "cnapi0" "headnode" "hn"))]])
  ⊆+ map unbound (plan_changes Scenario.cnapiAndVmapi).
Proof.
  apply (procedures_bind_changes_of_the_plan_once "headnode" Scenario.allLocal
           Scenario.cnapiAndVmapi).
  vm_compute. reflexivity.
Defined.


(** *** The instances a change is bound to *)

(** The instances of a service in the inventory, in inventory order. *)
Definition instancesOf (name : string) (insts : list Instance) : list Instance :=
  List.filter (fun i => String.eqb (inst_service i) name) insts.

Lemma instsFromSvcName_fold insts name :
  forall m : gmap string (list Instance),
    default [] (fold_left
                  (fun m inst =>
                     <[inst_service inst := default [] (m !! inst_service inst) ++ [inst]]> m)
                  insts m !! name)
    = default [] (m !! name) ++ instancesOf name insts.
Proof.
  induction insts as [|i insts IH]; intros m; simpl.
  - symmetry. apply app_nil_r.
  - rewrite IH. destruct (String.eqb (inst_service i) name) eqn:E.
    + apply String.eqb_eq in E. subst name. rewrite lookup_insert_eq. simpl.
      rewrite <- app_assoc. reflexivity.
    + apply String.eqb_neq in E. rewrite lookup_insert_ne by exact E. reflexivity.
Qed.

(** [instsFromSvcName[name] || []] is the service's instances. *)
Lemma svcInstsOf_eq insts c :
  svcInstsOf (instsFromSvcName insts) c = instancesOf (svc_name (ch_service c)) insts.
Proof.
  unfold svcInstsOf, instsFromSvcName. rewrite instsFromSvcName_fold.
  rewrite lookup_empty. reflexivity.
Qed.

(** The procedures that update the one instance on this host. *)
Definition updatesLocalInstance (p : Procedure) : bool :=
  match p with
  | UpdateStatelessServicesV1 _ | UpdateSingleHeadnodeImgapi _
  | UpdateUFDSServiceV1 _ | UpdateSingleHNSapiV1 _
  | UpdateBinderV1 _ | UpdateMahiV1 _ => true
  | _ => false
  end.

(** The service of the change has its one instance on [host], and that
    instance is recorded on the change; or it is a stateless service
    without any instance. *)
Definition local (host : string) (insts : list Instance) (c : Change) : Prop :=
  (exists i, instancesOf (svc_name (ch_service c)) insts = [i]
             /\ inst_hostname i = host /\ ch_inst c = Some i)
  \/ (instancesOf (svc_name (ch_service c)) insts = []
      /\ isSimpleService (svc_name (ch_service c)) = true).

Lemma simpleVerdict_local host insts c c' :
  simpleVerdict host (instsFromSvcName insts) c = Handle c' -> local host insts c'.
Proof.
  unfold simpleVerdict. rewrite svcInstsOf_eq.
  destruct (String.eqb (ch_type c) "update-service"
            && isSimpleService (svc_name (ch_service c))) eqn:Hc; [|discriminate].
  apply andb_true_iff in Hc as [_ Hs].
  destruct (instancesOf (svc_name (ch_service c)) insts) as [|i [|j l]] eqn:E; simpl.
  - intros [= <-]. right. split; assumption.
  - destruct (String.eqb (inst_hostname i) host) eqn:Hh; simpl; [|discriminate].
    intros [= <-]. left. exists i. simpl. rewrite E.
    apply String.eqb_eq in Hh. split; [reflexivity|]. split; [exact Hh | reflexivity].
  - discriminate.
Qed.

Lemma singleHeadnodeVerdict_local host insts name c c' :
  singleHeadnodeVerdict host (instsFromSvcName insts) name c = Handle c' ->
  local host insts c'.
Proof.
  unfold singleHeadnodeVerdict. rewrite svcInstsOf_eq.
  destruct (_ && _); [|discriminate].
  destruct (instancesOf (svc_name (ch_service c)) insts) as [|i [|j l]] eqn:E; simpl.
  - discriminate.
  - destruct (String.eqb (inst_hostname i) host) eqn:Hh; simpl; [|discriminate].
    intros [= <-]. left. exists i. simpl. rewrite E.
    apply String.eqb_eq in Hh. split; [reflexivity|]. split; [exact Hh | reflexivity].
  - discriminate.
Qed.

Lemma handled_In v l c' :
  In c' (omap (handled v) l) -> exists c, In c l /\ v c = Handle c'.
Proof.
  induction l as [|a l IH]; simpl; [intros []|].
  unfold handled at 1. destruct (v a) as [c''| |] eqn:E; simpl.
  - intros [<-|H]; [exists a; split; [left; reflexivity | exact E]|].
    destruct (IH H) as (c & Hc & Hv). exists c. split; [right; exact Hc | exact Hv].
  - intros H. destruct (IH H) as (c & Hc & Hv). exists c. split; [right; exact Hc | exact Hv].
  - intros H. destruct (IH H) as (c & Hc & Hv). exists c. split; [right; exact Hc | exact Hv].
Qed.

(** What a filter keeps: a property [Q] of the changes still to be handled,
    and a property [P] of the changes bound to the procedures [sel]
    selects, when the filter builds another kind or its verdict grants [P]
    on changes that have [Q]. *)
Definition granted (sel : Procedure -> bool) (P Q : Change -> Prop) (st : cstate)
    : Prop :=
  Forall Q (changes st)
  /\ Forall (fun p => sel p = true -> Forall P (proc_changes p)) (procs st).

Lemma runFilter_granted (sel : Procedure -> bool) (P Q : Change -> Prop) v mk st :
  (forall h, sel (mk h) = false)
  \/ (forall c c', Q c -> v c = Handle c' -> P c') ->
  (forall h, proc_changes (mk h) = h) ->
  granted sel P Q st -> granted sel P Q (runFilter v mk st).
Proof.
  intros Hor Hmk [HQ H]. destruct (runFilter_cases v mk st) as [[_ ->]|[_ ->]];
    [split; assumption|].
  split; simpl.
  - apply List.Forall_forall. intros c Hc. apply List.filter_In in Hc as [Hc _].
    revert c Hc. apply List.Forall_forall. exact HQ.
  - apply Forall_app. split; [exact H|].
    constructor; [|constructor].
    intros Hsel. destruct Hor as [Hno|Hv]; [rewrite Hno in Hsel; discriminate|].
    rewrite Hmk. apply List.Forall_forall. intros c' Hin.
    apply handled_In in Hin as (c & Hc & Hvc).
    apply (Hv c c'); [|exact Hvc].
    exact (proj1 (List.Forall_forall _ _) HQ c Hc).
Qed.

Lemma filter_Forall {A} (f : A -> bool) (P : A -> Prop) l :
  Forall P l -> Forall P (List.filter f l).
Proof.
  intros H. apply List.Forall_forall. intros x Hx. apply List.filter_In in Hx as [Hx _].
  revert x Hx. apply List.Forall_forall. exact H.
Qed.

(** X4: A procedure that updates a single local instance is bound only to
    changes of services whose one instance is on this host (recorded on
    the change as [inst]), or, for the stateless services, of services
    without any instance. *)
Theorem local_procedures_get_local_instances
    (host : string) (getImage : string -> imgapi_reply)
    (plan : UpdatePlan) (result : list Procedure) :
  coordinatePlan host getImage plan = Ret result ->
  Forall (fun p => updatesLocalInstance p = true ->
                   Forall (local host (plan_curr plan)) (proc_changes p))
         result.
Proof.
  intros H. apply coordinatePlan_Ret in H as (st0 & _ & _ & Hp & _ & ->).
  assert (Hall : granted updatesLocalInstance (local host (plan_curr plan))
                         (fun _ => True)
                         (runFilters host (instsFromSvcName (plan_curr plan)) st0)).
  { rewrite runFilters_eq.
    repeat (apply runFilter_granted;
            [first [ left; intros; reflexivity
                   | right; intros c c' _; apply simpleVerdict_local
                   | right; intros c c' _; apply singleHeadnodeVerdict_local ]
            | intros; reflexivity |]).
    split; [apply List.Forall_forall; intros; exact I|].
    destruct Hp as [->|[images ->]]; [constructor|].
    constructor; [discriminate | constructor]. }
  destruct Hall as [_ Hall].
  destruct (plan_justImages plan); [|exact Hall].
  apply filter_Forall. exact Hall.
Qed.

Lemma local_procedures_get_local_instances_witness :
  Forall (fun p => updatesLocalInstance p = true ->
                   Forall (local "headnode" (plan_curr Scenario.cnapiAndVmapi))
                          (proc_changes p))
         [UpdateStatelessServicesV1
            [set_inst (Scenario.update "cnapi" (Scenario.imageB "cnapi"))
                      (Some (Scenario.instance "cnapi" "cnapi0" "headnode" "hn"))]].
Proof.
  apply (local_procedures_get_local_instances "headnode" Scenario.allLocal
           Scenario.cnapiAndVmapi).
  vm_compute. reflexivity.
Defined.

(** *** The manatee update and the inventory *)

Definition isManateeUpdate (p : Procedure) : bool :=
  match p with UpdateManateeV2 _ => true | _ => false end.

(** How UpdateManateeV2 finds the shard on its change: more than one
    instance in the inventory makes the update an HA one, with all the
    instances recorded as [insts]; otherwise [inst] is the one instance, or
    nothing. *)
Definition shardOf (insts : list Instance) (c : Change) : Prop :=
  svc_name (ch_service c) = "manatee"
  /\ (Manatee.HA c = true <-> (1 < length (instancesOf "manatee" insts))%nat)
  /\ ((1 < length (instancesOf "manatee" insts))%nat ->
      ch_insts c = Some (instancesOf "manatee" insts))
  /\ ((length (instancesOf "manatee" insts) <= 1)%nat ->
      ch_insts c = None /\ ch_inst c = head (instancesOf "manatee" insts)).

Lemma manateeVerdict_shard insts c c' :
  ch_insts c = None ->
  anyCountVerdict (instsFromSvcName insts) "manatee" c = Handle c' ->
  shardOf insts c'.
Proof.
  unfold anyCountVerdict. rewrite svcInstsOf_eq. intros Hnone.
  destruct (String.eqb (ch_type c) "update-service"
            && String.eqb (svc_name (ch_service c)) "manatee") eqn:Hc; [|discriminate].
  apply andb_true_iff in Hc as [_ Hn]. apply String.eqb_eq in Hn. rewrite Hn.
  destruct (Nat.ltb 1 (length (instancesOf "manatee" insts))) eqn:Hlt;
    intros [= <-]; unfold shardOf, Manatee.HA; simpl.
  - split; [exact Hn|]. rewrite Hlt. apply Nat.ltb_lt in Hlt.
    split; [tauto|]. split; [reflexivity|]. intros Hle. exfalso. lia.
  - split; [exact Hn|]. rewrite Hnone. apply Nat.ltb_ge in Hlt.
    split; [split; [discriminate | intros; exfalso; lia]|].
    split; [intros; exfalso; lia|]. intros _. split; reflexivity.
Qed.

(** X5: Whether the manatee update is an HA one follows the inventory: for a
    plan whose changes carry no [insts] of their own, every change bound
    to UpdateManateeV2 is a manatee change, it has [arg.HA] exactly when
    the inventory holds more than one manatee instance, and then its
    [insts] are those instances in inventory order. *)
Theorem manatee_update_is_HA_iff_several_instances
    (host : string) (getImage : string -> imgapi_reply)
    (plan : UpdatePlan) (result : list Procedure) :
  Forall (fun c => ch_insts c = None) (plan_changes plan) ->
  coordinatePlan host getImage plan = Ret result ->
  Forall (fun p => isManateeUpdate p = true ->
                   Forall (shardOf (plan_curr plan)) (proc_changes p))
         result.
Proof.
  intros Hnone H. apply coordinatePlan_Ret in H as (st0 & _ & Hch & Hp & _ & ->).
  assert (Hall : granted isManateeUpdate (shardOf (plan_curr plan))
                         (fun c => ch_insts c = None)
                         (runFilters host (instsFromSvcName (plan_curr plan)) st0)).
  { rewrite runFilters_eq.
    repeat (apply runFilter_granted;
            [first [ left; intros; reflexivity
                   | right; intros c c'; apply manateeVerdict_shard ]
            | intros; reflexivity |]).
    split; [rewrite Hch; exact Hnone|].
    destruct Hp as [->|[images ->]]; [constructor|].
    constructor; [discriminate | constructor]. }
  destruct Hall as [_ Hall].
  destruct (plan_justImages plan); [|exact Hall].
  apply filter_Forall. exact Hall.
Qed.

Lemma manatee_update_is_HA_iff_several_instances_witness :
  Forall (fun p => isManateeUpdate p = true ->
                   Forall (shardOf Scenario.manatees) (proc_changes p))
         [UpdateManateeV2 [Scenario.shardChange]].
Proof.
  apply (manatee_update_is_HA_iff_several_instances "headnode" Scenario.allLocal
           (newUpdatePlan Scenario.manatees Scenario.manatees
              [Scenario.update "manatee" (Scenario.imageB "manatee")] false)).
  - repeat constructor.
  - vm_compute. reflexivity.
Defined.


(** *** The images to download *)

(** [img] is the image of a change of the list. *)
Definition imageOf (cs : list Change) (img : Image) : Prop :=
  exists c, In c cs /\ ch_image c = Some img.

(** IMGAPI does not have the image: its error is 'ResourceNotFound'. *)
Definition notLocal (getImage : string -> imgapi_reply) (u : string) : Prop :=
  getImage u = ImgError (Some "ResourceNotFound").

Definition isMissing (getImage : string -> imgapi_reply) (img : Image) : bool :=
  match getImage (img_uuid img) with
  | ImgError (Some code) => String.eqb code "ResourceNotFound"
  | _ => false
  end.

Lemma isMissing_notLocal getImage img :
  isMissing getImage img = true <-> notLocal getImage (img_uuid img).
Proof.
  unfold isMissing, notLocal. destruct (getImage (img_uuid img)) as [|[code|]].
  - split; discriminate.
  - split.
    + intros H. apply String.eqb_eq in H. subst code. reflexivity.
    + intros [= ->]. reflexivity.
  - split; discriminate.
Qed.

Lemma putImage_In img l k v :
  In (k, v) (putImage img l) -> (k = img_uuid img /\ v = img) \/ In (k, v) l.
Proof.
  induction l as [|[k' x] l IH]; simpl.
  - intros [[= <- <-]|[]]. left. split; reflexivity.
  - destruct (String.eqb k' (img_uuid img)) eqn:E.
    + apply String.eqb_eq in E. intros [[= <- <-]|H].
      * left. split; [exact E | reflexivity].
      * right. right. exact H.
    + intros [H|H]; [right; left; exact H|].
      destruct (IH H) as [?|?]; [left; assumption | right; right; assumption].
Qed.

Lemma putImage_keys img l k :
  In k (map fst (putImage img l)) <-> k = img_uuid img \/ In k (map fst l).
Proof.
  induction l as [|[k' x] l IH]; simpl.
  - split; [intros [<-|[]]; left; reflexivity | intros [->|[]]; left; reflexivity].
  - destruct (String.eqb k' (img_uuid img)) eqn:E; simpl.
    + apply String.eqb_eq in E. subst k'. intuition congruence.
    + rewrite IH. tauto.
Qed.

Lemma putImage_NoDup img l :
  List.NoDup (map fst l) -> List.NoDup (map fst (putImage img l)).
Proof.
  induction l as [|[k' x] l IH]; simpl; intros H.
  - constructor; [intros [] | constructor].
  - inversion H as [|? ? Hnot Hrest]; subst.
    destruct (String.eqb k' (img_uuid img)) eqn:E; simpl.
    + constructor; assumption.
    + constructor; [|apply IH; exact Hrest].
      rewrite putImage_keys. intros [->|Hin]; [|exact (Hnot Hin)].
      rewrite String.eqb_refl in E. discriminate.
Qed.

Definition putChange (m : list (string * Image)) (c : Change) : list (string * Image) :=
  match ch_image c with Some img => putImage img m | None => m end.

(** [imageFromUuid]: one entry for each uuid among the changes' images,
    each holding an image of a change with that uuid. *)
Lemma imageFromUuid_fold cs :
  forall acc,
    List.NoDup (map fst acc) ->
    List.NoDup (map fst (fold_left putChange cs acc))
    /\ (forall k v, In (k, v) (fold_left putChange cs acc) ->
          In (k, v) acc \/ (img_uuid v = k /\ imageOf cs v))
    /\ (forall k, In k (map fst (fold_left putChange cs acc)) <->
          In k (map fst acc) \/ exists img, imageOf cs img /\ img_uuid img = k).
Proof.
  induction cs as [|c cs IH]; intros acc Hnd; simpl.
  - split; [exact Hnd|]. split; [intros k v H; left; exact H|].
    intros k. split; [intros H; left; exact H|].
    intros [H|(img & (c & [] & _) & _)]. exact H.
  - assert (Hnd' : List.NoDup (map fst (putChange acc c))).
    { unfold putChange. destruct (ch_image c); [apply putImage_NoDup|]; exact Hnd. }
    destruct (IH _ Hnd') as (H1 & H2 & H3). split; [exact H1|]. split.
    + intros k v Hin. destruct (H2 k v Hin) as [Hacc|[Hk (c' & Hc' & Himg)]].
      * unfold putChange in Hacc. destruct (ch_image c) as [img|] eqn:E; [|left; exact Hacc].
        apply putImage_In in Hacc as [[-> ->]|Hacc]; [|left; exact Hacc].
        right. split; [reflexivity|]. exists c. split; [left; reflexivity | exact E].
      * right. split; [exact Hk|]. exists c'. split; [right; exact Hc' | exact Himg].
    + intros k. rewrite H3. unfold putChange, imageOf. split.
      * intros [Hin|(img & (c' & Hc' & Himg) & Hk)].
        -- destruct (ch_image c) as [img|] eqn:E; [|left; exact Hin].
           apply putImage_keys in Hin as [->|Hin]; [|left; exact Hin].
           right. exists img. split; [|reflexivity].
           exists c. split; [left; reflexivity | exact E].
        -- right. exists img. split; [|exact Hk].
           exists c'. split; [right; exact Hc' | exact Himg].
      * intros [Hin|(img & (c' & [<-|Hc'] & Himg) & Hk)].
        -- left. destruct (ch_image c); [apply putImage_keys; right|]; exact Hin.
        -- left. rewrite Himg. apply putImage_keys. left. symmetry. exact Hk.
        -- right. exists img. split; [|exact Hk]. exists c'. split; assumption.
Qed.

Lemma imageFromUuid_spec cs :
  List.NoDup (map fst (imageFromUuid cs))
  /\ (forall k v, In (k, v) (imageFromUuid cs) -> img_uuid v = k /\ imageOf cs v)
  /\ (forall k, In k (map fst (imageFromUuid cs)) <->
        exists img, imageOf cs img /\ img_uuid img = k).
Proof.
  destruct (imageFromUuid_fold cs [] (List.NoDup_nil _)) as (H1 & H2 & H3).
  split; [exact H1|]. split.
  - intros k v H. destruct (H2 k v H) as [[]|?]. assumption.
  - intros k. rewrite (H3 k). simpl. tauto.
Qed.

(** What the parallel lookup collects when no callback throws. *)
Lemma forEachImage_Ret getImage images missing errs :
  forEachImage getImage images = Ret (missing, errs) ->
  missing = List.filter (isMissing getImage) images
  /\ (errs = [] ->
      Forall (fun img => getImage (img_uuid img) = ImgFound
                         \/ notLocal getImage (img_uuid img)) images).
Proof.
  revert missing errs. induction images as [|img images IH]; simpl; intros missing errs H.
  - injection H as <- <-. split; [reflexivity | constructor].
  - unfold imageExists in H.
    destruct (getImage (img_uuid img)) as [|[code|]] eqn:E; simpl in H.
    + apply bind_Ret in H as ([m e] & Hrest & [= <- <-]).
      destruct (IH _ _ Hrest) as [-> Hall]. split.
      * unfold isMissing. rewrite E. reflexivity.
      * intros He. constructor; [left; exact E | exact (Hall He)].
    + destruct (String.eqb code "ResourceNotFound") eqn:Hc.
      * apply bind_Ret in H as ([m e] & Hrest & [= <- <-]).
        destruct (IH _ _ Hrest) as [-> Hall]. split.
        -- unfold isMissing. rewrite E, Hc. reflexivity.
        -- intros He. apply String.eqb_eq in Hc. subst code.
           constructor; [right; exact E | exact (Hall He)].
      * apply bind_Ret in H as ([m e] & Hrest & [= <- <-]).
        destruct (IH _ _ Hrest) as [-> Hall]. split; [|discriminate].
        unfold isMissing. rewrite E, Hc. reflexivity.
    + discriminate.
Qed.

Lemma In_DownloadImages images ps :
  In (DownloadImages images) ps
  <-> In (DownloadImages images) (List.filter isDownloadImages ps).
Proof.
  rewrite List.filter_In. split; [intros H; split; [exact H | reflexivity] | tauto].
Qed.

(** X6: A successful coordinatePlan found every image of a change either in
    the local IMGAPI or missing from it, and a DownloadImages procedure it
    returns lists the missing ones: every image it names is the image of
    a change and is not local, no uuid is named twice, and every uuid of a
    change's image that is not local is named.  There is such a procedure
    as soon as one image is missing. *)
Theorem DownloadImages_names_the_missing_images
    (host : string) (getImage : string -> imgapi_reply)
    (plan : UpdatePlan) (result : list Procedure) :
  coordinatePlan host getImage plan = Ret result ->
  (forall img, imageOf (plan_changes plan) img ->
     getImage (img_uuid img) = ImgFound \/ notLocal getImage (img_uuid img))
  /\ (forall images, In (DownloadImages images) result ->
        images <> []
        /\ List.NoDup (map img_uuid images)
        /\ Forall (fun img => imageOf (plan_changes plan) img
                              /\ notLocal getImage (img_uuid img)) images
        /\ forall img, imageOf (plan_changes plan) img ->
             notLocal getImage (img_uuid img) ->
             In (img_uuid img) (map img_uuid images))
  /\ ((exists img, imageOf (plan_changes plan) img
                   /\ notLocal getImage (img_uuid img)) ->
      exists images, In (DownloadImages images) result).
Proof.
  intros H. apply coordinatePlan_Ret in H as (st0 & Himg & _ & _ & _ & Hres).
  assert (Hdl : forall images,
             In (DownloadImages images) result <-> In (DownloadImages images) (procs st0)).
  { intros images. subst result.
    rewrite (In_DownloadImages images (procs st0)).
    rewrite <- (runFilters_downloads host (instsFromSvcName (plan_curr plan)) st0).
    destruct (plan_justImages plan); [reflexivity|]. apply In_DownloadImages. }
  clear Hres. unfold coordImages in Himg. simpl in Himg.
  apply bind_Ret in Himg as ([missing errs] & Hfor & Hst). simpl in Hst.
  destruct errs; [|discriminate].
  apply forEachImage_Ret in Hfor as [Hmissing Hall]. specialize (Hall eq_refl).
  destruct (imageFromUuid_spec (plan_changes plan)) as (Hnd & Hval & Hkeys).
  set (M := imageFromUuid (plan_changes plan)) in *.
  assert (Hkv : forall v, In v (map snd M) -> In (img_uuid v, v) M).
  { intros v Hv. apply in_map_iff in Hv as ([k x] & <- & Hin). simpl.
    destruct (Hval _ _ Hin) as [-> _]. exact Hin. }
  assert (Hfst : map img_uuid (map snd M) = map fst M).
  { rewrite map_map. apply map_ext_in. intros [k v] Hin. simpl.
    exact (proj1 (Hval _ _ Hin)). }
  assert (Hlocal : forall img, imageOf (plan_changes plan) img ->
             getImage (img_uuid img) = ImgFound \/ notLocal getImage (img_uuid img)).
  { intros img Himg.
    assert (Hk : In (img_uuid img) (map fst M)) by (apply Hkeys; eauto).
    rewrite <- Hfst in Hk. apply in_map_iff in Hk as (v & Hv & Hin).
    rewrite <- Hv. clear Hv. revert v Hin. apply List.Forall_forall. exact Hall. }
  assert (Hsub : forall img, In img missing ->
             imageOf (plan_changes plan) img /\ notLocal getImage (img_uuid img)).
  { intros img Hin. rewrite Hmissing in Hin. apply List.filter_In in Hin as [Hin Hm].
    split; [|apply isMissing_notLocal; exact Hm].
    exact (proj2 (Hval _ _ (Hkv _ Hin))). }
  assert (Hnd' : List.NoDup (map img_uuid missing)).
  { rewrite Hmissing. apply NoDup_ListNoDup.
    eapply sublist_NoDup; [|apply (fmap_sublist img_uuid), filter_sublist].
    apply NoDup_ListNoDup. change (List.NoDup (map img_uuid (map snd M))).
    rewrite Hfst. exact Hnd. }
  assert (Hcov : forall img, imageOf (plan_changes plan) img ->
             notLocal getImage (img_uuid img) ->
             In (img_uuid img) (map img_uuid missing)).
  { intros img Himg Hnot.
    assert (Hk : In (img_uuid img) (map fst M)) by (apply Hkeys; eauto).
    rewrite <- Hfst in Hk. apply in_map_iff in Hk as (v & Hv & Hin).
    apply in_map_iff. exists v. split; [exact Hv|].
    rewrite Hmissing. apply List.filter_In. split; [exact Hin|].
    apply isMissing_notLocal. rewrite Hv. exact Hnot. }
  split; [exact Hlocal|]. split.
  - intros images Hin. apply Hdl in Hin.
    destruct missing as [|m0 missing']; injection Hst as <-; simpl in Hin;
      [destruct Hin|].
    destruct Hin as [[= <-]|[]].
    split; [discriminate|]. split; [exact Hnd'|].
    split; [apply List.Forall_forall; exact Hsub | exact Hcov].
  - intros (img & Himg & Hnot).
    destruct missing as [|m0 missing']; [destruct (Hcov img Himg Hnot)|].
    exists (m0 :: missing'). apply Hdl. injection Hst as <-. left. reflexivity.
Qed.

Lemma DownloadImages_names_the_missing_images_witness :
  (forall img, imageOf (plan_changes Scenario.justImagesPlan) img ->
     Scenario.noneLocal (img_uuid img) = ImgFound
     \/ notLocal Scenario.noneLocal (img_uuid img))
  /\ (forall images, In (DownloadImages images) [DownloadImages [Scenario.imageB "cnapi"]] ->
        images <> []
        /\ List.NoDup (map img_uuid images)
        /\ Forall (fun img => imageOf (plan_changes Scenario.justImagesPlan) img
                              /\ notLocal Scenario.noneLocal (img_uuid img)) images
        /\ forall img, imageOf (plan_changes Scenario.justImagesPlan) img ->
             notLocal Scenario.noneLocal (img_uuid img) ->
             In (img_uuid img) (map img_uuid images))
  /\ ((exists img, imageOf (plan_changes Scenario.justImagesPlan) img
                   /\ notLocal Scenario.noneLocal (img_uuid img)) ->
      exists images, In (DownloadImages images) [DownloadImages [Scenario.imageB "cnapi"]]).
Proof.
  apply (DownloadImages_names_the_missing_images "headnode" Scenario.noneLocal
           Scenario.justImagesPlan).
  vm_compute. reflexivity.
Defined.


(** *** Failing image lookups *)

(** The error imageExists reports for an image, if any. *)
Definition lookupError (getImage : string -> imgapi_reply) (img : Image)
    : option client_error :=
  match getImage (img_uuid img) with
  | ImgError (Some code) =>
      if String.eqb code "ResourceNotFound" then None
      else Some (SDCClientError "imgapi" code)
  | _ => None
  end.

Definition hasBody (getImage : string -> imgapi_reply) (img : Image) : Prop :=
  getImage (img_uuid img) <> ImgError None.

Lemma forEachImage_bodies getImage images :
  Forall (hasBody getImage) images ->
  forEachImage getImage images
  = Ret (List.filter (isMissing getImage) images, omap (lookupError getImage) images).
Proof.
  induction images as [|img images IH]; intros H; [reflexivity|].
  inversion H as [|? ? Hb Hrest]; subst. simpl.
  rewrite (IH Hrest). unfold imageExists, isMissing, lookupError, hasBody in *.
  destruct (getImage (img_uuid img)) as [|[code|]]; simpl.
  - reflexivity.
  - destruct (String.eqb code "ResourceNotFound"); reflexivity.
  - contradiction.
Qed.

Lemma forEachImage_no_body getImage images :
  Exists (fun img => getImage (img_uuid img) = ImgError None) images ->
  forEachImage getImage images
  = Throws "TypeError: Cannot read property 'code' of undefined".
Proof.
  induction images as [|img images IH]; intros H; [inversion H|]. simpl.
  unfold imageExists.
  destruct (getImage (img_uuid img)) as [|[code|]] eqn:E.
  - inversion H as [? ? Hx|? ? Hx]; subst; [congruence|]. rewrite (IH Hx). reflexivity.
  - inversion H as [? ? Hx|? ? Hx]; subst; [congruence|]. rewrite (IH Hx).
    destruct (String.eqb code "ResourceNotFound"); reflexivity.
  - reflexivity.
Qed.

Lemma images_of_changes cs img :
  In img (map snd (imageFromUuid cs)) -> imageOf cs img.
Proof.
  intros H. apply in_map_iff in H as ([k v] & <- & Hin).
  exact (proj2 (proj1 (proj2 (imageFromUuid_spec cs)) _ _ Hin)).
Qed.

(** An image of a change has an entry under its uuid, and the entry is
    an image of a change with that uuid. *)
Lemma entry_of_image cs img :
  imageOf cs img ->
  exists v, In v (map snd (imageFromUuid cs)) /\ img_uuid v = img_uuid img.
Proof.
  intros H. destruct (imageFromUuid_spec cs) as (_ & Hval & Hkeys).
  assert (Hk : In (img_uuid img) (map fst (imageFromUuid cs))) by (apply Hkeys; eauto).
  apply in_map_iff in Hk as ([k v] & Hkv & Hin). simpl in Hkv. subst k.
  exists v. split; [apply in_map_iff; exists (img_uuid img, v); split; [reflexivity | exact Hin]|].
  exact (proj1 (Hval _ _ Hin)).
Qed.

(** X7: When the lookup of some change's image fails with an error other than
    'ResourceNotFound' (every error carrying a body), coordinatePlan
    produces no procedure: it reports a MultiError that holds, for each
    failed lookup, the IMGAPI client error of that lookup, and nothing
    else. *)
Theorem failed_image_lookups_are_reported
    (host : string) (getImage : string -> imgapi_reply) (plan : UpdatePlan)
    (img : Image) (code : string) :
  (forall x, imageOf (plan_changes plan) x -> hasBody getImage x) ->
  imageOf (plan_changes plan) img ->
  getImage (img_uuid img) = ImgError (Some code) ->
  code <> "ResourceNotFound" ->
  exists errs,
    coordinatePlan host getImage plan = Raise (MultiError errs)
    /\ In (SDCClientError "imgapi" code) errs
    /\ Forall (fun e => exists x c,
                 imageOf (plan_changes plan) x
                 /\ getImage (img_uuid x) = ImgError (Some c)
                 /\ c <> "ResourceNotFound"
                 /\ e = SDCClientError "imgapi" c) errs.
Proof.
  intros Hbodies Himg Hget Hcode.
  set (images := map snd (imageFromUuid (plan_changes plan))).
  assert (Hfor : forEachImage getImage images
                 = Ret (List.filter (isMissing getImage) images,
                        omap (lookupError getImage) images)).
  { apply forEachImage_bodies. apply List.Forall_forall. intros x Hx.
    apply Hbodies. apply images_of_changes. exact Hx. }
  assert (Hin : In (SDCClientError "imgapi" code) (omap (lookupError getImage) images)).
  { destruct (entry_of_image _ _ Himg) as (v & Hv & Hu).
    apply list_elem_of_In. apply list_elem_of_omap. exists v.
    split; [apply list_elem_of_In; exact Hv|].
    unfold lookupError. rewrite Hu, Hget.
    destruct (String.eqb code "ResourceNotFound") eqn:E; [|reflexivity].
    apply String.eqb_eq in E. contradiction. }
  exists (omap (lookupError getImage) images). split; [|split; [exact Hin|]].
  - unfold coordinatePlan, runPipeline, coordImages. simpl. fold images.
    rewrite Hfor. simpl.
    destruct (omap (lookupError getImage) images); [destruct Hin | reflexivity].
  - apply List.Forall_forall. intros e He.
    apply list_elem_of_In, list_elem_of_omap in He as (x & Hx & Hex).
    apply list_elem_of_In in Hx. unfold lookupError in Hex.
    destruct (getImage (img_uuid x)) as [|[c|]] eqn:Ex; try discriminate.
    destruct (String.eqb c "ResourceNotFound") eqn:Ec; [discriminate|].
    injection Hex as <-. exists x, c.
    split; [apply images_of_changes; exact Hx|]. split; [exact Ex|].
    split; [apply String.eqb_neq; exact Ec | reflexivity].
Qed.


(** An IMGAPI that fails every lookup with the given code, or with an
    error that carries no body. *)
Definition failingWith (code : string) : string -> imgapi_reply :=
  fun _ => ImgError (Some code).
Definition failingBare : string -> imgapi_reply := fun _ => ImgError None.

Lemma failed_image_lookups_are_reported_witness :
  exists errs,
    coordinatePlan "headnode" (failingWith "InternalError") Scenario.justImagesPlan
    = Raise (MultiError errs)
    /\ In (SDCClientError "imgapi" "InternalError") errs
    /\ Forall (fun e => exists x c,
                 imageOf (plan_changes Scenario.justImagesPlan) x
                 /\ failingWith "InternalError" (img_uuid x) = ImgError (Some c)
                 /\ c <> "ResourceNotFound"
                 /\ e = SDCClientError "imgapi" c) errs.
Proof.
  apply (failed_image_lookups_are_reported "headnode" (failingWith "InternalError")
           Scenario.justImagesPlan (Scenario.imageB "cnapi") "InternalError").
  - intros x _. discriminate.
  - exists (Scenario.update "cnapi" (Scenario.imageB "cnapi")).
    split; [left; reflexivity | reflexivity].
  - reflexivity.
  - discriminate.
Defined.

(** X8: An IMGAPI error that carries no body is not reported: reading its
    [body.code] raises a TypeError, whatever the other lookups answer. *)
Theorem image_error_without_body_throws
    (host : string) (getImage : string -> imgapi_reply) (plan : UpdatePlan)
    (img : Image) :
  imageOf (plan_changes plan) img ->
  getImage (img_uuid img) = ImgError None ->
  coordinatePlan host getImage plan
  = Throws "TypeError: Cannot read property 'code' of undefined".
Proof.
  intros Himg Hget. destruct (entry_of_image _ _ Himg) as (v & Hv & Hu).
  unfold coordinatePlan, runPipeline, coordImages. simpl.
  rewrite forEachImage_no_body; [reflexivity|].
  apply List.Exists_exists. exists v. split; [exact Hv|]. rewrite Hu. exact Hget.
Qed.

Lemma image_error_without_body_throws_witness :
  coordinatePlan "headnode" failingBare Scenario.justImagesPlan
  = Throws "TypeError: Cannot read property 'code' of undefined".
Proof.
  apply (image_error_without_body_throws "headnode" failingBare
           Scenario.justImagesPlan (Scenario.imageB "cnapi")).
  - exists (Scenario.update "cnapi" (Scenario.imageB "cnapi")).
    split; [left; reflexivity | reflexivity].
  - reflexivity.
Defined.

End CoordinatorFacts.

Module PlannerFacts.

Import Js Planner PlannerProps.
Import CoordinatorProps.

(** What a successful genUpdatePlan says about each of its stages. *)
Lemma genUpdatePlan_Ret host getImage cfg opts servers insts cs plan :
  genUpdatePlan host getImage cfg opts servers insts cs = Ret plan ->
  exists cs1 cs2 targ procs,
    checkForConflictingChanges cs = Ret tt
    /\ dropNoops opts insts cs = Ret cs1
    /\ resolveDeps cs1 = Ret cs2
    /\ disallowRabbitmqUpdates opts cs2 = Ret tt
    /\ ensureVmMinPlatform cfg servers insts cs2 = Ret tt
    /\ minImageBuildDateFromSvcName cfg insts cs2 = Ret tt
    /\ applyChanges cs2 insts = Ret targ
    /\ Coordinator.coordinatePlan host getImage
         (newUpdatePlan insts targ cs2 (justImages opts)) = Ret procs
    /\ plan = set_procs (newUpdatePlan insts targ cs2 (justImages opts)) procs.
Proof.
  unfold genUpdatePlan. intros H.
  apply bind_Ret in H as ([] & Hcheck & H).
  apply bind_Ret in H as (cs1 & Hdrop & H).
  apply bind_Ret in H as (cs2 & Hres & H).
  apply bind_Ret in H as ([] & Hrabbit & H).
  apply bind_Ret in H as ([] & Hplat & H).
  apply bind_Ret in H as ([] & Hmin & H).
  apply bind_Ret in H as (plan0 & Hcreate & H).
  unfold determineProcedures in H.
  apply bind_Ret in H as (procs & Hprocs & H). injection H as <-.
  unfold createPlan in Hcreate.
  apply bind_Ret in Hcreate as (targ & Happly & Hplan). injection Hplan as <-.
  exists cs1, cs2, targ, procs. repeat (split; [assumption|]). reflexivity.
Qed.

(** *** The order of publication dates *)

Lemma ascii_compare_refl c : Ascii.compare c c = Eq.
Proof. unfold Ascii.compare. apply N.compare_refl. Qed.

Lemma ascii_compare_eq c d : Ascii.compare c d = Eq -> c = d.
Proof.
  unfold Ascii.compare. intros H. apply N.compare_eq in H.
  rewrite <- (ascii_N_embedding c), <- (ascii_N_embedding d), H. reflexivity.
Qed.

Lemma ascii_compare_trans c d e :
  Ascii.compare c d = Lt -> Ascii.compare d e = Lt -> Ascii.compare c e = Lt.
Proof.
  unfold Ascii.compare. rewrite !N.compare_lt_iff. apply N.lt_trans.
Qed.

Lemma compare_refl s : String.compare s s = Eq.
Proof. induction s as [|c s IH]; simpl; [reflexivity|]. rewrite ascii_compare_refl. exact IH. Qed.

Lemma compare_cons_Lt c s d t :
  String.compare (String c s) (String d t) = Lt
  <-> Ascii.compare c d = Lt \/ (c = d /\ String.compare s t = Lt).
Proof.
  simpl. destruct (Ascii.compare c d) eqn:E.
  - apply ascii_compare_eq in E. subst d. split; [intros H; right; split; [reflexivity | exact H]|].
    intros [H|[_ H]]; [discriminate | exact H].
  - split; [intros _; left; reflexivity | reflexivity].
  - split; [discriminate|]. intros [H|[-> _]]; [discriminate|].
    rewrite ascii_compare_refl in E. discriminate.
Qed.

Lemma compare_trans s : forall t u,
  String.compare s t = Lt -> String.compare t u = Lt -> String.compare s u = Lt.
Proof.
  induction s as [|c s IH]; intros [|d t] [|e u]; try (simpl; congruence).
  rewrite !compare_cons_Lt. intros [H1|[-> H1]] [H2|[-> H2]].
  - left. exact (ascii_compare_trans _ _ _ H1 H2).
  - left. exact H1.
  - left. exact H2.
  - right. split; [reflexivity | exact (IH _ _ H1 H2)].
Qed.

(** [a] is not after [b]. *)
Definition notAfter (a b : string) : Prop := String.ltb b a = false.

Lemma ltb_compare a b : String.ltb a b = true <-> String.compare a b = Lt.
Proof. unfold String.ltb. destruct (String.compare a b); split; congruence. Qed.

Lemma notAfter_refl a : notAfter a a.
Proof. unfold notAfter, String.ltb. rewrite compare_refl. reflexivity. Qed.

Lemma notAfter_cases a b : notAfter a b <-> a = b \/ String.ltb a b = true.
Proof.
  unfold notAfter, String.ltb. rewrite (String.compare_antisym b a).
  destruct (String.compare a b) eqn:E; simpl.
  - apply String.compare_eq_iff in E. split; [intros _; left; exact E | reflexivity].
  - split; [intros _; right; reflexivity | reflexivity].
  - split; [discriminate|]. intros [->|H]; [|discriminate].
    rewrite compare_refl in E. discriminate.
Qed.

Lemma notAfter_trans a b c : notAfter a b -> notAfter b c -> notAfter a c.
Proof.
  rewrite !notAfter_cases. intros [->|H1] [->|H2]; try tauto.
  right. apply ltb_compare. apply ltb_compare in H1, H2. exact (compare_trans _ _ _ H1 H2).
Qed.

Lemma ltb_notAfter a b : String.ltb a b = true -> notAfter a b.
Proof. intros H. apply notAfter_cases. right. exact H. Qed.

(** *** The image resolveDeps chooses *)

Definition published (x y : Image) : Prop :=
  notAfter (img_published_at x) (img_published_at y).

(** Each image is published no later than those after it. *)
Fixpoint ascending (l : list Image) : Prop :=
  match l with
  | [] => True
  | x :: l' => Forall (published x) l' /\ ascending l'
  end.

Lemma insertImage_In x l y : In y (insertImage x l) <-> y = x \/ In y l.
Proof.
  induction l as [|z l IH]; simpl; [intuition congruence|].
  destruct (String.ltb (img_published_at x) (img_published_at z)); simpl.
  - intuition congruence.
  - rewrite IH. intuition congruence.
Qed.

Lemma insertImage_sorted x l :
  ascending l -> ascending (insertImage x l).
Proof.
  induction l as [|z l IH]; simpl; intros H.
  - split; [constructor | exact I].
  - destruct H as [Hz Hl].
    destruct (String.ltb (img_published_at x) (img_published_at z)) eqn:E.
    + split; [|split; assumption]. constructor; [apply ltb_notAfter; exact E|].
      apply List.Forall_forall. intros w Hw.
      apply (notAfter_trans _ (img_published_at z)); [apply ltb_notAfter; exact E|].
      exact (proj1 (List.Forall_forall _ _) Hz w Hw).
    + split; [|apply IH; exact Hl].
      apply List.Forall_forall. intros w Hw. apply insertImage_In in Hw as [->|Hw].
      * exact E.
      * exact (proj1 (List.Forall_forall _ _) Hz w Hw).
Qed.

Lemma sortImages_fold l : forall acc,
  ascending acc ->
  ascending (fold_left (fun acc x => insertImage x acc) l acc)
  /\ forall y, In y (fold_left (fun acc x => insertImage x acc) l acc)
               <-> In y acc \/ In y l.
Proof.
  induction l as [|x l IH]; intros acc H; simpl.
  - split; [exact H | intros y; tauto].
  - destruct (IH _ (insertImage_sorted x acc H)) as [Hs Hin]. split; [exact Hs|].
    intros y. rewrite Hin, insertImage_In. intuition congruence.
Qed.

Lemma sortImages_spec l :
  ascending (sortImages l) /\ forall y, In y (sortImages l) <-> In y l.
Proof.
  destruct (sortImages_fold l [] I) as [Hs Hin]. split; [exact Hs|].
  intros y. rewrite (Hin y). simpl. tauto.
Qed.

Lemma last_sorted l :
  ascending l -> l <> [] ->
  exists m, last l = Some m /\ In m l /\ Forall (fun x => published x m) l.
Proof.
  induction l as [|x l IH]; intros H Hne; [contradiction|].
  destruct H as [Hx Hl]. destruct l as [|y l'].
  - exists x. split; [reflexivity|]. split; [left; reflexivity|].
    constructor; [apply notAfter_refl | constructor].
  - destruct (IH Hl) as (m & Hlast & Hin & Hall); [discriminate|].
    exists m. split; [exact Hlast|]. split; [right; exact Hin|].
    constructor; [|exact Hall].
    exact (proj1 (List.Forall_forall _ _) Hx m Hin).
Qed.

(** The image a change asks for: the one it names, or else the candidate
    published last. *)
Definition chosen (c : Change) (img : Image) : Prop :=
  ch_image c = Some img
  \/ (ch_image c = None
      /\ exists images,
           ch_images c = Some images /\ In img images
           /\ Forall (fun x => published x img) images).

Lemma resolveChange_chosen c c' :
  resolveChange c = Ret c' ->
  ch_type c' = ch_type c /\ ch_service c' = ch_service c
  /\ ch_instance c' = ch_instance c /\ ch_server c' = ch_server c
  /\ ch_images c' = None
  /\ (forall img, ch_image c' = Some img -> chosen c img)
  /\ (ch_image c' = None -> ch_image c = None /\ ch_images c = Some []).
Proof.
  unfold resolveChange, chosen. destruct (ch_image c) as [img|] eqn:Ei.
  - intros [= <-]. simpl. repeat (split; [reflexivity|]). split.
    + intros ? [= <-]. left. reflexivity.
    + discriminate.
  - destruct (ch_images c) as [[|x images]|] eqn:Es; [| |discriminate].
    + intros [= <-]. simpl. repeat (split; [reflexivity|]). split; [discriminate|].
      intros _. split; reflexivity.
    + intros [= <-]. simpl. repeat (split; [reflexivity|]).
      destruct (sortImages_spec (x :: images)) as [Hs Hin].
      destruct (last_sorted _ Hs) as (m & Hlast & Hm & Hall).
      { intros Hnil. assert (In x (sortImages (x :: images))) as Hx
          by (apply Hin; left; reflexivity).
        rewrite Hnil in Hx. destruct Hx. }
      rewrite Hlast. split; [|discriminate].
      intros ? [= <-]. right. split; [reflexivity|].
      exists (x :: images). split; [reflexivity|]. split; [apply Hin; exact Hm|].
      apply List.Forall_forall. intros y Hy.
      exact (proj1 (List.Forall_forall _ _) Hall y (proj2 (Hin y) Hy)).
Qed.

Lemma resolveDeps_Forall2 cs cs' :
  resolveDeps cs = Ret cs' -> Forall2 (fun c c' => resolveChange c = Ret c') cs cs'.
Proof.
  revert cs'. induction cs as [|c cs IH]; simpl; intros cs' H.
  - injection H as <-. constructor.
  - apply bind_Ret in H as (c' & Hc & H). apply bind_Ret in H as (rest & Hrest & H).
    injection H as <-. constructor; [exact Hc | exact (IH _ Hrest)].
Qed.

(** What dropNoops keeps of the updates has candidates. *)
Lemma dropNoops_candidates opts insts cs l :
  dropNoops opts insts cs = Ret l ->
  Forall (fun ch => In ch cs
                    /\ (isUpdate ch ->
                        exists images, ch_images ch = Some images /\ images <> [])) l.
Proof.
  revert l. induction cs as [|c cs IH]; simpl; intros l H.
  - injection H as <-. constructor.
  - apply bind_Ret in H as (keep & Hk & H). apply bind_Ret in H as (rest & Hrest & H).
    injection H as <-. specialize (IH _ Hrest).
    assert (IH' : Forall (fun ch => (c = ch \/ In ch cs)
                    /\ (isUpdate ch ->
                        exists images, ch_images ch = Some images /\ images <> [])) rest).
    { eapply List.Forall_impl; [|exact IH]. simpl. intros a [Ha Hb]. split; [right; exact Ha | exact Hb]. }
    destruct keep; [|exact IH']. constructor; [|exact IH'].
    split; [left; reflexivity|]. intros Hup. apply isUpdate_eqb in Hup.
    unfold keepChange in Hk. rewrite Hup in Hk.
    destruct (ch_images c) as [[|x images]|]; try discriminate.
    exists (x :: images). split; [reflexivity | discriminate].
Qed.

Lemma resolved_updates cs1 cs2 :
  Forall2 (fun c c' => resolveChange c = Ret c') cs1 cs2 ->
  Forall (fun ch => isUpdate ch ->
                    exists images, ch_images ch = Some images /\ images <> []) cs1 ->
  Forall (fun ch => ch_type ch = "update-service") cs2 ->
  Forall (fun ch => ch_type ch = "update-service"
                    /\ ch_images ch = None
                    /\ is_Some (ch_image ch)) cs2.
Proof.
  induction 1 as [|c c' cs1' cs2' Hc Hrest IH]; intros Hcand Htypes; [constructor|].
  inversion Hcand as [|? ? Hc1 Hcand']; subst.
  inversion Htypes as [|? ? Ht Htypes']; subst.
  constructor; [|exact (IH Hcand' Htypes')].
  apply resolveChange_chosen in Hc as (Hty & _ & _ & _ & Himgs & _ & Hnone).
  split; [exact Ht|]. split; [exact Himgs|].
  destruct (ch_image c') as [img|]; [eexists; reflexivity|].
  destruct (Hnone eq_refl) as [_ Hempty].
  destruct Hc1 as (images & Hi & Hne); [left; rewrite <- Hty; exact Ht|].
  rewrite Hi in Hempty. injection Hempty as ->. contradiction.
Qed.

(** X9: Every change of a generated plan is a service update whose candidates
    have been resolved to one image, and no two changes of the plan name
    the same service. *)
Theorem generated_plan_holds_one_resolved_update_per_service
    (host : string) (getImage : string -> Coordinator.imgapi_reply)
    (cfg : Config) (opts : Options) (servers : list Server)
    (insts : list Instance) (cs : list Change) (plan : UpdatePlan) :
  genUpdatePlan host getImage cfg opts servers insts cs = Ret plan ->
  Forall (fun ch => ch_type ch = "update-service"
                    /\ ch_images ch = None
                    /\ is_Some (ch_image ch)) (plan_changes plan)
  /\ List.NoDup (map (fun ch => svc_name (ch_service ch)) (plan_changes plan)).
Proof.
  intros H. apply genUpdatePlan_Ret in H
    as (cs1 & cs2 & targ & procs & Hcheck & Hdrop & Hres & _ & _ & _ & Happly & _ & ->).
  simpl. pose proof (applyChanges_types cs2 insts targ Happly) as Htypes. split.
  - apply (resolved_updates cs1 cs2); [exact (resolveDeps_Forall2 _ _ Hres)| |exact Htypes].
    eapply List.Forall_impl; [|exact (dropNoops_candidates _ _ _ _ Hdrop)].
    simpl. intros a [_ Ha]. exact Ha.
  - rewrite <- (svcNames_all cs2 Htypes).
    rewrite (resolveDeps_names cs1 cs2 Hres).
    destruct (dropNoops_keeps opts insts cs cs1 Hdrop) as (keep & ->).
    unfold svcNames. rewrite filter_comm. apply NoDup_map_filter.
    exact (check_names cs Hcheck).
Qed.


Lemma generated_plan_holds_one_resolved_update_per_service_witness :
  exists plan,
    genUpdatePlan "headnode" Scenario.allLocal Scenario.config
      Scenario.plainOptions Scenario.servers Scenario.inventory
      [Scenario.candidate "update-service" "cnapi"
         [Scenario.imageA "cnapi"; Scenario.imageB "cnapi"]]
    = Ret plan
    /\ Forall (fun ch => ch_type ch = "update-service"
                         /\ ch_images ch = None
                         /\ is_Some (ch_image ch)) (plan_changes plan)
    /\ List.NoDup (map (fun ch => svc_name (ch_service ch)) (plan_changes plan)).
Proof.
  eexists. split; [vm_compute; reflexivity|].
  apply (generated_plan_holds_one_resolved_update_per_service "headnode"
           Scenario.allLocal Scenario.config Scenario.plainOptions Scenario.servers
           Scenario.inventory
           [Scenario.candidate "update-service" "cnapi"
              [Scenario.imageA "cnapi"; Scenario.imageB "cnapi"]]).
  vm_compute. reflexivity.
Defined.

Lemma resolved_from cs cs1 cs2 :
  Forall2 (fun c c' => resolveChange c = Ret c') cs1 cs2 ->
  Forall (fun c => In c cs) cs1 ->
  Forall (fun c' => exists c, In c cs /\ resolveChange c = Ret c') cs2.
Proof.
  induction 1 as [|c c' cs1' cs2' Hc Hrest IH]; intros Hin; [constructor|].
  inversion Hin as [|? ? Hc1 Hin']; subst.
  constructor; [exists c; split; assumption | exact (IH Hin')].
Qed.

(** X10: The image of each change of a generated plan is the one the request
    for that service names, or else, among the candidates of that request,
    one that no candidate was published after. *)
Theorem generated_plan_takes_the_latest_candidate
    (host : string) (getImage : string -> Coordinator.imgapi_reply)
    (cfg : Config) (opts : Options) (servers : list Server)
    (insts : list Instance) (cs : list Change) (plan : UpdatePlan) :
  genUpdatePlan host getImage cfg opts servers insts cs = Ret plan ->
  Forall (fun ch => exists c img,
            In c cs
            /\ ch_type c = ch_type ch /\ ch_service c = ch_service ch
            /\ ch_image ch = Some img
            /\ chosen c img) (plan_changes plan).
Proof.
  intros H.
  apply genUpdatePlan_Ret in H
    as (cs1 & cs2 & targ & procs & _ & Hdrop & Hres & _ & _ & _ & Happly & _ & ->).
  simpl. pose proof (applyChanges_types cs2 insts targ Happly) as Htypes.
  pose proof (dropNoops_candidates _ _ _ _ Hdrop) as Hcand.
  apply resolveDeps_Forall2 in Hres.
  assert (Hshape := resolved_updates cs1 cs2 Hres
            (List.Forall_impl _ (fun a (Ha : _ /\ _) => proj2 Ha) Hcand) Htypes).
  assert (Hfrom := resolved_from cs cs1 cs2 Hres
            (List.Forall_impl _ (fun a (Ha : _ /\ _) => proj1 Ha) Hcand)).
  apply List.Forall_forall. intros ch Hch.
  destruct (proj1 (List.Forall_forall _ _) Hshape ch Hch) as (_ & _ & [img Himg]).
  destruct (proj1 (List.Forall_forall _ _) Hfrom ch Hch) as (c & Hc & Hr).
  apply resolveChange_chosen in Hr as (Hty & Hsvc & _ & _ & _ & Hchosen & _).
  exists c, img. split; [exact Hc|]. split; [symmetry; exact Hty|].
  split; [symmetry; exact Hsvc|]. split; [exact Himg | exact (Hchosen img Himg)].
Qed.

Lemma generated_plan_takes_the_latest_candidate_witness :
  exists plan,
    genUpdatePlan "headnode" Scenario.allLocal Scenario.config
      Scenario.plainOptions Scenario.servers Scenario.inventory
      [Scenario.candidate "update-service" "cnapi"
         [Scenario.imageB "cnapi"; Scenario.imageA "cnapi"]]
    = Ret plan
    /\ map ch_image (plan_changes plan) = [Some (Scenario.imageB "cnapi")]
    /\ Forall (fun ch => exists c img,
                 In c [Scenario.candidate "update-service" "cnapi"
                         [Scenario.imageB "cnapi"; Scenario.imageA "cnapi"]]
                 /\ ch_type c = ch_type ch /\ ch_service c = ch_service ch
                 /\ ch_image ch = Some img
                 /\ chosen c img) (plan_changes plan).
Proof.
  eexists. split; [vm_compute; reflexivity|]. split; [reflexivity|].
  apply (generated_plan_takes_the_latest_candidate "headnode"
           Scenario.allLocal Scenario.config Scenario.plainOptions Scenario.servers
           Scenario.inventory
           [Scenario.candidate "update-service" "cnapi"
              [Scenario.imageB "cnapi"; Scenario.imageA "cnapi"]]).
  vm_compute. reflexivity.
Defined.

(** *** The lock on rabbitmq *)

Lemma disallowRabbitmqUpdates_Ret opts cs :
  disallowRabbitmqUpdates opts cs = Ret tt ->
  forceRabbitmq opts = false ->
  Forall (fun ch => svc_name (ch_service ch) <> "rabbitmq") cs.
Proof.
  intros H Hf. induction cs as [|ch cs IH]; [constructor|]. simpl in H.
  rewrite Hf in H. simpl in H. rewrite andb_true_r in H.
  destruct (String.eqb (svc_name (ch_service ch)) "rabbitmq") eqn:E; [discriminate|].
  constructor; [apply String.eqb_neq; exact E | exact (IH H)].
Qed.

(** The targets of a generated plan, stage by stage. *)
Lemma generated_targets cs cs1 cs2 opts insts targ :
  checkForConflictingChanges cs = Ret tt ->
  dropNoops opts insts cs = Ret cs1 ->
  resolveDeps cs1 = Ret cs2 ->
  applyChanges cs2 insts = Ret targ ->
  Forall2 (targetOf cs2) insts targ.
Proof.
  intros Hcheck Hdrop Hres Happly.
  refine (proj2 (applyChanges_spec cs2 _ insts targ Happly)).
  rewrite <- (svcNames_all cs2 (applyChanges_types cs2 insts targ Happly)).
  rewrite (resolveDeps_names cs1 cs2 Hres).
  destruct (dropNoops_keeps opts insts cs cs1 Hdrop) as (keep & ->).
  unfold svcNames. rewrite filter_comm. apply NoDup_map_filter.
  exact (check_names cs Hcheck).
Qed.

(** X11: Without the forceRabbitmq option a generated plan holds no change of
    the rabbitmq service, and its target state keeps every rabbitmq
    instance as it is. *)
Theorem rabbitmq_is_updated_only_when_forced
    (host : string) (getImage : string -> Coordinator.imgapi_reply)
    (cfg : Config) (opts : Options) (servers : list Server)
    (insts : list Instance) (cs : list Change) (plan : UpdatePlan) :
  forceRabbitmq opts = false ->
  genUpdatePlan host getImage cfg opts servers insts cs = Ret plan ->
  Forall (fun ch => svc_name (ch_service ch) <> "rabbitmq") (plan_changes plan)
  /\ Forall2 (fun c t => inst_service c = "rabbitmq" -> t = c)
             (plan_curr plan) (plan_targ plan).
Proof.
  intros Hf H. apply genUpdatePlan_Ret in H
    as (cs1 & cs2 & targ & procs & Hcheck & Hdrop & Hres & Hrabbit & _ & _ & Happly & _ & ->).
  simpl. pose proof (disallowRabbitmqUpdates_Ret _ _ Hrabbit Hf) as Hno.
  split; [exact Hno|].
  pose proof (generated_targets _ _ _ _ _ _ Hcheck Hdrop Hres Happly) as Htarg.
  eapply Forall2_impl; [exact Htarg|]. simpl.
  intros c t (_ & _ & Hsame) Hsvc. apply Hsame. intros ch Hch.
  rewrite Hsvc. exact (proj1 (List.Forall_forall _ _) Hno ch Hch).
Qed.

Lemma rabbitmq_is_updated_only_when_forced_witness :
  exists plan,
    genUpdatePlan "headnode" Scenario.allLocal Scenario.config
      Scenario.plainOptions Scenario.servers Scenario.inventory
      [Scenario.candidate "update-service" "cnapi"
         [Scenario.imageA "cnapi"; Scenario.imageB "cnapi"]]
    = Ret plan
    /\ Forall (fun ch => svc_name (ch_service ch) <> "rabbitmq") (plan_changes plan)
    /\ Forall2 (fun c t => inst_service c = "rabbitmq" -> t = c)
               (plan_curr plan) (plan_targ plan).
Proof.
  eexists. split; [vm_compute; reflexivity|].
  apply (rabbitmq_is_updated_only_when_forced "headnode"
           Scenario.allLocal Scenario.config Scenario.plainOptions Scenario.servers
           Scenario.inventory
           [Scenario.candidate "update-service" "cnapi"
              [Scenario.imageA "cnapi"; Scenario.imageB "cnapi"]]).
  - reflexivity.
  - vm_compute. reflexivity.
Defined.


(** *** The platform and image gates *)

(** What [serverFromUuidOrHostname] holds under a key: a server of the
    list with that uuid or that hostname. *)
Lemma serverFromUuidOrHostname_lookup servers k s :
  serverFromUuidOrHostname servers !! k = Some s ->
  In s servers /\ (srv_uuid s = k \/ srv_hostname s = k).
Proof.
  unfold serverFromUuidOrHostname.
  assert (Hgen : forall (m : gmap string Server),
             (forall k s, m !! k = Some s -> In s servers /\ (srv_uuid s = k \/ srv_hostname s = k)) ->
             forall l, (forall x, In x l -> In x servers) ->
             forall k s,
               fold_left (fun m s => <[srv_hostname s := s]> (<[srv_uuid s := s]> m)) l m !! k = Some s ->
               In s servers /\ (srv_uuid s = k \/ srv_hostname s = k)).
  { intros m Hm l. revert m Hm. induction l as [|x l IH]; intros m Hm Hl k' s'; simpl.
    - apply Hm.
    - apply IH; [|intros y Hy; apply Hl; right; exact Hy].
      intros k0 s0. destruct (decide (srv_hostname x = k0)) as [E|N].
      + rewrite <- E, lookup_insert_eq. intros [= <-].
        split; [apply Hl; left; reflexivity | right; reflexivity].
      + rewrite lookup_insert_ne by exact N.
        destruct (decide (srv_uuid x = k0)) as [E'|N'].
        * rewrite <- E', lookup_insert_eq. intros [= <-].
          split; [apply Hl; left; reflexivity | left; reflexivity].
        * rewrite lookup_insert_ne by exact N'. apply Hm. }
  apply (Hgen ∅); [intros k0 s0; rewrite lookup_empty; discriminate | tauto].
Qed.

(** The instance runs on a server of the inventory whose platform is not
    older than the minimum. *)
Definition platformOk (cfg : Config) (servers : list Server) (inst : Instance) : Prop :=
  exists server,
    In server servers
    /\ (srv_uuid server = inst_server inst \/ srv_hostname server = inst_server inst)
    /\ serverFromUuidOrHostname servers !! inst_server inst = Some server
    /\ notAfter (vmMinPlatform cfg) (srv_current_platform server).

Lemma platformOfInsts_Ret cfg servers name l :
  platformOfInsts cfg servers name l = Ret tt ->
  Forall (fun inst => inst_service inst = name -> platformOk cfg servers inst) l.
Proof.
  induction l as [|inst l IH]; simpl; intros H; [constructor|].
  destruct (String.eqb (inst_service inst) name) eqn:E.
  - destruct (serverFromUuidOrHostname servers !! inst_server inst) as [server|] eqn:Hs;
      [|discriminate].
    destruct (String.ltb (srv_current_platform server) (vmMinPlatform cfg)) eqn:Hlt;
      [discriminate|].
    constructor; [|exact (IH H)]. intros _. exists server.
    destruct (serverFromUuidOrHostname_lookup _ _ _ Hs) as [Hin Hk].
    split; [exact Hin|]. split; [exact Hk|]. split; [exact Hs | exact Hlt].
  - constructor; [|exact (IH H)]. intros Hn. apply String.eqb_neq in E. contradiction.
Qed.

Lemma ensureVmMinPlatform_Ret cfg servers insts cs :
  ensureVmMinPlatform cfg servers insts cs = Ret tt ->
  Forall (fun ch => svc_type (ch_service ch) = "vm" -> ch_type ch = "update-service" ->
                    platformOfInsts cfg servers (svc_name (ch_service ch)) insts = Ret tt)
         cs.
Proof.
  induction cs as [|ch cs IH]; simpl; intros H; [constructor|].
  destruct (String.eqb (svc_type (ch_service ch)) "vm") eqn:Ev; simpl in H.
  - destruct (String.eqb (ch_type ch) "update-service") eqn:Et.
    + apply bind_Ret in H as ([] & Hp & H). constructor; [intros _ _; exact Hp | exact (IH H)].
    + destruct (String.eqb (ch_type ch) "update-instance"); [discriminate|].
      destruct (String.eqb (ch_type ch) "create-instance"); [discriminate|].
      constructor; [|exact (IH H)]. intros _ Ht. rewrite Ht in Et. discriminate.
  - constructor; [|exact (IH H)]. intros Hv. rewrite Hv in Ev. discriminate.
Qed.

(** X12: In a generated plan every instance of a vm service that is to be
    updated runs on a server the inventory knows, by uuid or by hostname,
    and that server's platform is not older than [vmMinPlatform]. *)
Theorem updated_vms_run_on_a_sufficient_platform
    (host : string) (getImage : string -> Coordinator.imgapi_reply)
    (cfg : Config) (opts : Options) (servers : list Server)
    (insts : list Instance) (cs : list Change) (plan : UpdatePlan) :
  genUpdatePlan host getImage cfg opts servers insts cs = Ret plan ->
  forall ch inst,
    In ch (plan_changes plan) -> svc_type (ch_service ch) = "vm" ->
    In inst (plan_curr plan) -> inst_service inst = svc_name (ch_service ch) ->
    platformOk cfg servers inst.
Proof.
  intros H. apply genUpdatePlan_Ret in H
    as (cs1 & cs2 & targ & procs & _ & _ & _ & _ & Hplat & _ & Happly & _ & ->).
  simpl. intros ch inst Hch Hvm Hinst Hsvc.
  pose proof (applyChanges_types cs2 insts targ Happly) as Htypes.
  apply ensureVmMinPlatform_Ret in Hplat.
  pose proof (proj1 (List.Forall_forall _ _) Hplat ch Hch Hvm
                (proj1 (List.Forall_forall _ _) Htypes ch Hch)) as Hp.
  apply platformOfInsts_Ret in Hp.
  exact (proj1 (List.Forall_forall _ _) Hp inst Hinst Hsvc).
Qed.

Lemma updated_vms_run_on_a_sufficient_platform_witness :
  exists plan,
    genUpdatePlan "headnode" Scenario.allLocal Scenario.config
      Scenario.plainOptions Scenario.servers Scenario.inventory
      [Scenario.candidate "update-service" "cnapi"
         [Scenario.imageA "cnapi"; Scenario.imageB "cnapi"]]
    = Ret plan
    /\ forall ch inst,
         In ch (plan_changes plan) -> svc_type (ch_service ch) = "vm" ->
         In inst (plan_curr plan) -> inst_service inst = svc_name (ch_service ch) ->
         platformOk Scenario.config Scenario.servers inst.
Proof.
  eexists. split; [vm_compute; reflexivity|].
  apply (updated_vms_run_on_a_sufficient_platform "headnode"
           Scenario.allLocal Scenario.config Scenario.plainOptions Scenario.servers
           Scenario.inventory
           [Scenario.candidate "update-service" "cnapi"
              [Scenario.imageA "cnapi"; Scenario.imageB "cnapi"]]).
  vm_compute. reflexivity.
Defined.

(** The build date of the instance's image, where its version has one, is
    not older than the minimum the configuration sets for its service. *)
Definition buildDateOk (cfg : Config) (inst : Instance) : Prop :=
  forall minImg curImg,
    svcMinImages cfg !! inst_service inst = Some minImg -> minImg <> "" ->
    split "-" (inst_version inst) !! 1%nat = Some curImg ->
    notAfter minImg curImg.

Lemma buildDateOfInsts_Ret cfg name l :
  buildDateOfInsts cfg name l = Ret tt ->
  Forall (fun inst => inst_service inst = name -> buildDateOk cfg inst) l.
Proof.
  induction l as [|inst l IH]; simpl; intros H; [constructor|].
  destruct (String.eqb (inst_service inst) name) eqn:E; simpl in H.
  - destruct (svcMinImages cfg !! inst_service inst) as [minImg|] eqn:Hm.
    + destruct (truthy minImg) eqn:Ht; simpl in H.
      * destruct (split "-" (inst_version inst) !! 1%nat) as [curImg|] eqn:Hc.
        -- destruct (String.ltb curImg minImg) eqn:Hlt; [discriminate|].
           constructor; [|exact (IH H)]. intros _ m c Hm' _ Hc'.
           rewrite Hm in Hm'. injection Hm' as <-.
           rewrite Hc in Hc'. injection Hc' as <-. exact Hlt.
        -- constructor; [|exact (IH H)]. intros _ m c _ _ Hc'.
           rewrite Hc in Hc'. discriminate.
      * constructor; [|exact (IH H)]. intros _ m c Hm' Hne _.
        rewrite Hm in Hm'. injection Hm' as <-. unfold truthy in Ht.
        apply negb_false_iff, String.eqb_eq in Ht. contradiction.
    + constructor; [|exact (IH H)]. intros _ m c Hm' _ _.
      rewrite Hm in Hm'. discriminate.
  - constructor; [|exact (IH H)]. intros Hn. apply String.eqb_neq in E. contradiction.
Qed.

Lemma minImageBuildDateFromSvcName_Ret cfg insts cs :
  minImageBuildDateFromSvcName cfg insts cs = Ret tt ->
  Forall (fun ch => svc_type (ch_service ch) = "vm" -> ch_type ch = "update-service" ->
                    buildDateOfInsts cfg (svc_name (ch_service ch)) insts = Ret tt)
         cs.
Proof.
  induction cs as [|ch cs IH]; simpl; intros H; [constructor|].
  destruct (String.eqb (svc_type (ch_service ch)) "vm") eqn:Ev; simpl in H.
  - destruct (String.eqb (ch_type ch) "update-service") eqn:Et.
    + apply bind_Ret in H as ([] & Hp & H). constructor; [intros _ _; exact Hp | exact (IH H)].
    + destruct (String.eqb (ch_type ch) "update-instance"); [discriminate|].
      destruct (String.eqb (ch_type ch) "create-instance"); [discriminate|].
      constructor; [|exact (IH H)]. intros _ Ht. rewrite Ht in Et. discriminate.
  - constructor; [|exact (IH H)]. intros Hv. rewrite Hv in Ev. discriminate.
Qed.

(** X13: In a generated plan every instance of a vm service that is to be
    updated runs an image that is not too old: where the configuration
    sets a minimum build date for the service and the instance's version
    carries a build date, that date is not before the minimum. *)
Theorem updated_vms_run_a_recent_enough_image
    (host : string) (getImage : string -> Coordinator.imgapi_reply)
    (cfg : Config) (opts : Options) (servers : list Server)
    (insts : list Instance) (cs : list Change) (plan : UpdatePlan) :
  genUpdatePlan host getImage cfg opts servers insts cs = Ret plan ->
  forall ch inst,
    In ch (plan_changes plan) -> svc_type (ch_service ch) = "vm" ->
    In inst (plan_curr plan) -> inst_service inst = svc_name (ch_service ch) ->
    buildDateOk cfg inst.
Proof.
  intros H. apply genUpdatePlan_Ret in H
    as (cs1 & cs2 & targ & procs & _ & _ & _ & _ & _ & Hmin & Happly & _ & ->).
  simpl. intros ch inst Hch Hvm Hinst Hsvc.
  pose proof (applyChanges_types cs2 insts targ Happly) as Htypes.
  apply minImageBuildDateFromSvcName_Ret in Hmin.
  pose proof (proj1 (List.Forall_forall _ _) Hmin ch Hch Hvm
                (proj1 (List.Forall_forall _ _) Htypes ch Hch)) as Hp.
  apply buildDateOfInsts_Ret in Hp.
  exact (proj1 (List.Forall_forall _ _) Hp inst Hinst Hsvc).
Qed.

Lemma updated_vms_run_a_recent_enough_image_witness :
  exists plan,
    genUpdatePlan "headnode" Scenario.allLocal Scenario.config
      Scenario.plainOptions Scenario.servers Scenario.inventory
      [Scenario.candidate "update-service" "cnapi"
         [Scenario.imageA "cnapi"; Scenario.imageB "cnapi"]]
    = Ret plan
    /\ forall ch inst,
         In ch (plan_changes plan) -> svc_type (ch_service ch) = "vm" ->
         In inst (plan_curr plan) -> inst_service inst = svc_name (ch_service ch) ->
         buildDateOk Scenario.config inst.
Proof.
  eexists. split; [vm_compute; reflexivity|].
  apply (updated_vms_run_a_recent_enough_image "headnode"
           Scenario.allLocal Scenario.config Scenario.plainOptions Scenario.servers
           Scenario.inventory
           [Scenario.candidate "update-service" "cnapi"
              [Scenario.imageA "cnapi"; Scenario.imageB "cnapi"]]).
  vm_compute. reflexivity.
Defined.

(** *** Updates that change nothing *)

Lemma coordinatePlan_nothing host getImage curr targ just :
  Coordinator.coordinatePlan host getImage (newUpdatePlan curr targ [] just) = Ret [].
Proof.
  unfold Coordinator.coordinatePlan, Coordinator.runPipeline. simpl.
  destruct just; reflexivity.
Qed.

(** X14: When every requested change is an update that is a no-op (it has no
    candidate, or, forceSameImage being unset, every candidate is the one
    image the service runs), the generated plan changes nothing: its
    target state is the inventory, and it has no change and no procedure. *)
Theorem update_of_noops_changes_nothing
    (host : string) (getImage : string -> Coordinator.imgapi_reply)
    (cfg : Config) (opts : Options) (servers : list Server)
    (insts : list Instance) (cs : list Change) :
  checkForConflictingChanges cs = Ret tt ->
  Forall (judgeable opts insts) cs ->
  Forall (noop opts insts) cs ->
  genUpdatePlan host getImage cfg opts servers insts cs
  = Ret (set_procs (newUpdatePlan insts insts [] (justImages opts)) []).
Proof.
  intros Hcheck Hj Hn. unfold genUpdatePlan. rewrite Hcheck. simpl.
  destruct (dropNoops_filter opts insts cs Hj) as (keep & Hkeep & ->).
  assert (Hnil : List.filter keep cs = []).
  { apply filter_nil_iff. intros ch Hch. apply (Hkeep ch Hch).
    exact (proj1 (List.Forall_forall _ _) Hn ch Hch). }
  rewrite Hnil. simpl. unfold determineProcedures.
  rewrite coordinatePlan_nothing. reflexivity.
Qed.

Lemma update_of_noops_changes_nothing_witness :
  genUpdatePlan "headnode" Scenario.allLocal Scenario.config Scenario.plainOptions
    Scenario.servers [Scenario.imgapi0] [Scenario.sameImageInstance]
  = Ret (set_procs (newUpdatePlan [Scenario.imgapi0] [Scenario.imgapi0] []
                      (justImages Scenario.plainOptions)) []).
Proof.
  apply (update_of_noops_changes_nothing "headnode" Scenario.allLocal Scenario.config
           Scenario.plainOptions Scenario.servers [Scenario.imgapi0]
           [Scenario.sameImageInstance]).
  - vm_compute. reflexivity.
  - constructor; [|constructor]. intros _. exists [Scenario.imageA "imgapi"].
    split; [reflexivity|]. intros _ _. left. exists Scenario.imgapi0.
    split; [left; reflexivity | reflexivity].
  - constructor; [|constructor]. split; [right; reflexivity|].
    right. split; [reflexivity|]. exists "IA", [Scenario.imageA "imgapi"].
    split; [reflexivity|]. split.
    + left. split.
      * exists Scenario.imgapi0. split; [left; reflexivity | reflexivity].
      * intros i [<-|[]] _. reflexivity.
    + constructor; [reflexivity | constructor].
Defined.

End PlannerFacts.

Module ManateeFacts.

Import Js Manatee ManateeSpec ManateeProps.

(** *** Stages under an invariant of the shared variables *)

(** From a state that has [I], the stage appends events that all have [G],
    and when it calls [next()] it leaves a state that has [J]. *)
Definition hoare (I : pstate -> Prop) (f : stage) (G : event -> Prop)
    (J : pstate -> Prop) : Prop :=
  forall w fuel st h,
    I st ->
    exists t st' sig,
      f w fuel st h = (h ++ t, st', sig)
      /\ Forall G t
      /\ (sig = Next None -> J st').

Definition hoares (I : pstate -> Prop) (fs : list stage) (G : event -> Prop)
    (J : pstate -> Prop) : Prop :=
  forall w fuel st h,
    I st ->
    exists t st' o,
      pipeline fs w fuel st h = (h ++ t, st', o)
      /\ Forall G t
      /\ (o = Completed None -> J st').

Lemma hoares_nil (I : pstate -> Prop) G : hoares I [] G I.
Proof.
  intros w fuel st h Hst. exists [], st, (Completed None). rewrite app_nil_r.
  split; [reflexivity|]. split; [constructor | intros _; exact Hst].
Qed.

Lemma hoares_cons I K J f fs G :
  hoare I f G K -> hoares K fs G J -> hoares I (f :: fs) G J.
Proof.
  intros Hf Hfs w fuel st h Hst. rewrite pipeline_cons.
  destruct (Hf w fuel st h Hst) as (t1 & st1 & sig & -> & HG1 & HK).
  destruct sig as [[e|]| | |].
  - exists t1, st1, (Completed (Some e)). split; [reflexivity|].
    split; [exact HG1 | discriminate].
  - destruct (Hfs w fuel st1 (h ++ t1) (HK eq_refl)) as (t2 & st2 & o & -> & HG2 & HJ).
    exists (t1 ++ t2), st2, o. rewrite app_assoc. split; [reflexivity|].
    split; [apply Forall_app; split; assumption | exact HJ].
  - eexists t1, st1, _. split; [reflexivity|]. split; [exact HG1 | discriminate].
  - eexists t1, st1, _. split; [reflexivity|]. split; [exact HG1 | discriminate].
  - eexists t1, st1, _. split; [reflexivity|]. split; [exact HG1 | discriminate].
Qed.

Lemma hoares_app I K J fs gs G :
  hoares I fs G K -> hoares K gs G J -> hoares I (fs ++ gs) G J.
Proof.
  intros Hfs Hgs w fuel st h Hst. rewrite pipeline_app.
  destruct (Hfs w fuel st h Hst) as (t1 & st1 & o & -> & HG1 & HK).
  destruct o as [[e|]| | |].
  - eexists t1, st1, _. split; [reflexivity|]. split; [exact HG1 | discriminate].
  - destruct (Hgs w fuel st1 (h ++ t1) (HK eq_refl)) as (t2 & st2 & o & -> & HG2 & HJ).
    exists (t1 ++ t2), st2, o. rewrite app_assoc. split; [reflexivity|].
    split; [apply Forall_app; split; assumption | exact HJ].
  - eexists t1, st1, _. split; [reflexivity|]. split; [exact HG1 | discriminate].
  - eexists t1, st1, _. split; [reflexivity|]. split; [exact HG1 | discriminate].
  - eexists t1, st1, _. split; [reflexivity|]. split; [exact HG1 | discriminate].
Qed.

Lemma hoares_all I fs G :
  Forall (fun f => hoare I f G I) fs -> hoares I fs G I.
Proof.
  induction 1 as [|f fs Hf _ IH]; [apply hoares_nil|].
  exact (hoares_cons I I I f fs G Hf IH).
Qed.

Lemma hoare_pre (I I' J : pstate -> Prop) f G :
  (forall st, I' st -> I st) -> hoare I f G J -> hoare I' f G J.
Proof. intros Himp Hf w fuel st h Hst. exact (Hf w fuel st h (Himp st Hst)). Qed.

Lemma hoare_skip (I : pstate -> Prop) G : hoare I skip G I.
Proof.
  intros w fuel st h Hst. exists [], st, (Next None). rewrite app_nil_r.
  split; [reflexivity|]. split; [constructor | intros _; exact Hst].
Qed.

Lemma hoare_throwing (I J : pstate -> Prop) G x : hoare I (throwing x) G J.
Proof.
  intros w fuel st h Hst. exists [], st, (Thrown x). rewrite app_nil_r.
  split; [reflexivity|]. split; [constructor | discriminate].
Qed.

Lemma hoare_command (I : pstate -> Prop) (G : event -> Prop) c :
  (forall st r, I st -> G (c st, r)) -> hoare I (command c) G I.
Proof.
  intros Hc w fuel st h Hst. unfold command. rewrite ask_eq.
  exists [(c st, w h (c st))], st, (Next (r_err (w h (c st)))).
  split; [reflexivity|]. split; [constructor; [apply Hc; exact Hst | constructor]|].
  intros _. exact Hst.
Qed.

Lemma hoare_sleep (I : pstate -> Prop) (G : event -> Prop) ms :
  (forall r, G (SetTimeout ms, r)) -> hoare I (sleep ms) G I.
Proof.
  intros Hc w fuel st h Hst. unfold sleep. rewrite ask_eq.
  exists [(SetTimeout ms, w h (SetTimeout ms))], st, (Next None).
  split; [reflexivity|]. split; [constructor; [apply Hc | constructor]|].
  intros _. exact Hst.
Qed.

Lemma hoare_withPeer (I J : pstate -> Prop) G role field k :
  (forall p, hoare (fun st => I st /\ shard st !! role = Some p) (k p) G J) ->
  hoare I (withPeer role field k) G J.
Proof.
  intros Hk w fuel st h Hst. unfold withPeer.
  destruct (shard st !! role) as [p|] eqn:E.
  - exact (Hk p w fuel st h (conj Hst E)).
  - exact (hoare_throwing I J G _ w fuel st h Hst).
Qed.

(** The events of a wait for a shard mode. *)
Lemma waitRun_events (G : event -> Prop) state server zone counter t sig :
  waitRun state server zone counter t sig ->
  (forall r, G (GetShardStatus server zone, r)) ->
  (forall r, G (SetTimeout 5000, r)) ->
  Forall G t.
Proof.
  intros R Hp Hs. induction R; repeat constructor; try apply Hp; try apply Hs.
  assumption.
Qed.

Lemma hoare_wait (I : pstate -> Prop) (G : event -> Prop) state server zone :
  (forall r, G (GetShardStatus server zone, r)) ->
  (forall r, G (SetTimeout 5000, r)) ->
  hoare I (fun w _ st h =>
             let '(h', sig) := waitForManatee state server zone w h in (h', st, sig))
        G I.
Proof.
  intros Hp Hs w fuel st h Hst.
  destruct (waitForManatee_run state server zone w h) as (t & sig & -> & R).
  exists t, st, sig. split; [reflexivity|].
  split; [exact (waitRun_events G _ _ _ _ _ _ R Hp Hs) | intros _; exact Hst].
Qed.

Lemma promotion_events (G : event -> Prop) server zone primary w :
  (forall r, G (GetShardStatus server zone, r)) ->
  (forall r, G (SetTimeout 5000, r)) ->
  forall fuel h,
    exists t sig,
      _waitForShardPromotion fuel 0 server zone primary w h = (h ++ t, sig)
      /\ Forall G t.
Proof.
  intros Hp Hs. induction fuel as [|fuel IH]; intros h.
  { exists [], Pending. rewrite app_nil_r. split; [reflexivity | constructor]. }
  simpl. unfold getShardStatus. rewrite ask_eq.
  set (r := w h (GetShardStatus server zone)).
  assert (H1 : Forall G [(GetShardStatus server zone, r)])
    by (constructor; [apply Hp | constructor]).
  destruct (r_err r) as [e|]; [eexists _, _; split; [reflexivity | exact H1]|].
  destruct (r_shard r) as [obj|]; [|eexists _, _; split; [reflexivity | exact H1]].
  destruct (sdc obj ≫= (.!! "primary")) as [p|];
    [|eexists _, _; split; [reflexivity | exact H1]].
  destruct primary as [orig|]; [|eexists _, _; split; [reflexivity | exact H1]].
  destruct (String.eqb (zoneId p) (zoneId orig)); simpl;
    [|eexists _, _; split; [reflexivity | exact H1]].
  destruct (IH ((h ++ [(GetShardStatus server zone, r)])
                  ++ [(SetTimeout 5000,
                       w (h ++ [(GetShardStatus server zone, r)]) (SetTimeout 5000))]))
    as (t & sig & -> & HG).
  eexists ((GetShardStatus server zone, r) :: (SetTimeout 5000, _) :: t), sig.
  split; [rewrite <- !app_assoc; reflexivity|].
  constructor; [apply Hp|]. constructor; [apply Hs | exact HG].
Qed.

Lemma postgres_events (G : event -> Prop) server zone w :
  (forall r, G (PsqlPing server zone, r)) ->
  (forall r, G (SetTimeout 5000, r)) ->
  forall fuel h,
    exists t sig,
      _waitForPostgresUp fuel 0 server zone w h = (h ++ t, sig) /\ Forall G t.
Proof.
  intros Hp Hs. induction fuel as [|fuel IH]; intros h.
  { exists [], Pending. rewrite app_nil_r. split; [reflexivity | constructor]. }
  simpl. set (r := w h (PsqlPing server zone)).
  destruct (r_failed r).
  - destruct (IH ((h ++ [(PsqlPing server zone, r)])
                    ++ [(SetTimeout 5000,
                         w (h ++ [(PsqlPing server zone, r)]) (SetTimeout 5000))]))
      as (t & sig & -> & HG).
    eexists ((PsqlPing server zone, r) :: (SetTimeout 5000, _) :: t), sig.
    split; [rewrite <- !app_assoc; reflexivity|].
    constructor; [apply Hp|]. constructor; [apply Hs | exact HG].
  - exists [(PsqlPing server zone, r)], (Next None). split; [reflexivity|].
    constructor; [apply Hp | constructor].
Qed.


Lemma hoare_conseq (I I' J J' : pstate -> Prop) f G :
  (forall st, I' st -> I st) -> (forall st, J st -> J' st) ->
  hoare I f G J -> hoare I' f G J'.
Proof.
  intros Hpre Hpost Hf w fuel st h Hst.
  destruct (Hf w fuel st h (Hpre st Hst)) as (t & st' & sig & E & HG & HJ).
  exists t, st', sig. split; [exact E|]. split; [exact HG|].
  intros Hs. exact (Hpost _ (HJ Hs)).
Qed.

Lemma hoare_forget (I P : pstate -> Prop) f G :
  hoare (fun st => I st /\ P st) f G (fun st => I st /\ P st) ->
  hoare (fun st => I st /\ P st) f G I.
Proof.
  apply hoare_conseq; [intros st H; exact H | intros st [H _]; exact H].
Qed.

(** A stage that issues no command and leaves the variables as they are. *)
Lemma hoare_silent (I : pstate -> Prop) G (f : stage) :
  (forall w fuel st h, exists sig, f w fuel st h = (h, st, sig)) ->
  hoare I f G I.
Proof.
  intros Hf w fuel st h Hst. destruct (Hf w fuel st h) as (sig & ->).
  exists [], st, sig. rewrite app_nil_r. split; [reflexivity|].
  split; [constructor | intros _; exact Hst].
Qed.

Definition always : pstate -> Prop := fun _ => True.

(** *** The commands of an HA update *)

Section HAUpdate.

Variable hostname : string.
Variable change : Change.
Hypothesis HHA : HA change = true.

(** The zone [z] is that of an instance of the change, and [s] is the
    server of that instance. *)
Definition hosted (s : option string) (z : string) : Prop :=
  exists i, In i (instsOf change) /\ inst_zonename i = z /\ s = Some (inst_server i).

(** The events of an HA update: the user-script and SAPI service steps, the
    local status, and, on the servers that host the zones of the change's
    instances, the image import, disable, status and reprovision commands,
    the latter with the image of the change. *)
Definition haEvent (e : event) : Prop :=
  match fst e with
  | GetUserScript | WriteOldUserScriptForRollback | UpdateSvcUserScript
  | UpdateSapiSvc | SetTimeout _ => True
  | GetShardStatusLocally u =>
      exists i, In i (instsOf change) /\ inst_hostname i = hostname
                /\ u = Some (inst_zonename i)
  | UpdateVmUserScriptRemote z s =>
      exists i, In i (instsOf change) /\ z = inst_zonename i /\ s = inst_server i
  | ImgadmInstallRemote s img =>
      img = ch_image change /\ exists z, hosted s z
  | DisableManatee s z | GetShardStatus s z => hosted s z
  | ReprovisionRemote s z img => hosted s z /\ img = ch_image change
  | _ => False
  end.

(** Every peer of [arg.shard] is on the server of the instance with its
    zone. *)
Definition located (st : pstate) : Prop :=
  forall role p, shard st !! role = Some p -> hosted (server_uuid p) (zoneId p).

(** [manateeUUID] is the zone of an instance on this host. *)
Definition localFound (st : pstate) : Prop :=
  exists i, In i (instsOf change) /\ inst_hostname i = hostname
            /\ manateeUUID st = Some (inst_zonename i).

Lemma ha_onlyHA f : onlyHA change f = f.
Proof. unfold onlyHA. rewrite HHA. reflexivity. Qed.

Lemma ha_onlyNoHA f : onlyNoHA change f = skip.
Proof. unfold onlyNoHA. rewrite HHA. reflexivity. Qed.

Lemma serverOfZone_hosted z s :
  serverOfZone change z = Some s -> hosted (Some s) z.
Proof.
  unfold serverOfZone, hosted.
  destruct (List.filter (fun x => String.eqb (inst_zonename x) z) (instsOf change))
    as [|i l] eqn:E; [discriminate|].
  simpl. intros [= <-]. exists i.
  assert (Hin : In i (List.filter (fun x => String.eqb (inst_zonename x) z) (instsOf change)))
    by (rewrite E; left; reflexivity).
  apply List.filter_In in Hin as [Hin Hz]. apply String.eqb_eq in Hz.
  split; [exact Hin|]. split; [exact Hz | reflexivity].
Qed.

Lemma ha_getShardServers : hoare always (getShardServers change) haEvent located.
Proof.
  intros w fuel st h _. unfold getShardServers. rewrite HHA. simpl.
  destruct (forallb _ _) eqn:E.
  - eexists [], _, (Next None). rewrite app_nil_r. split; [reflexivity|].
    split; [constructor|]. intros _ role p. simpl. rewrite lookup_fmap.
    destruct (shard st !! role) as [p0|] eqn:Hp; [|discriminate].
    simpl. intros [= <-]. simpl.
    rewrite forallb_forall in E.
    specialize (E (role, p0)). simpl in E.
    assert (Hin : In (role, p0) (map_to_list (shard st))).
    { apply list_elem_of_In, elem_of_map_to_list. exact Hp. }
    specialize (E Hin). apply bool_decide_eq_true in E. destruct E as [s Hs].
    rewrite Hs. apply serverOfZone_hosted. exact Hs.
  - eexists [], _, (Thrown _). rewrite app_nil_r. split; [reflexivity|].
    split; [constructor | discriminate].
Qed.

Lemma ha_first :
  Forall (fun f => hoare always f haEvent always)
    ([command (fun _ => GetUserScript);
      command (fun _ => WriteOldUserScriptForRollback);
      command (fun _ => UpdateSvcUserScript)]
     ++ map updateInstUserScript (instsOf change)
     ++ [command (fun _ => UpdateSapiSvc)]).
Proof.
  apply Forall_app. split.
  { repeat constructor; apply hoare_command; intros; exact I. }
  apply Forall_app. split.
  - apply List.Forall_forall. intros f Hf. apply in_map_iff in Hf as (i & <- & Hi).
    apply hoare_command. intros st r _. exists i. auto.
  - constructor; [apply hoare_command; intros; exact I | constructor].
Qed.

Lemma ha_getLocalManatee :
  hoare always (getLocalManatee hostname change) haEvent localFound.
Proof.
  intros w fuel st h _. unfold getLocalManatee. rewrite HHA. simpl negb. cbv iota.
  destruct (List.filter (fun x => String.eqb (inst_hostname x) hostname) (instsOf change))
    as [|i l] eqn:E; simpl.
  - eexists [], _, _. rewrite app_nil_r. split; [reflexivity|].
    split; [constructor | discriminate].
  - eexists [], _, _. rewrite app_nil_r. split; [reflexivity|].
    split; [constructor|]. intros _. exists i.
    assert (Hin : In i (List.filter (fun x => String.eqb (inst_hostname x) hostname)
                                    (instsOf change)))
      by (rewrite E; left; reflexivity).
    apply List.filter_In in Hin as [Hin Hh]. apply String.eqb_eq in Hh.
    split; [exact Hin|]. split; [exact Hh | reflexivity].
Qed.

Lemma ha_getShard : hoare localFound getShard haEvent always.
Proof.
  intros w fuel st h Hloc. unfold getShard. rewrite ask_eq.
  set (r := w h (GetShardStatusLocally (manateeUUID st))).
  assert (H1 : Forall haEvent [(GetShardStatusLocally (manateeUUID st), r)])
    by (constructor; [exact Hloc | constructor]).
  destruct (r_err r); [eexists _, _, _; split; [reflexivity|]; split; [exact H1 | intros _; exact I]|].
  destruct (r_shard r) as [status|];
    [|eexists _, _, _; split; [reflexivity|]; split; [exact H1 | intros _; exact I]].
  destruct (sdc status);
    eexists _, _, _; (split; [reflexivity|]); (split; [exact H1 | intros _; exact I]).
Qed.

Lemma ha_peer_command role (c : Peer -> call) :
  (forall p r, hosted (server_uuid p) (zoneId p) -> haEvent (c p, r)) ->
  hoare located (withPeer role "server_uuid" (fun p => command (fun _ => c p)))
        haEvent located.
Proof.
  intros Hc. apply hoare_withPeer. intros p. apply hoare_forget.
  apply hoare_command. intros st r [Hloc Hp]. apply Hc. exact (Hloc _ _ Hp).
Qed.

Lemma ha_installOn s :
  (exists z, hosted s z) ->
  hoare located (installOn change s) haEvent located.
Proof.
  intros Hs. unfold installOn. destruct (ch_image change) as [img|] eqn:E.
  - apply hoare_command. intros st r _. unfold haEvent. simpl. rewrite E.
    split; [reflexivity | exact Hs].
  - apply hoare_throwing.
Qed.

Lemma ha_waitForShard state role :
  hoare located (waitForShard state role) haEvent located.
Proof.
  unfold waitForShard. apply hoare_withPeer. intros p.
  intros w fuel st h [Hloc Hp].
  refine (hoare_wait located haEvent state (server_uuid p) (zoneId p) _ _ w fuel st h Hloc).
  - intros r. exact (Hloc _ _ Hp).
  - intros r. exact I.
Qed.

Lemma ha_pauseFor role : hoare located (pauseFor role) haEvent located.
Proof.
  unfold pauseFor. apply hoare_withPeer. intros p. apply hoare_forget.
  apply hoare_sleep. intros r. exact I.
Qed.

Lemma ha_stages :
  Forall (fun f => hoare located f haEvent located)
         (installPrimaryImage change :: updateStages change).
Proof.
  unfold updateStages, installPrimaryImage, verifyFullHA, disableAsync,
    waitForAsyncDisabled, installImageAsyncServer, reprovisionAsync, waitForAsync,
    waitForHA, disableSync, waitForSyncDisabled, installImageSyncServer,
    reprovisionSync, waitForSync, waitForHASync, disablePrimaryManatee,
    waitForShardPromotion, getLocalSapi, setSapiProtoMode, restartSapiIntoProtoMode,
    reprovisionPrimary, waitForPrimaryInstance, waitForPrimaryPG, resetSapiToFullMode,
    waitForShardHA, disablePeer, reprovisionPeer.
  rewrite !ha_onlyHA, !ha_onlyNoHA. rewrite HHA. simpl negb. cbv iota.
  assert (Hdis : forall role,
             hoare located
               (withPeer role "server_uuid"
                  (fun p => command (fun _ => DisableManatee (server_uuid p) (zoneId p))))
               haEvent located).
  { intros role. apply (ha_peer_command role (fun p => DisableManatee (server_uuid p) (zoneId p))).
    intros p r H. exact H. }
  assert (Hrep : forall role,
             hoare located
               (withPeer role "server_uuid"
                  (fun p => command (fun _ =>
                     ReprovisionRemote (server_uuid p) (zoneId p) (ch_image change))))
               haEvent located).
  { intros role. apply (ha_peer_command role
                          (fun p => ReprovisionRemote (server_uuid p) (zoneId p) (ch_image change))).
    intros p r H. split; [exact H | reflexivity]. }
  assert (Hinst : forall role (k : Peer -> stage),
             (forall p, hosted (server_uuid p) (zoneId p) -> hoare located (k p) haEvent located) ->
             hoare located (withPeer role "server_uuid" k) haEvent located).
  { intros role k Hk. apply hoare_withPeer. intros p w fuel st h [Hloc Hp].
    exact (Hk p (Hloc _ _ Hp) w fuel st h Hloc). }
  constructor.
  { destruct (ch_image change); [|apply hoare_throwing].
    apply Hinst. intros p Hp. apply ha_installOn. eexists. exact Hp. }
  constructor.
  { apply hoare_silent. intros w fuel st h.
    destruct (shard st !! "sync"), (shard st !! "async"); eexists; reflexivity. }
  constructor; [apply Hdis|].
  constructor; [apply ha_waitForShard|].
  constructor.
  { apply Hinst. intros a Ha. apply Hinst. intros p _.
    destruct (sameServer _ _); [apply hoare_skip|].
    apply ha_installOn. eexists. exact Ha. }
  constructor; [apply Hrep|].
  constructor; [apply ha_pauseFor|].
  constructor; [apply ha_waitForShard|].
  constructor; [apply Hdis|].
  constructor; [apply ha_waitForShard|].
  constructor.
  { apply Hinst. intros s Hs. apply Hinst. intros p _.
    destruct (sameServer _ _); [apply hoare_skip|].
    apply Hinst. intros a _.
    destruct (sameServer _ _); [apply hoare_skip|].
    apply ha_installOn. eexists. exact Hs. }
  constructor; [apply Hrep|].
  constructor; [apply ha_pauseFor|].
  constructor; [apply ha_waitForShard|].
  constructor; [apply Hdis|].
  constructor.
  { apply hoare_withPeer. intros a w fuel st h [Hloc Ha].
    destruct (promotion_events haEvent (server_uuid a) (zoneId a)
                (shard st !! "primary") w
                (fun r => Hloc _ _ Ha) (fun r => I) fuel h) as (t & sig & E & HG).
    rewrite E. exists t, st, sig. split; [reflexivity|].
    split; [exact HG | intros _; exact Hloc]. }
  constructor; [apply hoare_skip|].
  constructor; [apply hoare_skip|].
  constructor; [apply hoare_skip|].
  constructor; [apply Hrep|].
  constructor; [apply ha_pauseFor|].
  constructor; [apply hoare_skip|].
  constructor; [apply hoare_skip|].
  constructor; [apply ha_waitForShard|].
  constructor.
Qed.

Lemma ha_events w fuel h :
  exists t st o,
    updateManatee hostname change w fuel h = (h ++ t, st, o) /\ Forall haEvent t.
Proof.
  unfold updateManatee, setupStages. rewrite HHA. simpl negb. cbv iota.
  assert (Hsplit :
    ([command (fun _ => GetUserScript);
      command (fun _ => WriteOldUserScriptForRollback);
      command (fun _ => UpdateSvcUserScript)]
     ++ map updateInstUserScript (instsOf change)
     ++ [command (fun _ => UpdateSapiSvc); getLocalManatee hostname change; getShard;
         getShardServers change; installPrimaryImage change])
    ++ updateStages change
    = ([command (fun _ => GetUserScript);
        command (fun _ => WriteOldUserScriptForRollback);
        command (fun _ => UpdateSvcUserScript)]
       ++ map updateInstUserScript (instsOf change)
       ++ [command (fun _ => UpdateSapiSvc)])
      ++ getLocalManatee hostname change :: getShard :: getShardServers change
           :: installPrimaryImage change :: updateStages change).
  { rewrite <- !app_assoc. simpl. rewrite <- ?app_assoc. reflexivity. }
  rewrite Hsplit.
  assert (H : hoares always
                (([command (fun _ => GetUserScript);
                   command (fun _ => WriteOldUserScriptForRollback);
                   command (fun _ => UpdateSvcUserScript)]
                  ++ map updateInstUserScript (instsOf change)
                  ++ [command (fun _ => UpdateSapiSvc)])
                 ++ getLocalManatee hostname change :: getShard
                      :: getShardServers change :: installPrimaryImage change
                      :: updateStages change)
                haEvent located).
  { eapply hoares_app; [apply hoares_all; exact ha_first|].
    eapply hoares_cons; [exact ha_getLocalManatee|].
    eapply hoares_cons; [exact ha_getShard|].
    eapply hoares_cons; [exact ha_getShardServers|].
    apply hoares_all. exact ha_stages. }
  destruct (H w fuel initial h I) as (t & st & o & E & HG & _).
  exists t, st, o. split; [exact E | exact HG].
Qed.

End HAUpdate.


(** X15: However far it gets, and also when it never ends, an HA update
    addresses only the shard: beside the user-script and SAPI
    service steps it reads the status in the zone of the instance on this
    host, and it sends image imports, disables, status polls and
    reprovisions only to servers that host the zone of one of the change's
    instances, every reprovision with the image of the change.  It never
    looks SAPI up, puts it in proto mode, restarts it or sets its mode,
    never pings PostgreSQL, and never uses the local imgadm or the local
    user-script update. *)
Theorem HA_update_addresses_only_the_shard
    (hostname : string) (change : Change) (w : World) (fuel : nat) (h : trace) :
  HA change = true ->
  exists t st o,
    updateManatee hostname change w fuel h = (h ++ t, st, o)
    /\ Forall (haEvent hostname change) t.
Proof. intros HHA. exact (ha_events hostname change HHA w fuel h). Qed.

Lemma HA_update_addresses_only_the_shard_witness :
  exists t st o,
    updateManatee "headnode" Scenario.shardChange Scenario.healthy 1 []
    = ([] ++ t, st, o)
    /\ Forall (haEvent "headnode" Scenario.shardChange) t.
Proof.
  apply (HA_update_addresses_only_the_shard "headnode" Scenario.shardChange
           Scenario.healthy 1 []).
  reflexivity.
Defined.


(** *** The commands of the update of a single instance *)

Section SoloUpdate.

Variable hostname : string.
Variable change : Change.
Hypothesis HnoHA : HA change = false.

(** [s] is the server of [change.inst]. *)
Definition onInstServer (s : option string) : Prop :=
  exists i, ch_inst change = Some i /\ s = Some (inst_server i).

(** The events of the update of a single instance: the user-script and
    SAPI service steps, the status read in the zone of [change.inst], the
    local image import, SAPI's proto mode and restart, the reprovision
    and the PostgreSQL pings on the server of [change.inst], and SAPI's
    return to full mode. *)
Definition soloEvent (e : event) : Prop :=
  match fst e with
  | GetUserScript | WriteOldUserScriptForRollback | UpdateSvcUserScript
  | UpdateVmUserScript | UpdateSapiSvc | ImgadmInstall | VmadmLookupSapi
  | SetTimeout _ | MdataPutProtoMode _ => True
  | GetShardStatusLocally u =>
      exists i, ch_inst change = Some i /\ u = Some (inst_zonename i)
  | SvcadmRestart _ fmri => fmri = "/smartdc/application/sapi:default"
  | SapiSetMode mode => mode = "full"
  | ReprovisionRemote s _ img => onInstServer s /\ img = ch_image change
  | PsqlPing s _ => onInstServer s
  | _ => False
  end.

Definition instFound (st : pstate) : Prop :=
  exists i, ch_inst change = Some i /\ manateeUUID st = Some (inst_zonename i).

(** The primary of [arg.shard] is on the server of [change.inst]. *)
Definition primaryPlaced (st : pstate) : Prop :=
  forall p, shard st !! "primary" = Some p -> onInstServer (server_uuid p).

Lemma solo_onlyHA f : onlyHA change f = skip.
Proof. unfold onlyHA. rewrite HnoHA. reflexivity. Qed.

Lemma solo_onlyNoHA f : onlyNoHA change f = f.
Proof. unfold onlyNoHA. rewrite HnoHA. reflexivity. Qed.

Lemma solo_getLocalManatee :
  hoare always (getLocalManatee hostname change) soloEvent instFound.
Proof.
  intros w fuel st h _. unfold getLocalManatee. rewrite HnoHA. simpl negb. cbv iota.
  destruct (ch_inst change) as [i|] eqn:E; simpl.
  - eexists [], _, _. rewrite app_nil_r. split; [reflexivity|].
    split; [constructor|]. intros _. exists i. rewrite E. split; reflexivity.
  - eexists [], _, _. rewrite app_nil_r. split; [reflexivity|].
    split; [constructor | discriminate].
Qed.

Lemma solo_getShard : hoare instFound getShard soloEvent always.
Proof.
  intros w fuel st h Hloc. unfold getShard. rewrite ask_eq.
  set (r := w h (GetShardStatusLocally (manateeUUID st))).
  assert (H1 : Forall soloEvent [(GetShardStatusLocally (manateeUUID st), r)])
    by (constructor; [exact Hloc | constructor]).
  destruct (r_err r); [eexists _, _, _; split; [reflexivity|]; split; [exact H1 | intros _; exact I]|].
  destruct (r_shard r) as [status|];
    [|eexists _, _, _; split; [reflexivity|]; split; [exact H1 | intros _; exact I]].
  destruct (sdc status);
    eexists _, _, _; (split; [reflexivity|]); (split; [exact H1 | intros _; exact I]).
Qed.

Lemma solo_getShardServers :
  hoare always (getShardServers change) soloEvent primaryPlaced.
Proof.
  intros w fuel st h _. unfold getShardServers. rewrite HnoHA. simpl negb. cbv iota.
  destruct (shard st !! "primary") as [p|];
    [|eexists [], _, _; rewrite app_nil_r; split; [reflexivity|];
      split; [constructor | discriminate]].
  destruct (ch_inst change) as [i|] eqn:E;
    [|eexists [], _, _; rewrite app_nil_r; split; [reflexivity|];
      split; [constructor | discriminate]].
  eexists [], _, _. rewrite app_nil_r. split; [reflexivity|].
  split; [constructor|]. intros _ q. simpl. rewrite lookup_insert_eq.
  intros [= <-]. exists i. split; [exact E | reflexivity].
Qed.

Lemma solo_first :
  Forall (fun f => hoare always f soloEvent always)
    [command (fun _ => GetUserScript);
     command (fun _ => WriteOldUserScriptForRollback);
     command (fun _ => UpdateSvcUserScript);
     command (fun _ => UpdateVmUserScript);
     command (fun _ => UpdateSapiSvc)].
Proof. repeat constructor; apply hoare_command; intros; exact I. Qed.

Lemma solo_stages :
  Forall (fun f => hoare primaryPlaced f soloEvent primaryPlaced)
         (installPrimaryImage change :: updateStages change).
Proof.
  unfold updateStages, installPrimaryImage, verifyFullHA, disableAsync,
    waitForAsyncDisabled, installImageAsyncServer, reprovisionAsync, waitForAsync,
    waitForHA, disableSync, waitForSyncDisabled, installImageSyncServer,
    reprovisionSync, waitForSync, waitForHASync, disablePrimaryManatee,
    waitForShardPromotion, getLocalSapi, setSapiProtoMode, restartSapiIntoProtoMode,
    reprovisionPrimary, waitForPrimaryInstance, waitForPrimaryPG, resetSapiToFullMode,
    waitForShardHA.
  rewrite !solo_onlyHA, !solo_onlyNoHA. rewrite HnoHA. simpl negb. cbv iota.
  constructor; [apply hoare_command; intros; exact I|].
  do 15 (constructor; [apply hoare_skip|]).
  constructor.
  { intros w fuel st h Hst. rewrite ask_eq.
    set (r := w h VmadmLookupSapi).
    assert (H1 : Forall soloEvent [(VmadmLookupSapi, r)])
      by (constructor; [exact I | constructor]).
    destruct (r_err r); eexists _, _, _; (split; [reflexivity|]);
      (split; [exact H1 | intros _; exact Hst]). }
  constructor; [apply hoare_command; intros; exact I|].
  constructor; [apply hoare_command; intros; reflexivity|].
  constructor.
  { unfold reprovisionPeer. apply hoare_withPeer. intros p. apply hoare_forget.
    apply hoare_command. intros st r [Hst Hp].
    split; [exact (Hst p Hp) | reflexivity]. }
  constructor.
  { unfold pauseFor. apply hoare_withPeer. intros p. apply hoare_forget.
    apply hoare_sleep. intros r. exact I. }
  constructor.
  { apply hoare_withPeer. intros p w fuel st h [Hst Hp].
    destruct (postgres_events soloEvent (server_uuid p) (zoneId p) w
                (fun r => Hst p Hp) (fun r => I) fuel h) as (t & sig & E & HG).
    unfold waitForPostgresUp. rewrite E. exists t, st, sig.
    split; [reflexivity|]. split; [exact HG | intros _; exact Hst]. }
  constructor; [apply hoare_command; intros; reflexivity|].
  constructor; [apply hoare_skip | constructor].
Qed.

Lemma solo_events w fuel h :
  exists t st o,
    updateManatee hostname change w fuel h = (h ++ t, st, o) /\ Forall soloEvent t.
Proof.
  unfold updateManatee, setupStages. rewrite HnoHA. simpl negb. cbv iota.
  assert (H : hoares always
                (([command (fun _ => GetUserScript);
                   command (fun _ => WriteOldUserScriptForRollback);
                   command (fun _ => UpdateSvcUserScript)]
                  ++ [command (fun _ => UpdateVmUserScript)]
                  ++ [command (fun _ => UpdateSapiSvc); getLocalManatee hostname change;
                      getShard; getShardServers change; installPrimaryImage change])
                 ++ updateStages change)
                soloEvent primaryPlaced).
  { change (([command (fun _ => GetUserScript);
              command (fun _ => WriteOldUserScriptForRollback);
              command (fun _ => UpdateSvcUserScript)]
             ++ [command (fun _ => UpdateVmUserScript)]
             ++ [command (fun _ => UpdateSapiSvc); getLocalManatee hostname change;
                 getShard; getShardServers change; installPrimaryImage change])
            ++ updateStages change)
      with ([command (fun _ => GetUserScript);
             command (fun _ => WriteOldUserScriptForRollback);
             command (fun _ => UpdateSvcUserScript);
             command (fun _ => UpdateVmUserScript);
             command (fun _ => UpdateSapiSvc)]
            ++ getLocalManatee hostname change :: getShard :: getShardServers change
                 :: installPrimaryImage change :: updateStages change).
    eapply hoares_app; [apply hoares_all; exact solo_first|].
    eapply hoares_cons; [exact solo_getLocalManatee|].
    eapply hoares_cons; [exact solo_getShard|].
    eapply hoares_cons; [exact solo_getShardServers|].
    apply hoares_all. exact solo_stages. }
  destruct (H w fuel initial h I) as (t & st & o & E & HG & _).
  exists t, st, o. split; [exact E | exact HG].
Qed.

End SoloUpdate.

(** X16: However far it gets, and also when it never ends, the update of
    a single instance stays with that instance: the status
    is read in the zone of [change.inst], the image is imported with the
    local imgadm, and the reprovision and the PostgreSQL pings go to the
    server of [change.inst], the reprovision with the image of the
    change.  No peer is disabled, no status is polled through another
    server and nothing is imported remotely; SAPI is restarted by its
    service name and set to no mode but 'full'. *)
Theorem single_instance_update_stays_on_its_server
    (hostname : string) (change : Change) (w : World) (fuel : nat) (h : trace) :
  HA change = false ->
  exists t st o,
    updateManatee hostname change w fuel h = (h ++ t, st, o)
    /\ Forall (soloEvent change) t.
Proof. intros HnoHA. exact (solo_events hostname change HnoHA w fuel h). Qed.

Lemma single_instance_update_stays_on_its_server_witness :
  exists t st o,
    updateManatee "headnode" Scenario.soloChange Scenario.soloHealthy 3 []
    = ([] ++ t, st, o)
    /\ Forall (soloEvent Scenario.soloChange) t.
Proof.
  apply (single_instance_update_stays_on_its_server "headnode" Scenario.soloChange
           Scenario.soloHealthy 3 []).
  reflexivity.
Defined.


(** *** The waits without a limit *)

Definition isPing (e : event) : bool :=
  match fst e with PsqlPing _ _ => true | _ => false end.

(** The number of PostgreSQL pings in a trace. *)
Definition pings (t : trace) : nat := length (List.filter isPing t).

(** X17: The wait for PostgreSQL ends only with a ping that succeeds: it never
    reports its 'Timeout (60s)' error, and however many rounds it is
    given, it has either been answered or has pinged once per round and
    goes on; against a PostgreSQL that stays down it goes on for ever. *)
Theorem postgres_wait_has_no_limit
    (server : option string) (zone : string) (w : World) (fuel : nat) (h : trace) :
  exists t sig,
    waitForPostgresUp fuel server zone w h = (h ++ t, sig)
    /\ (sig = Next None \/ sig = Pending)
    /\ (sig = Pending -> pings t = fuel /\ length t = (2 * fuel)%nat)
    /\ ((forall h', r_failed (w h' (PsqlPing server zone)) = true) -> sig = Pending).
Proof.
  unfold waitForPostgresUp. revert h. induction fuel as [|fuel IH]; intros h.
  { exists [], Pending. rewrite app_nil_r. split; [reflexivity|].
    split; [right; reflexivity|]. split; [intros _; split; reflexivity|].
    intros _. reflexivity. }
  simpl. set (r := w h (PsqlPing server zone)).
  destruct (r_failed r) eqn:Hr.
  - destruct (IH ((h ++ [(PsqlPing server zone, r)])
                    ++ [(SetTimeout 5000,
                         w (h ++ [(PsqlPing server zone, r)]) (SetTimeout 5000))]))
      as (t & sig & -> & Hsig & Hpend & Hdown).
    eexists ((PsqlPing server zone, r) :: (SetTimeout 5000, _) :: t), sig.
    split; [rewrite <- !app_assoc; reflexivity|].
    split; [exact Hsig|]. split; [|exact Hdown].
    intros Hp. destruct (Hpend Hp) as [Hn Hl]. unfold pings in *. simpl.
    rewrite Hn, Hl. split; [reflexivity | lia].
  - exists [(PsqlPing server zone, r)], (Next None). split; [reflexivity|].
    split; [left; reflexivity|]. split; [discriminate|].
    intros Hdown. specialize (Hdown h). fold r in Hdown. congruence.
Qed.


(** The shard keeps reporting the primary it had. *)
Definition samePrimary (w : World) (server : option string) (zone : string)
    (orig : Peer) : Prop :=
  forall h, exists obj p,
    answered (w h (GetShardStatus server zone)) obj
    /\ sdc obj ≫= (.!! "primary") = Some p
    /\ zoneId p = zoneId orig.

(** X18: The wait for the promotion has no limit either: an error it reports is
    the error of its last status command, never its own 'Timeout (3min)',
    and however many rounds it is given, while it is not over it has
    polled once per round; against a shard that keeps its primary it goes
    on for ever. *)
Theorem promotion_wait_has_no_limit
    (server : option string) (zone : string) (orig : Peer) (w : World)
    (fuel : nat) (h : trace) :
  exists t sig,
    _waitForShardPromotion fuel 0 server zone (Some orig) w h = (h ++ t, sig)
    /\ (sig = Pending -> polls t = fuel /\ length t = (2 * fuel)%nat)
    /\ (forall e, sig = Next (Some e) ->
          exists pre r, t = pre ++ [(GetShardStatus server zone, r)]
                        /\ r_err r = Some e)
    /\ (samePrimary w server zone orig -> sig = Pending).
Proof.
  revert h. induction fuel as [|fuel IH]; intros h.
  { exists [], Pending. rewrite app_nil_r. split; [reflexivity|].
    split; [intros _; split; reflexivity|]. split; [discriminate|].
    intros _. reflexivity. }
  simpl. unfold getShardStatus. rewrite ask_eq.
  set (r := w h (GetShardStatus server zone)).
  assert (Hstuck : samePrimary w server zone orig ->
            exists obj p, r_err r = None /\ r_shard r = Some obj
                          /\ sdc obj ≫= (.!! "primary") = Some p
                          /\ zoneId p = zoneId orig).
  { intros Hs. destruct (Hs h) as (obj & p & [He Ho] & Hp & Hz).
    exists obj, p. auto. }
  destruct (r_err r) as [e|] eqn:Herr.
  { exists [(GetShardStatus server zone, r)], (Next (Some e)). split; [reflexivity|].
    split; [discriminate|]. split.
    - intros e' [= <-]. exists [], r. split; [reflexivity | exact Herr].
    - intros Hs. destruct (Hstuck Hs) as (? & ? & ? & _). discriminate. }
  destruct (r_shard r) as [obj|] eqn:Hobj.
  2:{ eexists [(GetShardStatus server zone, r)], _. split; [reflexivity|].
      split; [discriminate|]. split; [discriminate|].
      intros Hs. destruct (Hstuck Hs) as (? & ? & _ & ? & _). discriminate. }
  destruct (sdc obj ≫= (.!! "primary")) as [p|] eqn:Hprim.
  2:{ eexists [(GetShardStatus server zone, r)], _. split; [reflexivity|].
      split; [discriminate|]. split; [discriminate|].
      intros Hs. destruct (Hstuck Hs) as (obj' & p' & _ & Ho & Hp & _).
      injection Ho as <-. rewrite Hprim in Hp. discriminate. }
  destruct (String.eqb_spec (zoneId p) (zoneId orig)) as [Hz|Hz]; simpl.
  - destruct (IH ((h ++ [(GetShardStatus server zone, r)])
                    ++ [(SetTimeout 5000,
                         w (h ++ [(GetShardStatus server zone, r)]) (SetTimeout 5000))]))
      as (t & sig & -> & Hpend & Herrs & Hsame).
    eexists ((GetShardStatus server zone, r) :: (SetTimeout 5000, _) :: t), sig.
    split; [rewrite <- !app_assoc; reflexivity|].
    split; [|split; [|exact Hsame]].
    + intros Hp. destruct (Hpend Hp) as [Hn Hl]. unfold polls in *. simpl.
      rewrite Hn, Hl. split; [reflexivity | lia].
    + intros e He. destruct (Herrs e He) as (pre & r' & -> & Hr').
      exists ((GetShardStatus server zone, r) :: (SetTimeout 5000,
                w (h ++ [(GetShardStatus server zone, r)]) (SetTimeout 5000)) :: pre), r'.
      split; [reflexivity | exact Hr'].
  - exists [(GetShardStatus server zone, r)], (Next None). split; [reflexivity|].
    split; [discriminate|]. split; [discriminate|].
    intros Hs. destruct (Hstuck Hs) as (obj' & p' & _ & Ho & Hp & Hz').
    injection Ho as <-. rewrite Hprim in Hp. injection Hp as <-. contradiction.
Qed.

(** A PostgreSQL that never comes up, and a shard that never promotes. *)
Definition postgresDown : World := fun _ _ => mkReply None None "" true.
Definition neverPromoted : World := fun _ _ => Scenario.reporting Scenario.fullShard.

(** Forty rounds, past the 36 of either limit, and both waits are still
    going. *)
Example waits_go_past_their_limits :
  snd (waitForPostgresUp 40 (Some "s0") "z0" postgresDown []) = Pending
  /\ pings (fst (waitForPostgresUp 40 (Some "s0") "z0" postgresDown [])) = 40%nat
  /\ snd (_waitForShardPromotion 40 0 (Some "s2") "z2"
            (Some (Scenario.peer "z0" [])) neverPromoted []) = Pending
  /\ polls (fst (_waitForShardPromotion 40 0 (Some "s2") "z2"
                   (Some (Scenario.peer "z0" [])) neverPromoted [])) = 40%nat.
Proof. repeat split; vm_compute; reflexivity. Qed.

(** *** Several changes *)


(** *** An HA update from a host without an instance *)

(** A pipeline of plain commands ends with the callback of a command. *)
Lemma commands_run (cs : list call) w fuel st h :
  exists t e,
    pipeline (map (fun c => command (fun _ => c)) cs) w fuel st h
    = (h ++ t, st, Completed e)
    /\ Forall (fun ev => In (fst ev) cs) t
    /\ (e = None -> map fst t = cs).
Proof.
  revert h. induction cs as [|c cs IH]; intros h.
  { exists [], None. rewrite app_nil_r. split; [reflexivity|].
    split; [constructor | reflexivity]. }
  simpl map. rewrite pipeline_cons. unfold command at 1. rewrite ask_eq.
  destruct (r_err (w h c)) as [e|] eqn:E.
  - exists [(c, w h c)], (Some e). split; [reflexivity|].
    split; [constructor; [left; reflexivity | constructor] | discriminate].
  - destruct (IH (h ++ [(c, w h c)])) as (t & e & -> & Hall & Hmap).
    exists ((c, w h c) :: t), e. rewrite <- app_assoc. split; [reflexivity|]. split.
    + constructor; [left; reflexivity|].
      eapply List.Forall_impl; [|exact Hall]. intros ev Hev. right. exact Hev.
    + intros He. simpl. rewrite (Hmap He). reflexivity.
Qed.

(** The commands before the local instance is looked for. *)
Definition preparation (change : Change) : list call :=
  [GetUserScript; WriteOldUserScriptForRollback; UpdateSvcUserScript]
  ++ map (fun i => UpdateVmUserScriptRemote (inst_zonename i) (inst_server i))
         (instsOf change)
  ++ [UpdateSapiSvc].

(** X20: An HA update run on a host that has none of the change's instances
    never reaches the shard: after the user-script and SAPI service steps,
    which it does carry out, it ends with the error of one of them or with
    the TypeError of reading the [zonename] of the missing instance. *)
Theorem HA_update_needs_an_instance_on_this_host
    (hostname : string) (change : Change) (w : World) (fuel : nat) (h : trace) :
  HA change = true ->
  Forall (fun i => inst_hostname i <> hostname) (instsOf change) ->
  exists t st o,
    updateManatee hostname change w fuel h = (h ++ t, st, o)
    /\ Forall (fun ev => In (fst ev) (preparation change)) t
    /\ ((exists e, o = Completed (Some e))
        \/ (o = Threw "TypeError: Cannot read property 'zonename' of undefined"
            /\ map fst t = preparation change)).
Proof.
  intros HHA Hnone. unfold updateManatee, setupStages. rewrite HHA. simpl negb. cbv iota.
  assert (Hsplit :
    ([command (fun _ => GetUserScript);
      command (fun _ => WriteOldUserScriptForRollback);
      command (fun _ => UpdateSvcUserScript)]
     ++ map updateInstUserScript (instsOf change)
     ++ [command (fun _ => UpdateSapiSvc); getLocalManatee hostname change; getShard;
         getShardServers change; installPrimaryImage change])
    ++ updateStages change
    = map (fun c => command (fun _ => c)) (preparation change)
      ++ getLocalManatee hostname change :: getShard :: getShardServers change
           :: installPrimaryImage change :: updateStages change).
  { unfold preparation. rewrite !map_app, map_map. simpl.
    rewrite <- ?app_assoc. simpl. rewrite <- ?app_assoc. reflexivity. }
  rewrite Hsplit, pipeline_app.
  destruct (commands_run (preparation change) w fuel initial h)
    as (t & e & -> & Hall & Hmap).
  destruct e as [e|].
  { exists t, initial, (Completed (Some e)). split; [reflexivity|].
    split; [exact Hall|]. left. exists e. reflexivity. }
  rewrite pipeline_cons. unfold getLocalManatee. rewrite HHA. simpl negb. cbv iota.
  assert (Hfilter : List.filter (fun x => String.eqb (inst_hostname x) hostname)
                                (instsOf change) = []).
  { apply PlannerProps.filter_nil_iff. intros i Hi. apply String.eqb_neq.
    exact (proj1 (List.Forall_forall _ _) Hnone i Hi). }
  rewrite Hfilter. simpl.
  exists t, initial, (Threw "TypeError: Cannot read property 'zonename' of undefined").
  split; [reflexivity|]. split; [exact Hall|]. right.
  split; [reflexivity | exact (Hmap eq_refl)].
Qed.

Lemma HA_update_needs_an_instance_on_this_host_witness :
  exists t st o,
    updateManatee "cn9" Scenario.shardChange Scenario.healthy 1 [] = ([] ++ t, st, o)
    /\ Forall (fun ev => In (fst ev) (preparation Scenario.shardChange)) t
    /\ ((exists e, o = Completed (Some e))
        \/ (o = Threw "TypeError: Cannot read property 'zonename' of undefined"
            /\ map fst t = preparation Scenario.shardChange)).
Proof.
  apply (HA_update_needs_an_instance_on_this_host "cn9" Scenario.shardChange
           Scenario.healthy 1 []).
  - reflexivity.
  - repeat constructor; discriminate.
Defined.


(** *** What a successful HA update has done *)

(** An HA update fails before it touches a peer, or runs the script of the
    full shard. *)
Lemma HA_run hostname change w fuel h :
  HA change = true ->
  exists t st o,
    updateManatee hostname change w fuel h = (h ++ t, st, o)
    /\ (o <> Completed None
        \/ exists setup rest img primary sync async,
             t = setup ++ rest
             /\ ch_image change = Some img
             /\ shard st !! "primary" = Some primary
             /\ shard st !! "sync" = Some sync
             /\ shard st !! "async" = Some async
             /\ runs (haScript img primary sync async) rest o).
Proof.
  intros HHA. unfold updateManatee.
  rewrite setupStages_split, <- app_assoc, pipeline_app.
  change ([installPrimaryImage change] ++ updateStages change)
    with (installPrimaryImage change :: updateStages change).
  destruct (pipeline_steps untouched (firstStages hostname change)
              (firstStages_steps untouched hostname change
                 ltac:(intros c Hc _; unfold untouched; rewrite Hc; reflexivity))
              w fuel (initial) h)
    as (t & st1 & o1 & -> & _ & _ & _).
  destruct o1 as [[e|]| | |];
    try (eexists t, st1, _; split; [reflexivity | left; discriminate]).
  rewrite pipeline_cons. unfold installPrimaryImage. rewrite HHA. cbn [negb].
  destruct (ch_image change) as [img|] eqn:Himg.
  2:{ eexists t, st1, _. split; [reflexivity | left; discriminate]. }
  unfold withPeer. cbv beta. destruct (shard st1 !! "primary") as [primary|] eqn:Hprimary.
  2:{ eexists t, st1, _. split; [reflexivity | left; discriminate]. }
  unfold installOn. rewrite Himg. unfold command. rewrite ask_eq.
  set (ev := (ImgadmInstallRemote (server_uuid primary) (Some img),
              w (h ++ t) (ImgadmInstallRemote (server_uuid primary) (Some img)))).
  destruct (r_err (snd ev)) as [e|] eqn:Herr.
  { simpl in Herr. rewrite Herr. rewrite <- app_assoc.
    eexists (t ++ [ev]), st1, _. split; [reflexivity | left; discriminate]. }
  simpl in Herr. rewrite Herr.
  change (updateStages change) with (verifyFullHA change :: peerStages change).
  rewrite pipeline_cons. unfold verifyFullHA, onlyHA. rewrite HHA.
  destruct (shard st1 !! "sync") as [sync|] eqn:Hsync.
  2:{ rewrite <- app_assoc. eexists (t ++ [ev]), st1, _.
      split; [reflexivity | left; discriminate]. }
  destruct (shard st1 !! "async") as [async|] eqn:Hasync.
  2:{ rewrite <- app_assoc. eexists (t ++ [ev]), st1, _.
      split; [reflexivity | left; discriminate]. }
  destruct (peerStages_run change img st1 primary sync async HHA Himg
              Hprimary Hsync Hasync w fuel ((h ++ t) ++ [ev]))
    as (rest & o & -> & R).
  exists ((t ++ [ev]) ++ rest), st1, o. rewrite <- !app_assoc.
  split; [reflexivity|]. right.
  exists (t ++ [ev]), rest, img, primary, sync, async.
  rewrite <- !app_assoc. auto 10.
Qed.

(** A run that completed went through every segment of its script. *)
Lemma runs_completed s ss t :
  runs (s :: ss) t (Completed None) ->
  (forall t' o, aborts s t' o -> o <> Completed None) ->
  exists t1 t2, t = t1 ++ t2 /\ completes s t1 /\ runs ss t2 (Completed None).
Proof.
  intros R Hab. inversion R as [|? ? ? ? Ha|? ? t1 t2 ? Hc R']; subst.
  - destruct (Hab _ _ Ha eq_refl).
  - exists t1, t2. auto.
Qed.

Lemma cmd_aborts c t o : aborts (cmd c) t o -> o <> Completed None.
Proof. intros (r & e & _ & _ & ->). discriminate. Qed.

Lemma wait_aborts state p t o : aborts (wait state p) t o -> o <> Completed None.
Proof. intros (sig & Hne & _ & ->). apply outcomeOf_failed. exact Hne. Qed.

Lemma promotion_aborts a p t o : aborts (promotion a p) t o -> o <> Completed None.
Proof. intros (sig & Hne & _ & ->). apply outcomeOf_failed. exact Hne. Qed.

Lemma pause_aborts ms t o : aborts (pause ms) t o -> o <> Completed None.
Proof. intros []. Qed.

Lemma install_aborts img p others t o :
  aborts (install img p others) t o -> o <> Completed None.
Proof.
  unfold install. destruct (existsb _ _); [intros [] | apply cmd_aborts].
Qed.

(** The peer commands of the script, in its order. *)
Definition peerCommands (img : Image) (primary sync async : Peer) : list call :=
  [DisableManatee (server_uuid async) (zoneId async);
   ReprovisionRemote (server_uuid async) (zoneId async) (Some img);
   DisableManatee (server_uuid sync) (zoneId sync);
   ReprovisionRemote (server_uuid sync) (zoneId sync) (Some img);
   DisableManatee (server_uuid primary) (zoneId primary);
   ReprovisionRemote (server_uuid primary) (zoneId primary) (Some img)].

Lemma haScript_completed img primary sync async t :
  runs (haScript img primary sync async) t (Completed None) ->
  peerCommands img primary sync async `sublist_of` map fst t
  /\ exists pre last,
       t = pre ++ last
       /\ waitRun "async" (server_uuid async) (zoneId async) 0 last (Next None).
Proof.
  unfold haScript. intros R.
  apply runs_completed in R as (t1 & r1 & -> & C1 & R); [|apply cmd_aborts].
  apply runs_completed in R as (t2 & r2 & -> & C2 & R); [|apply wait_aborts].
  apply runs_completed in R as (t3 & r3 & -> & C3 & R); [|apply install_aborts].
  apply runs_completed in R as (t4 & r4 & -> & C4 & R); [|apply cmd_aborts].
  apply runs_completed in R as (t5 & r5 & -> & C5 & R); [|apply pause_aborts].
  apply runs_completed in R as (t6 & r6 & -> & C6 & R); [|apply wait_aborts].
  apply runs_completed in R as (t7 & r7 & -> & C7 & R); [|apply cmd_aborts].
  apply runs_completed in R as (t8 & r8 & -> & C8 & R); [|apply wait_aborts].
  apply runs_completed in R as (t9 & r9 & -> & C9 & R); [|apply install_aborts].
  apply runs_completed in R as (t10 & r10 & -> & C10 & R); [|apply cmd_aborts].
  apply runs_completed in R as (t11 & r11 & -> & C11 & R); [|apply pause_aborts].
  apply runs_completed in R as (t12 & r12 & -> & C12 & R); [|apply wait_aborts].
  apply runs_completed in R as (t13 & r13 & -> & C13 & R); [|apply cmd_aborts].
  apply runs_completed in R as (t14 & r14 & -> & C14 & R); [|apply promotion_aborts].
  apply runs_completed in R as (t15 & r15 & -> & C15 & R); [|apply cmd_aborts].
  apply runs_completed in R as (t16 & r16 & -> & C16 & R); [|apply pause_aborts].
  apply runs_completed in R as (t17 & r17 & -> & C17 & R); [|apply wait_aborts].
  inversion R; subst. rewrite app_nil_r. split.
  - destruct C1 as (x1 & -> & _), C4 as (x4 & -> & _), C7 as (x7 & -> & _),
      C10 as (x10 & -> & _), C13 as (x13 & -> & _), C15 as (x15 & -> & _).
    rewrite !map_app. unfold peerCommands. cbn [map fst app].
    apply sublist_skip. do 2 apply sublist_inserts_l.
    apply sublist_skip. do 2 apply sublist_inserts_l.
    apply sublist_skip. do 2 apply sublist_inserts_l.
    apply sublist_skip. do 2 apply sublist_inserts_l.
    apply sublist_skip. apply sublist_inserts_l.
    apply sublist_skip. apply sublist_nil_l.
  - eexists (t1 ++ t2 ++ t3 ++ t4 ++ t5 ++ t6 ++ t7 ++ t8 ++ t9 ++ t10 ++ t11 ++ t12
             ++ t13 ++ t14 ++ t15 ++ t16), t17.
    split; [rewrite <- !app_assoc; reflexivity | exact C17].
Qed.

(** X21: An HA update that completed without error has disabled and then
    reprovisioned, with the image of the change, the async peer, then the
    sync peer, then the primary; and its last step saw the shard back in
    'async' mode from the peer that was async. *)
Theorem successful_HA_update_reprovisioned_every_peer
    (hostname : string) (change : Change) (w : World) (fuel : nat)
    (h t : trace) (st : pstate) :
  HA change = true ->
  updateManatee hostname change w fuel h = (h ++ t, st, Completed None) ->
  exists img primary sync async,
    ch_image change = Some img
    /\ shard st !! "primary" = Some primary
    /\ shard st !! "sync" = Some sync
    /\ shard st !! "async" = Some async
    /\ peerCommands img primary sync async `sublist_of` map fst t
    /\ exists pre last,
         t = pre ++ last
         /\ waitRun "async" (server_uuid async) (zoneId async) 0 last (Next None).
Proof.
  intros HHA E.
  destruct (HA_run hostname change w fuel h HHA) as (t' & st' & o & E' & H).
  rewrite E in E'. injection E' as Ht <- <-. apply app_inv_head in Ht. subst t'.
  destruct H as [H|(setup & rest & img & primary & sync & async & -> & Hi & Hp & Hs & Ha & R)];
    [contradiction|].
  exists img, primary, sync, async. repeat (split; [assumption|]).
  destruct (haScript_completed _ _ _ _ _ R) as (Hsub & pre & last & -> & Hw).
  split.
  - rewrite map_app. apply sublist_inserts_l. exact Hsub.
  - exists (setup ++ pre), last. rewrite <- app_assoc. split; [reflexivity | exact Hw].
Qed.

Lemma successful_HA_update_reprovisioned_every_peer_witness :
  exists t st,
    updateManatee "headnode" Scenario.shardChange Scenario.healthy 1 []
    = ([] ++ t, st, Completed None)
    /\ exists img primary sync async,
         ch_image Scenario.shardChange = Some img
         /\ shard st !! "primary" = Some primary
         /\ shard st !! "sync" = Some sync
         /\ shard st !! "async" = Some async
         /\ peerCommands img primary sync async `sublist_of` map fst t
         /\ exists pre last,
              t = pre ++ last
              /\ waitRun "async" (server_uuid async) (zoneId async) 0 last (Next None).
Proof.
  eexists. eexists. split; [vm_compute; reflexivity|].
  apply (successful_HA_update_reprovisioned_every_peer "headnode" Scenario.shardChange
           Scenario.healthy 1 []).
  - reflexivity.
  - vm_compute. reflexivity.
Defined.

(** *** A PostgreSQL that stays down *)

(** Against a PostgreSQL that stays down the wait pings once per round
    and is never over. *)
Lemma postgres_keeps_pinging server zone w :
  (forall h, r_failed (w h (PsqlPing server zone)) = true) ->
  forall fuel h, exists t,
    _waitForPostgresUp fuel 0 server zone w h = (h ++ t, Pending)
    /\ pings t = fuel
    /\ Forall (fun e => match fst e with
                        | PsqlPing _ _ | SetTimeout _ => True
                        | _ => False
                        end) t.
Proof.
  intros Hdown. induction fuel as [|fuel IH]; intros h.
  { exists []. rewrite app_nil_r. repeat split. constructor. }
  simpl. rewrite (Hdown h).
  destruct (IH ((h ++ [(PsqlPing server zone, w h (PsqlPing server zone))])
                  ++ [(SetTimeout 5000,
                       w (h ++ [(PsqlPing server zone, w h (PsqlPing server zone))])
                         (SetTimeout 5000))]))
    as (t & -> & Hp & Hall).
  eexists ((PsqlPing server zone, _) :: (SetTimeout 5000, _) :: t).
  split; [rewrite <- !app_assoc; reflexivity|].
  split; [unfold pings in *; simpl; rewrite Hp; reflexivity|].
  repeat (constructor; [exact I|]). exact Hall.
Qed.

(** The stages of a single-peer update before the wait for PostgreSQL. *)
Definition beforePostgres (hostname : string) (change : Change) : list stage :=
  firstStages hostname change
  ++ [installPrimaryImage change]
  ++ firstn 20 (updateStages change).

Lemma stages_around_postgres hostname change :
  setupStages hostname change ++ updateStages change
  = beforePostgres hostname change
    ++ [waitForPrimaryPG change; resetSapiToFullMode change; waitForShardHA change].
Proof.
  unfold beforePostgres. rewrite setupStages_split, <- !app_assoc. reflexivity.
Qed.

(** C10: a single-peer update whose PostgreSQL never answers the ping does
    not return.  However many rounds the wait is given, the procedure has
    pinged once per round and is still waiting: it reports no
    'Timeout (60s)' error, or any other, SAPI has been put into proto
    mode, and nothing tells it to return to full mode. *)
Theorem postgres_down_update_never_returns (fuel : nat) :
  exists t st,
    updateManatee "headnode" Scenario.soloChange Scenario.soloDown fuel []
    = (t, st, Stalled)
    /\ In (MdataPutProtoMode (Some "sapi-zone-uuid")) (map fst t)
    /\ ~ In (SapiSetMode "full") (map fst t)
    /\ pings t = fuel.
Proof.
  unfold updateManatee. rewrite stages_around_postgres, pipeline_app.
  destruct (pipeline (beforePostgres "headnode" Scenario.soloChange)
              Scenario.soloDown fuel initial []) as [[h0 st0] o0] eqn:E.
  vm_compute in E. injection E as <- <- <-.
  rewrite pipeline_cons.
  unfold waitForPrimaryPG, onlyNoHA, withPeer, waitForPostgresUp.
  change (HA Scenario.soloChange) with false. cbv iota beta.
  match goal with
  | |- context [shard ?st !! "primary"] =>
      let p := eval vm_compute in (shard st !! "primary") in
      change (shard st !! "primary") with p
  end.
  cbv iota beta.
  match goal with
  | |- context [_waitForPostgresUp fuel 0 ?s ?z ?w ?h] =>
      destruct (postgres_keeps_pinging s z w (fun _ => eq_refl) fuel h)
        as (t & E & Hp & Hall)
  end.
  rewrite E. cbv iota beta. unfold outcomeOf.
  eexists _, _. split; [reflexivity|].
  rewrite map_app, !in_app_iff. split; [|split].
  - left. simpl. tauto.
  - intros [H|H].
    + simpl in H. repeat (destruct H as [H|H]; [discriminate H|]). exact H.
    + apply in_map_iff in H as (e & He & Hin).
      pose proof (proj1 (List.Forall_forall _ _) Hall e Hin) as Hk.
      destruct e as [c r]. simpl in He, Hk. subst c. exact Hk.
  - unfold pings in *. rewrite List.filter_app, length_app, Hp. reflexivity.
Qed.

End ManateeFacts.

Module ExecFacts.

Import Js Exec.

(** The steps before the procedures: the work dir, the plan file and the
    first history record. *)
Definition isPreparation (c : call) : bool :=
  match c with
  | Mkdirp _ | WriteFile _ _ | SaveHistory _ _ => true
  | _ => false
  end.

Definition isHistory (c : call) : bool :=
  match c with
  | SaveHistory _ _ | UpdateHistory _ => true
  | _ => false
  end.

(** The procedure an event executed. *)
Definition executed (e : event) : option Procedure :=
  match fst e with Execute p _ => Some p | _ => None end.

Definition failed (e : event) : Prop := snd e <> None.

Lemma ask_appends w h c : ask w h c = (h ++ [(c, w h c)], w h c).
Proof. reflexivity. Qed.

(** The procedures run in order, each in the work dir, and the first one
    that fails ends the run with its error. *)
Lemma forEachProc_run stamp w procs :
  forall h,
    exists t e done,
      forEachProc stamp w procs h = (h ++ t, e)
      /\ map fst t = map (fun p => Execute p (wrkDir stamp)) done
      /\ done `prefix_of` procs
      /\ (e = None -> done = procs /\ Forall (fun ev => snd ev = None) t)
      /\ (forall f, e = Some f ->
            exists pre p err,
              t = pre ++ [(Execute p (wrkDir stamp), Some err)]
              /\ Forall (fun ev => snd ev = None) pre
              /\ f = Passed err).
Proof.
  induction procs as [|p procs IH]; intros h.
  { exists [], None, []. rewrite app_nil_r. split; [reflexivity|].
    split; [reflexivity|]. split; [reflexivity|].
    split; [intros _; split; [reflexivity | constructor] | discriminate]. }
  cbn [forEachProc]. rewrite ask_appends.
  destruct (w h (Execute p (wrkDir stamp))) as [err|] eqn:E.
  - exists [(Execute p (wrkDir stamp), Some err)], (Some (Passed err)), [p].
    split; [reflexivity|]. split; [reflexivity|].
    split; [exists procs; reflexivity|]. split; [discriminate|].
    intros f [= <-]. exists [], p, err. split; [reflexivity|].
    split; [constructor | reflexivity].
  - destruct (IH (h ++ [(Execute p (wrkDir stamp), None)]))
      as (t & e & done & E' & Hmap & Hpre & Hnone & Hsome).
    exists ((Execute p (wrkDir stamp), None) :: t), e, (p :: done).
    rewrite <- app_assoc in E'. split; [exact E'|].
    split; [simpl; rewrite Hmap; reflexivity|].
    split; [apply prefix_cons; exact Hpre|]. split.
    + intros He. destruct (Hnone He) as [-> Hall].
      split; [reflexivity | constructor; [reflexivity | exact Hall]].
    + intros f Hf. destruct (Hsome f Hf) as (pre & q & err & -> & Hall & ->).
      exists ((Execute p (wrkDir stamp), None) :: pre), q, err.
      split; [reflexivity|]. split; [constructor; [reflexivity | exact Hall] | reflexivity].
Qed.

(** X22: A dry run stays with the history: it creates no work dir, writes no
    plan file and executes no procedure, and it does save the history
    record of the update, as its first step. *)
Theorem dry_run_touches_only_the_history
    (stamp : string) (w : World) (plan : UpdatePlan) (uuid : option string)
    (h : trace) :
  exists t r o,
    execUpdatePlan stamp w plan true uuid h
    = (h ++ (SaveHistory (plan_changes plan) (givenUuid uuid), r) :: t, o)
    /\ Forall (fun ev => isHistory (fst ev) = true) t
    /\ (r = None -> exists r', t = [(UpdateHistory false, r')]
                               /\ o = Called (Passed <$> r')).
Proof.
  unfold execUpdatePlan, createWrkDir, savePlan, saveBeginningToHistory.
  rewrite ask_appends. destruct (w h (SaveHistory (plan_changes plan) (givenUuid uuid))) as [err|] eqn:E.
  - simpl. exists [], (Some err), (Threw "TypeError: Cannot set property 'error' of undefined").
    split; [reflexivity|]. split; [constructor | discriminate].
  - unfold finish. rewrite ask_appends.
    match goal with
    | |- context [match w ?a ?b with _ => _ end] => destruct (w a b) as [e2|] eqn:E2
    end.
    + exists [(UpdateHistory false, Some e2)], None, (Called (Some (Passed e2))).
      rewrite <- app_assoc. split; [reflexivity|].
      split; [repeat constructor|]. intros _. exists (Some e2). split; reflexivity.
    + exists [(UpdateHistory false, None)], None, (Called None).
      rewrite <- app_assoc. split; [reflexivity|].
      split; [repeat constructor|]. intros _. exists None. split; reflexivity.
Qed.

(** An event that is no failed preparation step. *)
Definition harmless (ev : event) : Prop :=
  snd ev = None \/ isPreparation (fst ev) = false.

Lemma harmless_no_failure (t : trace) :
  Forall harmless t ->
  ~ Exists (fun ev => isPreparation (fst ev) = true /\ failed ev) t.
Proof.
  intros Hall Hex. apply List.Exists_exists in Hex as (ev & Hin & Hp & Hf).
  destruct (proj1 (List.Forall_forall _ _) Hall ev Hin) as [H|H].
  - exact (Hf H).
  - rewrite H in Hp. discriminate.
Qed.

Lemma forEachProc_harmless stamp w procs h :
  exists t e,
    forEachProc stamp w procs h = (h ++ t, e)
    /\ Forall harmless t
    /\ forall message cause, e <> Some (Internal message cause).
Proof.
  destruct (forEachProc_run stamp w procs h) as (t & e & done & E & Hmap & _ & _ & Hsome).
  exists t, e. split; [exact E|]. split.
  - apply List.Forall_forall. intros ev Hev. right.
    assert (Hin : In (fst ev) (map fst t)) by (apply in_map; exact Hev).
    rewrite Hmap in Hin. apply in_map_iff in Hin as (p & <- & _). reflexivity.
  - intros message cause He. destruct (Hsome _ He) as (_ & _ & err & _ & _ & Hf).
    discriminate.
Qed.

(** X23: A failure in the preparation never reaches the callback: when the
    work dir cannot be created, the plan file cannot be written or the
    history record cannot be saved, the final callback of the pipeline
    sets [error] on a history record that is not there, and execUpdatePlan
    ends in a TypeError, having executed no procedure and updated no
    history. *)
Theorem failed_preparation_ends_in_a_TypeError
    (stamp : string) (w : World) (plan : UpdatePlan) (dryRun : bool)
    (uuid : option string) (h : trace) :
  exists t o,
    execUpdatePlan stamp w plan dryRun uuid h = (h ++ t, o)
    /\ (Exists (fun ev => isPreparation (fst ev) = true /\ failed ev) t ->
        o = Threw "TypeError: Cannot set property 'error' of undefined"
        /\ Forall (fun ev => isPreparation (fst ev) = true) t)
    /\ (forall message cause, o <> Called (Some (Internal message cause))).
Proof.
  assert (Hgo : forall (pre : trace),
             Forall harmless pre ->
             Forall (fun ev => isPreparation (fst ev) = true) pre ->
             exists t' o',
               (let '(h3, e3, hist) := saveBeginningToHistory w plan uuid (h ++ pre) in
                match e3 with
                | Some e => finish w hist (Some e) h3
                | None =>
                    if dryRun then finish w hist None h3
                    else match plan_procs plan with
                         | None => (h3, Threw "vasync.forEachPipeline: inputs is undefined")
                         | Some procs =>
                             let '(h4, e4) := forEachProc stamp w procs h3 in
                             finish w hist e4 h4
                         end
                end) = (h ++ t', o')
               /\ (Exists (fun ev => isPreparation (fst ev) = true /\ failed ev) t' ->
                   o' = Threw "TypeError: Cannot set property 'error' of undefined"
                   /\ Forall (fun ev => isPreparation (fst ev) = true) t')
               /\ (forall message cause, o' <> Called (Some (Internal message cause)))).
  { intros pre Hok Hpre. unfold saveBeginningToHistory. rewrite ask_appends.
    match goal with
    | |- context [match w ?a ?b with _ => _ end] => destruct (w a b) as [err|] eqn:E
    end.
    { cbn [finish]. rewrite <- ?app_assoc. eexists _, _. split; [reflexivity|].
      split; [|discriminate]. intros _. split; [reflexivity|].
      apply Forall_app. split; [exact Hpre | repeat constructor]. }
    destruct dryRun.
    { unfold finish. rewrite ask_appends.
      match goal with
      | |- context [match w ?a ?b with _ => _ end] => destruct (w a b) as [e2|]
      end; rewrite <- ?app_assoc; eexists _, _; (split; [reflexivity|]);
        (split; [|discriminate]); intros Hex; exfalso; revert Hex;
        apply harmless_no_failure;
        (apply Forall_app; split; [exact Hok|]);
        (constructor; [left; reflexivity|]); (constructor; [right; reflexivity|]);
        constructor. }
    destruct (plan_procs plan) as [procs|].
    2:{ rewrite <- ?app_assoc. eexists _, _. split; [reflexivity|].
        split; [|discriminate]. intros Hex. exfalso. revert Hex.
        apply harmless_no_failure. apply Forall_app. split; [exact Hok|].
        constructor; [left; reflexivity | constructor]. }
    match goal with
    | |- context [forEachProc stamp w procs ?a] =>
        destruct (forEachProc_harmless stamp w procs a) as (t & e & -> & Ht & He)
    end.
    assert (Hall : forall u r,
               Forall harmless
                 (pre ++ [(SaveHistory (plan_changes plan) (givenUuid uuid), None)]
                      ++ t ++ [(UpdateHistory u, r)])).
    { intros u r. apply Forall_app. split; [exact Hok|].
      constructor; [left; reflexivity|]. apply Forall_app. split; [exact Ht|].
      constructor; [right; reflexivity | constructor]. }
    unfold finish. destruct e as [f|].
    - rewrite ask_appends. rewrite <- ?app_assoc. eexists _, _. split; [reflexivity|].
      split.
      + intros Hex. exfalso. revert Hex. apply harmless_no_failure.
        exact (Hall true _).
      + intros message cause [= Hf]. exact (He message cause (f_equal Some Hf)).
    - rewrite ask_appends.
      match goal with
      | |- context [match w ?a ?b with _ => _ end] => destruct (w a b) as [e2|] eqn:E2
      end; rewrite <- ?app_assoc; eexists _, _; (split; [reflexivity|]);
        (split; [|discriminate]); intros Hex; exfalso; revert Hex;
        apply harmless_no_failure; exact (Hall false _). }
  unfold execUpdatePlan, createWrkDir, savePlan. destruct dryRun.
  { specialize (Hgo [] (List.Forall_nil _) (List.Forall_nil _)). rewrite app_nil_r in Hgo. exact Hgo. }
  rewrite ask_appends. destruct (w h (Mkdirp (wrkDir stamp))) as [err|] eqn:E1.
  { cbn [finish]. eexists _, _. split; [reflexivity|]. split; [|discriminate].
    intros _. split; [reflexivity | repeat constructor]. }
  rewrite ask_appends.
  match goal with
  | |- context [match w ?a ?b with _ => _ end] => destruct (w a b) as [err|] eqn:E2
  end.
  { cbn [finish]. rewrite <- ?app_assoc. eexists _, _. split; [reflexivity|].
    split; [|discriminate]. intros _. split; [reflexivity | repeat constructor]. }
  rewrite <- ?app_assoc.
  apply (Hgo [(Mkdirp (wrkDir stamp), None);
              (WriteFile (planFile stamp) (PlanFile.serialize plan), None)]).
  - constructor; [left; reflexivity|]. constructor; [left; reflexivity | constructor].
  - repeat constructor.
Qed.


Lemma executed_all stamp (t : trace) (done : list Procedure) :
  map fst t = map (fun p => Execute p (wrkDir stamp)) done ->
  omap executed t = done.
Proof.
  revert done. induction t as [|[c r] t IH]; intros [|p done]; simpl; try discriminate.
  - reflexivity.
  - intros [= -> H]. cbn. f_equal. exact (IH _ H).
Qed.

Lemma last_two {A} (l : list A) (x y : A) : last (l ++ [x; y]) = Some y.
Proof.
  change (last (l ++ [x] ++ [y]) = Some y). rewrite app_assoc. apply last_snoc.
Qed.

Lemma executed_none (t : trace) :
  Forall (fun ev => executed ev = None) t -> omap executed t = [].
Proof.
  induction 1 as [|ev t Hev _ IH]; simpl; [reflexivity|]. rewrite Hev. exact IH.
Qed.

(** X24: The procedures of the plan are executed in the plan's order, each in
    the work dir, one after the other: those executed are an initial part
    of [plan.procs], all of it when the callback gets no error; a
    procedure that fails is the last one executed, and its error is the
    one the callback gets, after the history record was updated with it. *)
Theorem procedures_are_executed_in_plan_order
    (stamp : string) (w : World) (plan : UpdatePlan) (uuid : option string)
    (h : trace) (procs : list Procedure) :
  plan_procs plan = Some procs ->
  exists t o,
    execUpdatePlan stamp w plan false uuid h = (h ++ t, o)
    /\ omap executed t `prefix_of` procs
    /\ Forall (fun ev => forall p dir, fst ev = Execute p dir -> dir = wrkDir stamp) t
    /\ (o = Called None -> omap executed t = procs)
    /\ (forall p dir err,
          In (Execute p dir, Some err) t ->
          o = Called (Some (Passed err))
          /\ last (omap executed t) = Some p
          /\ last (map fst t) = Some (UpdateHistory true)).
Proof.
  intros Hprocs.
  assert (Hstop : forall (t : trace) (o : outcome),
             Forall (fun ev => executed ev = None) t ->
             o <> Called None ->
             omap executed t `prefix_of` procs
             /\ Forall (fun ev => forall p dir, fst ev = Execute p dir -> dir = wrkDir stamp) t
             /\ (o = Called None -> omap executed t = procs)
             /\ (forall p dir err,
                   In (Execute p dir, Some err) t ->
                   o = Called (Some (Passed err))
                   /\ last (omap executed t) = Some p
                   /\ last (map fst t) = Some (UpdateHistory true))).
  { intros t o Hall Ho. rewrite (executed_none t Hall).
    split; [apply prefix_nil|]. split.
    - apply List.Forall_forall. intros ev Hev p dir Hf.
      pose proof (proj1 (List.Forall_forall _ _) Hall ev Hev) as Hn.
      unfold executed in Hn. rewrite Hf in Hn. discriminate.
    - split; [intros; contradiction|]. intros p dir err Hin.
      pose proof (proj1 (List.Forall_forall _ _) Hall _ Hin) as Hn. discriminate. }
  unfold execUpdatePlan, createWrkDir, savePlan, saveBeginningToHistory.
  rewrite Hprocs. rewrite ask_appends.
  destruct (w h (Mkdirp (wrkDir stamp))) as [err|] eqn:E1.
  { cbn [finish]. eexists _, _. split; [reflexivity|].
    apply Hstop; [repeat constructor | discriminate]. }
  rewrite ask_appends.
  match goal with
  | |- context [match w ?a ?b with _ => _ end] => destruct (w a b) as [err|] eqn:E2
  end.
  { cbn [finish]. rewrite <- ?app_assoc. eexists _, _. split; [reflexivity|].
    apply Hstop; [repeat constructor | discriminate]. }
  rewrite ask_appends.
  match goal with
  | |- context [match w ?a ?b with _ => _ end] => destruct (w a b) as [err|] eqn:E3
  end.
  { cbn [finish]. rewrite <- ?app_assoc. eexists _, _. split; [reflexivity|].
    apply Hstop; [repeat constructor | discriminate]. }
  match goal with
  | |- context [forEachProc stamp w procs ?a] =>
      destruct (forEachProc_run stamp w procs a)
        as (t & e & done & -> & Hmap & Hpre & Hnone & Hsome)
  end.
  pose proof (executed_all stamp t done Hmap) as Hdone.
  assert (Hom : forall u r,
            omap executed
              ((Mkdirp (wrkDir stamp), None)
               :: (WriteFile (planFile stamp) (PlanFile.serialize plan), None)
               :: (SaveHistory (plan_changes plan) (givenUuid uuid), None)
               :: t ++ [(UpdateHistory u, r)]) = done).
  { intros u r.
    change (omap executed
              ([(Mkdirp (wrkDir stamp), None);
                (WriteFile (planFile stamp) (PlanFile.serialize plan), None);
                (SaveHistory (plan_changes plan) (givenUuid uuid), None)]
               ++ t ++ [(UpdateHistory u, r)]) = done).
    rewrite !omap_app, Hdone. simpl. apply app_nil_r. }
  assert (Hdir : forall u r,
            Forall (fun ev => forall p dir, fst ev = Execute p dir -> dir = wrkDir stamp)
              ((Mkdirp (wrkDir stamp), None)
               :: (WriteFile (planFile stamp) (PlanFile.serialize plan), None)
               :: (SaveHistory (plan_changes plan) (givenUuid uuid), None)
               :: t ++ [(UpdateHistory u, r)])).
  { intros u r. do 3 (constructor; [intros p dir Hf; discriminate|]).
    apply Forall_app. split; [|constructor; [intros p dir Hf; discriminate | constructor]].
    apply List.Forall_forall. intros ev Hev p dir Hf.
    assert (Hin : In (fst ev) (map fst t)) by (apply in_map; exact Hev).
    rewrite Hmap, Hf in Hin. apply in_map_iff in Hin as (q & [= _ <-] & _). reflexivity. }
  unfold finish. destruct e as [f|].
  - destruct (Hsome f eq_refl) as (pre & q & err & -> & Hall & ->).
    rewrite ask_appends, <- ?app_assoc. eexists _, _. split; [reflexivity|].
    cbn [app].
    match goal with
    | |- context [(UpdateHistory true, ?r)] => specialize (Hom true r); specialize (Hdir true r)
    end.
    rewrite <- ?app_assoc in Hom, Hdir. cbn [app] in Hom, Hdir.
    match goal with
    | |- context [omap executed ?L] =>
        assert (HL : omap executed L = done) by exact Hom; rewrite !HL; clear HL
    end.
    split; [exact Hpre|]. split; [exact Hdir|]. split; [discriminate|].
    intros p dir err' Hin.
    assert (Hlast : last done = Some q).
    { rewrite map_app in Hmap. simpl in Hmap.
      assert (Hl : last (map (fun p => Execute p (wrkDir stamp)) done)
                   = Some (Execute q (wrkDir stamp)))
        by (rewrite <- Hmap; apply last_snoc).
      change (map ?g done) with (g <$> done) in Hl. rewrite fmap_last in Hl.
      destruct (last done) as [q'|]; [|discriminate]. simpl in Hl.
      injection Hl as ->. reflexivity. }
    assert (Hthis : p = q /\ err' = err).
    { destruct Hin as [[=]|[[=]|[[=]|Hin]]].
      apply in_app_iff in Hin as [Hin|Hin].
      - pose proof (proj1 (List.Forall_forall _ _) Hall _ Hin) as Hn. discriminate.
      - destruct Hin as [[= -> _ ->]|[[=]|[]]]. split; reflexivity. }
    destruct Hthis as [-> ->]. split; [reflexivity|]. split; [exact Hlast|].
    rewrite !map_cons, !map_app.
    exact (last_two (_ :: _ :: _ :: map fst pre) _ _).
  - destruct (Hnone eq_refl) as [-> Hall]. rewrite ask_appends.
    match goal with
    | |- context [match w ?a ?b with _ => _ end] => destruct (w a b) as [e2|] eqn:E4
    end; rewrite <- ?app_assoc; eexists _, _; (split; [reflexivity|]); cbn [app];
      match goal with
      | |- context [(UpdateHistory false, ?r)] =>
          specialize (Hom false r); specialize (Hdir false r)
      end;
      match goal with
      | |- context [omap executed ?L] =>
          assert (HL : omap executed L = procs) by exact Hom; rewrite !HL; clear HL
      end.
    + split; [reflexivity|]. split; [exact Hdir|]. split; [discriminate|].
      intros p dir err' Hin. exfalso.
      destruct Hin as [[=]|[[=]|[[=]|Hin]]].
      apply in_app_iff in Hin as [Hin|Hin].
      * pose proof (proj1 (List.Forall_forall _ _) Hall _ Hin) as Hn. discriminate.
      * destruct Hin as [[=]|[]].
    + split; [reflexivity|]. split; [exact Hdir|]. split; [reflexivity|].
      intros p dir err' Hin. exfalso.
      destruct Hin as [[=]|[[=]|[[=]|Hin]]].
      apply in_app_iff in Hin as [Hin|Hin].
      * pose proof (proj1 (List.Forall_forall _ _) Hall _ Hin) as Hn. discriminate.
      * destruct Hin as [[=]|[]].
Qed.


(** A plan of two procedures, and a system on which the second fails. *)
Definition twoProcedures : UpdatePlan :=
  Planner.set_procs Scenario.cnapiAndVmapi
    [DownloadImages [Scenario.imageB "cnapi"];
     UpdateStatelessServicesV1 [Scenario.update "cnapi" (Scenario.imageB "cnapi")]].

Definition secondFails : World :=
  fun _ c =>
    match c with
    | Execute (UpdateStatelessServicesV1 _) _ => Some "update failed"
    | _ => None
    end.

Lemma procedures_are_executed_in_plan_order_witness :
  exists t o,
    execUpdatePlan "20141001T000000Z" secondFails twoProcedures false None []
    = ([] ++ t, o)
    /\ omap executed t
       `prefix_of` [DownloadImages [Scenario.imageB "cnapi"];
                    UpdateStatelessServicesV1
                      [Scenario.update "cnapi" (Scenario.imageB "cnapi")]]
    /\ Forall (fun ev => forall p dir, fst ev = Execute p dir ->
                         dir = wrkDir "20141001T000000Z") t
    /\ (o = Called None ->
        omap executed t
        = [DownloadImages [Scenario.imageB "cnapi"];
           UpdateStatelessServicesV1
             [Scenario.update "cnapi" (Scenario.imageB "cnapi")]])
    /\ (forall p dir err,
          In (Execute p dir, Some err) t ->
          o = Called (Some (Passed err))
          /\ last (omap executed t) = Some p
          /\ last (map fst t) = Some (UpdateHistory true)).
Proof.
  apply (procedures_are_executed_in_plan_order "20141001T000000Z" secondFails
           twoProcedures None []).
  reflexivity.
Defined.

(** The failed procedure's error reaches the callback; a work dir that
    cannot be created does not. *)
Example failed_procedure_is_reported :
  snd (execUpdatePlan "20141001T000000Z" secondFails twoProcedures false None [])
  = Called (Some (Passed "update failed"))
  /\ snd (execUpdatePlan "20141001T000000Z"
            (fun _ c => match c with Mkdirp _ => Some "EACCES" | _ => None end)
            twoProcedures false None [])
     = Threw "TypeError: Cannot set property 'error' of undefined".
Proof. split; vm_compute; reflexivity. Qed.

End ExecFacts.

Module RequestFacts.

Import Js PlanFile Request.

(** *** Reading and setting keys *)

Lemma field_In k (c : raw) v : field k c = Some v -> In k (map fst c).
Proof.
  induction c as [|[k' x] c IH]; simpl; [discriminate|].
  destruct (String.eqb k k') eqn:E.
  - apply String.eqb_eq in E. intros _. left. symmetry. exact E.
  - intros H. right. exact (IH H).
Qed.

Lemma field_absent k (c : raw) : ~ In k (map fst c) -> field k c = None.
Proof.
  intros H. destruct (field k c) eqn:E; [|reflexivity].
  destruct (H (field_In _ _ _ E)).
Qed.

Lemma field_assign k v (c : raw) : field k (assign k v c) = Some v.
Proof.
  induction c as [|[k' x] c IH]; simpl.
  - rewrite String.eqb_refl. reflexivity.
  - destruct (String.eqb k' k) eqn:E; simpl.
    + rewrite String.eqb_sym, E. reflexivity.
    + rewrite String.eqb_sym, E. exact IH.
Qed.

Lemma field_assign_other k k' v (c : raw) :
  k <> k' -> field k' (assign k v c) = field k' c.
Proof.
  intros Hne. induction c as [|[k0 x] c IH]; simpl.
  - destruct (String.eqb k' k) eqn:E; [|reflexivity].
    apply String.eqb_eq in E. subst. contradiction.
  - destruct (String.eqb k0 k) eqn:E; simpl.
    + apply String.eqb_eq in E. subst k0.
      destruct (String.eqb k' k) eqn:E'; [|reflexivity].
      apply String.eqb_eq in E'. subst. contradiction.
    + rewrite IH. reflexivity.
Qed.

Lemma assign_same k v (c : raw) : field k c = Some v -> assign k v c = c.
Proof.
  induction c as [|[k' x] c IH]; simpl; [discriminate|].
  rewrite (String.eqb_sym k k').
  destruct (String.eqb k' k) eqn:E.
  - intros [= ->]. reflexivity.
  - intros H. rewrite (IH H). reflexivity.
Qed.

Lemma assign_keys k v (c : raw) x :
  In x (map fst (assign k v c)) <-> x = k \/ In x (map fst c).
Proof.
  induction c as [|[k' y] c IH]; simpl.
  - intuition congruence.
  - destruct (String.eqb k' k) eqn:E; simpl.
    + apply String.eqb_eq in E. subst. intuition congruence.
    + rewrite IH. intuition congruence.
Qed.

(** *** What a change that passes looks like *)

(** Every key of the change is one of [allowed]. *)
Definition keysWithin (allowed : list string) (c : raw) : Prop :=
  Forall (fun k => In k allowed) (map fst c).

(** The key holds the string [s]. *)
Definition holds (key : string) (c : raw) (s : string) : Prop :=
  field key c = Some (JStr s).

(** The seven forms of a change that validateChanges lets through. *)
Inductive shape (c : raw) : Prop :=
| createInstance service server :
    holds "type" c "create" -> holds "service" c service -> holds "server" c server ->
    keysWithin ["type"; "server"; "service"; "image"] c -> shape c
| deleteOnServer service server :
    holds "type" c "delete" -> holds "service" c service -> holds "server" c server ->
    service <> "" -> server <> "" ->
    keysWithin ["type"; "server"; "service"; "image"] c -> shape c
| deleteInstance instance :
    holds "type" c "delete" -> holds "instance" c instance ->
    keysWithin ["type"; "instance"; "image"] c -> shape c
| deleteService service :
    holds "type" c "delete-service" -> holds "service" c service ->
    keysWithin ["type"; "service"] c -> shape c
| updateOnServer service server :
    holds "type" c "update-instance" ->
    holds "service" c service -> holds "server" c server ->
    service <> "" -> server <> "" ->
    keysWithin ["type"; "server"; "service"; "image"] c -> shape c
| updateInstance instance :
    holds "type" c "update-instance" -> holds "instance" c instance ->
    instance <> "" ->
    keysWithin ["type"; "instance"; "image"] c -> shape c
| updateService service :
    holds "type" c "update-service" -> holds "service" c service ->
    service <> "" ->
    keysWithin ["type"; "service"; "image"] c -> shape c.

(** An image that counts is named by a string. *)
Definition imageOk (c : raw) : Prop :=
  truthyValue (field "image" c) = true -> isString (field "image" c) = true.

Lemma validateString_nil v msg :
  validateString v msg = [] <-> exists s, v = Some (JStr s).
Proof.
  unfold validateString. destruct v as [[| | |s| |]|]; simpl; split;
    try discriminate; try (intros [s' [=]]); eauto.
Qed.

Lemma validateKeys_nil allowed c repr :
  validateKeys allowed c repr = [] <-> keysWithin allowed c.
Proof.
  unfold validateKeys, keysWithin.
  destruct (List.filter _ (map fst c)) as [|k l] eqn:E.
  - split; [intros _|reflexivity]. apply List.Forall_forall. intros k Hk.
    destruct (existsb (String.eqb k) allowed) eqn:Hex.
    + apply existsb_exists in Hex as (a & Ha & Hka). apply String.eqb_eq in Hka.
      subst. exact Ha.
    + assert (In k (List.filter (fun k => negb (existsb (String.eqb k) allowed))
                                (map fst c))) as Hin
        by (apply List.filter_In; split; [exact Hk | rewrite Hex; reflexivity]).
      rewrite E in Hin. destruct Hin.
  - split; [discriminate|]. intros Hall. exfalso.
    assert (In k (List.filter (fun k => negb (existsb (String.eqb k) allowed))
                              (map fst c))) as Hin by (rewrite E; left; reflexivity).
    apply List.filter_In in Hin as [Hin Hneg].
    apply negb_true_iff in Hneg.
    pose proof (proj1 (List.Forall_forall _ _) Hall k Hin) as Ha.
    assert (existsb (String.eqb k) allowed = true) as Hex
      by (apply existsb_exists; exists k; split; [exact Ha | apply String.eqb_refl]).
    congruence.
Qed.

Lemma truthy_holds key c s :
  holds key c s -> (truthyValue (field key c) = true <-> s <> "").
Proof.
  unfold holds. intros ->. simpl. unfold truthy. rewrite negb_true_iff.
  split; [intros H; apply String.eqb_neq; exact H | intros H; apply String.eqb_neq; exact H].
Qed.

Lemma equals_holds key c s t :
  holds key c s -> equals (field key c) t = String.eqb s t.
Proof. unfold holds. intros ->. reflexivity. Qed.

Lemma equals_true v t : equals v t = true <-> v = Some (JStr t).
Proof.
  destruct v as [[| | |s| |]|]; simpl; split; try discriminate.
  - intros H. apply String.eqb_eq in H. subst. reflexivity.
  - intros [= ->]. apply String.eqb_refl.
Qed.


Lemma named_nil key (c : raw) repr :
  validateString (field key c)
      (String dquote EmptyString +:+ key +:+ String dquote EmptyString +:+ " in " +:+ repr)
  = [] ->
  exists s, holds key c s.
Proof. intros H. apply validateString_nil in H. exact H. Qed.

Lemma image_nil (c : raw) repr :
  (if truthyValue (field "image" c)
   then validateString (field "image" c)
          (String dquote EmptyString +:+ "image" +:+ String dquote EmptyString
             +:+ " in " +:+ repr)
   else []) = [] ->
  imageOk c.
Proof.
  unfold imageOk. intros H Ht. rewrite Ht in H.
  apply validateString_nil in H as [s ->]. reflexivity.
Qed.

Lemma imageOk_assign (c : raw) v : imageOk c -> imageOk (assign "type" v c).
Proof.
  unfold imageOk. rewrite field_assign_other by discriminate. tauto.
Qed.

Lemma holds_assign key (c : raw) s t :
  key <> "type" -> holds key c s -> holds key (assign "type" (JStr t) c) s.
Proof.
  unfold holds. intros Hne H. rewrite field_assign_other by congruence. exact H.
Qed.

(** What the implied type does to a change that raises no error. *)
Lemma impliedType_nil t (c : raw) repr c' :
  impliedType t c repr = ([], c') ->
  c' = assign "type" (JStr t) c
  /\ holds "type" c' t
  /\ (c' = c \/ truthyValue (field "type" c) = false).
Proof.
  unfold impliedType.
  destruct (truthyValue (field "type" c)) eqn:Ht; simpl.
  - destruct (equals (field "type" c) t) eqn:He; simpl; [|discriminate].
    intros [= <-]. split; [reflexivity|]. split; [apply field_assign|].
    left. apply assign_same. apply equals_true. exact He.
  - intros [= <-]. split; [reflexivity|]. split; [apply field_assign|].
    right. reflexivity.
Qed.

Lemma impliedType_errs t (c : raw) repr errs c' :
  impliedType t c repr = (errs, c') -> errs = [] \/ exists e, errs = [e].
Proof.
  unfold impliedType. destruct (_ && _); intros [= <- _]; eauto.
Qed.

(** A change that raises no error in validateChanges has one of the seven
    forms once the pass is over, and is the change it was but for its
    type. *)
Lemma validateChange_nil (c c' : raw) :
  validateChange c = ([], c') ->
  shape c' /\ imageOk c'
  /\ (c' = c \/ (truthyValue (field "type" c) = false
                 /\ exists t, c' = assign "type" (JStr t) c)).
Proof.
  unfold validateChange. set (repr := stringify (JObj c)).
  destruct (equals (field "type" c) "create") eqn:Hcreate.
  { intros [= H <-]. apply equals_true in Hcreate.
    apply app_eq_nil in H as [Hi H]. apply app_eq_nil in H as [Hs H].
    apply app_eq_nil in H as [Hv Hk].
    apply named_nil in Hs as [s Hs]. apply named_nil in Hv as [v Hv].
    apply validateKeys_nil in Hk.
    split; [exact (createInstance c s v Hcreate Hs Hv Hk)|].
    split; [exact (image_nil _ _ Hi) | left; reflexivity]. }
  destruct (equals (field "type" c) "delete") eqn:Hdelete; simpl.
  { destruct (truthyValue (field "service" c) && truthyValue (field "server" c)) eqn:Hboth.
    - intros [= H <-]. apply equals_true in Hdelete.
      apply andb_true_iff in Hboth as [Hts Htv].
      apply app_eq_nil in H as [Hi H]. apply app_eq_nil in H as [Hs H].
      apply app_eq_nil in H as [Hv Hk].
      apply named_nil in Hs as [s Hs]. apply named_nil in Hv as [v Hv].
      apply validateKeys_nil in Hk.
      split; [|split; [exact (image_nil _ _ Hi) | left; reflexivity]].
      apply (deleteOnServer c s v Hdelete Hs Hv);
        [apply (truthy_holds _ _ _ Hs); exact Hts
        | apply (truthy_holds _ _ _ Hv); exact Htv | exact Hk].
    - intros [= H <-]. apply equals_true in Hdelete.
      apply app_eq_nil in H as [Hi H]. apply app_eq_nil in H as [Hs Hk].
      apply named_nil in Hs as [i Hs]. apply validateKeys_nil in Hk.
      split; [exact (deleteInstance c i Hdelete Hs Hk)|].
      split; [exact (image_nil _ _ Hi) | left; reflexivity]. }
  destruct (equals (field "type" c) "delete-service") eqn:Hds.
  { intros [= H <-]. apply equals_true in Hds.
    apply app_eq_nil in H as [Hi H]. apply app_eq_nil in H as [Hs Hk].
    apply named_nil in Hs as [s Hs]. apply validateKeys_nil in Hk.
    split; [exact (deleteService c s Hds Hs Hk)|].
    split; [exact (image_nil _ _ Hi) | left; reflexivity]. }
  assert (Hrel : forall t c'',
             c'' = assign "type" (JStr t) c ->
             c'' = c \/ truthyValue (field "type" c) = false ->
             c'' = c \/ (truthyValue (field "type" c) = false
                         /\ exists t, c'' = assign "type" (JStr t) c)).
  { intros t c'' Ha [H|H]; [left; exact H | right; split; [exact H | eauto]]. }
  destruct (truthyValue (field "service" c) && truthyValue (field "server" c)) eqn:Hboth.
  { destruct (impliedType "update-instance" c repr) as [errs c1] eqn:Himp.
    intros [= H <-]. apply andb_true_iff in Hboth as [Hts Htv].
    apply app_eq_nil in H as [Hi H]. apply app_eq_nil in H as [He H]. subst errs.
    apply app_eq_nil in H as [Hs H]. apply app_eq_nil in H as [Hv Hk].
    apply impliedType_nil in Himp as (Ha & Ht & Hor).
    apply named_nil in Hs as [s Hs]. apply named_nil in Hv as [v Hv].
    apply validateKeys_nil in Hk.
    split; [|split; [rewrite Ha; apply imageOk_assign; exact (image_nil _ _ Hi)
                    | exact (Hrel _ _ Ha Hor)]].
    apply (updateOnServer c1 s v Ht);
      [rewrite Ha; apply holds_assign; [discriminate | exact Hs]
      | rewrite Ha; apply holds_assign; [discriminate | exact Hv]
      | apply (truthy_holds _ _ _ Hs); exact Hts
      | apply (truthy_holds _ _ _ Hv); exact Htv | exact Hk]. }
  destruct (truthyValue (field "instance" c)) eqn:Hinst.
  { destruct (impliedType "update-instance" c repr) as [errs c1] eqn:Himp.
    intros [= H <-].
    apply app_eq_nil in H as [Hi H]. apply app_eq_nil in H as [He H]. subst errs.
    apply app_eq_nil in H as [Hs Hk].
    apply impliedType_nil in Himp as (Ha & Ht & Hor).
    apply named_nil in Hs as [i Hs]. apply validateKeys_nil in Hk.
    split; [|split; [rewrite Ha; apply imageOk_assign; exact (image_nil _ _ Hi)
                    | exact (Hrel _ _ Ha Hor)]].
    apply (updateInstance c1 i Ht);
      [rewrite Ha; apply holds_assign; [discriminate | exact Hs]
      | apply (truthy_holds _ _ _ Hs); exact Hinst | exact Hk]. }
  destruct (truthyValue (field "service" c)) eqn:Hsvc.
  { destruct (impliedType "update-service" c repr) as [errs c1] eqn:Himp.
    intros [= H <-].
    apply app_eq_nil in H as [Hi H]. apply app_eq_nil in H as [He H]. subst errs.
    apply app_eq_nil in H as [Hs Hk].
    apply impliedType_nil in Himp as (Ha & Ht & Hor).
    apply named_nil in Hs as [s Hs]. apply validateKeys_nil in Hk.
    split; [|split; [rewrite Ha; apply imageOk_assign; exact (image_nil _ _ Hi)
                    | exact (Hrel _ _ Ha Hor)]].
    apply (updateService c1 s Ht);
      [rewrite Ha; apply holds_assign; [discriminate | exact Hs]
      | apply (truthy_holds _ _ _ Hs); exact Hsvc | exact Hk]. }
  intros [= H _]. apply app_eq_nil in H as [_ H]. discriminate.
Qed.


Lemma keysWithin_absent allowed (c : raw) k :
  keysWithin allowed c -> ~ In k allowed -> field k c = None.
Proof.
  intros Hk Hn. apply field_absent. intros Hin.
  exact (Hn (proj1 (List.Forall_forall _ _) Hk k Hin)).
Qed.

Lemma named_holds key (c : raw) s msg :
  holds key c s -> validateString (field key c) msg = [].
Proof. intros H. apply validateString_nil. exists s. exact H. Qed.

Lemma image_holds (c : raw) msg :
  imageOk c ->
  (if truthyValue (field "image" c) then validateString (field "image" c) msg
   else []) = [].
Proof.
  unfold imageOk. intros H. destruct (truthyValue (field "image" c)); [|reflexivity].
  unfold validateString. rewrite (H eq_refl). reflexivity.
Qed.

Lemma impliedType_holds t (c : raw) repr :
  holds "type" c t -> impliedType t c repr = ([], c).
Proof.
  intros H. unfold impliedType.
  rewrite (proj2 (equals_true _ _) H), andb_false_r.
  rewrite (assign_same _ _ _ H). reflexivity.
Qed.

Ltac absent H k :=
  let E := fresh "E" in
  assert (E := keysWithin_absent _ _ k H);
  lapply E; [clear E; intros E; rewrite ?E
            | simpl; intuition discriminate].

(** A change of one of the seven forms raises no error and is left as it
    is. *)
Lemma validateChange_shape (c : raw) :
  shape c -> imageOk c -> validateChange c = ([], c).
Proof.
  intros Hshape Himg. unfold validateChange.
  set (repr := stringify (JObj c)).
  destruct Hshape as [s v Ht Hs Hv Hk | s v Ht Hs Hv Hns Hnv Hk | i Ht Hi Hk
                     | s Ht Hs Hk | s v Ht Hs Hv Hns Hnv Hk | i Ht Hi Hni Hk
                     | s Ht Hs Hns Hk].
  - rewrite (proj2 (equals_true _ _) Ht).
    rewrite (image_holds _ _ Himg), (named_holds _ _ _ _ Hs), (named_holds _ _ _ _ Hv).
    rewrite (proj2 (validateKeys_nil _ _ _) Hk). reflexivity.
  - rewrite !(equals_holds _ _ _ _ Ht). simpl.
    rewrite (proj2 (truthy_holds _ _ _ Hs) Hns), (proj2 (truthy_holds _ _ _ Hv) Hnv).
    simpl.
    rewrite (image_holds _ _ Himg), (named_holds _ _ _ _ Hs), (named_holds _ _ _ _ Hv).
    rewrite (proj2 (validateKeys_nil _ _ _) Hk). reflexivity.
  - rewrite !(equals_holds _ _ _ _ Ht). simpl.
    absent Hk "service". simpl.
    rewrite (image_holds _ _ Himg), (named_holds _ _ _ _ Hi).
    rewrite (proj2 (validateKeys_nil _ _ _) Hk). reflexivity.
  - rewrite !(equals_holds _ _ _ _ Ht). simpl.
    rewrite (image_holds _ _ Himg), (named_holds _ _ _ _ Hs).
    rewrite (proj2 (validateKeys_nil _ _ _) Hk). reflexivity.
  - rewrite !(equals_holds _ _ _ _ Ht). simpl.
    rewrite (proj2 (truthy_holds _ _ _ Hs) Hns), (proj2 (truthy_holds _ _ _ Hv) Hnv).
    simpl. rewrite (impliedType_holds _ _ repr Ht).
    rewrite (image_holds _ _ Himg), (named_holds _ _ _ _ Hs), (named_holds _ _ _ _ Hv).
    rewrite (proj2 (validateKeys_nil _ _ _) Hk). reflexivity.
  - rewrite !(equals_holds _ _ _ _ Ht). simpl.
    absent Hk "service". simpl.
    rewrite (proj2 (truthy_holds _ _ _ Hi) Hni).
    rewrite (impliedType_holds _ _ repr Ht).
    rewrite (image_holds _ _ Himg), (named_holds _ _ _ _ Hi).
    rewrite (proj2 (validateKeys_nil _ _ _) Hk). reflexivity.
  - rewrite !(equals_holds _ _ _ _ Ht). simpl.
    absent Hk "server". absent Hk "instance". rewrite andb_false_r. simpl.
    rewrite (proj2 (truthy_holds _ _ _ Hs) Hns).
    rewrite (impliedType_holds _ _ repr Ht).
    rewrite (image_holds _ _ Himg), (named_holds _ _ _ _ Hs).
    rewrite (proj2 (validateKeys_nil _ _ _) Hk). reflexivity.
Qed.

Lemma concat_nil {A} (ls : list (list A)) :
  concat ls = [] -> Forall (fun l => l = []) ls.
Proof.
  induction ls as [|l ls IH]; simpl; intros H; constructor.
  - apply app_eq_nil in H. tauto.
  - apply IH. apply app_eq_nil in H. tauto.
Qed.

Lemma validateChanges_Ret (cs cs' : list raw) :
  validateChanges cs = Ret cs' <->
  Forall2 (fun c c' => validateChange c = ([], c')) cs cs'.
Proof.
  unfold validateChanges. split.
  - destruct (concat _) as [|e [|e' l]] eqn:E; try discriminate.
    intros [= <-]. apply concat_nil in E.
    induction cs as [|c cs IH]; simpl; constructor.
    + inversion E as [|? ? H1 H2]; subst.
      destruct (validateChange c) as [errs c']. simpl in *. subst. reflexivity.
    + apply IH. inversion E; assumption.
  - intros H.
    assert (concat (map fst (map validateChange cs)) = []
            /\ map snd (map validateChange cs) = cs') as [-> <-]; [|reflexivity].
    induction H as [|c c' cs cs' Hc _ [IH1 IH2]]; simpl; [split; reflexivity|].
    rewrite Hc, IH1, IH2. split; reflexivity.
Qed.

(** Each change that validateChanges lets through, beside the change it
    was given as. *)
Lemma validated_shapes (cs cs' : list raw) :
  validateChanges cs = Ret cs' ->
  Forall2 (fun c c' =>
             shape c' /\ imageOk c'
             /\ (c' = c \/ (truthyValue (field "type" c) = false
                            /\ exists t, c' = assign "type" (JStr t) c)))
          cs cs'.
Proof.
  intros H. apply validateChanges_Ret in H.
  induction H as [|c c' cs cs' Hc _ IH]; constructor; [|exact IH].
  exact (validateChange_nil _ _ Hc).
Qed.



(** X26: Validating once is enough: the changes that validateChanges lets
    through pass it again, unchanged. *)
Theorem validated_changes_pass_again (cs cs' : list raw) :
  validateChanges cs = Ret cs' -> validateChanges cs' = Ret cs'.
Proof.
  intros H. apply validateChanges_Ret in H. apply validateChanges_Ret.
  induction H as [|c c' cs cs' Hc _ IH]; constructor; [|exact IH].
  destruct (validateChange_nil _ _ Hc) as (Hs & Hi & _).
  exact (validateChange_shape _ Hs Hi).
Qed.

Lemma validated_changes_pass_again_witness :
  let cs' := [[("service", JStr "vmapi"); ("type", JStr "update-service")]] in
  validateChanges cs' = Ret cs'.
Proof.
  intros cs'.
  apply (validated_changes_pass_again [[("service", JStr "vmapi")]] cs').
  reflexivity.
Defined.

End RequestFacts.

Module NormalizeFacts.

Import Js PlanFile Request RequestFacts Planner Normalize.

(** The five keys a validated change may have. *)
Lemma shape_keys (c : raw) :
  shape c -> keysWithin ["type"; "server"; "service"; "image"; "instance"] c.
Proof.
  intros H.
  assert (Hsub : forall allowed,
             (forall k, In k allowed ->
                        In k ["type"; "server"; "service"; "image"; "instance"]) ->
             keysWithin allowed c ->
             keysWithin ["type"; "server"; "service"; "image"; "instance"] c).
  { intros allowed Hin Hk. unfold keysWithin in *.
    eapply List.Forall_impl; [|exact Hk]. intros k Hk'. exact (Hin k Hk'). }
  destruct H as [? ? _ _ _ Hk | ? ? _ _ _ _ _ Hk | ? _ _ Hk | ? _ _ Hk
                | ? ? _ _ _ _ _ Hk | ? _ _ _ Hk | ? _ _ _ Hk];
    (eapply Hsub; [|exact Hk]); simpl; intuition.
Qed.

(** The service of a validated change is a string, or there is none. *)
Lemma shape_service (c : raw) :
  shape c -> field "service" c = None \/ exists s, holds "service" c s.
Proof.
  intros H.
  destruct H as [s ? _ Hs _ _ | s ? _ Hs _ _ _ _ | ? _ _ Hk | s _ Hs _
                | s ? _ Hs _ _ _ _ | ? _ _ _ Hk | s _ Hs _ _];
    try (right; exists s; exact Hs);
    left; apply (keysWithin_absent _ _ _ Hk); simpl; intuition discriminate.
Qed.

Lemma shape_server (c : raw) :
  shape c -> field "server" c = None \/ exists s, holds "server" c s.
Proof.
  intros H.
  destruct H as [? s _ _ Hs _ | ? s _ _ Hs _ _ _ | ? _ _ Hk | ? _ _ Hk
                | ? s _ _ Hs _ _ _ | ? _ _ _ Hk | ? _ _ _ Hk];
    try (right; exists s; exact Hs);
    left; apply (keysWithin_absent _ _ _ Hk); simpl; intuition discriminate.
Qed.

(** What getCandidateImages throws before it returns. *)
Definition candidateExceptions : list string :=
  ["TypeError: Cannot read property 'image_uuid' of undefined";
   "AssertionError: service object has no params.image_uuid";
   "AssertionError: opts.service (object) is required"].

Section Resolved.

Variable svcs : list Service.
Variable servers : list Server.
Variable insts : list Instance.
Variable imgapi updates : string -> lookup.
Variable listImages : option string -> option string -> listing.
Variable imgNameFromSvcName : gmap string string.
Variable sortArrayOfObjects : list Image -> list Image.

Local Abbreviation getCandidateImages :=
  (getCandidateImages insts imgapi updates listImages imgNameFromSvcName
                      sortArrayOfObjects).
Local Abbreviation resolveImages :=
  (resolveImages insts imgapi updates listImages imgNameFromSvcName
                 sortArrayOfObjects).
Local Abbreviation resolveChange :=
  (resolveChange svcs servers insts imgapi updates listImages imgNameFromSvcName
                 sortArrayOfObjects).
Local Abbreviation forEachParallel :=
  (forEachParallel svcs servers insts imgapi updates listImages imgNameFromSvcName
                   sortArrayOfObjects).

(** [svcFromName] holds services of the list, under their names, and
    nothing under another name. *)
Lemma svcFromName_fold (name : string) :
  forall (l : list Service) (m : gmap string Service),
    (forall svc, fold_left (fun m svc => <[svc_name svc := svc]> m) l m !! name = Some svc ->
       m !! name = Some svc \/ (In svc l /\ svc_name svc = name))
    /\ (fold_left (fun m svc => <[svc_name svc := svc]> m) l m !! name = None ->
        m !! name = None /\ Forall (fun svc => svc_name svc <> name) l).
Proof.
  induction l as [|x l IH]; intros m; simpl.
  - split; [intros svc H; left; exact H | intros H; split; [exact H | constructor]].
  - destruct (IH (<[svc_name x := x]> m)) as [IH1 IH2]. split.
    + intros svc H. destruct (IH1 svc H) as [Hm | [Hin Hn]].
      * destruct (decide (svc_name x = name)) as [E|N].
        -- rewrite <- E, lookup_insert_eq in Hm. injection Hm as <-.
           right. split; [left; reflexivity | exact E].
        -- rewrite lookup_insert_ne in Hm by exact N. left. exact Hm.
      * right. split; [right; exact Hin | exact Hn].
    + intros H. destruct (IH2 H) as [Hm Hall].
      destruct (decide (svc_name x = name)) as [E|N].
      * rewrite <- E, lookup_insert_eq in Hm. discriminate.
      * rewrite lookup_insert_ne in Hm by exact N.
        split; [exact Hm | constructor; [exact N | exact Hall]].
Qed.

Lemma svcFromName_lookup name svc :
  svcFromName svcs !! name = Some svc -> In svc svcs /\ svc_name svc = name.
Proof.
  intros H. destruct (proj1 (svcFromName_fold name svcs ∅) svc H) as [Hm|Hin].
  - rewrite lookup_empty in Hm. discriminate.
  - exact Hin.
Qed.

Lemma svcFromName_None name :
  svcFromName svcs !! name = None -> Forall (fun svc => svc_name svc <> name) svcs.
Proof. intros H. exact (proj2 (proj2 (svcFromName_fold name svcs ∅) H)). Qed.

(** What a name is looked up as: a service of that name, or a member the
    object inherits when no service has the name. *)
Definition lookedUp (name : string) (service : serviceRef) : Prop :=
  (exists svc, service = Svc svc /\ In svc svcs /\ svc_name svc = name)
  \/ (service = Member name /\ In name prototypeMembers
      /\ Forall (fun svc => svc_name svc <> name) svcs).

Lemma readSvcFromName_Some name service :
  readSvcFromName svcs name = Some service -> lookedUp name service.
Proof.
  unfold readSvcFromName, lookedUp.
  destruct (svcFromName svcs !! name) as [svc|] eqn:E.
  - intros [= <-]. left. exists svc. split; [reflexivity|].
    exact (svcFromName_lookup _ _ E).
  - destruct (existsb (String.eqb name) prototypeMembers) eqn:Hex; [|discriminate].
    intros [= <-]. right. split; [reflexivity|]. split.
    + apply existsb_exists in Hex as (x & Hin & Hx). apply String.eqb_eq in Hx.
      subst. exact Hin.
    + exact (svcFromName_None _ E).
Qed.

(** A validated change names no uuid and no alias. *)
Lemma shape_resolveInstance (c : raw) repr :
  shape c -> resolveInstance insts c repr = Ret None.
Proof.
  intros H. apply shape_keys in H. unfold resolveInstance.
  rewrite (keysWithin_absent _ _ "uuid" H) by (simpl; intuition discriminate).
  rewrite (keysWithin_absent _ _ "alias" H) by (simpl; intuition discriminate).
  reflexivity.
Qed.

Lemma resolveService_cases (c : raw) repr :
  shape c ->
  (truthyValue (field "service" c) = false
   /\ resolveService svcs c repr = Ret None)
  \/ (exists name, holds "service" c name /\ name <> ""
      /\ ((exists service, lookedUp name service
                           /\ resolveService svcs c repr = Ret (Some service))
          \/ exists e, resolveService svcs c repr = Raise e)).
Proof.
  intros H. unfold resolveService.
  destruct (shape_service _ H) as [Hn | [name Hs]].
  - left. rewrite Hn. split; reflexivity.
  - pose proof Hs as Hs'. unfold holds in Hs'. rewrite Hs'.
    destruct (truthyValue (Some (JStr name))) eqn:Ht.
    + right. exists name. split; [exact Hs|]. split.
      * apply (truthy_holds _ _ _ Hs). rewrite Hs'. exact Ht.
      * simpl. destruct (readSvcFromName svcs name) as [service|] eqn:E; [|eauto].
        left. exists service. split; [|reflexivity].
        exact (readSvcFromName_Some _ _ E).
    + left. split; reflexivity.
Qed.

Lemma checkServer_cases (c : raw) repr :
  shape c ->
  (checkServer servers c repr = Ret tt
   /\ forall s, holds "server" c s -> s <> "" ->
        exists srv, In srv servers /\ (srv_uuid srv = s \/ srv_hostname srv = s))
  \/ exists e, checkServer servers c repr = Raise e.
Proof.
  intros H. unfold checkServer.
  destruct (shape_server _ H) as [Hn | [s Hs]].
  - left. rewrite Hn. split; [reflexivity|].
    intros s Hs. unfold holds in Hs. congruence.
  - pose proof Hs as Hs'. unfold holds in Hs'. rewrite Hs'.
    destruct (truthyValue (Some (JStr s))) eqn:Ht.
    + destruct (existsb _ servers) eqn:Hex; [|right; eauto].
      left. split; [reflexivity|]. intros s' Hs'' _.
      unfold holds in Hs''. rewrite Hs' in Hs''. injection Hs'' as <-.
      apply existsb_exists in Hex as (srv & Hin & Hor).
      exists srv. split; [exact Hin|].
      apply orb_true_iff in Hor as [Hu|Hu]; simpl in Hu;
        [left | right]; symmetry; apply String.eqb_eq; exact Hu.
    + left. split; [reflexivity|]. intros s' Hs'' Hne.
      unfold holds in Hs''. rewrite Hs' in Hs''. injection Hs'' as <-.
      simpl in Ht. unfold truthy in Ht. apply negb_false_iff in Ht.
      apply String.eqb_eq in Ht. contradiction.
Qed.

(** getCandidateImages throws only at its start. *)
Lemma currImgUuids_throws service exn :
  currImgUuids insts service = Throws exn -> In exn candidateExceptions.
Proof.
  unfold currImgUuids, candidateExceptions. destruct service as [svc|name].
  - destruct (keysOf _) as [|u used]; [|discriminate].
    destruct (svc_image_uuid svc) as [u|]; [destruct (truthy u)|];
      [discriminate | |]; intros [= <-].
    + right. left. reflexivity.
    + left. reflexivity.
  - destruct (String.eqb name "__proto__"); intros [= <-].
    + left. reflexivity.
    + right. right. left. reflexivity.
Qed.

Lemma getCandidateImages_throws service exn :
  getCandidateImages service = Throws exn -> In exn candidateExceptions.
Proof.
  unfold Normalize.getCandidateImages.
  destruct (currImgUuids insts service) as [uuids|e|x] eqn:E; cbn [bind].
  - destruct (getImgs imgapi updates uuids) as [[|e errs] imgs]; [|discriminate].
    unfold getCandidates. destruct (listImages _ _); [|discriminate].
    destruct (head _); discriminate.
  - discriminate.
  - intros [= <-]. exact (currImgUuids_throws _ _ E).
Qed.

(** A member that the object inherits is never taken for the service of
    getCandidateImages: it throws. *)
Lemma getCandidateImages_member name :
  exists exn, getCandidateImages (Member name) = Throws exn.
Proof.
  unfold Normalize.getCandidateImages, currImgUuids.
  destruct (String.eqb name "__proto__"); simpl; eauto.
Qed.

(** The images of a change that went through resolveChange. *)
Definition imagesOf (c : raw) (n : Normalized) : Prop :=
  if truthyValue (field "image" c) then
    exists uuid img,
      holds "image" c uuid
      /\ getImage imgapi updates uuid = Found img
      /\ n_images n = [img]
      /\ n_fields n = remove "image" c
  else
    getCandidateImages (n_service n) = Ret (n_images n)
    /\ n_fields n = c.

Lemma resolveImages_cases (c : raw) repr service inst :
  imageOk c ->
  (exists n, resolveImages c repr service inst = Ret n
             /\ n_service n = service /\ n_instance n = inst /\ imagesOf c n)
  \/ (exists e, resolveImages c repr service inst = Raise e)
  \/ (exists exn, resolveImages c repr service inst = Throws exn
                  /\ In exn candidateExceptions
                  /\ truthyValue (field "image" c) = false).
Proof.
  intros Hi. unfold Normalize.resolveImages, imagesOf.
  destruct (truthyValue (field "image" c)) eqn:Ht.
  - specialize (Hi Ht). destruct (field "image" c) as [[| | |uuid| |]|] eqn:E;
      try discriminate.
    destruct (getImage imgapi updates uuid) as [img|cause] eqn:Eg; [|right; left; eauto].
    left. eexists. split; [reflexivity|]. simpl. repeat split.
    exists uuid, img. repeat split; [exact E | exact Eg].
  - destruct (getCandidateImages service) as [imgs|err|exn] eqn:Ec.
    + left. eexists. split; [reflexivity|]. simpl. repeat split. exact Ec.
    + right. left. eauto.
    + right. right. exists exn. split; [reflexivity|]. split; [|reflexivity].
      exact (getCandidateImages_throws _ _ Ec).
Qed.

(** What resolveChange makes of a validated change. *)
Definition resolved (c : raw) (n : Normalized) : Prop :=
  (exists name, holds "service" c name /\ name <> ""
                /\ lookedUp name (n_service n)
                /\ (forall member, n_service n = Member member ->
                      truthyValue (field "image" c) = true))
  /\ n_instance n = None
  /\ (forall s, holds "server" c s -> s <> "" ->
        exists srv, In srv servers /\ (srv_uuid srv = s \/ srv_hostname srv = s))
  /\ imagesOf c n.

Lemma resolveChange_cases (c : raw) :
  shape c -> imageOk c ->
  (truthyValue (field "service" c) = false
   /\ resolveChange c = Throws "Error: TODO")
  \/ (truthyValue (field "service" c) = true
      /\ ((exists n, resolveChange c = Ret n /\ resolved c n)
          \/ (exists e, resolveChange c = Raise e)
          \/ (exists exn, resolveChange c = Throws exn
                          /\ In exn candidateExceptions
                          /\ truthyValue (field "image" c) = false))).
Proof.
  intros Hs Hi. unfold Normalize.resolveChange.
  set (repr := stringify (JObj c)).
  destruct (resolveService_cases c repr Hs)
    as [[Hf ->] | (name & Hn & Hne & [(service & Hlook & ->) | [e ->]])]; simpl.
  - left. rewrite (shape_resolveInstance c repr Hs). simpl. split; [exact Hf | reflexivity].
  - right. split; [apply (truthy_holds _ _ _ Hn); exact Hne|].
    rewrite (shape_resolveInstance c repr Hs). simpl.
    destruct (checkServer_cases c repr Hs) as [[-> Hsrv] | [e ->]]; simpl;
      [|right; left; eauto].
    destruct (resolveImages_cases c repr service None Hi)
      as [(n & -> & Hsvc & Hinst & Himg) | [[e ->] | (exn & -> & Hin & Hni)]].
    + left. exists n. split; [reflexivity|].
      split; [|auto]. exists name. rewrite Hsvc. repeat split; try assumption.
      intros member ->. unfold imagesOf in Himg.
      destruct (truthyValue (field "image" c)); [reflexivity|].
      destruct Himg as [Hc _]. rewrite Hsvc in Hc.
      destruct (getCandidateImages_member member) as [exn E]. congruence.
    + right. left. eauto.
    + right. right. eauto.
  - right. split; [apply (truthy_holds _ _ _ Hn); exact Hne|].
    right. left. eauto.
Qed.

Lemma forEachParallel_throws (cs : list raw) :
  Forall (fun c => shape c /\ imageOk c) cs ->
  (Exists (fun c => truthyValue (field "service" c) = false) cs ->
   exists exn, forEachParallel cs = Throws exn)
  /\ (Forall (fun c => truthyValue (field "service" c) = false
                       \/ truthyValue (field "image" c) = true) cs ->
      Exists (fun c => truthyValue (field "service" c) = false) cs ->
      forEachParallel cs = Throws "Error: TODO")
  /\ (forall exn, forEachParallel cs = Throws exn ->
        (exn = "Error: TODO"
         /\ Exists (fun c => truthyValue (field "service" c) = false) cs)
        \/ (In exn candidateExceptions
            /\ Exists (fun c => truthyValue (field "service" c) = true
                                /\ truthyValue (field "image" c) = false) cs)).
Proof.
  induction 1 as [|c cs [Hs Hi] _ (IH1 & IH2 & IH3)].
  - split; [intros H; inversion H|]. split; [intros _ H; inversion H | discriminate].
  - simpl. destruct (resolveChange_cases c Hs Hi)
      as [[Hf ->] | (Ht & [(n & -> & _) | [[e ->] | (exn & -> & Hin & Hni)]])].
    + split; [eauto|]. split; [reflexivity|].
      intros exn [= <-]. left. split; [reflexivity | left; exact Hf].
    + split; [|split].
      * intros Hex. inversion Hex as [? ? Hc|? ? Hc]; subst; [congruence|].
        destruct (IH1 Hc) as [exn ->]. eauto.
      * intros Hall Hex. inversion Hall as [|? ? _ Hall']; subst.
        inversion Hex as [? ? Hc|? ? Hc]; subst; [congruence|].
        rewrite (IH2 Hall' Hc). reflexivity.
      * intros exn Hthrow.
        destruct (Normalize.forEachParallel _ _ _ _ _ _ _ _ cs) eqn:E; try discriminate.
        injection Hthrow as ->.
        destruct (IH3 _ eq_refl) as [[-> Hex] | [Hin Hex]];
          [left | right]; (split; [assumption || reflexivity | right; exact Hex]).
    + split; [|split].
      * intros Hex. inversion Hex as [? ? Hc|? ? Hc]; subst; [congruence|].
        destruct (IH1 Hc) as [exn ->]. eauto.
      * intros Hall Hex. inversion Hall as [|? ? _ Hall']; subst.
        inversion Hex as [? ? Hc|? ? Hc]; subst; [congruence|].
        rewrite (IH2 Hall' Hc). reflexivity.
      * intros exn Hthrow.
        destruct (Normalize.forEachParallel _ _ _ _ _ _ _ _ cs) eqn:E; try discriminate.
        injection Hthrow as ->.
        destruct (IH3 _ eq_refl) as [[-> Hex] | [Hin Hex]];
          [left | right]; (split; [assumption || reflexivity | right; exact Hex]).
    + split; [eauto|]. split.
      * intros Hall _. inversion Hall as [|? ? [Hc|Hc] _]; subst; congruence.
      * intros exn' [= <-]. right. split; [exact Hin|]. left. split; assumption.
Qed.

Lemma forEachParallel_Ret (cs : list raw) (ns : list Normalized) :
  Forall (fun c => shape c /\ imageOk c) cs ->
  forEachParallel cs = Ret ns ->
  Forall2 resolved cs ns.
Proof.
  intros Hall. revert ns. induction Hall as [|c cs [Hs Hi] _ IH]; intros ns.
  - intros [= <-]. constructor.
  - simpl. destruct (resolveChange_cases c Hs Hi)
      as [[Hf ->] | (Ht & [(n & -> & Hn) | [[e ->] | (exn & -> & _)]])];
      [discriminate | | | discriminate].
    + destruct (Normalize.forEachParallel _ _ _ _ _ _ _ _ cs) eqn:E; try discriminate.
      intros [= <-]. constructor; [exact Hn | apply IH; reflexivity].
    + destruct (Normalize.forEachParallel _ _ _ _ _ _ _ _ cs); discriminate.
Qed.

End Resolved.


(** The keys other than the type are the same before and after
    validateChanges. *)
Lemma validated_Forall (cs cs' : list raw) :
  validateChanges cs = Ret cs' ->
  Forall (fun c => shape c /\ imageOk c) cs'
  /\ Forall2 (fun c c' => forall k, k <> "type" -> field k c' = field k c) cs cs'.
Proof.
  intros H. apply validated_shapes in H.
  induction H as [|c c' cs cs' (Hs & Hi & Hor) _ [IH1 IH2]].
  - split; constructor.
  - split; constructor; auto.
    intros k Hk. destruct Hor as [->|[_ [t ->]]]; [reflexivity|].
    apply field_assign_other. congruence.
Qed.

Lemma Exists_same_fields (P : option json -> option json -> Prop) (cs cs' : list raw) :
  Forall2 (fun c c' => forall k, k <> "type" -> field k c' = field k c) cs cs' ->
  Exists (fun c => P (field "service" c) (field "image" c)) cs
  <-> Exists (fun c => P (field "service" c) (field "image" c)) cs'.
Proof.
  induction 1 as [|c c' cs cs' Hc _ IH].
  - split; intros H; inversion H.
  - assert (Hs : field "service" c' = field "service" c) by (apply Hc; discriminate).
    assert (Hi : field "image" c' = field "image" c) by (apply Hc; discriminate).
    split; intros H; inversion H as [? ? Hx|? ? Hx]; subst.
    + left. rewrite Hs, Hi. exact Hx.
    + right. apply IH. exact Hx.
    + left. rewrite <- Hs, <- Hi. exact Hx.
    + right. apply IH. exact Hx.
Qed.

Lemma Forall_same_fields (P : option json -> option json -> Prop) (cs cs' : list raw) :
  Forall2 (fun c c' => forall k, k <> "type" -> field k c' = field k c) cs cs' ->
  Forall (fun c => P (field "service" c) (field "image" c)) cs ->
  Forall (fun c => P (field "service" c) (field "image" c)) cs'.
Proof.
  induction 1 as [|c c' cs cs' Hc _ IH]; intros H; [constructor|].
  inversion H as [|? ? Hx Hrest]; subst. constructor; [|exact (IH Hrest)].
  rewrite (Hc "service"), (Hc "image") by discriminate. exact Hx.
Qed.

(** X27: Changes that name no service are not implemented.  Of a request
    that passed validateChanges and holds a change without a service (it
    names an instance only, or an empty service), normalizeChanges never
    calls back: it throws.  It throws [Error('TODO')] when every change
    that names a service names its image too; otherwise getCandidateImages
    may throw first.  And after validateChanges it throws nothing but
    [Error('TODO')], for a change without a service, or one of the
    exceptions of getCandidateImages, for a change that names a service
    and no image. *)
Theorem changes_without_a_service_are_not_implemented
    (svcs : list Service) (servers : list Server) (insts : list Instance)
    (imgapi updates : string -> lookup)
    (listImages : option string -> option string -> listing)
    (imgNameFromSvcName : gmap string string)
    (sortArrayOfObjects : list Image -> list Image)
    (cs cs' : list raw) :
  validateChanges cs = Ret cs' ->
  (Exists (fun c => truthyValue (field "service" c) = false) cs ->
   exists exn,
     normalizeChanges svcs servers insts imgapi updates listImages
                      imgNameFromSvcName sortArrayOfObjects cs'
     = Throws exn)
  /\ (Forall (fun c => truthyValue (field "service" c) = false
                       \/ truthyValue (field "image" c) = true) cs ->
      Exists (fun c => truthyValue (field "service" c) = false) cs ->
      normalizeChanges svcs servers insts imgapi updates listImages
                       imgNameFromSvcName sortArrayOfObjects cs'
      = Throws "Error: TODO")
  /\ (forall exn,
        normalizeChanges svcs servers insts imgapi updates listImages
                         imgNameFromSvcName sortArrayOfObjects cs'
        = Throws exn ->
        (exn = "Error: TODO"
         /\ Exists (fun c => truthyValue (field "service" c) = false) cs)
        \/ (In exn candidateExceptions
            /\ Exists (fun c => truthyValue (field "service" c) = true
                                /\ truthyValue (field "image" c) = false) cs)).
Proof.
  intros Hv. destruct (validated_Forall _ _ Hv) as [Hall Hsame].
  destruct (forEachParallel_throws svcs servers insts imgapi updates listImages
              imgNameFromSvcName sortArrayOfObjects cs' Hall) as (H1 & H2 & H3).
  pose proof (Exists_same_fields (fun s _ => truthyValue s = false) cs cs' Hsame) as Hno.
  pose proof (Exists_same_fields
                (fun s i => truthyValue s = true /\ truthyValue i = false)
                cs cs' Hsame) as Hcand.
  unfold normalizeChanges. split; [|split].
  - intros Hex. apply H1. apply Hno. exact Hex.
  - intros Hforall Hex. apply H2; [|apply Hno; exact Hex].
    exact (Forall_same_fields
             (fun s i => truthyValue s = false \/ truthyValue i = true)
             cs cs' Hsame Hforall).
  - intros exn Hthrow. destruct (H3 _ Hthrow) as [[-> Hex] | [Hin Hex]].
    + left. split; [reflexivity | apply Hno; exact Hex].
    + right. split; [exact Hin | apply Hcand; exact Hex].
Qed.

Lemma changes_without_a_service_are_not_implemented_witness :
  let svcs := [mkService "vmapi" "vm" (Some "7a1c"); mkService "assets" "vm" None] in
  let img := mkImage "9b2e" "vmapi" "master-20141030" "2014-10-30" in
  let imgapi := fun u : string => if String.eqb u "9b2e" then Found img
                                  else Failed (Some "ResourceNotFound") in
  let updates := fun _ : string => Failed None in
  let listImages := fun (_ _ : option string) => Listed [] in
  normalizeChanges svcs [] [] imgapi updates listImages ∅ (fun l => l)
    [[("service", JStr "vmapi"); ("image", JStr "9b2e"); ("type", JStr "update-service")];
     [("instance", JStr "0f2d"); ("type", JStr "update-instance")]]
  = Throws "Error: TODO"
  /\ exists exn,
       normalizeChanges svcs [] [] imgapi updates listImages ∅ (fun l => l)
         [[("service", JStr "assets"); ("type", JStr "update-service")];
          [("instance", JStr "0f2d"); ("type", JStr "update-instance")]]
       = Throws exn.
Proof.
  intros svcs img imgapi updates listImages. split.
  - apply (proj1 (proj2 (changes_without_a_service_are_not_implemented
                           svcs [] [] imgapi updates listImages ∅ (fun l => l)
                           [[("service", JStr "vmapi"); ("image", JStr "9b2e")];
                            [("instance", JStr "0f2d")]]
                           _ eq_refl))).
    + constructor; [right; reflexivity|]. constructor; [left; reflexivity|constructor].
    + right. left. reflexivity.
  - apply (proj1 (changes_without_a_service_are_not_implemented
                    svcs [] [] imgapi updates listImages ∅ (fun l => l)
                    [[("service", JStr "assets")]; [("instance", JStr "0f2d")]]
                    _ eq_refl)).
    right. left. reflexivity.
Defined.

(** X28: Each change of a request that passed validateChanges and
    normalizeChanges names a service by a name that is not empty, and what
    normalizeChanges took for the service is a service of the list with
    that name or, the list having none and the change naming its image, the
    member of that name that [svcFromName] inherits from
    [Object.prototype].  A server the change names is known by uuid or by
    hostname; no instance is looked up.  The candidates of a change that
    names an image are that image alone, as the local IMGAPI or else the
    updates server has it, and [image] is deleted; those of another change
    are what getCandidateImages answers for the service. *)
Theorem normalized_changes_name_known_services
    (svcs : list Service) (servers : list Server) (insts : list Instance)
    (imgapi updates : string -> lookup)
    (listImages : option string -> option string -> listing)
    (imgNameFromSvcName : gmap string string)
    (sortArrayOfObjects : list Image -> list Image)
    (cs cs' : list raw) (ns : list Normalized) :
  validateChanges cs = Ret cs' ->
  normalizeChanges svcs servers insts imgapi updates listImages
                   imgNameFromSvcName sortArrayOfObjects cs' = Ret ns ->
  Forall2 (resolved svcs servers insts imgapi updates listImages
                    imgNameFromSvcName sortArrayOfObjects) cs' ns.
Proof.
  intros Hv Hn. destruct (validated_Forall _ _ Hv) as [Hall _].
  exact (forEachParallel_Ret svcs servers insts imgapi updates listImages
           imgNameFromSvcName sortArrayOfObjects cs' ns Hall Hn).
Qed.

Lemma normalized_changes_name_known_services_witness :
  let vmapi := mkService "vmapi" "vm" (Some "7a1c") in
  let current := mkImage "7a1c" "vmapi" "master-20140930" "2014-09-30" in
  let img := mkImage "9b2e" "vmapi" "master-20141030" "2014-10-30" in
  let imgapi := fun u : string => if String.eqb u "7a1c" then Found current
                                  else Failed (Some "ResourceNotFound") in
  let updates := fun u : string => if String.eqb u "9b2e" then Found img else Failed None in
  let listImages := fun (_ _ : option string) => Listed [img] in
  let named := [("service", JStr "constructor"); ("image", JStr "9b2e");
                ("type", JStr "update-service")] in
  let plain := [("service", JStr "vmapi"); ("type", JStr "update-service")] in
  Forall2 (resolved [vmapi] [] [] imgapi updates listImages ∅ (fun l => l))
          [named; plain]
          [mkNormalized [("service", JStr "constructor"); ("type", JStr "update-service")]
                        (Member "constructor") None [img];
           mkNormalized plain (Svc vmapi) None [current; img]].
Proof.
  intros vmapi current img imgapi updates listImages named plain.
  apply (normalized_changes_name_known_services
           [vmapi] [] [] imgapi updates listImages ∅ (fun l => l)
           [[("service", JStr "constructor"); ("image", JStr "9b2e")];
            [("service", JStr "vmapi")]] [named; plain]);
    reflexivity.
Defined.

End NormalizeFacts.

Module ServicesFacts.

Import Js Services Normalize.

Definition named (name : string) (svc : Service) : bool :=
  String.eqb (svc_name svc) name.

(** [svcFromName] keeps, for each name, the last service of that name. *)
Lemma svcFromName_last (svcs : list Service) (name : string) :
  svcFromName svcs !! name = last (List.filter (named name) svcs).
Proof.
  unfold svcFromName.
  assert (H : forall (l : list Service) (m : gmap string Service),
             fold_left (fun m svc => <[svc_name svc := svc]> m) l m !! name
             = match last (List.filter (named name) l) with
               | Some s => Some s
               | None => m !! name
               end).
  { induction l as [|x l IH]; intros m; simpl; [reflexivity|].
    rewrite IH. unfold named at 2. destruct (String.eqb (svc_name x) name) eqn:E.
    - apply String.eqb_eq in E.
      destruct (List.filter (named name) l) as [|y l'] eqn:El; simpl.
      + rewrite <- E. apply lookup_insert_eq.
      + change (last (x :: y :: l')) with (last (y :: l')).
        destruct (last (y :: l')) eqn:Ely; [reflexivity|].
        apply last_None in Ely. discriminate.
    - apply String.eqb_neq in E.
      destruct (last (List.filter (named name) l)); [reflexivity|].
      apply lookup_insert_ne. exact E. }
  rewrite H. destruct (last _); [reflexivity | apply lookup_empty].
Qed.

Lemma filter_app_list {A} (P : A -> bool) (l1 l2 : list A) :
  List.filter P (l1 ++ l2) = List.filter P l1 ++ List.filter P l2.
Proof. apply List.filter_app. Qed.

Lemma getServices_Ret listApplications listServices svcs :
  getServices listApplications listServices = Ret svcs ->
  exists vms,
    svcs = vms ++ map (fun name => mkService name "agent" None) knownAgents
    /\ Forall (fun svc => svc_type svc = "vm") vms
    /\ Exists (fun svc => svc_name svc = "assets") vms.
Proof.
  unfold getServices, getSdcApp.
  destruct listApplications as [code|apps]; simpl; [discriminate|].
  unfold getSapiSvcs. destruct (head apps) as [uuid|]; simpl; [|discriminate].
  destruct (listServices uuid) as [code|svcs_]; simpl; [discriminate|].
  intros [= <-]. unfold getAgents. eexists. split; [reflexivity|].
  assert (Hvm : Forall (fun svc => svc_type svc = "vm")
                       (map (fun svc => set_type svc "vm") svcs_)).
  { apply List.Forall_forall. intros svc Hin. apply List.in_map_iff in Hin as (x & <- & _).
    reflexivity. }
  destruct (existsb _ _) eqn:Hex.
  - split; [exact Hvm|]. apply existsb_exists in Hex as (svc & Hin & Hn).
    apply List.Exists_exists. exists svc. split; [exact Hin|].
    apply String.eqb_eq. exact Hn.
  - split.
    + apply Forall_app. split; [exact Hvm|]. constructor; [reflexivity | constructor].
    + apply List.Exists_exists. exists (mkService "assets" "vm" None).
      split; [apply List.in_or_app; right; left; reflexivity | reflexivity].
Qed.

(** X29: The services getServices answers with always hold 'assets', as a vm
    service, and the hard-coded agents, as agents: looked up by name as
    genUpdatePlan does, 'assets' is a service of type 'vm' and each known
    agent is the hard-coded agent service, whatever SAPI lists under
    these names; and every service is of type 'vm' or 'agent'. *)
Theorem assets_and_agents_are_always_known
    (listApplications : sapi_reply string)
    (listServices : string -> sapi_reply Service) (svcs : list Service) :
  getServices listApplications listServices = Ret svcs ->
  (exists svc, svcFromName svcs !! "assets" = Some svc
               /\ svc_name svc = "assets" /\ svc_type svc = "vm")
  /\ (forall name, In name knownAgents ->
        svcFromName svcs !! name = Some (mkService name "agent" None))
  /\ Forall (fun svc => svc_type svc = "vm" \/ svc_type svc = "agent") svcs.
Proof.
  intros H. apply getServices_Ret in H as (vms & -> & Hvm & Hassets).
  split; [|split].
  - rewrite svcFromName_last, filter_app_list.
    replace (List.filter (named "assets")
               (map (fun name => mkService name "agent" None) knownAgents))
      with (@nil Service) by reflexivity.
    rewrite app_nil_r.
    destruct (last (List.filter (named "assets") vms)) as [svc|] eqn:E.
    + exists svc. split; [reflexivity|].
      assert (Hin : In svc (List.filter (named "assets") vms)).
      { apply list_elem_of_In. apply last_Some_elem_of. exact E. }
      apply List.filter_In in Hin as [Hin Hn]. split.
      * apply String.eqb_eq. exact Hn.
      * exact (proj1 (List.Forall_forall _ _) Hvm svc Hin).
    + exfalso. apply last_None in E.
      apply List.Exists_exists in Hassets as (svc & Hin & Hn).
      assert (Hf : In svc (List.filter (named "assets") vms)).
      { apply List.filter_In. split; [exact Hin|]. apply String.eqb_eq. exact Hn. }
      rewrite E in Hf. destruct Hf.
  - intros name Hin. rewrite svcFromName_last, filter_app_list.
    assert (Hlast : List.filter (named name)
                      (map (fun name => mkService name "agent" None) knownAgents)
                    = [mkService name "agent" None]).
    { simpl in Hin.
      repeat (destruct Hin as [<-|Hin]; [reflexivity|]). destruct Hin. }
    rewrite Hlast. apply last_snoc.
  - apply Forall_app. split.
    + eapply List.Forall_impl; [|exact Hvm]. intros svc Hs. left. exact Hs.
    + apply List.Forall_forall. intros svc Hin.
      apply List.in_map_iff in Hin as (name & <- & _). right. reflexivity.
Qed.

Lemma assets_and_agents_are_always_known_witness :
  let svcs := [mkService "vmapi" "vm" (Some "7a1c")]
              ++ [mkService "assets" "vm" None]
              ++ map (fun name => mkService name "agent" None) knownAgents in
  (exists svc, svcFromName svcs !! "assets" = Some svc
               /\ svc_name svc = "assets" /\ svc_type svc = "vm")
  /\ (forall name, In name knownAgents ->
        svcFromName svcs !! name = Some (mkService name "agent" None))
  /\ Forall (fun svc => svc_type svc = "vm" \/ svc_type svc = "agent") svcs.
Proof.
  intros svcs.
  apply (assets_and_agents_are_always_known
           (SapiList ["0d5c"])
           (fun _ => SapiList [mkService "vmapi" "core" (Some "7a1c")]) svcs).
  reflexivity.
Defined.

End ServicesFacts.
